(** * Nex-t1 Heavy coordination engine: shallow embedding and properties

    The development follows the four services of the coordination core:
    - [TaskDispatcher]  (src/core/tasks/task-dispatcher.service.ts)
    - [MessageBus]      (src/core/communication/message-bus.service.ts)
    - [StateManager]    (state-manager.service.ts)
    - [Orchestrator]    (orchestrator.service.ts), with the agents it
                        drives (src/core/agents/base-agent.ts)
    and the phase endpoint of [SystemController] that calls two of them.

    JavaScript [Map]s are insertion-ordered association lists with unique
    keys, objects that are shared and mutated live in an explicit heap, and
    [async] methods are run to completion (one call at a time). *)

From Stdlib Require Import ZArith Lia Ascii String List Bool Sorted.
From Stdlib Require QArith Qround.
From stdpp Require Import base option list gmap strings pretty.

Open Scope string_scope.
Open Scope list_scope.

(** ** Shared interface types (agent.interface.ts, orchestrator.interface.ts) *)

Inductive AgentPersona :=
  | tech_lead | product_engineer | qa_engineer
  | devops_specialist | doc_specialist | code_reviewer.

Inductive Priority := LOW | MEDIUM | HIGH | CRITICAL.

Inductive MessageType := TASK | QUERY | RESPONSE | CRITIQUE.

Inductive AgentState :=
  | idle | working | blocked | reviewing | completed | paused.

Inductive DevelopmentPhase :=
  | planning | scaffold | feature | test | review | deploy.

Inductive TaskStatus :=
  | st_pending | st_in_progress | st_blocked | st_review | st_completed.

#[global] Instance AgentPersona_eq_dec : EqDecision AgentPersona.
Proof. solve_decision. Defined.
#[global] Instance Priority_eq_dec : EqDecision Priority.
Proof. solve_decision. Defined.
#[global] Instance AgentState_eq_dec : EqDecision AgentState.
Proof. solve_decision. Defined.
#[global] Instance DevelopmentPhase_eq_dec : EqDecision DevelopmentPhase.
Proof. solve_decision. Defined.

(** The string each persona literal stands for. *)
Definition persona_name (p : AgentPersona) : string :=
  match p with
  | tech_lead => "tech_lead"
  | product_engineer => "product_engineer"
  | qa_engineer => "qa_engineer"
  | devops_specialist => "devops_specialist"
  | doc_specialist => "doc_specialist"
  | code_reviewer => "code_reviewer"
  end.

Definition phase_name (p : DevelopmentPhase) : string :=
  match p with
  | planning => "planning" | scaffold => "scaffold" | feature => "feature"
  | test => "test" | review => "review" | deploy => "deploy"
  end.

(** The roster, in the order every service lists it. *)
Definition personas : list AgentPersona :=
  [tech_lead; product_engineer; qa_engineer;
   devops_specialist; doc_specialist; code_reviewer].

Record Task := mkTask {
  task_id : string;
  title : string;
  description : string;
  assignedTo : AgentPersona;
  status : TaskStatus;
  priority : Priority;
  createdAt : Z;
  updatedAt : Z;
}.

(** ** JavaScript [Map]: insertion-ordered, unique keys *)

Section JsMap.
Context {K V : Type} `{EqDecision K}.

Fixpoint map_get (k : K) (m : list (K * V)) : option V :=
  match m with
  | [] => None
  | (k', v) :: m' => if decide (k = k') then Some v else map_get k m'
  end.

(** [Map.prototype.set]: an existing key keeps its position. *)
Fixpoint map_set (k : K) (v : V) (m : list (K * V)) : list (K * V) :=
  match m with
  | [] => [(k, v)]
  | (k', v') :: m' =>
      if decide (k = k') then (k, v) :: m' else (k', v') :: map_set k v m'
  end.

Fixpoint map_delete (k : K) (m : list (K * V)) : list (K * V) :=
  match m with
  | [] => []
  | (k', v') :: m' =>
      if decide (k = k') then map_delete k m' else (k', v') :: map_delete k m'
  end.

(** [new Map(entries)] *)
Definition map_of_entries (es : list (K * V)) : list (K * V) :=
  fold_left (fun m e => map_set (fst e) (snd e) m) es [].
End JsMap.

(** ** Task dispatcher *)

Module TaskDispatcher.

Record TaskPriority := { weight : Z; maxWaitTime : Z }.

Definition priorityWeights (p : Priority) : TaskPriority :=
  match p with
  | CRITICAL => {| weight := 1000; maxWaitTime := 60000 |}
  | HIGH => {| weight := 100; maxWaitTime := 300000 |}
  | MEDIUM => {| weight := 10; maxWaitTime := 900000 |}
  | LOW => {| weight := 1; maxWaitTime := 3600000 |}
  end.

Record TaskQueueConfig :=
  { concurrency : nat; maxRetries : Z; retryDelay : Z; timeout : Z }.

Definition queueConfig : TaskQueueConfig :=
  {| concurrency := 3; maxRetries := 3; retryDelay := 5000;
     timeout := 600000 |}.

(** The options [dispatchTask] hands to [queue.add]. *)
Record JobOptions := {
  opt_priority : Z;
  opt_attempts : Z;
  opt_backoff_delay : Z;
}.

Record Job := {
  job_id : nat;
  job_name : AgentPersona;
  job_data : Task;
  job_opts : JobOptions;
}.

(** *** The BullMQ queue the service delegates to

    `bullmq` is a third-party package; the service only calls
    [queue.add] and lets a [Worker] consume.  Its documented contract
    for the [priority] option is modelled here: priorities range from 1
    to 2 097 152 and a LOWER number is served FIRST; jobs of equal
    priority are served in the order they were added.  Job ids are the
    queue's own counter. *)
Record Queue := {
  waiting : list Job;      (* in insertion order *)
  nextJobId : nat;
}.

Definition emptyQueue : Queue := {| waiting := []; nextJobId := 1 |}.

Definition queue_add (name : AgentPersona) (data : Task) (opts : JobOptions)
    (q : Queue) : Job * Queue :=
  let job := {| job_id := nextJobId q; job_name := name;
                job_data := data; job_opts := opts |} in
  (job, {| waiting := waiting q ++ [job]; nextJobId := S (nextJobId q) |}).

(** The job a worker takes next: the first one, in insertion order,
    whose priority number is minimal. *)
Fixpoint pickNext (js : list Job) : option (Job * list Job) :=
  match js with
  | [] => None
  | j :: rest =>
      match pickNext rest with
      | None => Some (j, [])
      | Some (j', rest') =>
          if (opt_priority (job_opts j) <=? opt_priority (job_opts j'))%Z
          then Some (j, rest)
          else Some (j', j :: rest')
      end
  end.

Inductive Event :=
  | TaskDispatched (taskId : nat) (agent : AgentPersona) (p : Priority)
  | TaskProcessing (taskId : nat) (agent : AgentPersona) (t : Task).

Record Dispatcher := {
  taskQueues : list (AgentPersona * Queue);
  events : list Event;
}.

Definition createQueueForAgent (agent : AgentPersona) (d : Dispatcher)
    : Dispatcher :=
  {| taskQueues := map_set agent emptyQueue (taskQueues d);
     events := events d |}.

Definition initializeQueues (d : Dispatcher) : Dispatcher :=
  fold_left (fun d a => createQueueForAgent a d) personas d.

Definition newDispatcher : Dispatcher :=
  initializeQueues {| taskQueues := []; events := [] |}.

Definition getOrCreateQueue (agent : AgentPersona) (d : Dispatcher)
    : Queue * Dispatcher :=
  match map_get agent (taskQueues d) with
  | Some q => (q, d)
  | None =>
      let d' := createQueueForAgent agent d in
      (default emptyQueue (map_get agent (taskQueues d')), d')
  end.

Definition dispatchTask (task : Task) (d : Dispatcher) : nat * Dispatcher :=
  let '(queue, d1) := getOrCreateQueue (assignedTo task) d in
  let jobOptions :=
    {| opt_priority := weight (priorityWeights (priority task));
       opt_attempts := maxRetries queueConfig;
       opt_backoff_delay := retryDelay queueConfig |} in
  let '(job, queue') := queue_add (assignedTo task) task jobOptions queue in
  (job_id job,
   {| taskQueues := map_set (assignedTo task) queue' (taskQueues d1);
      events := events d1 ++
        [TaskDispatched (job_id job) (assignedTo task) (priority task)] |}).

(** The order in which a worker takes jobs off the queue: it takes the
    next job, starts the processor (which emits [task:processing]) and
    repeats until nothing is waiting.  The worker is created with
    [concurrency] 3, which lets up to three processors overlap but does
    not change the order in which the jobs are taken.  [fuel] bounds the
    number of jobs taken. *)
Fixpoint runWorker (fuel : nat) (agent : AgentPersona) (js : list Job)
    : list Job :=
  match fuel with
  | O => []
  | S fuel' =>
      match pickNext js with
      | None => []
      | Some (j, rest) => j :: runWorker fuel' agent rest
      end
  end.

(** Execution order of everything waiting in a role's queue. *)
Definition executionOrder (agent : AgentPersona) (d : Dispatcher)
    : list string :=
  match map_get agent (taskQueues d) with
  | None => []
  | Some q =>
      map (fun j => task_id (job_data j))
          (runWorker (length (waiting q)) agent (waiting q))
  end.

(** CRITICAL is the highest priority, LOW the lowest. *)
Definition priority_rank (p : Priority) : nat :=
  match p with LOW => 0 | MEDIUM => 1 | HIGH => 2 | CRITICAL => 3 end.

Definition exampleTask (id : string) (p : Priority) : Task :=
  mkTask id "t" "d" qa_engineer st_pending p 0 0.

Definition dispatchAll (ts : list Task) (d : Dispatcher) : Dispatcher :=
  fold_left (fun d t => snd (dispatchTask t d)) ts d.

(** *** Bulk dispatch, metrics and redistribution *)

(** The body of the loop of [groupTasksByAgent]: the array of a role is
    created on its first task and extended in place. *)
Definition groupStep (grouped : list (AgentPersona * list Task)) (task : Task)
    : list (AgentPersona * list Task) :=
  let agentTasks := default [] (map_get (assignedTo task) grouped) in
  map_set (assignedTo task) (agentTasks ++ [task]) grouped.

Definition groupTasksByAgent (tasks : list Task) : list (AgentPersona * list Task) :=
  fold_left groupStep tasks [].

(** The options [bulkDispatch] gives a job: priority and attempts, no
    backoff (a retry is not delayed). *)
Definition bulkJobOptions (task : Task) : JobOptions :=
  {| opt_priority := weight (priorityWeights (priority task));
     opt_attempts := maxRetries queueConfig;
     opt_backoff_delay := 0 |}.

(** [queue.addBulk]: the jobs are added in the order given. *)
Fixpoint queue_addBulk (name : AgentPersona) (tasks : list Task) (q : Queue)
    : list Job * Queue :=
  match tasks with
  | [] => ([], q)
  | t :: ts =>
      let '(job, q1) := queue_add name t (bulkJobOptions t) q in
      let '(jobs, q2) := queue_addBulk name ts q1 in
      (job :: jobs, q2)
  end.

(** One turn of the loop of [bulkDispatch]. *)
Definition bulkStep (acc : list nat * Dispatcher)
    (group : AgentPersona * list Task) : list nat * Dispatcher :=
  let '(dispatchedIds, d0) := acc in
  let '(agent, agentTasks) := group in
  let '(queue, d1) := getOrCreateQueue agent d0 in
  let '(results, queue') := queue_addBulk agent agentTasks queue in
  (dispatchedIds ++ map job_id results,
   {| taskQueues := map_set agent queue' (taskQueues d1);
      events := events d1 |}).

Definition bulkDispatch (tasks : list Task) (d : Dispatcher)
    : list nat * Dispatcher :=
  fold_left bulkStep (groupTasksByAgent tasks) ([], d).

Record TaskMetrics := {
  totalTasks : nat;
  completedTasks : nat;
  failedTasks : nat;
  averageProcessingTime : nat;
  queueDepth : nat;
}.

Definition zeroMetrics : TaskMetrics :=
  {| totalTasks := 0; completedTasks := 0; failedTasks := 0;
     averageProcessingTime := 0; queueDepth := 0 |}.

(** The [taskMetrics] map of the service. *)
Definition initializeMetrics (agent : AgentPersona)
    (tm : list (AgentPersona * TaskMetrics)) : list (AgentPersona * TaskMetrics) :=
  map_set agent zeroMetrics tm.

Inductive QueueEvent := Completed | Failed.

Definition updateMetrics (agent : AgentPersona) (event : QueueEvent)
    (tm : list (AgentPersona * TaskMetrics)) : list (AgentPersona * TaskMetrics) :=
  match map_get agent tm with
  | None => tm
  | Some metrics =>
      let completed :=
        match event with Completed => S (completedTasks metrics) | Failed => completedTasks metrics end in
      let failed :=
        match event with Failed => S (failedTasks metrics) | Completed => failedTasks metrics end in
      map_set agent
        {| totalTasks := completed + failed; completedTasks := completed;
           failedTasks := failed;
           averageProcessingTime := averageProcessingTime metrics;
           queueDepth := queueDepth metrics |} tm
  end.

Definition countEvents (e : QueueEvent) (evs : list QueueEvent) : nat :=
  length (List.filter (fun x => match e, x with
                                | Completed, Completed | Failed, Failed => true
                                | _, _ => false
                                end) evs).

Section JobCounts.
(** What [queue.getJobCounts()] reports for the queue of a role: the
    numbers of waiting and of active jobs. *)
Variable getJobCounts : AgentPersona -> nat * nat.

(** [queueDepth] as [getAgentMetrics] computes it. *)
Definition reportedDepth (agent : AgentPersona) : nat :=
  fst (getJobCounts agent) + snd (getJobCounts agent).

(** The loop of [findAlternativeAgent]; [None] for the minimum is
    [Infinity]. *)
Fixpoint leastLoaded (agents : list AgentPersona) (minQueueDepth : option nat)
    (selectedAgent : option AgentPersona) : option AgentPersona :=
  match agents with
  | [] => selectedAgent
  | agent :: rest =>
      let depth := reportedDepth agent in
      if match minQueueDepth with
         | None => true
         | Some m => (depth <? m)%nat
         end
      then leastLoaded rest (Some depth) (Some agent)
      else leastLoaded rest minQueueDepth selectedAgent
  end.

Definition findAlternativeAgent (excludeAgent : AgentPersona) (d : Dispatcher)
    : option AgentPersona :=
  leastLoaded
    (List.filter (fun agent => negb (bool_decide (agent = excludeAgent)))
                 (map fst (taskQueues d)))
    None None.
End JobCounts.

(** The queue of a role, empty when none was created yet. *)
Definition queueOf (agent : AgentPersona) (d : Dispatcher) : Queue :=
  default emptyQueue (map_get agent (taskQueues d)).

Definition assignedToAgent (agent : AgentPersona) (tasks : list Task) : list Task :=
  List.filter (fun t => bool_decide (assignedTo t = agent)) tasks.

(** The jobs carry the weight of their task's priority as priority number. *)
Definition weighted (jobs : list Job) : Prop :=
  Forall (fun j => opt_priority (job_opts j) =
                   weight (priorityWeights (priority (job_data j)))) jobs.

Definition totalGrouped (grouped : list (AgentPersona * list Task)) : nat :=
  fold_right (fun g n => (length (snd g) + n)%nat) 0%nat grouped.

Definition lowerRank (t1 t2 : Task) : Prop :=
  priority_rank (priority t1) <= priority_rank (priority t2).

(** The metrics of a role after the queue events [evs]. *)
Definition afterEvents (agent : AgentPersona) (evs : list QueueEvent)
    (tm : list (AgentPersona * TaskMetrics)) : list (AgentPersona * TaskMetrics) :=
  fold_left (fun tm e => updateMetrics agent e tm) evs tm.

End TaskDispatcher.

(** ** Message bus *)

Module MessageBus.

(** [toAgent: AgentPersona | AgentPersona[]]; [broadcast] stores the
    literal ['all'] in that field. *)
Inductive ToAgent :=
  | ToOne (p : AgentPersona)
  | ToMany (ps : list AgentPersona)
  | ToAll.

Record AgentMessage := {
  msg_id : string;
  fromAgent : AgentPersona;
  toAgent : ToAgent;
  messageType : MessageType;
  payload : string;
  msg_priority : Priority;
  timestamp : Z;
}.

(** What a call of a user-supplied function does: it returns, or it
    throws (for an async handler: its promise rejects). *)
Inductive CallResult := Returns | Throws (err : string).

Record MessageHandler := {
  h_id : string;
  h_pattern : string;
  handler : AgentMessage -> CallResult;
}.

Record MessageSubscription := {
  agentId : string;
  patterns : list string;
  callback : AgentMessage -> CallResult;
}.

Inductive LogEntry :=
  | HandlerCalled (handlerId : string) (m : AgentMessage)
  | CallbackCalled (subscriptionId : string) (m : AgentMessage)
  | ConsoleError (text : string)
  | Emitted (event : string) (m : AgentMessage).

(** How a call completes. *)
Inductive Completion := Normal | Thrown (err : string).

Record Bus := {
  messageHandlers : list (string * MessageHandler);
  subscriptions : list (string * MessageSubscription);
  messageHistory : list AgentMessage;
  psubscribed : list string;   (* pattern set of the subscriber connection *)
  uuidSeed : nat;
  log : list LogEntry;
}.

Definition maxHistorySize : nat := 1000.

Definition uuidv4 (seed : nat) : string := "uuid-" +:+ pretty seed.

(** *** [matchPattern]: the regular expression it builds *)

(** [s.replace(/\*/g, '[^:]*')] *)
Fixpoint replaceStar (s : string) : string :=
  match s with
  | EmptyString => EmptyString
  | String c s' =>
      if Ascii.eqb c "*" then "[^:]*" +:+ replaceStar s'
      else String c (replaceStar s')
  end.

(** [s.replace(/\?/g, '.')] *)
Fixpoint replaceQuestion (s : string) : string :=
  match s with
  | EmptyString => EmptyString
  | String c s' =>
      if Ascii.eqb c "?" then String "." (replaceQuestion s')
      else String c (replaceQuestion s')
  end.

Definition regexPattern (pattern : string) : string :=
  replaceQuestion (replaceStar pattern).

(** The fragment of regular expressions [regexPattern] produces from
    patterns made of ordinary characters, [*], [?] and [.]. *)
Inductive RegexTok :=
  | RLit (c : ascii)      (* an ordinary character *)
  | RAny                  (* [.]: any character but a line terminator *)
  | RNotColon             (* [[^:]] *)
  | RNotColonStar.        (* [[^:]*] *)

Definition isMeta (c : ascii) : bool :=
  existsb (Ascii.eqb c)
    ["\"; "^"; "$"; "."; "*"; "+"; "?"; "("; ")"; "["; "]"; "{"; "}"; "|"]%char.

(** [new RegExp(source)] on that fragment; [None] stands for a source
    outside it, of which nothing is said here. *)
Fixpoint compileRegex (src : string) : option (list RegexTok) :=
  match src with
  | EmptyString => Some []
  | String "[" (String "^" (String ":" (String "]" (String "*" rest)))) =>
      option_map (cons RNotColonStar) (compileRegex rest)
  | String "[" (String "^" (String ":" (String "]" rest))) =>
      option_map (cons RNotColon) (compileRegex rest)
  | String "." rest => option_map (cons RAny) (compileRegex rest)
  | String c rest =>
      if isMeta c then None else option_map (cons (RLit c)) (compileRegex rest)
  end.

Definition isLineTerminator (c : ascii) : bool :=
  Ascii.eqb c "010" || Ascii.eqb c "013".

(** Anchored match ([^...$]) of a token list against the whole input. *)
Fixpoint matchTokens (ts : list RegexTok) (s : string) {struct ts} : bool :=
  match ts with
  | [] => match s with EmptyString => true | _ => false end
  | RLit c :: ts' =>
      match s with
      | String d s' => Ascii.eqb c d && matchTokens ts' s'
      | EmptyString => false
      end
  | RAny :: ts' =>
      match s with
      | String d s' => negb (isLineTerminator d) && matchTokens ts' s'
      | EmptyString => false
      end
  | RNotColon :: ts' =>
      match s with
      | String d s' => negb (Ascii.eqb d ":") && matchTokens ts' s'
      | EmptyString => false
      end
  | RNotColonStar :: ts' =>
      (fix star (s : string) : bool :=
         matchTokens ts' s ||
         match s with
         | String d s' => negb (Ascii.eqb d ":") && star s'
         | EmptyString => false
         end) s
  end.

Section RegExp.
(** [new RegExp(source).test(channel)] for a source outside the fragment:
    what the regular expression engine of the platform answers, [None]
    when the constructor throws a [SyntaxError].  Nothing is assumed of
    it. *)
Variable regExpTest : string -> string -> option bool.

Definition matchPattern (channel pattern : string) : option bool :=
  match compileRegex (regexPattern pattern) with
  | Some ts => Some (matchTokens ts channel)
  | None => regExpTest ("^" +:+ regexPattern pattern +:+ "$") channel
  end.

(** *** Redis pattern subscriptions

    The subscriber connection is an ioredis client.  Redis keeps one
    set of patterns per connection and, for a message published on a
    channel, sends the connection one [pmessage] per pattern of the set
    that glob-matches the channel ([*]: any run of characters, [?]: any
    one character; the bracket and escape forms are not modelled). *)
Inductive GlobTok := GLit (c : ascii) | GOne | GMany.

Fixpoint globTokens (p : string) : list GlobTok :=
  match p with
  | EmptyString => []
  | String c p' =>
      (if Ascii.eqb c "*" then GMany
       else if Ascii.eqb c "?" then GOne else GLit c) :: globTokens p'
  end.

Fixpoint globMatch (ts : list GlobTok) (s : string) {struct ts} : bool :=
  match ts with
  | [] => match s with EmptyString => true | _ => false end
  | GLit c :: ts' =>
      match s with
      | String d s' => Ascii.eqb c d && globMatch ts' s'
      | EmptyString => false
      end
  | GOne :: ts' =>
      match s with
      | String _ s' => globMatch ts' s'
      | EmptyString => false
      end
  | GMany :: ts' =>
      (fix many (s : string) : bool :=
         globMatch ts' s ||
         match s with
         | String _ s' => many s'
         | EmptyString => false
         end) s
  end.

Definition redisGlobMatch (pattern channel : string) : bool :=
  globMatch (globTokens pattern) channel.

Definition psubscribe (pattern : string) (ps : list string) : list string :=
  if bool_decide (pattern ∈ ps) then ps else ps ++ [pattern].

Definition punsubscribe (pattern : string) (ps : list string) : list string :=
  filter (fun p => p ≠ pattern) ps.

(** *** The service *)

Definition newBus : Bus :=
  {| messageHandlers := []; subscriptions := []; messageHistory := [];
     psubscribed := []; uuidSeed := 0; log := [] |}.

(** [onModuleInit] -> [setupRedisSubscriptions] *)
Definition setupRedisSubscriptions (b : Bus) : Bus :=
  {| messageHandlers := messageHandlers b; subscriptions := subscriptions b;
     messageHistory := messageHistory b;
     psubscribed := psubscribe "agent:*" (psubscribed b);
     uuidSeed := uuidSeed b; log := log b |}.

Definition subscribe (agent : string) (pats : list string)
    (cb : AgentMessage -> CallResult) (b : Bus) : string * Bus :=
  let subscriptionId := uuidv4 (uuidSeed b) in
  (subscriptionId,
   {| messageHandlers := messageHandlers b;
      subscriptions :=
        map_set subscriptionId
          {| agentId := agent; patterns := pats; callback := cb |}
          (subscriptions b);
      messageHistory := messageHistory b;
      psubscribed := fold_left (fun ps p => psubscribe p ps) pats (psubscribed b);
      uuidSeed := S (uuidSeed b); log := log b |}).

Definition unsubscribe (subscriptionId : string) (b : Bus) : Completion * Bus :=
  match map_get subscriptionId (subscriptions b) with
  | Some subscription =>
      (Normal,
       {| messageHandlers := messageHandlers b;
          subscriptions := map_delete subscriptionId (subscriptions b);
          messageHistory := messageHistory b;
          psubscribed :=
            fold_left (fun ps p => punsubscribe p ps)
                      (patterns subscription) (psubscribed b);
          uuidSeed := uuidSeed b; log := log b |})
  | None => (Normal, b)
  end.

Definition registerHandler (pattern : string)
    (h : AgentMessage -> CallResult) (b : Bus) : string * Bus :=
  let handlerId := uuidv4 (uuidSeed b) in
  (handlerId,
   {| messageHandlers :=
        map_set handlerId
          {| h_id := handlerId; h_pattern := pattern; handler := h |}
          (messageHandlers b);
      subscriptions := subscriptions b; messageHistory := messageHistory b;
      psubscribed := psubscribed b;
      uuidSeed := S (uuidSeed b); log := log b |}).

Definition getChannelName (message : AgentMessage) : string :=
  match toAgent message with
  | ToMany _ => "agent:multicast"
  | ToOne p => "agent:" +:+ persona_name p
  | ToAll => "agent:all"
  end.

Definition addToHistory (message : AgentMessage) (h : list AgentMessage)
    : list AgentMessage :=
  let h' := h ++ [message] in
  if (maxHistorySize <? length h')%nat then tl h' else h'.

(** First loop of [handleIncomingMessage]: every handler call sits in
    its own [try]/[catch]. *)
Fixpoint runHandlers (hs : list (string * MessageHandler))
    (message : AgentMessage) (pattern : string)
    : list LogEntry * Completion :=
  match hs with
  | [] => ([], Normal)
  | (_, h) :: hs' =>
      match matchPattern pattern (h_pattern h) with
      | None => ([], Thrown "SyntaxError")
      | Some false => runHandlers hs' message pattern
      | Some true =>
          let here :=
            match handler h message with
            | Returns => [HandlerCalled (h_id h) message]
            | Throws err =>
                [HandlerCalled (h_id h) message;
                 ConsoleError ("Handler error for pattern " +:+ h_pattern h)]
            end in
          let '(l, c) := runHandlers hs' message pattern in
          (here ++ l, c)
      end
  end.

(** [patterns.some((p) => this.matchPattern(pattern, p))] *)
Fixpoint somePattern (pattern : string) (ps : list string) : option bool :=
  match ps with
  | [] => Some false
  | p :: ps' =>
      match matchPattern pattern p with
      | None => None
      | Some true => Some true
      | Some false => somePattern pattern ps'
      end
  end.

(** Second loop: the callback is called bare, so a throw leaves the
    loop and the method. *)
Fixpoint runSubscriptions (ss : list (string * MessageSubscription))
    (message : AgentMessage) (pattern : string)
    : list LogEntry * Completion :=
  match ss with
  | [] => ([], Normal)
  | (sid, sub) :: ss' =>
      match somePattern pattern (patterns sub) with
      | None => ([], Thrown "SyntaxError")
      | Some false => runSubscriptions ss' message pattern
      | Some true =>
          match callback sub message with
          | Throws err => ([CallbackCalled sid message], Thrown err)
          | Returns =>
              let '(l, c) := runSubscriptions ss' message pattern in
              (CallbackCalled sid message :: l, c)
          end
      end
  end.

Definition handleIncomingMessage (message : AgentMessage) (pattern : string)
    (b : Bus) : list LogEntry * Completion :=
  match runHandlers (messageHandlers b) message pattern with
  | (l1, Thrown e) => (l1, Thrown e)
  | (l1, Normal) =>
      match runSubscriptions (subscriptions b) message pattern with
      | (l2, Thrown e) => (l1 ++ l2, Thrown e)
      | (l2, Normal) =>
          (l1 ++ l2 ++ [Emitted "message:received" message], Normal)
      end
  end.

Definition withLog (b : Bus) (l : list LogEntry) : Bus :=
  {| messageHandlers := messageHandlers b; subscriptions := subscriptions b;
     messageHistory := messageHistory b; psubscribed := psubscribed b;
     uuidSeed := uuidSeed b; log := log b ++ l |}.

(** The ['pmessage'] listener installed by [setupRedisSubscriptions]:
    the channel argument is ignored, the pattern is passed on. *)
Definition onPmessage (pattern _channel : string) (message : AgentMessage)
    (b : Bus) : Bus :=
  match handleIncomingMessage message pattern b with
  | (l, Normal) => withLog b l
  | (l, Thrown _) => withLog b (l ++ [ConsoleError "Error processing message:"])
  end.

(** Redis hands a message published on [channel] back to the
    subscriber connection: one ['pmessage'] per matching pattern. *)
Definition deliver (channel : string) (message : AgentMessage) (b : Bus) : Bus :=
  fold_left (fun b p => onPmessage p channel message b)
            (filter (fun p => redisGlobMatch p channel = true) (psubscribed b)) b.

(** [publish]: the serialized copy gets a fresh id when the id is empty. *)
Definition publish (message : AgentMessage) (b : Bus) : string * AgentMessage * Bus :=
  let channel := getChannelName message in
  let idEmpty := bool_decide (msg_id message = "") in
  let wire :=
    {| msg_id := if idEmpty then uuidv4 (uuidSeed b) else msg_id message;
       fromAgent := fromAgent message; toAgent := toAgent message;
       messageType := messageType message; payload := payload message;
       msg_priority := msg_priority message; timestamp := timestamp message |} in
  (channel, wire,
   {| messageHandlers := messageHandlers b; subscriptions := subscriptions b;
      messageHistory := addToHistory message (messageHistory b);
      psubscribed := psubscribed b;
      uuidSeed := if idEmpty then S (uuidSeed b) else uuidSeed b;
      log := log b ++ [Emitted "message:published" message] |}).

(** A publish followed by the delivery of the message to this bus. *)
Definition publishAndDeliver (message : AgentMessage) (b : Bus) : Bus :=
  let '(channel, wire, b1) := publish message b in
  deliver channel wire b1.

(** Number of times the callback of a subscription was invoked. *)
Definition callbackCount (sid : string) (l : list LogEntry) : nat :=
  length (List.filter (fun e => match e with
                                | CallbackCalled sid' _ => bool_decide (sid' = sid)
                                | _ => false
                                end) l).

(** *** [requestResponse]

    The promise, its timer and the ['message'] listener, driven by the
    event loop; one [Tick] is one millisecond.  [timeout] is a JavaScript
    number.  [JSON_parse] is [JSON.parse] ([None] when it throws) and
    [Number_toString] the text a template literal gives a number. *)
Inductive JsNumber :=
  | NaN
  | Infinity (negative : bool)
  | Finite (q : QArith_base.Q).

(** A whole number of milliseconds. *)
Definition ms (n : Z) : JsNumber := Finite (QArith_base.inject_Z n).

Definition TIMEOUT_MAX : Z := 2147483647.

(** The delay [setTimeout(callback, after)] gives the timer in Node.js:
    a delay that is larger than [TIMEOUT_MAX], less than 1 or [NaN] is
    set to 1, and a delay that is not whole is truncated.  The callback
    runs in the turn in which that many milliseconds have passed. *)
Definition timerDelay (after : JsNumber) : Z :=
  match after with
  | Finite q =>
      if QArith_base.Qle_bool (QArith_base.inject_Z 1) q &&
         QArith_base.Qle_bool q (QArith_base.inject_Z TIMEOUT_MAX)
      then Qround.Qfloor q else 1%Z
  | _ => 1%Z
  end.

Inductive PromiseState :=
  | Pending
  | Resolved (value : string)
  | Rejected (err : string).

(** [resolve]/[reject] on a settled promise do nothing. *)
Definition settle (p new : PromiseState) : PromiseState :=
  match p with Pending => new | _ => p end.

Record Request := {
  responseChannel : string;
  timeoutMs : JsNumber;
  elapsed : nat;
  timerArmed : bool;
  channelSubscribed : bool;
  responsePromise : PromiseState;
}.

Inductive LoopEvent :=
  | Tick
  | SubscribeDone (err : option string)
  | RedisMessage (channel message : string).

(** State right after the promise executor has run. *)
Definition openRequest (requestId : string) (timeout : JsNumber) : Request :=
  {| responseChannel := "response:" +:+ requestId;
     timeoutMs := timeout; elapsed := 0;
     timerArmed := true; channelSubscribed := true;
     responsePromise := Pending |}.

Definition requestResponse (from to : AgentPersona) (query : string)
    (timeout : JsNumber) (now : Z) (b : Bus) : Request * Bus :=
  let requestId := uuidv4 (uuidSeed b) in
  let r := openRequest requestId timeout in
  let queryMessage :=
    {| msg_id := requestId; fromAgent := from; toAgent := ToOne to;
       messageType := QUERY;
       payload := query +:+ "," +:+ responseChannel r;
       msg_priority := HIGH; timestamp := now |} in
  let b1 :=
    {| messageHandlers := messageHandlers b; subscriptions := subscriptions b;
       messageHistory := messageHistory b; psubscribed := psubscribed b;
       uuidSeed := S (uuidSeed b); log := log b |} in
  (r, publishAndDeliver queryMessage b1).

Section EventLoop.
Variable JSON_parse : string -> option string.
Variable Number_toString : JsNumber -> string.

(** [`Request timeout after ${timeout}ms`] *)
Definition timeoutError (timeout : JsNumber) : string :=
  "Request timeout after " +:+ Number_toString timeout +:+ "ms".

(** The [setTimeout] callback. *)
Definition onTimer (r : Request) : Request :=
  {| responseChannel := responseChannel r; timeoutMs := timeoutMs r;
     elapsed := elapsed r; timerArmed := false;
     channelSubscribed := false;
     responsePromise :=
       settle (responsePromise r) (Rejected (timeoutError (timeoutMs r))) |}.

(** The callback given to [subscriber.subscribe]. *)
Definition onSubscribed (err : option string) (r : Request) : Request :=
  match err with
  | None => r
  | Some e =>
      {| responseChannel := responseChannel r; timeoutMs := timeoutMs r;
         elapsed := elapsed r; timerArmed := false;
         channelSubscribed := channelSubscribed r;
         responsePromise := settle (responsePromise r) (Rejected e) |}
  end.

(** The ['message'] listener: [clearTimeout], [unsubscribe], then
    [resolve(JSON.parse(message))]; when [JSON.parse] throws, the listener
    ends there and [resolve] is not called. *)
Definition onMessage (channel message : string) (r : Request) : Request :=
  if String.eqb channel (responseChannel r) then
    {| responseChannel := responseChannel r; timeoutMs := timeoutMs r;
       elapsed := elapsed r; timerArmed := false;
       channelSubscribed := false;
       responsePromise :=
         match JSON_parse message with
         | Some v => settle (responsePromise r) (Resolved v)
         | None => responsePromise r
         end |}
  else r.

(** One millisecond passes; the timer, when still armed, fires once its
    delay has elapsed. *)
Definition tick (r : Request) : Request :=
  let r' :=
    {| responseChannel := responseChannel r; timeoutMs := timeoutMs r;
       elapsed := S (elapsed r); timerArmed := timerArmed r;
       channelSubscribed := channelSubscribed r;
       responsePromise := responsePromise r |} in
  if timerArmed r && (timerDelay (timeoutMs r) <=? Z.of_nat (elapsed r'))%Z
  then onTimer r' else r'.

Definition step (r : Request) (e : LoopEvent) : Request :=
  match e with
  | Tick => tick r
  | SubscribeDone err => onSubscribed err r
  | RedisMessage channel message => onMessage channel message r
  end.

Definition run (r : Request) (evs : list LoopEvent) : Request :=
  fold_left step evs r.

(** While nobody answers, a request is waiting with its timer armed until
    the delay of the timer has elapsed, and rejected with the timeout
    error after. *)
Definition waitingOrTimedOut (rc : string) (timeout : JsNumber) (r : Request)
    (n : nat) : Prop :=
  responseChannel r = rc /\ timeoutMs r = timeout /\ elapsed r = n /\
  (((Z.of_nat n < timerDelay timeout)%Z /\ timerArmed r = true /\
    responsePromise r = Pending) \/
   ((timerDelay timeout <= Z.of_nat n)%Z /\ timerArmed r = false /\
    responsePromise r = Rejected (timeoutError timeout))).
End EventLoop.

Definition ticks (evs : list LoopEvent) : nat :=
  length (List.filter (fun e => match e with Tick => true | _ => false end) evs).

(** Nothing in [evs] answers on [channel], and the subscription did not fail. *)
Definition silent (channel : string) (evs : list LoopEvent) : Prop :=
  Forall (fun e => match e with
                   | Tick => True
                   | SubscribeDone err => err = None
                   | RedisMessage c _ => c <> channel
                   end) evs.

Definition handlerCount (hid : string) (l : list LogEntry) : nat :=
  length (List.filter (fun e => match e with
                                | HandlerCalled hid' _ => bool_decide (hid' = hid)
                                | _ => false
                                end) l).

Definition matches (pattern : string) (ps : list string) : bool :=
  match somePattern pattern ps with Some true => true | _ => false end.
End RegExp.

(** An engine that refuses every source; the sample buses keep to
    patterns of the fragment, for which no engine is consulted. *)
Definition noRegExp : string -> string -> option bool := fun _ _ => None.

(** Ids of the handlers called, in order. *)
Definition handlerCalls (l : list LogEntry) : list string :=
  omap (fun e => match e with HandlerCalled hid _ => Some hid | _ => None end) l.

(** [JSON.parse] on the replies of the examples: the literals [true],
    [false] and [null] parse (the value is kept as its text) and the empty
    text does not. *)
Definition parseLiteral (s : string) : option string :=
  if bool_decide (s ∈ ["true"; "false"; "null"]) then Some s else None.

(** The text of a number in a template literal, for [NaN], the infinities
    and the whole numbers below 10^21 in magnitude, which JavaScript
    writes in decimal digits. *)
Definition wholeText (x : JsNumber) : string :=
  match x with
  | NaN => "NaN"
  | Infinity false => "Infinity"
  | Infinity true => "-Infinity"
  | Finite q => pretty (Qround.Qfloor q)
  end.

(** *** Sample data *)

Definition exampleMessage : AgentMessage :=
  {| msg_id := "m1"; fromAgent := tech_lead; toAgent := ToOne qa_engineer;
     messageType := TASK; payload := "run the suite";
     msg_priority := MEDIUM; timestamp := 0 |}.

Definition quiet : AgentMessage -> CallResult := fun _ => Returns.
Definition failing : AgentMessage -> CallResult := fun _ => Throws "boom".

(** One subscription, on every role channel. *)
Definition busWildcardOnly : Bus :=
  snd (subscribe "orchestrator" ["agent:*"] quiet (setupRedisSubscriptions newBus)).

(** A second subscription, on the channel of one role. *)
Definition busWildcardAndExact : Bus :=
  snd (subscribe "qa" ["agent:qa_engineer"] quiet busWildcardOnly).

(** Two subscriptions on every role channel; the callback of the first throws. *)
Definition busFirstThrows : Bus :=
  snd (subscribe "second" ["agent:*"] quiet
         (snd (subscribe "first" ["agent:*"] failing
                 (setupRedisSubscriptions newBus)))).

(** A subscription that was made and removed again. *)
Definition busAfterUnsubscribe : Bus :=
  snd (unsubscribe "uuid-0" busWildcardOnly).

(** *** History, handlers and filters *)

#[global] Instance MessageType_eq_dec : EqDecision MessageType.
Proof. solve_decision. Defined.

Definition unregisterHandler (handlerId : string) (b : Bus) : Bus :=
  {| messageHandlers := map_delete handlerId (messageHandlers b);
     subscriptions := subscriptions b; messageHistory := messageHistory b;
     psubscribed := psubscribed b; uuidSeed := uuidSeed b; log := log b |}.

(** The optional [filter] argument of [getMessageHistory]. *)
Record HistoryFilter := {
  f_fromAgent : option AgentPersona;
  f_toAgent : option AgentPersona;
  f_messageType : option MessageType;
  f_since : option Z;
}.

(** [Array.isArray(msg.toAgent) ? msg.toAgent.includes(p) : msg.toAgent === p];
    the ['all'] of a broadcast equals no persona. *)
Definition addressedTo (p : AgentPersona) (m : AgentMessage) : bool :=
  match toAgent m with
  | ToMany ps => bool_decide (p ∈ ps)
  | ToOne q => bool_decide (q = p)
  | ToAll => false
  end.

Definition getMessageHistory (filter : option HistoryFilter) (b : Bus)
    : list AgentMessage :=
  let history := messageHistory b in
  match filter with
  | None => history
  | Some f =>
      let h1 := match f_fromAgent f with
                | Some a => List.filter (fun m => bool_decide (fromAgent m = a)) history
                | None => history
                end in
      let h2 := match f_toAgent f with
                | Some a => List.filter (addressedTo a) h1
                | None => h1
                end in
      let h3 := match f_messageType f with
                | Some t => List.filter (fun m => bool_decide (messageType m = t)) h2
                | None => h2
                end in
      match f_since f with
      | Some d => List.filter (fun m => (d <? timestamp m)%Z) h3
      | None => h3
      end
  end.

(** [getQueueDepth]: [now] is [Date.now()]. *)
Definition getQueueDepth (agent : AgentPersona) (now : Z) (b : Bus) : nat :=
  length (getMessageHistory
            (Some {| f_fromAgent := None; f_toAgent := Some agent;
                     f_messageType := None; f_since := Some (now - 60000)%Z |}) b).

Definition purgeOldMessages (olderThan : Z) (b : Bus) : nat * Bus :=
  let initialLength := length (messageHistory b) in
  let kept := List.filter (fun m => (olderThan <? timestamp m)%Z) (messageHistory b) in
  ((initialLength - length kept)%nat,
   {| messageHandlers := messageHandlers b; subscriptions := subscriptions b;
      messageHistory := kept; psubscribed := psubscribed b;
      uuidSeed := uuidSeed b; log := log b |}).

(** A run of [publish] calls. *)
Definition publishAll (ms : list AgentMessage) (b : Bus) : Bus :=
  fold_left (fun b m => snd (publish m b)) ms b.

(** The pattern has none of the characters a regular expression reads
    specially. *)
Fixpoint plain (s : string) : bool :=
  match s with
  | EmptyString => true
  | String c s' => negb (isMeta c) && plain s'
  end.

Fixpoint noColon (s : string) : bool :=
  match s with
  | EmptyString => true
  | String c s' => negb (Ascii.eqb c ":") && noColon s'
  end.

(** Every handler is stored under its own id, as [registerHandler] does. *)
Definition handlersKeyed (b : Bus) : Prop :=
  Forall (fun kh => h_id (snd kh) = fst kh) (messageHandlers b).

(** Matching [pattern] against the patterns of the bus throws no
    [SyntaxError]: every handler pattern compiles, and so does every
    pattern that [some] gets to in a subscription. *)
Definition compiles (regExpTest : string -> string -> option bool)
    (pattern : string) (b : Bus) : Prop :=
  (forall k h, In (k, h) (messageHandlers b) ->
     matchPattern regExpTest pattern (h_pattern h) <> None) /\
  (forall k s, In (k, s) (subscriptions b) ->
     somePattern regExpTest pattern (patterns s) <> None).

(** A bus with three handlers on every role channel; the second throws. *)
Definition busThreeHandlers : Bus :=
  snd (registerHandler "agent:*" quiet
         (snd (registerHandler "agent:*" failing
                 (snd (registerHandler "agent:*" quiet
                         (setupRedisSubscriptions newBus)))))).

(** Two subscriptions on every role channel. *)
Definition busTwoWildcards : Bus :=
  snd (subscribe "second" ["agent:*"] quiet
         (snd (subscribe "first" ["agent:*"] quiet
                 (setupRedisSubscriptions newBus)))).

End MessageBus.

(** ** State manager *)

Module StateManager.

(** Values stored under the keys of a [Record<string, any>].  The store
    never looks inside them nor changes them in place. *)
Inductive JVal := JNull | JBool (b : bool) | JNum (n : Z) | JStr (s : string).

(** A [Date], or the ISO string it has become after a trip through JSON. *)
Inductive Stamp := SDate (ms : Z) | SIso (ms : Z).

Definition stamp_ms (t : Stamp) : Z :=
  match t with SDate ms => ms | SIso ms => ms end.

Inductive MemoryType := shortTerm | longTerm.

(** *** The object heap

    [SystemState], the [Map] of agents, every [AgentStateData], its
    [memory] object, the two memory records, [currentTasks], [metrics] and
    [globalContext] are JavaScript objects: they are held by reference,
    and two holders of one reference see each other's writes. *)
Abbreviation loc := nat.

Record AgentStateData := {
  persona : AgentPersona;
  state : AgentState;
  memory : loc;
  currentTasks : loc;
  metrics : loc;
  lastUpdated : Stamp;
}.

Record SystemState := {
  state_id : string;
  phase : DevelopmentPhase;
  agents : loc;
  globalContext : loc;
  timestamp : Stamp;
}.

Inductive obj :=
  | ORecord (r : gmap string JVal)
  | OArray (a : list string)
  | OMemory (short long : loc)
  | OAgent (a : AgentStateData)
  | OMap (m : list (AgentPersona * loc))
  | OState (s : SystemState).

Definition refs (o : obj) : list loc :=
  match o with
  | ORecord _ | OArray _ => []
  | OMemory s l => [s; l]
  | OAgent a => [memory a; currentTasks a; metrics a]
  | OMap m => map snd m
  | OState st => [agents st; globalContext st]
  end.

(** [bare] holds the records whose prototype an assignment has set to
    [null]; every other object has the prototype it was created with. *)
Record Mem := { cells : gmap loc obj; next : loc; bare : gset loc }.

(** A new object. *)
Definition alloc (o : obj) (m : Mem) : loc * Mem :=
  (next m, {| cells := <[next m := o]> (cells m); next := S (next m);
              bare := bare m ∖ {[next m]} |}).

(** An assignment to a property of the object at [l]. *)
Definition write (l : loc) (o : obj) (m : Mem) : Mem :=
  {| cells := <[l := o]> (cells m); next := next m; bare := bare m |}.

Definition getRecord (h : gmap loc obj) (l : loc) : option (gmap string JVal) :=
  match h !! l with Some (ORecord r) => Some r | _ => None end.
Definition getArray (h : gmap loc obj) (l : loc) : option (list string) :=
  match h !! l with Some (OArray a) => Some a | _ => None end.
Definition getMemory (h : gmap loc obj) (l : loc) : option (loc * loc) :=
  match h !! l with Some (OMemory s g) => Some (s, g) | _ => None end.
Definition getAgent (h : gmap loc obj) (l : loc) : option AgentStateData :=
  match h !! l with Some (OAgent a) => Some a | _ => None end.
Definition getMap (h : gmap loc obj) (l : loc) : option (list (AgentPersona * loc)) :=
  match h !! l with Some (OMap m) => Some m | _ => None end.
Definition getState (h : gmap loc obj) (l : loc) : option SystemState :=
  match h !! l with Some (OState s) => Some s | _ => None end.

(** *** [record[key] = value]

    Every key becomes, or stays, an own property of the record, except
    ["__proto__"] on a record that has no own property of that name and
    still has its prototype: there the assignment reaches the accessor of
    [Object.prototype], whose setter makes [null] the prototype of the
    record when the value is [null] and does nothing for any other
    primitive value. *)
Definition reachesSetter (key : string) (r : gmap string JVal) (isBare : bool)
    : bool :=
  bool_decide (key = "__proto__") && negb (bool_decide (is_Some (r !! key))) &&
  negb isBare.

(** The own properties after the assignment. *)
Definition assigned (key : string) (value : JVal) (r : gmap string JVal)
    (isBare : bool) : gmap string JVal :=
  if reachesSetter key r isBare then r else <[key := value]> r.

Definition setBare (l : loc) (m : Mem) : Mem :=
  {| cells := cells m; next := next m; bare := {[l]} ∪ bare m |}.

Definition isBare (l : loc) (m : Mem) : bool := bool_decide (l ∈ bare m).

(** The assignment on the record [r] held at [l]. *)
Definition assign (l : loc) (key : string) (value : JVal)
    (r : gmap string JVal) (m : Mem) : Mem :=
  if reachesSetter key r (isBare l m) then
    match value with
    | JNull => setBare l m
    | _ => m
    end
  else write l (ORecord (<[key := value]> r)) m.

(** *** Values without sharing: what an observer reads, what JSON holds *)

Record AgentValue := {
  v_persona : AgentPersona;
  v_state : AgentState;
  v_shortTerm : gmap string JVal;
  v_longTerm : gmap string JVal;
  v_currentTasks : list string;
  v_metrics : gmap string JVal;
  v_lastUpdated : Stamp;
}.

Record StateValue := {
  v_id : string;
  v_phase : DevelopmentPhase;
  v_agents : list (AgentPersona * AgentValue);
  v_globalContext : gmap string JVal;
  v_timestamp : Stamp;
}.

Record SnapshotValue := {
  sv_id : string;
  sv_state : StateValue;
  sv_createdAt : Z;
  sv_reason : string;
}.

Definition readAgentValue (h : gmap loc obj) (a : AgentStateData)
    : option AgentValue :=
  match getMemory h (memory a) with
  | None => None
  | Some (ls, ll) =>
    match getRecord h ls, getRecord h ll,
          getArray h (currentTasks a), getRecord h (metrics a) with
    | Some sh, Some lg, Some ts, Some me =>
        Some {| v_persona := persona a; v_state := state a;
                v_shortTerm := sh; v_longTerm := lg; v_currentTasks := ts;
                v_metrics := me; v_lastUpdated := lastUpdated a |}
    | _, _, _, _ => None
    end
  end.

Fixpoint readEntries (h : gmap loc obj) (es : list (AgentPersona * loc))
    : option (list (AgentPersona * AgentValue)) :=
  match es with
  | [] => Some []
  | (k, l) :: es' =>
      match getAgent h l with
      | None => None
      | Some a =>
          match readAgentValue h a, readEntries h es' with
          | Some v, Some vs => Some ((k, v) :: vs)
          | _, _ => None
          end
      end
  end.

(** Everything reachable from the state object at [l]. *)
Definition readStateValue (h : gmap loc obj) (l : loc) : option StateValue :=
  match getState h l with
  | None => None
  | Some st =>
      match getMap h (agents st), getRecord h (globalContext st) with
      | Some m, Some gc =>
          match readEntries h m with
          | Some es =>
              Some {| v_id := state_id st; v_phase := phase st; v_agents := es;
                      v_globalContext := gc; v_timestamp := timestamp st |}
          | None => None
          end
      | _, _ => None
      end
  end.

(** [JSON.stringify] turns every [Date] into its ISO string. *)
Definition jsonStamp (t : Stamp) : Stamp := SIso (stamp_ms t).

Definition jsonAgent (v : AgentValue) : AgentValue :=
  {| v_persona := v_persona v; v_state := v_state v;
     v_shortTerm := v_shortTerm v; v_longTerm := v_longTerm v;
     v_currentTasks := v_currentTasks v; v_metrics := v_metrics v;
     v_lastUpdated := jsonStamp (v_lastUpdated v) |}.

Definition jsonState (v : StateValue) : StateValue :=
  {| v_id := v_id v; v_phase := v_phase v;
     v_agents := map (fun e => (fst e, jsonAgent (snd e))) (v_agents v);
     v_globalContext := v_globalContext v;
     v_timestamp := jsonStamp (v_timestamp v) |}.

(** *** Redis, by key family

    [nex-t1:state:current], [nex-t1:state:agent:<persona>],
    [nex-t1:state:context] and [nex-t1:state:snapshot:<id>]. *)
Record Redis := {
  currentDoc : option StateValue;
  agentDocs : list (AgentPersona * AgentValue);
  contextDoc : option (gmap string JVal);
  snapshotDocs : gmap string SnapshotValue;
}.

Definition emptyRedis : Redis :=
  {| currentDoc := None; agentDocs := []; contextDoc := None; snapshotDocs := ∅ |}.

Record StateSnapshot := {
  snap_id : string;
  systemState : loc;
  createdAt : Z;
  reason : string;
}.

Inductive Event :=
  | StateAgentUpdated (p : AgentPersona) (st : loc)
  | StateContextUpdated (key : string) (value : JVal)
  | StatePhaseChanged (from to : DevelopmentPhase)
  | StateRestored (snapshotId : string).

Record Store := {
  mem : Mem;
  currentState : loc;
  stateHistory : list StateSnapshot;
  redis : Redis;
  uuidSeed : nat;
  events : list Event;
}.

Definition maxHistorySize : nat := 100.

Definition uuidv4 (seed : nat) : string := "uuid-" +:+ pretty seed.

Definition setMem (m : Mem) (s : Store) : Store :=
  {| mem := m; currentState := currentState s; stateHistory := stateHistory s;
     redis := redis s; uuidSeed := uuidSeed s; events := events s |}.
Definition setCurrent (l : loc) (s : Store) : Store :=
  {| mem := mem s; currentState := l; stateHistory := stateHistory s;
     redis := redis s; uuidSeed := uuidSeed s; events := events s |}.
Definition setHistory (h : list StateSnapshot) (s : Store) : Store :=
  {| mem := mem s; currentState := currentState s; stateHistory := h;
     redis := redis s; uuidSeed := uuidSeed s; events := events s |}.
Definition setRedis (r : Redis) (s : Store) : Store :=
  {| mem := mem s; currentState := currentState s; stateHistory := stateHistory s;
     redis := r; uuidSeed := uuidSeed s; events := events s |}.
Definition nextUuid (s : Store) : Store :=
  {| mem := mem s; currentState := currentState s; stateHistory := stateHistory s;
     redis := redis s; uuidSeed := S (uuidSeed s); events := events s |}.
Definition emit (e : Event) (s : Store) : Store :=
  {| mem := mem s; currentState := currentState s; stateHistory := stateHistory s;
     redis := redis s; uuidSeed := uuidSeed s; events := events s ++ [e] |}.

(** Outcome of a call: it returns a value, or it throws; either way the
    store is left in some state.  ["TypeError"] is what JavaScript raises
    on an object that has not the shape its type promises. *)
Inductive Result (A : Type) :=
  | Ok (a : A) (s : Store)
  | Throw (err : string) (s : Store).
Arguments Ok {A} a s.
Arguments Throw {A} err s.

Definition storeOf {A} (r : Result A) : Store :=
  match r with Ok _ s => s | Throw _ s => s end.

(** *** Building object graphs *)

(** The objects of one agent, from its parts. *)
Definition allocAgent (p : AgentPersona) (st : AgentState)
    (sh lg : gmap string JVal) (ts : list string) (me : gmap string JVal)
    (upd : Stamp) (m : Mem) : loc * Mem :=
  let '(ls, m1) := alloc (ORecord sh) m in
  let '(ll, m2) := alloc (ORecord lg) m1 in
  let '(lm, m3) := alloc (OMemory ls ll) m2 in
  let '(lt, m4) := alloc (OArray ts) m3 in
  let '(le, m5) := alloc (ORecord me) m4 in
  alloc (OAgent {| persona := p; state := st; memory := lm;
                   currentTasks := lt; metrics := le; lastUpdated := upd |}) m5.

Definition initialMetrics : gmap string JVal :=
  <["tasksCompleted" := JNum 0]>
    (<["successRate" := JNum 1]> (<["averageResponseTime" := JNum 0]> ∅)).

(** [personas.forEach((persona) => agents.set(persona, {...}))] *)
Fixpoint initAgents (ps : list AgentPersona) (now : Z)
    (acc : list (AgentPersona * loc)) (m : Mem)
    : list (AgentPersona * loc) * Mem :=
  match ps with
  | [] => (acc, m)
  | p :: ps' =>
      let '(l, m1) := allocAgent p idle ∅ ∅ [] initialMetrics (SDate now) m in
      initAgents ps' now (map_set p l acc) m1
  end.

Definition initializeSystemState (id : string) (now : Z) (m : Mem) : loc * Mem :=
  let '(entries, m1) := initAgents personas now [] m in
  let '(lmap, m2) := alloc (OMap entries) m1 in
  let '(lgc, m3) := alloc (ORecord ∅) m2 in
  alloc (OState {| state_id := id; phase := planning; agents := lmap;
                   globalContext := lgc; timestamp := SDate now |}) m3.

(** [deepCloneState], one entry of the map. *)
Definition cloneAgent (v : AgentStateData) (m : Mem) : option (loc * Mem) :=
  match getMemory (cells m) (memory v) with
  | None => None
  | Some (ls, ll) =>
    match getRecord (cells m) ls, getRecord (cells m) ll,
          getArray (cells m) (currentTasks v), getRecord (cells m) (metrics v) with
    | Some sh, Some lg, Some ts, Some me =>
        Some (allocAgent (persona v) (state v) sh lg ts me (lastUpdated v) m)
    | _, _, _, _ => None
    end
  end.

Fixpoint cloneEntries (es : list (AgentPersona * loc)) (m : Mem)
    : option (list (AgentPersona * loc) * Mem) :=
  match es with
  | [] => Some ([], m)
  | (k, l) :: es' =>
      match getAgent (cells m) l with
      | None => None
      | Some v =>
          match cloneAgent v m with
          | None => None
          | Some (l', m1) =>
              match cloneEntries es' m1 with
              | None => None
              | Some (es'', m2) => Some ((k, l') :: es'', m2)
              end
          end
      end
  end.

Definition deepCloneState (l : loc) (m : Mem) : option (loc * Mem) :=
  match getState (cells m) l with
  | None => None
  | Some st =>
      match getMap (cells m) (agents st) with
      | None => None
      | Some es =>
          match cloneEntries es m with
          | None => None
          | Some (es', m1) =>
              let '(lmap, m2) := alloc (OMap (map_of_entries es')) m1 in
              match getRecord (cells m2) (globalContext st) with
              | None => None
              | Some gc =>
                  let '(lgc, m3) := alloc (ORecord gc) m2 in
                  Some (alloc (OState {| state_id := state_id st; phase := phase st;
                                         agents := lmap; globalContext := lgc;
                                         timestamp := timestamp st |}) m3)
              end
          end
      end
  end.

(** [JSON.parse] of a stored state followed by [deserializeState]: all
    objects are new, the entry array becomes a [Map], the timestamp a
    [Date] again. *)
Fixpoint parseEntries (vs : list (AgentPersona * AgentValue)) (m : Mem)
    : list (AgentPersona * loc) * Mem :=
  match vs with
  | [] => ([], m)
  | (k, v) :: vs' =>
      let '(l, m1) :=
        allocAgent (v_persona v) (v_state v) (v_shortTerm v) (v_longTerm v)
                   (v_currentTasks v) (v_metrics v) (v_lastUpdated v) m in
      let '(es, m2) := parseEntries vs' m1 in
      ((k, l) :: es, m2)
  end.

Definition deserializeState (v : StateValue) (m : Mem) : loc * Mem :=
  let '(es, m1) := parseEntries (v_agents v) m in
  let '(lgc, m2) := alloc (ORecord (v_globalContext v)) m1 in
  let '(lmap, m3) := alloc (OMap (map_of_entries es)) m2 in
  alloc (OState {| state_id := v_id v; phase := v_phase v; agents := lmap;
                   globalContext := lgc;
                   timestamp := SDate (stamp_ms (v_timestamp v)) |}) m3.

(** *** The service *)

(** [constructor]: the working copy starts as a fresh initial state. *)
Definition newStore (r : Redis) (now : Z) : Store :=
  let '(l, m) := initializeSystemState (uuidv4 0) now {| cells := ∅; next := 0; bare := ∅ |} in
  {| mem := m; currentState := l; stateHistory := []; redis := r;
     uuidSeed := 1; events := [] |}.

(** The live state object and the entries of its [agents] map. *)
Definition liveAgents (s : Store) : option (loc * list (AgentPersona * loc)) :=
  match getState (cells (mem s)) (currentState s) with
  | None => None
  | Some st =>
      match getMap (cells (mem s)) (agents st) with
      | None => None
      | Some es => Some (agents st, es)
      end
  end.

(** [{ ...this.currentState }]: a new object with the same five fields. *)
Definition getSystemState (s : Store) : Result loc :=
  match getState (cells (mem s)) (currentState s) with
  | None => Throw "TypeError" s
  | Some st =>
      let '(l, m1) := alloc (OState st) (mem s) in
      Ok l (setMem m1 s)
  end.

Definition getAgentState (p : AgentPersona) (s : Store) : option loc :=
  match liveAgents s with
  | None => None
  | Some (_, es) => map_get p es
  end.

(** [persistAgentState] *)
Definition persistAgentState (p : AgentPersona) (a : AgentStateData) (s : Store)
    : Result unit :=
  match readAgentValue (cells (mem s)) a with
  | None => Throw "TypeError" s
  | Some v =>
      Ok tt (setRedis
               {| currentDoc := currentDoc (redis s);
                  agentDocs := map_set p (jsonAgent v) (agentDocs (redis s));
                  contextDoc := contextDoc (redis s);
                  snapshotDocs := snapshotDocs (redis s) |} s)
  end.

(** [Partial<AgentStateData>]; object-valued fields are references. *)
Record Partial := {
  u_persona : option AgentPersona;
  u_state : option AgentState;
  u_memory : option loc;
  u_currentTasks : option loc;
  u_metrics : option loc;
}.

Definition partialRefs (u : Partial) : list loc :=
  option_list (u_memory u) ++ option_list (u_currentTasks u) ++
  option_list (u_metrics u).

Definition updateAgentState (p : AgentPersona) (updates : Partial) (now : Z)
    (s : Store) : Result unit :=
  match liveAgents s with
  | None => Throw "TypeError" s
  | Some (lmap, es) =>
      match map_get p es with
      | None => Throw ("Agent state not found for persona: " +:+ persona_name p) s
      | Some lcur =>
          match getAgent (cells (mem s)) lcur with
          | None => Throw "TypeError" s
          | Some cur =>
              let updatedState :=
                {| persona := default (persona cur) (u_persona updates);
                   state := default (state cur) (u_state updates);
                   memory := default (memory cur) (u_memory updates);
                   currentTasks := default (currentTasks cur) (u_currentTasks updates);
                   metrics := default (metrics cur) (u_metrics updates);
                   lastUpdated := SDate now |} in
              let '(l, m1) := alloc (OAgent updatedState) (mem s) in
              let m2 := write lmap (OMap (map_set p l es)) m1 in
              match persistAgentState p updatedState (setMem m2 s) with
              | Throw e s' => Throw e s'
              | Ok _ s' => Ok tt (emit (StateAgentUpdated p l) s')
              end
          end
      end
  end.

Definition updateGlobalContext (key : string) (value : JVal) (s : Store)
    : Result unit :=
  match getState (cells (mem s)) (currentState s) with
  | None => Throw "TypeError" s
  | Some st =>
      match getRecord (cells (mem s)) (globalContext st) with
      | None => Throw "TypeError" s
      | Some gc =>
          let gc' := assigned key value gc (isBare (globalContext st) (mem s)) in
          let s1 := setMem (assign (globalContext st) key value gc (mem s)) s in
          (* persistGlobalContext *)
          let s2 :=
            setRedis {| currentDoc := currentDoc (redis s1);
                        agentDocs := agentDocs (redis s1);
                        contextDoc := Some gc';
                        snapshotDocs := snapshotDocs (redis s1) |} s1 in
          Ok tt (emit (StateContextUpdated key value) s2)
      end
  end.

Definition pushSnapshot (snapshot : StateSnapshot) (h : list StateSnapshot)
    : list StateSnapshot :=
  let h' := h ++ [snapshot] in
  if (maxHistorySize <? length h')%nat then tl h' else h'.

Definition createSnapshot (why : string) (now : Z) (s : Store) : Result string :=
  let id := uuidv4 (uuidSeed s) in
  let s0 := nextUuid s in
  match deepCloneState (currentState s0) (mem s0) with
  | None => Throw "TypeError" s0
  | Some (l, m1) =>
      let snapshot :=
        {| snap_id := id; systemState := l; createdAt := now; reason := why |} in
      let s1 := setHistory (pushSnapshot snapshot (stateHistory s0)) (setMem m1 s0) in
      (* persistSnapshot *)
      match readStateValue (cells (mem s1)) l with
      | None => Throw "TypeError" s1
      | Some v =>
          Ok id
            (setRedis
               {| currentDoc := currentDoc (redis s1);
                  agentDocs := agentDocs (redis s1);
                  contextDoc := contextDoc (redis s1);
                  snapshotDocs :=
                    <[id := {| sv_id := id; sv_state := jsonState v;
                               sv_createdAt := now; sv_reason := why |}]>
                      (snapshotDocs (redis s1)) |} s1)
      end
  end.

Definition setPhase (ph : DevelopmentPhase) (now : Z) (s : Store) : Result unit :=
  match getState (cells (mem s)) (currentState s) with
  | None => Throw "TypeError" s
  | Some st =>
      let previousPhase := phase st in
      let st' := {| state_id := state_id st; phase := ph; agents := agents st;
                    globalContext := globalContext st; timestamp := timestamp st |} in
      let s1 := setMem (write (currentState s) (OState st') (mem s)) s in
      match createSnapshot
              ("phase_transition_" +:+ phase_name previousPhase +:+ "_to_" +:+
               phase_name ph) now s1 with
      | Throw e s2 => Throw e s2
      | Ok _ s2 => Ok tt (emit (StatePhaseChanged previousPhase ph) s2)
      end
  end.

(** [saveState]: errors are caught and logged. *)
Definition saveState (s : Store) : Store :=
  match readStateValue (cells (mem s)) (currentState s) with
  | None => s
  | Some v =>
      setRedis {| currentDoc := Some (jsonState v);
                  agentDocs := agentDocs (redis s);
                  contextDoc := contextDoc (redis s);
                  snapshotDocs := snapshotDocs (redis s) |} s
  end.

(** [loadState], run by [onModuleInit]. *)
Definition loadState (s : Store) : Store :=
  match currentDoc (redis s) with
  | None => s
  | Some v =>
      let '(l, m1) := deserializeState v (mem s) in
      setCurrent l (setMem m1 s)
  end.

Definition restoreSnapshot (snapshotId : string) (s : Store) : Result unit :=
  match snapshotDocs (redis s) !! snapshotId with
  | None => Throw ("Snapshot not found: " +:+ snapshotId) s
  | Some sv =>
      let '(l0, m1) := deserializeState (sv_state sv) (mem s) in
      match deepCloneState l0 m1 with
      | None => Throw "TypeError" (setMem m1 s)
      | Some (l, m2) =>
          let s1 := saveState (setCurrent l (setMem m2 s)) in
          Ok tt (emit (StateRestored snapshotId) s1)
      end
  end.

Definition getStateHistory (limit : nat) (s : Store) : list StateSnapshot :=
  (* [slice(-limit)]; [slice(-0)] is the whole array *)
  if (limit =? 0)%nat then stateHistory s
  else drop (length (stateHistory s) - limit) (stateHistory s).

Definition updateAgentMemory (p : AgentPersona) (memoryType : MemoryType)
    (key : string) (value : JVal) (now : Z) (s : Store) : Result unit :=
  match liveAgents s with
  | None => Throw "TypeError" s
  | Some (_, es) =>
      match map_get p es with
      | None => Throw ("Agent state not found for persona: " +:+ persona_name p) s
      | Some la =>
          match getAgent (cells (mem s)) la with
          | None => Throw "TypeError" s
          | Some a =>
              match getMemory (cells (mem s)) (memory a) with
              | None => Throw "TypeError" s
              | Some (ls, ll) =>
                  let lr := match memoryType with shortTerm => ls | longTerm => ll end in
                  match getRecord (cells (mem s)) lr with
                  | None => Throw "TypeError" s
                  | Some r =>
                      let a' := {| persona := persona a; state := state a;
                                   memory := memory a;
                                   currentTasks := currentTasks a;
                                   metrics := metrics a;
                                   lastUpdated := SDate now |} in
                      let m1 := assign lr key value r (mem s) in
                      let m2 := write la (OAgent a') m1 in
                      persistAgentState p a' (setMem m2 s)
                  end
              end
          end
      end
  end.

Definition clearShortTermMemory (p : AgentPersona) (now : Z) (s : Store)
    : Result unit :=
  match liveAgents s with
  | None => Throw "TypeError" s
  | Some (_, es) =>
      match map_get p es with
      | None => Ok tt s
      | Some la =>
          match getAgent (cells (mem s)) la with
          | None => Throw "TypeError" s
          | Some a =>
              match getMemory (cells (mem s)) (memory a) with
              | None => Throw "TypeError" s
              | Some (_, ll) =>
                  let a' := {| persona := persona a; state := state a;
                               memory := memory a;
                               currentTasks := currentTasks a;
                               metrics := metrics a;
                               lastUpdated := SDate now |} in
                  let '(l, m1) := alloc (ORecord ∅) (mem s) in
                  let m2 := write (memory a) (OMemory l ll) m1 in
                  let m3 := write la (OAgent a') m2 in
                  persistAgentState p a' (setMem m3 s)
              end
          end
      end
  end.

(** Expiry of a snapshot key in Redis (24 hours after it was written). *)
Definition expireSnapshot (snapshotId : string) (s : Store) : Store :=
  setRedis {| currentDoc := currentDoc (redis s);
              agentDocs := agentDocs (redis s);
              contextDoc := contextDoc (redis s);
              snapshotDocs := delete snapshotId (snapshotDocs (redis s)) |} s.

(** *** Calls on the store *)

Inductive Op :=
  | UpdateAgentState (p : AgentPersona) (updates : Partial) (now : Z)
  | UpdateAgentMemory (p : AgentPersona) (t : MemoryType) (key : string)
                      (value : JVal) (now : Z)
  | ClearShortTermMemory (p : AgentPersona) (now : Z)
  | UpdateGlobalContext (key : string) (value : JVal)
  | SetPhase (ph : DevelopmentPhase) (now : Z)
  | CreateSnapshot (why : string) (now : Z)
  | RestoreSnapshot (snapshotId : string)
  | GetSystemState
  | SaveState
  | LoadState
  | ExpireSnapshot (snapshotId : string).

(** The store after a call, whether it returned or threw. *)
Definition applyOp (o : Op) (s : Store) : Store :=
  match o with
  | UpdateAgentState p u now => storeOf (updateAgentState p u now s)
  | UpdateAgentMemory p t k v now => storeOf (updateAgentMemory p t k v now s)
  | ClearShortTermMemory p now => storeOf (clearShortTermMemory p now s)
  | UpdateGlobalContext k v => storeOf (updateGlobalContext k v s)
  | SetPhase ph now => storeOf (setPhase ph now s)
  | CreateSnapshot why now => storeOf (createSnapshot why now s)
  | RestoreSnapshot i => storeOf (restoreSnapshot i s)
  | GetSystemState => storeOf (getSystemState s)
  | SaveState => saveState s
  | LoadState => loadState s
  | ExpireSnapshot i => expireSnapshot i s
  end.

Definition applyOps (ops : list Op) (s : Store) : Store :=
  fold_left (fun s o => applyOp o s) ops s.

(** References a caller hands over with a call. *)
Definition opRefs (o : Op) : list loc :=
  match o with
  | UpdateAgentState _ u _ => partialRefs u
  | _ => []
  end.

(** Keys of the live [agents] map, in iteration order. *)
Definition agentKeys (s : Store) : option (list AgentPersona) :=
  match liveAgents s with
  | None => None
  | Some (_, es) => Some (map fst es)
  end.

(** The live state as an observer reads it. *)
Definition liveValue (s : Store) : option StateValue :=
  readStateValue (cells (mem s)) (currentState s).

Definition initialStore : Store := newStore emptyRedis 0.

(** What a holder of the state object at [l] sees. *)
Definition seenContext (s : Store) (l : loc) (key : string) : option JVal :=
  match readStateValue (cells (mem s)) l with
  | Some v => v_globalContext v !! key
  | None => None
  end.

Definition seenAgentState (s : Store) (l : loc) (p : AgentPersona)
    : option AgentState :=
  match readStateValue (cells (mem s)) l with
  | Some v => v_state <$> map_get p (v_agents v)
  | None => None
  end.

Definition seenShortTerm (s : Store) (l : loc) (p : AgentPersona) (key : string)
    : option JVal :=
  match readStateValue (cells (mem s)) l with
  | Some v =>
      match map_get p (v_agents v) with
      | Some a => v_shortTerm a !! key
      | None => None
      end
  | None => None
  end.

Definition seenPhase (s : Store) (l : loc) : option DevelopmentPhase :=
  v_phase <$> readStateValue (cells (mem s)) l.

Definition returned (r : Result loc) : loc :=
  match r with Ok l _ => l | Throw _ _ => 0 end.

Definition working_update : Partial :=
  {| u_persona := None; u_state := Some working; u_memory := None;
     u_currentTasks := None; u_metrics := None |}.

(** One call of each kind that changes the live state. *)
Definition exampleCalls : list Op :=
  [UpdateGlobalContext "k" (JStr "v");
   UpdateAgentState tech_lead working_update 7;
   UpdateAgentMemory qa_engineer shortTerm "note" (JStr "x") 8;
   ClearShortTermMemory qa_engineer 9;
   SetPhase scaffold 10].

(** A run through every kind of call. *)
Definition lifecycleCalls : list Op :=
  [UpdateAgentState product_engineer working_update 1;
   CreateSnapshot "before" 2;
   UpdateGlobalContext "k" (JStr "v");
   SetPhase feature 3;
   RestoreSnapshot "uuid-1";
   SaveState; LoadState;
   ExpireSnapshot "uuid-1";
   RestoreSnapshot "uuid-1";
   UpdateAgentMemory doc_specialist longTerm "style" (JStr "terse") 4;
   ClearShortTermMemory qa_engineer 5;
   GetSystemState].

(** The state value with another phase. *)
Definition withPhase (ph : DevelopmentPhase) (v : StateValue) : StateValue :=
  {| v_id := v_id v; v_phase := ph; v_agents := v_agents v;
     v_globalContext := v_globalContext v; v_timestamp := v_timestamp v |}.

Definition isReturn {A} (r : Result A) : bool :=
  match r with Ok _ _ => true | Throw _ _ => false end.

(** The phase a retained snapshot shows. *)
Definition snapshotPhase (s : Store) (snapshot : StateSnapshot)
    : option DevelopmentPhase :=
  v_phase <$> readStateValue (cells (mem s)) (systemState snapshot).

(** *** Vocabulary of the proofs *)

(** Nothing is stored at or above the allocation pointer. *)
Definition domBelow (m : Mem) : Prop :=
  forall l, next m <= l -> cells m !! l = None.

(** No object refers to a location not yet allocated. *)
Definition refsBelow (m : Mem) : Prop :=
  forall l o, cells m !! l = Some o -> Forall (fun r => r < next m) (refs o).

Definition wfStore (s : Store) : Prop :=
  domBelow (mem s) /\ refsBelow (mem s) /\ currentState s < next (mem s).

(** [m'] differs from [m] only by objects allocated in between. *)
Definition extends (m m' : Mem) : Prop :=
  next m <= next m' /\
  (forall l, l < next m -> cells m' !! l = cells m !! l) /\
  (forall l, next m' <= l -> cells m' !! l = cells m !! l).

(** The objects allocated between [m] and [m'] refer only to objects
    allocated from [n0] on. *)
Definition newCellsFrom (n0 : loc) (m m' : Mem) : Prop :=
  forall l o, next m <= l -> l < next m' -> cells m' !! l = Some o ->
    Forall (fun r => n0 <= r /\ r < next m') (refs o).

Definition allocates (n0 : loc) (m m' : Mem) : Prop :=
  n0 <= next m /\ extends m m' /\ newCellsFrom n0 m m'.

(** Two objects of one class; for a state the same [agents] map, for a
    map the same keys in the same order. *)
Definition similar (o o' : obj) : Prop :=
  match o, o' with
  | ORecord _, ORecord _ | OArray _, OArray _
  | OMemory _ _, OMemory _ _ | OAgent _, OAgent _ => True
  | OMap m, OMap m' => map fst m = map fst m'
  | OState st, OState st' => agents st = agents st'
  | _, _ => False
  end.

Definition stable (h h' : gmap loc obj) : Prop :=
  forall l o, h !! l = Some o -> exists o', h' !! l = Some o' /\ similar o o'.

Definition rosterDoc (v : StateValue) : Prop := map fst (v_agents v) = personas.

(** Every state kept in Redis has the roster for its entries. *)
Definition rosterRedis (r : Redis) : Prop :=
  (forall v, currentDoc r = Some v -> rosterDoc v) /\
  (forall i sv, snapshotDocs r !! i = Some sv -> rosterDoc (sv_state sv)).

Definition rosterInv (s : Store) : Prop :=
  domBelow (mem s) /\ agentKeys s = Some personas /\ rosterRedis (redis s).

(** [P] holds of every location an object at a [P]-location refers to. *)
Definition closedUnder (P : loc -> Prop) (m : Mem) : Prop :=
  forall l o, P l -> cells m !! l = Some o -> Forall P (refs o).

(** From [m] to [m'] only [P]-locations were written, what was written
    refers to [P]-locations only and every object kept its class. *)
Definition changes (P : loc -> Prop) (m m' : Mem) : Prop :=
  next m <= next m' /\
  (forall l, ~ P l -> cells m' !! l = cells m !! l) /\
  (forall l o, cells m' !! l = Some o ->
     cells m !! l = Some o \/ Forall P (refs o)) /\
  stable (cells m) (cells m') /\
  domBelow m'.

(** No restriction on locations. *)
Definition anyLoc : loc -> Prop := fun _ => True.

(** The store is in order for [P]: the live state is at a [P]-location,
    [P] is closed under the references of the heap and holds of every
    location still to be allocated. *)
Definition goodFor (P : loc -> Prop) (s : Store) : Prop :=
  domBelow (mem s) /\ closedUnder P (mem s) /\ P (currentState s) /\
  (forall l, next (mem s) <= l -> P l).

(** The objects a snapshot consists of lie in [[n0, n1)]. *)
Definition inRegion (n0 n1 : loc) (l : loc) : Prop := n0 <= l /\ l < n1.

(** *** Typed heaps *)

(** The class of an object. *)
Inductive Kind := KRecord | KArray | KMemory | KAgent | KMap | KState.

Definition kind (o : obj) : Kind :=
  match o with
  | ORecord _ => KRecord
  | OArray _ => KArray
  | OMemory _ _ => KMemory
  | OAgent _ => KAgent
  | OMap _ => KMap
  | OState _ => KState
  end.

Definition kindAt (h : gmap loc obj) (l : loc) : option Kind := kind <$> h !! l.

(** The fields of [o] hold objects of the classes the TypeScript
    interfaces declare; a [Map] has each key once. *)
Definition typed (h : gmap loc obj) (o : obj) : Prop :=
  match o with
  | ORecord _ | OArray _ => True
  | OMemory s g => kindAt h s = Some KRecord /\ kindAt h g = Some KRecord
  | OAgent a =>
      kindAt h (memory a) = Some KMemory /\
      kindAt h (currentTasks a) = Some KArray /\
      kindAt h (metrics a) = Some KRecord
  | OMap es =>
      List.NoDup (map fst es) /\
      Forall (fun l => kindAt h l = Some KAgent) (map snd es)
  | OState st =>
      kindAt h (agents st) = Some KMap /\
      kindAt h (globalContext st) = Some KRecord
  end.

Definition typedHeap (m : Mem) : Prop :=
  domBelow m /\ forall l o, cells m !! l = Some o -> typed (cells m) o.

Definition typedStore (s : Store) : Prop :=
  typedHeap (mem s) /\ kindAt (cells (mem s)) (currentState s) = Some KState.

(** The objects a caller hands over are of the declared classes. *)
Definition typedPartial (h : gmap loc obj) (u : Partial) : Prop :=
  (forall l, u_memory u = Some l -> kindAt h l = Some KMemory) /\
  (forall l, u_currentTasks u = Some l -> kindAt h l = Some KArray) /\
  (forall l, u_metrics u = Some l -> kindAt h l = Some KRecord).

Definition typedOp (h : gmap loc obj) (o : Op) : Prop :=
  match o with
  | UpdateAgentState _ u _ => typedPartial h u
  | _ => True
  end.

(** Every call of the sequence is well typed at the time it is made. *)
Fixpoint typedCalls (ops : list Op) (s : Store) : Prop :=
  match ops with
  | [] => True
  | o :: ops' => typedOp (cells (mem s)) o /\ typedCalls ops' (applyOp o s)
  end.

(** [m'] is a typed heap in which every object of [m] has kept its class. *)
Definition keeps (m m' : Mem) : Prop :=
  typedHeap m' /\
  forall l k, kindAt (cells m) l = Some k -> kindAt (cells m') l = Some k.

(** *** Reading memory, and what Redis gives back *)

(** [getAgentMemory]: [{ ...agentState.memory[memoryType] }], a new
    record; [{}] when the persona has no entry. *)
Definition getAgentMemory (p : AgentPersona) (memoryType : MemoryType)
    (s : Store) : Result loc :=
  match liveAgents s with
  | None => Throw "TypeError" s
  | Some (_, es) =>
      match map_get p es with
      | None =>
          let '(l, m1) := alloc (ORecord ∅) (mem s) in
          Ok l (setMem m1 s)
      | Some la =>
          match getAgent (cells (mem s)) la with
          | None => Throw "TypeError" s
          | Some a =>
              match getMemory (cells (mem s)) (memory a) with
              | None => Throw "TypeError" s
              | Some (ls, ll) =>
                  let lr := match memoryType with shortTerm => ls | longTerm => ll end in
                  match getRecord (cells (mem s)) lr with
                  | None => Throw "TypeError" s
                  | Some r =>
                      let '(l, m1) := alloc (ORecord r) (mem s) in
                      Ok l (setMem m1 s)
                  end
              end
          end
      end
  end.

(** The value of the state [deserializeState] builds from a stored
    document: the entry array becomes a [Map] (a repeated key keeps its
    first position and its last value), the timestamp a [Date]; the
    [lastUpdated] of the agents stay the strings JSON made of them. *)
Definition deserialized (v : StateValue) : StateValue :=
  {| v_id := v_id v; v_phase := v_phase v;
     v_agents := map_of_entries (v_agents v);
     v_globalContext := v_globalContext v;
     v_timestamp := SDate (stamp_ms (v_timestamp v)) |}.

(** A state after a trip through Redis. *)
Definition reloaded (v : StateValue) : StateValue :=
  {| v_id := v_id v; v_phase := v_phase v;
     v_agents := map (fun e => (fst e, jsonAgent (snd e))) (v_agents v);
     v_globalContext := v_globalContext v;
     v_timestamp := SDate (stamp_ms (v_timestamp v)) |}.

(** The calls that neither write nor expire a snapshot key. *)
Definition keepsSnapshots (o : Op) : bool :=
  match o with
  | CreateSnapshot _ _ | SetPhase _ _ | ExpireSnapshot _ => false
  | _ => true
  end.

(** The record a holder of [l] reads. *)
Definition seenRecord (s : Store) (l : loc) : option (gmap string JVal) :=
  getRecord (cells (mem s)) l.

(** The memory record of a persona in the live state. *)
Definition liveMemory (p : AgentPersona) (memoryType : MemoryType) (s : Store)
    : option (gmap string JVal) :=
  match liveValue s with
  | None => None
  | Some v =>
      match map_get p (v_agents v) with
      | None => None
      | Some a =>
          Some (match memoryType with
                | shortTerm => v_shortTerm a
                | longTerm => v_longTerm a
                end)
      end
  end.

(** What a caller of [getAgentMemory] reads in the record it is given. *)
Definition memoryRead (p : AgentPersona) (t : MemoryType) (s : Store)
    : option (gmap string JVal) :=
  match getAgentMemory p t s with
  | Ok l s' => getRecord (cells (mem s')) l
  | Throw _ _ => None
  end.

(** [snapshot.systemState.agents.get(p).memory]: the memory object of an
    agent inside a snapshot. *)
Definition snapshotMemory (s : Store) (snapshot : StateSnapshot)
    (p : AgentPersona) : option loc :=
  match getState (cells (mem s)) (systemState snapshot) with
  | Some st =>
      match getMap (cells (mem s)) (agents st) with
      | Some es =>
          match map_get p es with
          | Some la => memory <$> getAgent (cells (mem s)) la
          | None => None
          end
      | None => None
      end
  | None => None
  end.

(** [{ memory: m }] as the [updates] of [updateAgentState]. *)
Definition memoryUpdate (lm : loc) : Partial :=
  {| u_persona := None; u_state := None; u_memory := Some lm;
     u_currentTasks := None; u_metrics := None |}.

(** Where the memory record of a persona lives. *)
Definition memoryLoc (p : AgentPersona) (t : MemoryType) (s : Store) : option loc :=
  match liveAgents s with
  | None => None
  | Some (_, es) =>
      match map_get p es with
      | None => None
      | Some la =>
          match getAgent (cells (mem s)) la with
          | None => None
          | Some a =>
              match getMemory (cells (mem s)) (memory a) with
              | None => None
              | Some (ls, ll) =>
                  Some (match t with shortTerm => ls | longTerm => ll end)
              end
          end
      end
  end.

(** The memory record of one kind in a stored agent document. *)
Definition docMemory (t : MemoryType) (a : AgentValue) : gmap string JVal :=
  match t with shortTerm => v_shortTerm a | longTerm => v_longTerm a end.

(** The error a call ends with, if it throws. *)
Definition thrown {A} (r : Result A) : option string :=
  match r with Ok _ _ => None | Throw e _ => Some e end.

End StateManager.

(** ** Orchestrator *)

Module Orchestrator.

(** [BaseAgent] as far as the orchestrator reads and writes it. *)
Record BaseAgent := {
  a_id : string;
  a_persona : AgentPersona;
  a_state : AgentState;
  a_currentTasks : list Task;
  a_messageQueue : list MessageBus.AgentMessage;
  a_lastActivity : Z;
}.

(** [currentLoad] is kept in tenths: [Math.min(taskWeight / 10, 1.0)]. *)
Record AgentStatus := {
  agentId : string;
  s_persona : AgentPersona;
  s_state : AgentState;
  currentLoad : Z;
  availability : bool;
  lastActivity : Z;
  activeTaskCount : nat;
}.

Record PhaseConfig := {
  cfg_phase : DevelopmentPhase;
  cfg_activeAgents : list AgentPersona;
  exitCriteria : list string;
  deliverables : list string;
}.

Inductive Event :=
  | PhaseInitialized (ph : DevelopmentPhase) (active : list AgentPersona)
  | PhaseTransitioned (fromPhase toPhase : DevelopmentPhase)
  | PhaseReportGenerated (ph : DevelopmentPhase)
  | PhaseDataArchived (ph : DevelopmentPhase).

Record Orchestrator := {
  currentPhase : DevelopmentPhase;
  activeAgents : list (AgentPersona * AgentStatus);
  taskQueue : list Task;
  agents : list (AgentPersona * BaseAgent);
  phaseConfigs : list (DevelopmentPhase * PhaseConfig);
  completedTaskCount : nat;
  events : list Event;
}.

(** How an [async] method ends: it returns, it throws, or it is still
    waiting for something only another party can bring about. *)
Inductive Outcome (A : Type) :=
  | Returned (a : A)
  | Threw (err : string)
  | Waiting.
Arguments Returned {A} a.
Arguments Threw {A} err.
Arguments Waiting {A}.

Definition phases : list DevelopmentPhase :=
  [planning; scaffold; feature; test; review; deploy].

Definition phaseAgentMap (ph : DevelopmentPhase) : list AgentPersona :=
  match ph with
  | planning => [tech_lead; product_engineer]
  | scaffold => [tech_lead; devops_specialist]
  | feature => [product_engineer; code_reviewer]
  | test => [qa_engineer; product_engineer]
  | review => [code_reviewer; tech_lead; qa_engineer]
  | deploy => [devops_specialist; tech_lead]
  end.

Definition getPhaseExitCriteria (ph : DevelopmentPhase) : list string :=
  match ph with
  | planning => ["requirements_documented"; "architecture_defined"]
  | scaffold => ["project_structure_created"; "ci_cd_configured"]
  | feature => ["features_implemented"; "unit_tests_passing"]
  | test => ["all_tests_passing"; "coverage_target_met"]
  | review => ["code_review_approved"; "security_scan_passed"]
  | deploy => ["deployment_successful"; "health_checks_passing"]
  end.

Definition getPhaseDeliverables (ph : DevelopmentPhase) : list string :=
  match ph with
  | planning => ["requirements.md"; "architecture.md"]
  | scaffold => ["package.json"; "tsconfig.json"; ".github/workflows"]
  | feature => ["src/"; "tests/"]
  | test => ["test-report.html"; "coverage-report.html"]
  | review => ["review-report.md"; "security-report.md"]
  | deploy => ["deployment-manifest.yml"; "release-notes.md"]
  end.

Definition initializePhaseConfigs : list (DevelopmentPhase * PhaseConfig) :=
  fold_left
    (fun m ph =>
       map_set ph {| cfg_phase := ph; cfg_activeAgents := phaseAgentMap ph;
                     exitCriteria := getPhaseExitCriteria ph;
                     deliverables := getPhaseDeliverables ph |} m)
    phases [].

(** The service as its constructor leaves it: no agent is registered. *)
Definition newOrchestrator : Orchestrator :=
  {| currentPhase := planning; activeAgents := []; taskQueue := [];
     agents := []; phaseConfigs := initializePhaseConfigs;
     completedTaskCount := 0; events := [] |}.

Definition emit (e : Event) (o : Orchestrator) : Orchestrator :=
  {| currentPhase := currentPhase o; activeAgents := activeAgents o;
     taskQueue := taskQueue o; agents := agents o;
     phaseConfigs := phaseConfigs o;
     completedTaskCount := completedTaskCount o; events := events o ++ [e] |}.

Definition setPhaseField (ph : DevelopmentPhase) (o : Orchestrator) : Orchestrator :=
  {| currentPhase := ph; activeAgents := activeAgents o;
     taskQueue := taskQueue o; agents := agents o;
     phaseConfigs := phaseConfigs o;
     completedTaskCount := completedTaskCount o; events := events o |}.

Definition setAgents (ags : list (AgentPersona * BaseAgent))
    (act : list (AgentPersona * AgentStatus)) (o : Orchestrator) : Orchestrator :=
  {| currentPhase := currentPhase o; activeAgents := act;
     taskQueue := taskQueue o; agents := ags;
     phaseConfigs := phaseConfigs o;
     completedTaskCount := completedTaskCount o; events := events o |}.

(** *** [BaseAgent] methods *)

Definition priorityWeight (p : Priority) : Z :=
  match p with LOW => 1 | MEDIUM => 2 | HIGH => 3 | CRITICAL => 4 end.

Definition calculateCurrentLoad (a : BaseAgent) : Z :=
  Z.min (fold_left (fun sum t => (sum + priorityWeight (priority t))%Z)
                   (a_currentTasks a) 0%Z) 10.

Definition isAvailable (a : BaseAgent) : bool :=
  bool_decide (a_state a = idle) && (length (a_currentTasks a) <? 3)%nat.

Definition reportStatus (a : BaseAgent) : AgentStatus :=
  {| agentId := a_id a; s_persona := a_persona a; s_state := a_state a;
     currentLoad := calculateCurrentLoad a; availability := isAvailable a;
     lastActivity := a_lastActivity a;
     activeTaskCount := length (a_currentTasks a) |}.

(** [initialize]: the state becomes idle; [loadMemory] and [setupTools]
    of the personas only log. *)
Definition initialize (a : BaseAgent) : BaseAgent :=
  {| a_id := a_id a; a_persona := a_persona a; a_state := idle;
     a_currentTasks := a_currentTasks a; a_messageQueue := a_messageQueue a;
     a_lastActivity := a_lastActivity a |}.

(** [shutdown]: idle, then [cleanupResources]. *)
Definition shutdown (a : BaseAgent) : BaseAgent :=
  {| a_id := a_id a; a_persona := a_persona a; a_state := idle;
     a_currentTasks := []; a_messageQueue := [];
     a_lastActivity := a_lastActivity a |}.

(** *** The service *)

Section ExitCriteria.
(** [checkExitCriterion]; the shipped body is [return true]. *)
Variable checkExitCriterion : string -> bool.

Definition validatePhaseTransition (from _to : DevelopmentPhase) (o : Orchestrator)
    : bool :=
  match map_get from (phaseConfigs o) with
  | None => false
  | Some currentConfig => forallb checkExitCriterion (exitCriteria currentConfig)
  end.

(** [gracefullyStopAgent]: wait (at most 30 s) for the agent to be idle,
    then shut it down. *)
Definition gracefullyStopAgent (a : BaseAgent) : BaseAgent := shutdown a.

Definition deactivateCurrentAgents (o : Orchestrator) : Orchestrator :=
  let ags :=
    map (fun e => (fst e,
                   if bool_decide (a_state (snd e) = idle) then snd e
                   else gracefullyStopAgent (snd e))) (agents o) in
  let act :=
    fold_left (fun m e => map_delete (fst e) m) (agents o) (activeAgents o) in
  setAgents ags act o.

Definition createOrGetAgent (p : AgentPersona) (o : Orchestrator)
    : Outcome BaseAgent :=
  match map_get p (agents o) with
  | Some existing => Returned existing
  | None => Threw ("Agent implementation not found for persona: " +:+ persona_name p)
  end.

Fixpoint activatePhaseAgents (ps : list AgentPersona) (o : Orchestrator)
    : Outcome unit * Orchestrator :=
  match ps with
  | [] => (Returned tt, o)
  | p :: ps' =>
      match createOrGetAgent p o with
      | Returned agent =>
          let agent' := initialize agent in
          activatePhaseAgents ps'
            (setAgents (map_set p agent' (agents o))
                       (map_set p (reportStatus agent') (activeAgents o)) o)
      | Threw e => (Threw e, o)
      | Waiting => (Waiting, o)
      end
  end.

Definition initializePhase (ph : DevelopmentPhase) (o : Orchestrator)
    : Outcome unit * Orchestrator :=
  let o1 := setPhaseField ph o in
  match map_get ph (phaseConfigs o1) with
  | None => (Threw ("Phase configuration not found for: " +:+ phase_name ph), o1)
  | Some phaseConfig =>
      let o2 := deactivateCurrentAgents o1 in
      match activatePhaseAgents (cfg_activeAgents phaseConfig) o2 with
      | (Returned _, o3) =>
          (Returned tt, emit (PhaseInitialized ph (cfg_activeAgents phaseConfig)) o3)
      | (Threw e, o3) => (Threw e, o3)
      | (Waiting, o3) => (Waiting, o3)
      end
  end.

(** [waitForTaskCompletion] polls until the queue is empty; nothing in
    this call empties it. *)
Definition waitForTaskCompletion (o : Orchestrator) : Outcome unit :=
  match taskQueue o with
  | [] => Returned tt
  | _ :: _ => Waiting
  end.

Definition completeCurrentPhase (o : Orchestrator) : Outcome unit * Orchestrator :=
  match waitForTaskCompletion o with
  | Returned _ =>
      (Returned tt,
       emit (PhaseDataArchived (currentPhase o))
            (emit (PhaseReportGenerated (currentPhase o)) o))
  | Threw e => (Threw e, o)
  | Waiting => (Waiting, o)
  end.

Definition transitionPhase (toPhase : DevelopmentPhase) (o : Orchestrator)
    : Outcome bool * Orchestrator :=
  match map_get (currentPhase o) (phaseConfigs o), map_get toPhase (phaseConfigs o) with
  | Some _, Some _ =>
      if validatePhaseTransition (currentPhase o) toPhase o then
        match completeCurrentPhase o with
        | (Returned _, o1) =>
            match initializePhase toPhase o1 with
            | (Returned _, o2) =>
                (Returned true, emit (PhaseTransitioned (currentPhase o2) toPhase) o2)
            | (Threw e, o2) => (Threw e, o2)
            | (Waiting, o2) => (Waiting, o2)
            end
        | (Threw e, o1) => (Threw e, o1)
        | (Waiting, o1) => (Waiting, o1)
        end
      else (Returned false, o)
  | _, _ => (Returned false, o)
  end.
End ExitCriteria.

(** What [deactivateCurrentAgents] does to one agent. *)
Definition stopIfBusy (a : BaseAgent) : BaseAgent :=
  if bool_decide (a_state a = idle) then a else gracefullyStopAgent a.

(** The shipped criterion check and one that rejects a criterion. *)
Definition shippedCheck : string -> bool := fun _ => true.
Definition strictCheck : string -> bool :=
  fun c => negb (String.eqb c "architecture_defined").

Definition exampleAgent (p : AgentPersona) (st : AgentState) : BaseAgent :=
  {| a_id := "agent-" +:+ persona_name p; a_persona := p; a_state := st;
     a_currentTasks := []; a_messageQueue := []; a_lastActivity := 0 |}.

(** An orchestrator in which the six agents were registered. *)
Definition staffedOrchestrator : Orchestrator :=
  {| currentPhase := planning; activeAgents := []; taskQueue := [];
     agents := map (fun p => (p, exampleAgent p (if bool_decide (p = qa_engineer)
                                                 then working else idle))) personas;
     phaseConfigs := initializePhaseConfigs;
     completedTaskCount := 0; events := [] |}.

(** *** [BaseAgent]: tasks and messages

    [metrics.tasksCompleted] and the events the agent emits are kept
    beside the fields the orchestrator reads. *)
Inductive AgentEvent :=
  | MessageReceived (m : MessageBus.AgentMessage)
  | TaskStarted (t : Task)
  | TaskCompleted (t : Task)
  | TaskError (t : Task) (err : string)
  | MetricsUpdated (completed : nat)
  | QueryReceived (m : MessageBus.AgentMessage)
  | ResponseReceived (m : MessageBus.AgentMessage)
  | CritiqueReceived (m : MessageBus.AgentMessage)
  | AgentPaused
  | AgentResumed.

Record AgentRun := {
  self : BaseAgent;
  tasksCompleted : nat;
  emitted : list AgentEvent;
}.

Definition withState (st : AgentState) (a : BaseAgent) : BaseAgent :=
  {| a_id := a_id a; a_persona := a_persona a; a_state := st;
     a_currentTasks := a_currentTasks a; a_messageQueue := a_messageQueue a;
     a_lastActivity := a_lastActivity a |}.

Definition withTasks (ts : list Task) (a : BaseAgent) : BaseAgent :=
  {| a_id := a_id a; a_persona := a_persona a; a_state := a_state a;
     a_currentTasks := ts; a_messageQueue := a_messageQueue a;
     a_lastActivity := a_lastActivity a |}.

Definition withQueue (q : list MessageBus.AgentMessage) (a : BaseAgent) : BaseAgent :=
  {| a_id := a_id a; a_persona := a_persona a; a_state := a_state a;
     a_currentTasks := a_currentTasks a; a_messageQueue := q;
     a_lastActivity := a_lastActivity a |}.

Definition withActivity (now : Z) (a : BaseAgent) : BaseAgent :=
  {| a_id := a_id a; a_persona := a_persona a; a_state := a_state a;
     a_currentTasks := a_currentTasks a; a_messageQueue := a_messageQueue a;
     a_lastActivity := now |}.

Definition onSelf (f : BaseAgent -> BaseAgent) (r : AgentRun) : AgentRun :=
  {| self := f (self r); tasksCompleted := tasksCompleted r; emitted := emitted r |}.

Definition emitA (e : AgentEvent) (r : AgentRun) : AgentRun :=
  {| self := self r; tasksCompleted := tasksCompleted r;
     emitted := emitted r ++ [e] |}.

(** [updateMetrics('tasksCompleted', this.metrics.tasksCompleted + 1)] *)
Definition countCompleted (r : AgentRun) : AgentRun :=
  emitA (MetricsUpdated (S (tasksCompleted r)))
        {| self := self r; tasksCompleted := S (tasksCompleted r);
           emitted := emitted r |}.

(** An agent as the orchestrator holds it, before it has run anything. *)
Definition run (a : BaseAgent) : AgentRun :=
  {| self := a; tasksCompleted := 0; emitted := [] |}.

Section AgentBehaviour.
(** [validateTask] and [performTask] are abstract.  The six personas
    implement them as functions of the task that write no field of the
    agent: [taskRuns t] is [None] when both return for [t], and the
    message of the error when one of them throws.  A [TASK] message
    carries its task as payload ([message.payload as Task]). *)
Variable taskRuns : Task -> option string.
Variable taskOf : MessageBus.AgentMessage -> Task.

(** [executeTask]; the [finally] block runs on both paths. *)
Definition executeTask (task : Task) (now : Z) (r : AgentRun)
    : Outcome unit * AgentRun :=
  let r1 :=
    emitA (TaskStarted task)
      (onSelf (fun a => withTasks (a_currentTasks a ++ [task]) (withState working a))
              r) in
  let finally :=
    onSelf (fun a =>
              withActivity now
                (withTasks (filter (fun t => task_id t <> task_id task)
                                   (a_currentTasks a)) a)) in
  match taskRuns task with
  | None =>
      (Returned tt,
       finally (onSelf (withState idle)
                  (countCompleted (emitA (TaskCompleted task) r1))))
  | Some err =>
      (Threw err,
       finally (emitA (TaskError task err) (onSelf (withState blocked) r1)))
  end.

Definition handleMessage (message : MessageBus.AgentMessage) (now : Z)
    (r : AgentRun) : Outcome unit * AgentRun :=
  match MessageBus.messageType message with
  | TASK => executeTask (taskOf message) now r
  | QUERY => (Returned tt, emitA (QueryReceived message) r)
  | RESPONSE => (Returned tt, emitA (ResponseReceived message) r)
  | CRITIQUE => (Returned tt, emitA (CritiqueReceived message) r)
  end.

(** The loop of [processMessageQueue], over the messages still queued:
    [queue] is [this.messageQueue] at the head of the loop, which
    [handleMessage] leaves alone. *)
Fixpoint drainQueue (queue : list MessageBus.AgentMessage) (now : Z)
    (r : AgentRun) : Outcome unit * AgentRun :=
  match queue with
  | [] => (Returned tt, r)
  | message :: queue' =>
      if bool_decide (a_state (self r) = idle) then
        match handleMessage message now (onSelf (withQueue queue') r) with
        | (Returned _, r') => drainQueue queue' now r'
        | (Threw e, r') => (Threw e, r')
        | (Waiting, r') => (Waiting, r')
        end
      else (Returned tt, r)
  end.

Definition processMessageQueue (now : Z) (r : AgentRun) : Outcome unit * AgentRun :=
  drainQueue (a_messageQueue (self r)) now r.

Definition processMessage (message : MessageBus.AgentMessage) (now : Z)
    (r : AgentRun) : Outcome unit * AgentRun :=
  let r1 :=
    emitA (MessageReceived message)
      (onSelf (fun a => withQueue (a_messageQueue a ++ [message]) a) r) in
  if bool_decide (a_state (self r1) = idle) then processMessageQueue now r1
  else (Returned tt, r1).

Definition pause (r : AgentRun) : AgentRun :=
  emitA AgentPaused (onSelf (withState paused) r).

Definition resume (now : Z) (r : AgentRun) : Outcome unit * AgentRun :=
  processMessageQueue now (emitA AgentResumed (onSelf (withState idle) r)).

(** Messages that arrive one after the other; the first call that throws
    ends the run. *)
Fixpoint receiveAll (ms : list MessageBus.AgentMessage) (now : Z) (r : AgentRun)
    : Outcome unit * AgentRun :=
  match ms with
  | [] => (Returned tt, r)
  | m :: ms' =>
      match processMessage m now r with
      | (Returned _, r') => receiveAll ms' now r'
      | (Threw e, r') => (Threw e, r')
      | (Waiting, r') => (Waiting, r')
      end
  end.

(** The error handling a message ends with, if any. *)
Definition failure (m : MessageBus.AgentMessage) : option string :=
  match MessageBus.messageType m with
  | TASK => taskRuns (taskOf m)
  | _ => None
  end.

Definition isTask (m : MessageBus.AgentMessage) : bool :=
  match MessageBus.messageType m with TASK => true | _ => false end.

(** The tasks the agent has started, in order. *)
Definition started (evs : list AgentEvent) : list Task :=
  omap (fun e => match e with TaskStarted t => Some t | _ => None end) evs.

(** *** The orchestrator and its agents

    The orchestrator reads neither the metrics nor the events of an
    agent. *)

(** [updateAgentStatus] *)
Definition updateAgentStatus (p : AgentPersona) (st : AgentStatus)
    (o : Orchestrator) : Orchestrator :=
  setAgents (agents o) (map_set p st (activeAgents o)) o.

Definition pauseAgent (p : AgentPersona) (o : Orchestrator) : Orchestrator :=
  match map_get p (agents o) with
  | None => o
  | Some agent =>
      let agent' := self (pause (run agent)) in
      updateAgentStatus p (reportStatus agent')
        (setAgents (map_set p agent' (agents o)) (activeAgents o) o)
  end.

Definition resumeAgent (p : AgentPersona) (now : Z) (o : Orchestrator)
    : Outcome unit * Orchestrator :=
  match map_get p (agents o) with
  | None => (Returned tt, o)
  | Some agent =>
      match resume now (run agent) with
      | (Returned _, r) =>
          (Returned tt,
           updateAgentStatus p (reportStatus (self r))
             (setAgents (map_set p (self r) (agents o)) (activeAgents o) o))
      | (Threw e, r) =>
          (Threw e, setAgents (map_set p (self r) (agents o)) (activeAgents o) o)
      | (Waiting, r) =>
          (Waiting, setAgents (map_set p (self r) (agents o)) (activeAgents o) o)
      end
  end.

(** [status.availability && status.currentLoad < 0.8], the load in tenths. *)
Definition getAvailableAgents (o : Orchestrator) : list AgentPersona :=
  map fst (List.filter (fun e => availability (snd e) && (currentLoad (snd e) <? 8)%Z)
                       (activeAgents o)).

(** The strategy is ['skill-based'] and [selectBySkills] takes the first. *)
Definition selectBestAgent (task : Task) (availableAgents : list AgentPersona)
    : option AgentPersona :=
  match availableAgents with
  | [] => None
  | p :: _ => Some p
  end.

Definition assignedTask (task : Task) (p : AgentPersona) : Task :=
  {| task_id := task_id task; title := title task; description := description task;
     assignedTo := p; status := status task; priority := priority task;
     createdAt := createdAt task; updatedAt := updatedAt task |}.

(** [assignTask]; the third component is the [task:assigned] events the
    call emits. *)
Definition assignTask (task : Task) (now : Z) (o : Orchestrator)
    : Outcome AgentPersona * Orchestrator * list (Task * AgentPersona) :=
  match selectBestAgent task (getAvailableAgents o) with
  | None => (Threw "No available agent for task assignment", o, [])
  | Some assignedAgent =>
      let task' := assignedTask task assignedAgent in
      match map_get assignedAgent (agents o) with
      | None => (Returned assignedAgent, o, [(task', assignedAgent)])
      | Some agentInstance =>
          match executeTask task' now (run agentInstance) with
          | (Returned _, r) =>
              (Returned assignedAgent,
               setAgents (map_set assignedAgent (self r) (agents o)) (activeAgents o) o,
               [(task', assignedAgent)])
          | (Threw e, r) =>
              (Threw e,
               setAgents (map_set assignedAgent (self r) (agents o)) (activeAgents o) o,
               [])
          | (Waiting, r) =>
              (Waiting,
               setAgents (map_set assignedAgent (self r) (agents o)) (activeAgents o) o,
               [])
          end
      end
  end.

(** Tasks assigned one after the other; the personas they went to, [None]
    for a call that threw. *)
Fixpoint assignAll (tasks : list Task) (now : Z) (o : Orchestrator)
    : list (option AgentPersona) * Orchestrator :=
  match tasks with
  | [] => ([], o)
  | t :: ts =>
      let '(res, o1, _) := assignTask t now o in
      let '(rest, o2) := assignAll ts now o1 in
      (match res with Returned p => Some p | _ => None end :: rest, o2)
  end.
End AgentBehaviour.

(** [ProductEngineerAgent]: [validateTask] rejects a task without title
    or description, [performTask] returns for every other task. *)
Definition productEngineerRuns (t : Task) : option string :=
  if bool_decide (title t = "") || bool_decide (description t = "")
  then Some "Task must have title and description" else None.

(** A message whose payload, read as a task, is titled and described by
    [body]. *)
Definition agentMessage (id : string) (ty : MessageType) (body : string)
    : MessageBus.AgentMessage :=
  {| MessageBus.msg_id := id; MessageBus.fromAgent := tech_lead;
     MessageBus.toAgent := MessageBus.ToOne product_engineer;
     MessageBus.messageType := ty; MessageBus.payload := body;
     MessageBus.msg_priority := MEDIUM; MessageBus.timestamp := 0 |}.

Definition payloadTask (m : MessageBus.AgentMessage) : Task :=
  {| task_id := MessageBus.msg_id m; title := MessageBus.payload m;
     description := MessageBus.payload m; assignedTo := product_engineer;
     status := st_pending; priority := MessageBus.msg_priority m;
     createdAt := MessageBus.timestamp m; updatedAt := MessageBus.timestamp m |}.

(** A product engineer with [queue] waiting. *)
Definition queuedAgent (queue : list MessageBus.AgentMessage) : AgentRun :=
  run (withQueue queue (exampleAgent product_engineer idle)).

(** The orchestrator of [staffedOrchestrator] in the [deploy] phase. *)
Definition deployOrchestrator : Orchestrator :=
  snd (transitionPhase shippedCheck deploy staffedOrchestrator).

End Orchestrator.

(** ** System controller (api/system) *)

Module SystemController.

(** What an endpoint answers: the body of its response, an
    [HttpException] with its status and message, or nothing yet. *)
Inductive Response (A : Type) :=
  | Answer (body : A)
  | HttpError (status : nat) (message : string)
  | Pending.
Arguments Answer {A} body.
Arguments HttpError {A} status message.
Arguments Pending {A}.

(** [error.message || fallback] *)
Definition messageOr (message fallback : string) : string :=
  if decide (message = "") then fallback else message.

(** [POST phase/transition]; the body answered holds [newPhase].  The
    [HttpException] (status 400) of a refused transition is thrown inside
    the [try]: the [catch] of the method takes it and throws status 500
    with the message of what it caught.  An [HttpException] made from a
    string has that string as its [message]. *)
Definition transitionPhase (check : string -> bool) (toPhase : DevelopmentPhase)
    (now : Z) (o : Orchestrator.Orchestrator) (s : StateManager.Store)
    : Response DevelopmentPhase * Orchestrator.Orchestrator * StateManager.Store :=
  match Orchestrator.transitionPhase check toPhase o with
  | (Orchestrator.Returned true, o') =>
      match StateManager.setPhase toPhase now s with
      | StateManager.Ok _ s' => (Answer toPhase, o', s')
      | StateManager.Throw e s' =>
          (HttpError 500 (messageOr e "Failed to transition phase"), o', s')
      end
  | (Orchestrator.Returned false, o') =>
      (HttpError 500
         (messageOr "Phase transition failed - exit criteria not met"
                    "Failed to transition phase"), o', s)
  | (Orchestrator.Threw e, o') =>
      (HttpError 500 (messageOr e "Failed to transition phase"), o', s)
  | (Orchestrator.Waiting, o') => (Pending, o', s)
  end.

End SystemController.

(** * Properties *)

Section JsMapFacts.
Context {K V : Type} `{EqDecision K}.

Lemma map_set_keys_present (k : K) (v : V) (m : list (K * V)) x :
  map_get k m = Some x -> map (@fst K V) (map_set k v m) = map fst m.
Proof.
  induction m as [|[k' v'] m IH]; simpl; [discriminate|].
  destruct (decide (k = k')) as [->|Hne]; simpl; [reflexivity|].
  intros H. f_equal. apply IH, H.
Qed.

Lemma map_get_None_notin (k : K) (m : list (K * V)) :
  map_get k m = None -> ~ In k (map (@fst K V) m).
Proof.
  induction m as [|[k' v'] m IH]; simpl; [tauto|].
  destruct (decide (k = k')) as [->|Hne]; [discriminate|].
  intros H [Heq|Hin]; [congruence|]. apply IH; assumption.
Qed.

Lemma map_set_keys_absent (k : K) (v : V) (m : list (K * V)) :
  map_get k m = None -> map (@fst K V) (map_set k v m) = map fst m ++ [k].
Proof.
  induction m as [|[k' v'] m IH]; simpl; [reflexivity|].
  destruct (decide (k = k')) as [->|Hne]; [discriminate|].
  simpl. intros H. f_equal. apply IH, H.
Qed.

Lemma map_get_set_eq (k : K) (v : V) (m : list (K * V)) : map_get k (map_set k v m) = Some v.
Proof.
  induction m as [|[k' v'] m IH]; simpl.
  - destruct (decide (k = k)); congruence.
  - destruct (decide (k = k')) as [->|Hne]; simpl.
    + destruct (decide (k' = k')); congruence.
    + destruct (decide (k = k')); [congruence|exact IH].
Qed.

Lemma map_get_set_ne (k k' : K) (v : V) (m : list (K * V)) :
  k <> k' -> map_get k' (map_set k v m) = map_get k' m.
Proof.
  intros Hne. induction m as [|[k0 v0] m IH]; simpl.
  - destruct (decide (k' = k)); congruence.
  - destruct (decide (k = k0)) as [->|Hne0]; simpl.
    + destruct (decide (k' = k0)); congruence.
    + destruct (decide (k' = k0)); [reflexivity|exact IH].
Qed.

Lemma map_set_values (P : V -> Prop) (k : K) (v : V) (m : list (K * V)) :
  P v -> Forall P (map snd m) -> Forall P (map snd (map_set k v m)).
Proof.
  intros Hv. induction m as [|[k' v'] m IH]; simpl; intros Hm.
  - repeat constructor. assumption.
  - inversion Hm; subst. destruct (decide (k = k')); simpl; constructor; auto.
Qed.

Lemma map_of_entries_values (P : V -> Prop) (es : list (K * V)) :
  Forall P (map snd es) -> Forall P (map snd (map_of_entries es)).
Proof.
  unfold map_of_entries.
  assert (G : forall acc, Forall P (map snd acc) -> Forall P (map snd es) ->
            Forall P (map snd (fold_left (fun m e => map_set (fst e) (snd e) m) es acc))).
  { induction es as [|[k v] es IH]; simpl; intros acc Ha He; [assumption|].
    inversion He; subst. apply IH; [|assumption]. apply map_set_values; assumption. }
  apply G. constructor.
Qed.

Lemma map_set_absent (k : K) (v : V) (m : list (K * V)) :
  ~ In k (map fst m) -> map_set k v m = m ++ [(k, v)].
Proof.
  induction m as [|[k' v'] m IH]; simpl; intros Hn; [reflexivity|].
  destruct (decide (k = k')) as [->|Hne]; [tauto|].
  f_equal. apply IH. tauto.
Qed.

(** Entries with distinct keys make the map they list. *)
Lemma map_of_entries_nodup (es : list (K * V)) :
  List.NoDup (map fst es) -> map_of_entries es = es.
Proof.
  unfold map_of_entries.
  assert (G : forall acc, List.NoDup (map fst (acc ++ es)) ->
            fold_left (fun m e => map_set (fst e) (snd e) m) es acc = acc ++ es).
  { induction es as [|[k v] es IH]; simpl; intros acc Hnd.
    - rewrite app_nil_r. reflexivity.
    - rewrite map_set_absent.
      + rewrite IH; rewrite <- app_assoc; [reflexivity|exact Hnd].
      + rewrite map_app in Hnd. simpl in Hnd.
        apply List.NoDup_remove_2 in Hnd. intros Hin. apply Hnd.
        apply in_or_app. now left. }
  intros Hnd. apply (G []). exact Hnd.
Qed.

Lemma map_get_delete_eq (k : K) (m : list (K * V)) : map_get k (map_delete k m) = None.
Proof.
  induction m as [|[k' v'] m IH]; simpl; [reflexivity|].
  destruct (decide (k = k')) as [->|Hne]; [exact IH|].
  simpl. destruct (decide (k = k')); [congruence|exact IH].
Qed.

Lemma map_get_delete_ne (k k' : K) (m : list (K * V)) :
  k <> k' -> map_get k' (map_delete k m) = map_get k' m.
Proof.
  intros Hne. induction m as [|[k0 v0] m IH]; simpl; [reflexivity|].
  destruct (decide (k = k0)) as [->|Hne0]; simpl.
  - destruct (decide (k' = k0)); [congruence|exact IH].
  - destruct (decide (k' = k0)); [reflexivity|exact IH].
Qed.

Lemma map_get_map_values {W} (f : V -> W) (k : K) (m : list (K * V)) :
  map_get k (map (fun e => (fst e, f (snd e))) m) = f <$> map_get k m.
Proof.
  induction m as [|[k' v'] m IH]; simpl; [reflexivity|].
  destruct (decide (k = k')); [reflexivity|exact IH].
Qed.

Lemma map_get_delete_all {W} (k : K) (ds : list (K * W)) : forall (m : list (K * V)),
  map_get k (fold_left (fun m e => map_delete (fst e) m) ds m) =
  if bool_decide (k ∈ map fst ds) then None else map_get k m.
Proof.
  induction ds as [|[d w] ds IH]; intros m; cbn [fold_left map fst].
  - rewrite bool_decide_eq_false_2 by apply not_elem_of_nil. reflexivity.
  - rewrite IH. destruct (decide (d = k)) as [->|Hne].
    + rewrite (bool_decide_eq_true_2 (k ∈ k :: _)) by (apply elem_of_cons; now left).
      rewrite map_get_delete_eq. destruct (bool_decide _); reflexivity.
    + rewrite map_get_delete_ne by assumption.
      destruct (bool_decide (k ∈ map fst ds)) eqn:E.
      * apply bool_decide_eq_true in E.
        rewrite bool_decide_eq_true_2 by (apply elem_of_cons; now right). reflexivity.
      * apply bool_decide_eq_false in E.
        rewrite bool_decide_eq_false_2; [reflexivity|].
        rewrite elem_of_cons. intros [?|?]; [congruence|tauto].
Qed.
Lemma map_set_nodup (k : K) (v : V) (m : list (K * V)) :
  List.NoDup (map fst m) -> List.NoDup (map fst (map_set k v m)).
Proof.
  intros Hnd. destruct (map_get k m) as [x|] eqn:E.
  - rewrite (map_set_keys_present k v m x E). assumption.
  - rewrite (map_set_keys_absent k v m E).
    apply List.NoDup_rev in Hnd. rewrite <- (rev_involutive (map fst m ++ [k])).
    apply List.NoDup_rev. rewrite rev_app_distr. simpl. constructor; [|assumption].
    rewrite <- in_rev. apply map_get_None_notin. assumption.
Qed.

Lemma map_of_entries_keys_nodup (es : list (K * V)) :
  List.NoDup (map fst (map_of_entries es)).
Proof.
  unfold map_of_entries.
  assert (G : forall acc : list (K * V), List.NoDup (map fst acc) ->
            List.NoDup (map fst (fold_left (fun m e => map_set (fst e) (snd e) m) es acc))).
  { induction es as [|[k v] es IH]; simpl; intros acc Hnd; [assumption|].
    apply IH. apply map_set_nodup. assumption. }
  apply G. constructor.
Qed.

End JsMapFacts.

(** ** Task dispatcher *)

Section TaskDispatcherFacts.
Import TaskDispatcher.

Lemma weight_follows_rank (p q : Priority) :
  (weight (priorityWeights p) <= weight (priorityWeights q))%Z <->
  priority_rank p <= priority_rank q.
Proof. destruct p, q; simpl; split; intros; lia. Qed.

Lemma pickNext_elems (js : list Job) j rest :
  pickNext js = Some (j, rest) ->
  forall x, In x js -> x = j \/ In x rest.
Proof.
  revert j rest. induction js as [|a js IH]; simpl; intros j rest H x Hx; [tauto|].
  destruct (pickNext js) as [[j' rest']|] eqn:E.
  - destruct (opt_priority (job_opts a) <=? opt_priority (job_opts j'))%Z;
      inversion H; subst; clear H.
    + destruct Hx as [->|Hx]; [now left|now right].
    + destruct Hx as [->|Hx]; [right; now left|].
      destruct (IH _ _ eq_refl x Hx) as [->|Hin]; [now left|right; now right].
  - inversion H; subst. destruct Hx as [->|Hx]; [now left|].
    destruct js as [|b js]; [destruct Hx|]. simpl in E.
    destruct (pickNext js) as [[? ?]|];
      [destruct (_ <=? _)%Z|]; discriminate.
Qed.

(** The job a worker takes has the least priority number of the queue. *)
Lemma pickNext_least (js : list Job) j rest :
  pickNext js = Some (j, rest) ->
  forall x, In x rest ->
    (opt_priority (job_opts j) <= opt_priority (job_opts x))%Z.
Proof.
  revert j rest. induction js as [|a js IH]; simpl; intros j rest H x Hx; [discriminate|].
  destruct (pickNext js) as [[j' rest']|] eqn:E.
  - destruct (Z.leb_spec (opt_priority (job_opts a)) (opt_priority (job_opts j')));
      inversion H; subst; clear H.
    + destruct (pickNext_elems _ _ _ E x Hx) as [->|Hin]; [assumption|].
      specialize (IH _ _ eq_refl x Hin). lia.
    + destruct Hx as [->|Hx]; [lia|]. exact (IH _ _ eq_refl x Hx).
  - inversion H; subst. destruct Hx.
Qed.

Lemma pickNext_sub (js : list Job) j rest :
  pickNext js = Some (j, rest) ->
  In j js /\ forall x, In x rest -> In x js.
Proof.
  revert j rest. induction js as [|a js IH]; simpl; intros j rest H; [discriminate|].
  destruct (pickNext js) as [[j' rest']|] eqn:E.
  - destruct (IH _ _ eq_refl) as [Hj Hr].
    destruct (opt_priority (job_opts a) <=? opt_priority (job_opts j'))%Z;
      inversion H; subst; clear H.
    + split; [now left|intros x Hx; now right].
    + split; [now right|]. intros x [->|Hx]; [now left|right; now apply Hr].
  - inversion H; subst. split; [now left|intros x []].
Qed.

Lemma runWorker_sub (fuel : nat) agent : forall js x,
  In x (runWorker fuel agent js) -> In x js.
Proof.
  induction fuel as [|fuel IH]; simpl; intros js x Hx; [destruct Hx|].
  destruct (pickNext js) as [[j rest]|] eqn:E; [|destruct Hx].
  destruct (pickNext_sub _ _ _ E) as [Hj Hr].
  destruct Hx as [<-|Hx]; [assumption|]. apply Hr. now apply IH.
Qed.

(** The order in which a worker takes the jobs of a queue is ascending in
    the priority number. *)
Lemma runWorker_ascending (fuel : nat) agent : forall js,
  StronglySorted
    (fun a b => (opt_priority (job_opts a) <= opt_priority (job_opts b))%Z)
    (runWorker fuel agent js).
Proof.
  induction fuel as [|fuel IH]; simpl; intros js; [constructor|].
  destruct (pickNext js) as [[j rest]|] eqn:E; [|constructor].
  constructor; [apply IH|].
  apply List.Forall_forall. intros x Hx.
  apply (pickNext_least js j rest E). now apply (runWorker_sub fuel agent).
Qed.

(** The priority number [dispatchTask] gives a job is the weight of the
    task's priority: the higher the priority, the larger the number. *)
Lemma dispatchTask_enqueues (t : Task) (d : Dispatcher) :
  exists q j,
    map_get (assignedTo t) (taskQueues (snd (dispatchTask t d))) = Some q /\
    last (waiting q) = Some j /\ job_data j = t /\
    opt_priority (job_opts j) = weight (priorityWeights (priority t)).
Proof.
  unfold dispatchTask.
  destruct (getOrCreateQueue (assignedTo t) d) as [queue d1].
  unfold queue_add. cbn [snd taskQueues].
  eexists. eexists. split; [apply map_get_set_eq|].
  cbn [waiting]. rewrite last_snoc. repeat split; reflexivity.
Qed.

(** C1 (code at the scenario of the claim): three tasks dispatched in the
    order T1(LOW), T2(CRITICAL), T3(MEDIUM) to one role, consumed by a
    worker with one slot, run in the order T1, T3, T2: the weight 1000 of
    CRITICAL is the largest priority number and the queue serves the
    smallest number first. *)
Theorem dispatch_scenario_runs_low_first :
  executionOrder qa_engineer
    (dispatchAll [exampleTask "T1" LOW; exampleTask "T2" CRITICAL;
                  exampleTask "T3" MEDIUM] newDispatcher)
  = ["T1"; "T3"; "T2"].
Proof. vm_compute. reflexivity. Qed.

End TaskDispatcherFacts.

(** ** Message bus *)

Section MessageBusFacts.
Import MessageBus.

(** The regular expression engine of the platform, whatever it is. *)
Variable regExpTest : string -> string -> option bool.
Local Abbreviation matchPattern := (MessageBus.matchPattern regExpTest).
Local Abbreviation runHandlers := (MessageBus.runHandlers regExpTest).
Local Abbreviation somePattern := (MessageBus.somePattern regExpTest).
Local Abbreviation runSubscriptions := (MessageBus.runSubscriptions regExpTest).
Local Abbreviation handleIncomingMessage :=
  (MessageBus.handleIncomingMessage regExpTest).
Local Abbreviation onPmessage := (MessageBus.onPmessage regExpTest).
Local Abbreviation deliver := (MessageBus.deliver regExpTest).
Local Abbreviation publishAndDeliver := (MessageBus.publishAndDeliver regExpTest).
Local Abbreviation requestResponse := (MessageBus.requestResponse regExpTest).
Local Abbreviation matches := (MessageBus.matches regExpTest).
Local Abbreviation compiles := (MessageBus.compiles regExpTest).

Lemma callbackCount_cons (sid : string) e l :
  callbackCount sid (e :: l) =
  (match e with
   | CallbackCalled sid' _ => if bool_decide (sid' = sid) then 1 else 0
   | _ => 0
   end + callbackCount sid l)%nat.
Proof.
  unfold callbackCount. simpl.
  destruct e; simpl; try reflexivity.
  destruct (bool_decide (subscriptionId = sid)); reflexivity.
Qed.

Lemma runSubscriptions_skips (ss : list (string * MessageSubscription)) m pat sid :
  ~ In sid (map fst ss) ->
  callbackCount sid (fst (runSubscriptions ss m pat)) = 0%nat.
Proof.
  induction ss as [|[k sub] ss IH]; simpl; intros Hn; [reflexivity|].
  destruct (somePattern pat (patterns sub)) as [[|]|]; simpl; try reflexivity.
  - destruct (callback sub m).
    + destruct (runSubscriptions ss m pat) as [l c] eqn:E. simpl in *.
      rewrite callbackCount_cons, bool_decide_eq_false_2 by tauto.
      apply IH. tauto.
    + simpl. rewrite callbackCount_cons, bool_decide_eq_false_2 by tauto.
      reflexivity.
  - apply IH. tauto.
Qed.

(** Within one call of [handleIncomingMessage], when no callback throws,
    a subscription is called once if one of its patterns matches the
    pattern argument and not at all otherwise. *)
Lemma runSubscriptions_once (ss : list (string * MessageSubscription)) m pat :
  List.NoDup (map fst ss) ->
  (forall sid sub, In (sid, sub) ss ->
     callback sub m = Returns /\ somePattern pat (patterns sub) <> None) ->
  snd (runSubscriptions ss m pat) = Normal /\
  forall sid sub, In (sid, sub) ss ->
    callbackCount sid (fst (runSubscriptions ss m pat)) =
    if matches pat (patterns sub) then 1%nat else 0%nat.
Proof.
  induction ss as [|[k s0] ss IH]; simpl; intros Hnd Hok; [split; [reflexivity|tauto]|].
  inversion Hnd as [|? ? Hk Hnd']; subst.
  destruct (Hok k s0 (or_introl eq_refl)) as [Hret Hsome].
  destruct IH as [IHc IHn]; [assumption|intros sid' sub' Hin'; apply (Hok sid' sub'); now right|].
  unfold matches in *.
  destruct (somePattern pat (patterns s0)) as [[|]|] eqn:E; [| |congruence].
  - rewrite Hret. destruct (runSubscriptions ss m pat) as [l c] eqn:Er.
    simpl in *. split; [assumption|].
    intros sid sub [Heq|Hin].
    + inversion Heq; subst. rewrite callbackCount_cons, bool_decide_eq_true_2 by reflexivity.
      rewrite E.
      pose proof (runSubscriptions_skips ss m pat sid Hk) as Hs.
      rewrite Er in Hs. simpl in Hs. rewrite Hs. reflexivity.
    + rewrite callbackCount_cons.
      assert (k <> sid).
      { intros ->. apply Hk. apply in_map_iff. exists (sid, sub). split; auto. }
      rewrite bool_decide_eq_false_2 by assumption. simpl. apply IHn; assumption.
  - split; [assumption|].
    intros sid sub [Heq|Hin].
    + inversion Heq; subst. rewrite E. apply runSubscriptions_skips; assumption.
    + apply IHn; assumption.
Qed.

Lemma handlerCalls_app l1 l2 :
  handlerCalls (l1 ++ l2) = handlerCalls l1 ++ handlerCalls l2.
Proof. unfold handlerCalls. apply omap_app. Qed.

(** Every handler whose pattern matches is called, whatever the other
    handlers do: a throwing handler is logged and the loop goes on. *)
Lemma runHandlers_isolated (hs : list (string * MessageHandler)) m pat :
  (forall k h, In (k, h) hs -> matchPattern pat (h_pattern h) <> None) ->
  snd (runHandlers hs m pat) = Normal /\
  handlerCalls (fst (runHandlers hs m pat)) =
  map (fun kh => h_id (snd kh))
      (List.filter (fun kh => match matchPattern pat (h_pattern (snd kh)) with
                              | Some true => true | _ => false end) hs).
Proof.
  induction hs as [|[k h] hs IH]; simpl; intros Hok; [split; reflexivity|].
  pose proof (Hok k h (or_introl eq_refl)) as Hh.
  destruct IH as [IHc IHl]; [intros k' h' Hin'; apply (Hok k' h'); now right|].
  destruct (matchPattern pat (h_pattern h)) as [[|]|]; [| |congruence].
  - destruct (runHandlers hs m pat) as [l c]. simpl in *. split; [assumption|].
    rewrite handlerCalls_app. destruct (handler h m); simpl; f_equal; assumption.
  - split; assumption.
Qed.

(** The subscription loop has no such protection: when the callback of a
    matching subscription throws, the loop ends with that error and no
    subscription registered after it is called. *)
Lemma runSubscriptions_stops (pre post : list (string * MessageSubscription))
    (sid : string) (sub : MessageSubscription) m pat (err : string) :
  matches pat (patterns sub) = true ->
  callback sub m = Throws err ->
  (forall k s, In (k, s) pre ->
     callback s m = Returns /\ somePattern pat (patterns s) <> None) ->
  snd (runSubscriptions (pre ++ (sid, sub) :: post) m pat) = Thrown err /\
  forall k, ~ In k (map fst pre) -> k <> sid ->
    callbackCount k (fst (runSubscriptions (pre ++ (sid, sub) :: post) m pat)) = 0%nat.
Proof.
  intros Hm Ht. unfold matches in Hm.
  induction pre as [|[k0 s0] pre IH]; simpl; intros Hok.
  - destruct (somePattern pat (patterns sub)) as [[|]|]; try discriminate.
    rewrite Ht. simpl. split; [reflexivity|].
    intros k _ Hk. rewrite callbackCount_cons, bool_decide_eq_false_2 by congruence.
    reflexivity.
  - destruct (Hok k0 s0 (or_introl eq_refl)) as [Hret Hsome].
    destruct IH as [IHc IHn]; [intros k s Hin; apply (Hok k s); now right|].
    destruct (somePattern pat (patterns s0)) as [[|]|]; [| |congruence].
    + rewrite Hret.
      destruct (runSubscriptions (pre ++ (sid, sub) :: post) m pat) as [l c].
      simpl in *. split; [assumption|].
      intros k Hk Hne. rewrite callbackCount_cons, bool_decide_eq_false_2 by tauto.
      apply IHn; tauto.
    + split; [assumption|]. intros k Hk Hne. apply IHn; tauto.
Qed.

(** C4 (code at a failing input): with one subscription on ["agent:*"] and
    another on ["agent:qa_engineer"], a message published once to the
    channel of [qa_engineer] reaches the callback of the wildcard
    subscription twice: Redis reports the message once per matching
    pattern of the connection, and each report is matched against the
    subscription patterns by the reported pattern, not by the channel. *)
Theorem wildcard_subscriber_called_twice :
  matchPattern (getChannelName exampleMessage) "agent:*" = Some true /\
  callbackCount "uuid-0" (log (publishAndDeliver exampleMessage busWildcardOnly)) = 1%nat /\
  callbackCount "uuid-0" (log (publishAndDeliver exampleMessage busWildcardAndExact)) = 2%nat.
Proof. vm_compute. repeat split; reflexivity. Qed.

(** C7 (code at a failing input): two subscriptions match the incoming
    message; the callback of the first throws, the throw leaves
    [handleIncomingMessage] and the callback of the second is never called. *)
Theorem throwing_callback_stops_delivery :
  map fst (subscriptions busFirstThrows) = ["uuid-0"; "uuid-1"] /\
  Forall (fun s => matches "agent:*" (patterns (snd s)) = true)
         (subscriptions busFirstThrows) /\
  handleIncomingMessage exampleMessage "agent:*" busFirstThrows
    = ([CallbackCalled "uuid-0" exampleMessage], Thrown "boom") /\
  callbackCount "uuid-1"
    (fst (handleIncomingMessage exampleMessage "agent:*" busFirstThrows)) = 0%nat.
Proof.
  split; [reflexivity|]. split; [repeat constructor|].
  split; vm_compute; reflexivity.
Qed.

(** C10 (the claim fails): [unsubscribe] of an id that no [subscribe]
    returned completes normally, no error is raised. *)
Lemma unsubscribe_unknown_raises_nothing :
  map_get "never-issued" (subscriptions busWildcardOnly) = None /\
  ~ exists err, fst (unsubscribe "never-issued" busWildcardOnly) = Thrown err.
Proof.
  split; [reflexivity|]. intros [err H]. vm_compute in H. discriminate.
Qed.

(** C10 (amended): [unsubscribe] of an id that is not registered (never
    issued, or already removed) is a silent no-operation: it completes
    normally and leaves the bus, and so the registered subscriptions and
    the Redis pattern set, as they were. *)
Theorem unsubscribe_unknown_is_noop (subscriptionId : string) (b : Bus) :
  map_get subscriptionId (subscriptions b) = None ->
  unsubscribe subscriptionId b = (Normal, b).
Proof. intros H. unfold unsubscribe. rewrite H. reflexivity. Qed.

Lemma unsubscribe_unknown_is_noop_witness :
  map_get "uuid-0" (subscriptions busAfterUnsubscribe) = None /\
  unsubscribe "uuid-0" busAfterUnsubscribe = (Normal, busAfterUnsubscribe).
Proof.
  split; [reflexivity|].
  apply (unsubscribe_unknown_is_noop "uuid-0" busAfterUnsubscribe). reflexivity.
Defined.

Section RequestResponseFacts.
Variable JSON_parse : string -> option string.
Variable Number_toString : JsNumber -> string.
Local Abbreviation timeoutError := (MessageBus.timeoutError Number_toString).
Local Abbreviation onTimer := (MessageBus.onTimer Number_toString).
Local Abbreviation onMessage := (MessageBus.onMessage JSON_parse).
Local Abbreviation tick := (MessageBus.tick Number_toString).
Local Abbreviation step := (MessageBus.step JSON_parse Number_toString).
Local Abbreviation run := (MessageBus.run JSON_parse Number_toString).
Local Abbreviation waitingOrTimedOut :=
  (MessageBus.waitingOrTimedOut Number_toString).

Lemma timerDelay_pos (after : JsNumber) : (1 <= timerDelay after)%Z.
Proof.
  destruct after as [| |q]; simpl; try lia.
  destruct (QArith_base.Qle_bool (QArith_base.inject_Z 1) q) eqn:E; simpl; [|lia].
  destruct (QArith_base.Qle_bool q (QArith_base.inject_Z TIMEOUT_MAX)); [|lia].
  apply QArith_base.Qle_bool_iff in E. apply Qround.Qfloor_resp_le in E.
  rewrite Qround.Qfloor_Z in E. exact E.
Qed.

Lemma step_silent rc T r n e :
  waitingOrTimedOut rc T r n ->
  match e with
  | Tick => True
  | SubscribeDone err => err = None
  | RedisMessage c _ => c <> rc
  end ->
  waitingOrTimedOut rc T (step r e)
    (n + match e with Tick => 1 | _ => 0 end).
Proof.
  intros (Hrc & HT & He & Hst) Hev. destruct e as [|err|c msg]; simpl.
  - unfold MessageBus.tick. destruct Hst as [(Hlt & Ha & Hp)|(Hge & Ha & Hp)];
      rewrite Ha; cbn [andb elapsed timeoutMs].
    + rewrite HT, He.
      destruct (Z.leb_spec (timerDelay T) (Z.of_nat (S n))) as [Hle|Hgt].
      * unfold MessageBus.waitingOrTimedOut, MessageBus.onTimer; simpl.
        rewrite Hp. simpl.
        repeat split; try assumption; try lia. right.
        repeat split; try reflexivity; try (rewrite HT; reflexivity). lia.
      * unfold MessageBus.waitingOrTimedOut; simpl.
        repeat split; try assumption; try lia. left.
        repeat split; try assumption. lia.
    + unfold MessageBus.waitingOrTimedOut; simpl.
      repeat split; try assumption; try lia. right.
      repeat split; try assumption. lia.
  - subst err. simpl. rewrite Nat.add_0_r. repeat split; assumption.
  - unfold MessageBus.onMessage. rewrite Hrc.
    destruct (String.eqb_spec c rc) as [->|_]; [contradiction|].
    rewrite Nat.add_0_r. repeat split; assumption.
Qed.

Lemma run_silent rc T evs : forall r n,
  waitingOrTimedOut rc T r n -> silent rc evs ->
  waitingOrTimedOut rc T (run r evs) (n + ticks evs).
Proof.
  induction evs as [|e evs IH]; intros r n Hinv Hs.
  - simpl. unfold ticks; simpl. rewrite Nat.add_0_r. assumption.
  - inversion Hs as [|? ? He Hrest]; subst.
    pose proof (step_silent rc T r n e Hinv He) as Hstep.
    specialize (IH _ _ Hstep Hrest). simpl.
    replace (n + ticks (e :: evs)) with
      (n + match e with Tick => 1 | _ => 0 end + ticks evs); [exact IH|].
    unfold ticks. destruct e; simpl; lia.
Qed.

Lemma run_app r evs1 evs2 : run r (evs1 ++ evs2) = run (run r evs1) evs2.
Proof. unfold MessageBus.run. apply fold_left_app. Qed.

Lemma run_cons r e evs : run r (e :: evs) = run (step r e) evs.
Proof. reflexivity. Qed.

(** A settled promise keeps its outcome. *)
Lemma step_settled r e :
  responsePromise r <> Pending ->
  responsePromise (step r e) = responsePromise r.
Proof.
  intros Hp. destruct e as [|[err|]|c msg]; simpl; try reflexivity.
  - unfold MessageBus.tick.
    destruct (timerArmed r && _); cbn [MessageBus.onTimer responsePromise];
      [|reflexivity].
    destruct (responsePromise r); [contradiction|reflexivity|reflexivity].
  - destruct (responsePromise r); [contradiction|reflexivity|reflexivity].
  - unfold MessageBus.onMessage.
    destruct (String.eqb c (responseChannel r)); [|reflexivity].
    cbn [responsePromise]. destruct (JSON_parse msg); [|reflexivity].
    destruct (responsePromise r); [contradiction|reflexivity|reflexivity].
Qed.

Lemma run_settled evs : forall r,
  responsePromise r <> Pending ->
  responsePromise (run r evs) = responsePromise r.
Proof.
  induction evs as [|e evs IH]; intros r Hp; [reflexivity|].
  rewrite run_cons, IH; [apply step_settled; exact Hp|].
  rewrite step_settled; assumption.
Qed.

(** No event arms a timer again. *)
Lemma step_disarmed r e : timerArmed r = false -> timerArmed (step r e) = false.
Proof.
  intros Ha. destruct e as [|[err|]|c msg]; simpl; try assumption; try reflexivity.
  - unfold MessageBus.tick. rewrite Ha. reflexivity.
  - unfold MessageBus.onMessage.
    destruct (String.eqb c (responseChannel r)); [reflexivity|assumption].
Qed.

Lemma run_disarmed evs : forall r,
  timerArmed r = false -> timerArmed (run r evs) = false.
Proof.
  induction evs as [|e evs IH]; intros r Ha; [assumption|].
  rewrite run_cons. apply IH, step_disarmed, Ha.
Qed.

(** A pending request without a timer stays pending while nobody answers. *)
Lemma run_forgotten rc evs : forall r,
  responseChannel r = rc -> timerArmed r = false ->
  responsePromise r = Pending -> silent rc evs ->
  responsePromise (run r evs) = Pending.
Proof.
  induction evs as [|e evs IH]; intros r Hrc Ha Hp Hs; [assumption|].
  inversion Hs as [|e' evs' He Hrest]; subst e' evs'. rewrite run_cons.
  destruct e as [|err|c msg]; cbn [MessageBus.step].
  - assert (Ht : MessageBus.tick Number_toString r =
                 {| responseChannel := responseChannel r;
                    timeoutMs := timeoutMs r; elapsed := S (elapsed r);
                    timerArmed := false;
                    channelSubscribed := channelSubscribed r;
                    responsePromise := responsePromise r |}).
    { unfold MessageBus.tick. rewrite Ha. reflexivity. }
    rewrite Ht. apply IH; try assumption; reflexivity.
  - subst err. apply IH; assumption.
  - unfold MessageBus.onMessage.
    destruct (String.eqb_spec c (responseChannel r)) as [->|_]; [contradiction|].
    apply IH; assumption.
Qed.

Lemma openRequest_waiting requestId T :
  waitingOrTimedOut ("response:" +:+ requestId) T (openRequest requestId T) 0.
Proof.
  pose proof (timerDelay_pos T).
  unfold MessageBus.waitingOrTimedOut, openRequest; simpl.
  repeat split. left. repeat split. lia.
Qed.


End RequestResponseFacts.

End MessageBusFacts.

(** ** Message bus: requests on the sample bus

    One request of three milliseconds and one of 2147483648, on a new
    bus; [parseLiteral] and [wholeText] stand for [JSON.parse] and the
    number text on the replies and timeouts used here. *)
Section RequestResponseSamples.
Import MessageBus.
Local Abbreviation requestResponse := (MessageBus.requestResponse noRegExp).
Local Abbreviation run := (MessageBus.run parseLiteral wholeText).



End RequestResponseSamples.


(** ** State manager *)

Section StateManagerFacts.
Import StateManager.

(** *** Allocation *)

Lemma extends_refl m : extends m m.
Proof. unfold extends. auto. Qed.

Lemma extends_trans m1 m2 m3 : extends m1 m2 -> extends m2 m3 -> extends m1 m3.
Proof.
  intros (Hn & Hlo & Hhi) (Hn' & Hlo' & Hhi'). repeat split.
  - lia.
  - intros l Hl. rewrite Hlo' by lia. apply Hlo, Hl.
  - intros l Hl. rewrite Hhi' by assumption. apply Hhi. lia.
Qed.

Lemma extends_alloc o m : extends m (snd (alloc o m)).
Proof.
  unfold extends, alloc; simpl. repeat split; [lia| |];
    intros l Hl; apply lookup_insert_ne; lia.
Qed.

Lemma extends_domBelow m m' : extends m m' -> domBelow m -> domBelow m'.
Proof.
  intros (Hn & _ & Hhi) Hd l Hl. rewrite Hhi by assumption. apply Hd. lia.
Qed.

Lemma allocates_refl n0 m : n0 <= next m -> allocates n0 m m.
Proof.
  intros H. split; [assumption|]. split; [apply extends_refl|].
  intros l o H1 H2. lia.
Qed.

Lemma allocates_trans n0 m1 m2 m3 :
  allocates n0 m1 m2 -> allocates n0 m2 m3 -> allocates n0 m1 m3.
Proof.
  intros (H0 & He & Hnew) (H0' & He' & Hnew').
  split; [assumption|]. split; [eapply extends_trans; eassumption|].
  intros l o Hl1 Hl3 Hlook.
  destruct (Nat.lt_ge_cases l (next m2)) as [Hlt|Hge].
  - destruct He' as (Hn' & Hlo' & _). rewrite Hlo' in Hlook by assumption.
    eapply Forall_impl; [apply (Hnew l o); assumption|].
    simpl. intros r [? ?]. split; lia.
  - apply (Hnew' l o); assumption.
Qed.

Lemma allocates_alloc n0 o m :
  n0 <= next m ->
  Forall (fun r => n0 <= r /\ r <= next m) (refs o) ->
  allocates n0 m (snd (alloc o m)).
Proof.
  intros H0 Hrefs. split; [assumption|]. split; [apply extends_alloc|].
  intros l o' Hl1 Hl2. unfold alloc in *; simpl in *.
  assert (l = next m) as -> by lia. rewrite lookup_insert_eq.
  intros [= <-]. eapply Forall_impl; [exact Hrefs|]. simpl. intros r [? ?]. lia.
Qed.

Lemma alloc_fst o m : fst (alloc o m) = next m.
Proof. reflexivity. Qed.

Lemma alloc_lookup o m : cells (snd (alloc o m)) !! next m = Some o.
Proof. unfold alloc; simpl. apply lookup_insert_eq. Qed.

Lemma allocates_step n0 o m m' :
  n0 <= next m ->
  Forall (fun r => n0 <= r /\ r <= next m) (refs o) ->
  allocates n0 (snd (alloc o m)) m' ->
  allocates n0 m m'.
Proof.
  intros H0 Hr H. eapply allocates_trans; [|exact H].
  apply allocates_alloc; assumption.
Qed.

Ltac lookup_new :=
  repeat first [rewrite lookup_insert_eq | rewrite lookup_insert_ne by lia].

Lemma allocAgent_spec n0 p st sh lg ts me upd m :
  n0 <= next m ->
  let l := fst (allocAgent p st sh lg ts me upd m) in
  let m' := snd (allocAgent p st sh lg ts me upd m) in
  allocates n0 m m' /\ next m <= l /\ l < next m' /\
  exists a, getAgent (cells m') l = Some a /\
    persona a = p /\ state a = st /\ lastUpdated a = upd /\
    readAgentValue (cells m') a =
      Some {| v_persona := p; v_state := st; v_shortTerm := sh; v_longTerm := lg;
              v_currentTasks := ts; v_metrics := me; v_lastUpdated := upd |}.
Proof.
  intros H0. unfold allocAgent, alloc. simpl. split; [|split; [lia|split; [lia|]]].
  - apply (allocates_step n0 (ORecord sh)); [lia|constructor|]. simpl.
    apply (allocates_step n0 (ORecord lg)); [simpl; lia|constructor|]. simpl.
    apply (allocates_step n0 (OMemory (next m) (S (next m))));
      [simpl; lia|simpl; repeat constructor; simpl; lia|]. simpl.
    apply (allocates_step n0 (OArray ts)); [simpl; lia|constructor|]. simpl.
    apply (allocates_step n0 (ORecord me)); [simpl; lia|constructor|]. simpl.
    eapply (allocates_step n0); [simpl; lia| |apply allocates_refl; simpl; lia].
    simpl. repeat constructor; simpl; lia.
  - eexists. split; [unfold getAgent; lookup_new; reflexivity|].
    simpl. repeat split.
    unfold readAgentValue, getMemory, getRecord, getArray. simpl.
    lookup_new. reflexivity.
Qed.

Lemma cloneAgent_spec n0 v m l m' :
  n0 <= next m ->
  cloneAgent v m = Some (l, m') ->
  allocates n0 m m' /\ next m <= l /\ l < next m' /\
  exists a val, getAgent (cells m') l = Some a /\
    persona a = persona v /\ state a = state v /\
    readAgentValue (cells m) v = Some val /\
    readAgentValue (cells m') a = Some val.
Proof.
  intros H0. unfold cloneAgent.
  destruct (getMemory (cells m) (memory v)) as [[ls ll]|] eqn:Em; [|discriminate].
  destruct (getRecord (cells m) ls) as [sh|] eqn:Es; [|discriminate].
  destruct (getRecord (cells m) ll) as [lg|] eqn:El; [|discriminate].
  destruct (getArray (cells m) (currentTasks v)) as [ts|] eqn:Et; [|discriminate].
  destruct (getRecord (cells m) (metrics v)) as [me|] eqn:Ee; [|discriminate].
  intros [= <- <-].
  destruct (allocAgent_spec n0 (persona v) (state v) sh lg ts me (lastUpdated v) m H0)
    as (Ha & Hl1 & Hl2 & a & Hg & Hp & Hs & Hu & Hr).
  split; [exact Ha|]. split; [exact Hl1|]. split; [exact Hl2|].
  exists a. eexists. split; [exact Hg|]. split; [exact Hp|]. split; [exact Hs|].
  split; [|exact Hr].
  unfold readAgentValue. rewrite Em, Es, El, Et, Ee. reflexivity.
Qed.

Lemma getAgent_extends m m' l a :
  extends m m' -> domBelow m -> getAgent (cells m) l = Some a ->
  getAgent (cells m') l = Some a.
Proof.
  intros (_ & Hlo & _) Hd. unfold getAgent.
  destruct (cells m !! l) as [o|] eqn:E; [|discriminate].
  destruct (Nat.lt_ge_cases l (next m)) as [Hlt|Hge].
  - rewrite Hlo, E by assumption. auto.
  - rewrite Hd in E by assumption. discriminate.
Qed.

Lemma cloneEntries_spec n0 : forall es m es' m',
  n0 <= next m ->
  cloneEntries es m = Some (es', m') ->
  allocates n0 m m' /\ map fst es' = map fst es /\
  Forall (fun r => next m <= r /\ r < next m') (map snd es').
Proof.
  induction es as [|[k l] es IH]; simpl; intros m es' m' H0 H.
  - inversion H; subst. split; [apply allocates_refl; assumption|].
    split; [reflexivity|constructor].
  - destruct (getAgent (cells m) l) as [v|]; [|discriminate].
    destruct (cloneAgent v m) as [[l1 m1]|] eqn:Ec; [|discriminate].
    destruct (cloneEntries es m1) as [[es2 m2]|] eqn:Er; [|discriminate].
    inversion H; subst. clear H.
    destruct (cloneAgent_spec n0 v m l1 m1 H0 Ec) as (Ha & Hl1 & Hl2 & _).
    assert (H1 : n0 <= next m1) by (destruct Ha as (_ & (? & _) & _); lia).
    destruct (IH m1 es2 m' H1 Er) as (Ha2 & Hk & Hv).
    assert (Hn12 : next m1 <= next m') by (destruct Ha2 as (_ & (? & _) & _); lia).
    assert (Hn01 : next m <= next m1) by (destruct Ha as (_ & (? & _) & _); lia).
    split; [eapply allocates_trans; eassumption|].
    split; [simpl; f_equal; assumption|].
    simpl. constructor; [lia|].
    eapply Forall_impl; [exact Hv|]. simpl. intros r [? ?]. lia.
Qed.

Lemma deepCloneState_spec n0 l m l' m' :
  n0 <= next m ->
  deepCloneState l m = Some (l', m') ->
  allocates n0 m m' /\ next m <= l' /\ l' < next m' /\
  exists st es st' es',
    getState (cells m) l = Some st /\
    getMap (cells m) (agents st) = Some es /\
    getState (cells m') l' = Some st' /\
    phase st' = phase st /\ state_id st' = state_id st /\
    timestamp st' = timestamp st /\
    getMap (cells m') (agents st') = Some (map_of_entries es') /\
    map fst es' = map fst es.
Proof.
  intros H0. unfold deepCloneState.
  destruct (getState (cells m) l) as [st|] eqn:Est; [|discriminate].
  destruct (getMap (cells m) (agents st)) as [es|] eqn:Emap; [|discriminate].
  destruct (cloneEntries es m) as [[es' m1]|] eqn:Ec; [|discriminate].
  destruct (cloneEntries_spec n0 es m es' m1 H0 Ec) as (Ha & Hk & Hv).
  assert (Hn01 : next m <= next m1) by (destruct Ha as (_ & (? & _) & _); lia).
  unfold alloc at 1. cbn [fst snd cells next].
  destruct (getRecord _ (globalContext st)) as [gc|] eqn:Egc; [|discriminate].
  unfold alloc. cbn [fst snd cells next]. intros [= <- <-]. cbn [next cells].
  split.
  - eapply allocates_trans; [exact Ha|].
    apply (allocates_step n0 (OMap (map_of_entries es'))); [lia| |].
    { simpl. apply map_of_entries_values.
      eapply Forall_impl; [exact Hv|]. simpl. intros r [? ?]. lia. }
    simpl.
    apply (allocates_step n0 (ORecord gc)); [simpl; lia|constructor|]. simpl.
    eapply (allocates_step n0); [simpl; lia| |apply allocates_refl; simpl; lia].
    simpl. repeat constructor; simpl; lia.
  - split; [lia|]. split; [lia|].
    exists st, es. eexists. exists es'.
    split; [first [reflexivity|assumption]|].
    split; [first [reflexivity|assumption]|].
    split; [unfold getState; lookup_new; reflexivity|].
    simpl. repeat split; try reflexivity; try assumption.
    unfold getMap. lookup_new. reflexivity.
Qed.

Lemma allocates_le n0 m m' : allocates n0 m m' -> next m <= next m'.
Proof. intros (_ & (? & _) & _). assumption. Qed.

Lemma initAgents_spec n0 now : forall ps acc m,
  n0 <= next m ->
  Forall (fun r => n0 <= r /\ r < next m) (map snd acc) ->
  allocates n0 m (snd (initAgents ps now acc m)) /\
  Forall (fun r => n0 <= r /\ r < next (snd (initAgents ps now acc m)))
         (map snd (fst (initAgents ps now acc m))).
Proof.
  induction ps as [|p ps IH]; intros acc m H0 Hacc.
  - simpl. split; [apply allocates_refl; assumption|assumption].
  - cbn [initAgents].
    destruct (allocAgent_spec n0 p idle ∅ ∅ [] initialMetrics (SDate now) m H0)
      as (Ha & Hl1 & Hl2 & _).
    destruct (allocAgent p idle ∅ ∅ [] initialMetrics (SDate now) m) as [l m1].
    cbn [fst snd] in *.
    pose proof (allocates_le _ _ _ Ha) as Hle.
    destruct (IH (map_set p l acc) m1) as (Ha2 & Hv2); [lia| |].
    + apply map_set_values; [lia|].
      eapply Forall_impl; [exact Hacc|]. simpl. intros r [? ?]. lia.
    + split; [eapply allocates_trans; eassumption|assumption].
Qed.

Lemma initializeSystemState_spec n0 id now m :
  n0 <= next m ->
  allocates n0 m (snd (initializeSystemState id now m)) /\
  next m <= fst (initializeSystemState id now m) /\
  fst (initializeSystemState id now m) < next (snd (initializeSystemState id now m)).
Proof.
  intros H0. unfold initializeSystemState.
  destruct (initAgents_spec n0 now personas [] m H0) as (Ha & Hv); [constructor|].
  destruct (initAgents personas now [] m) as [es m1]. cbn [fst snd] in *.
  pose proof (allocates_le _ _ _ Ha) as Hle.
  unfold alloc. cbn [fst snd next cells]. split; [|split; lia].
  eapply allocates_trans; [exact Ha|].
  apply (allocates_step n0 (OMap es)); [lia| |].
  { simpl. eapply Forall_impl; [exact Hv|]. simpl. intros r [? ?]. lia. }
  simpl.
  apply (allocates_step n0 (ORecord ∅)); [simpl; lia|constructor|]. simpl.
  eapply (allocates_step n0); [simpl; lia| |apply allocates_refl; simpl; lia].
  simpl. repeat constructor; simpl; lia.
Qed.

Lemma parseEntries_spec n0 : forall vs m,
  n0 <= next m ->
  allocates n0 m (snd (parseEntries vs m)) /\
  map fst (fst (parseEntries vs m)) = map fst vs /\
  Forall (fun r => next m <= r /\ r < next (snd (parseEntries vs m)))
         (map snd (fst (parseEntries vs m))).
Proof.
  induction vs as [|[k v] vs IH]; intros m H0.
  - simpl. split; [apply allocates_refl; assumption|]. split; [reflexivity|constructor].
  - cbn [parseEntries].
    destruct (allocAgent_spec n0 (v_persona v) (v_state v) (v_shortTerm v)
                (v_longTerm v) (v_currentTasks v) (v_metrics v) (v_lastUpdated v) m H0)
      as (Ha & Hl1 & Hl2 & _).
    destruct (allocAgent _ _ _ _ _ _ _ m) as [l m1]. cbn [fst snd] in *.
    pose proof (allocates_le _ _ _ Ha) as Hle.
    destruct (IH m1) as (Ha2 & Hk & Hv); [lia|].
    destruct (parseEntries vs m1) as [es m2]. cbn [fst snd] in *.
    pose proof (allocates_le _ _ _ Ha2) as Hle2.
    split; [eapply allocates_trans; eassumption|].
    split; [simpl; f_equal; assumption|].
    simpl. constructor; [lia|].
    eapply Forall_impl; [exact Hv|]. simpl. intros r [? ?]. lia.
Qed.

Lemma deserializeState_spec n0 v m :
  n0 <= next m ->
  let l := fst (deserializeState v m) in
  let m' := snd (deserializeState v m) in
  allocates n0 m m' /\ next m <= l /\ l < next m' /\
  exists st es,
    getState (cells m') l = Some st /\ phase st = v_phase v /\
    getMap (cells m') (agents st) = Some (map_of_entries es) /\
    map fst es = map fst (v_agents v).
Proof.
  intros H0. unfold deserializeState.
  destruct (parseEntries_spec n0 (v_agents v) m H0) as (Ha & Hk & Hv).
  destruct (parseEntries (v_agents v) m) as [es m1]. cbn [fst snd] in *.
  pose proof (allocates_le _ _ _ Ha) as Hle.
  unfold alloc. cbn [fst snd next cells]. split; [|split; [lia|split; [lia|]]].
  - eapply allocates_trans; [exact Ha|].
    apply (allocates_step n0 (ORecord (v_globalContext v))); [lia|constructor|]. simpl.
    apply (allocates_step n0 (OMap (map_of_entries es))); [simpl; lia| |].
    { simpl. apply map_of_entries_values.
      eapply Forall_impl; [exact Hv|]. simpl. intros r [? ?]. lia. }
    simpl.
    eapply (allocates_step n0); [simpl; lia| |apply allocates_refl; simpl; lia].
    simpl. repeat constructor; simpl; lia.
  - eexists. exists es. split; [unfold getState; lookup_new; reflexivity|].
    simpl. split; [reflexivity|]. split; [|assumption].
    unfold getMap. lookup_new. reflexivity.
Qed.

(** *** Well-formed stores *)

Lemma allocates_wf m m' :
  allocates (next m) m m' -> domBelow m -> refsBelow m ->
  domBelow m' /\ refsBelow m'.
Proof.
  intros (_ & He & Hnew) Hd Hr. split; [eapply extends_domBelow; eassumption|].
  destruct He as (Hn & Hlo & Hhi). intros l o Hlook.
  destruct (Nat.lt_ge_cases l (next m)) as [Hlt|Hge].
  - rewrite Hlo in Hlook by assumption.
    eapply Forall_impl; [exact (Hr l o Hlook)|]. simpl. intros; lia.
  - destruct (Nat.lt_ge_cases l (next m')) as [Hlt'|Hge'].
    + eapply Forall_impl; [exact (Hnew l o Hge Hlt' Hlook)|]. simpl. intros; lia.
    + rewrite Hhi, Hd in Hlook by lia. discriminate.
Qed.

Lemma newStore_wf r now : wfStore (newStore r now).
Proof.
  unfold wfStore, newStore.
  destruct (initializeSystemState_spec 0 (uuidv4 0) now {| cells := ∅; next := 0; bare := ∅ |})
    as (Ha & _ & Hl); [simpl; lia|].
  destruct (initializeSystemState _ _ _) as [l m]. cbn [fst snd mem currentState] in *.
  destruct (allocates_wf {| cells := ∅; next := 0; bare := ∅ |} m Ha) as [Hd Hr].
  - intros x _. apply lookup_empty.
  - intros x o Hx. simpl in Hx. rewrite lookup_empty in Hx. discriminate.
  - auto.
Qed.

(** *** Heap changes *)

Lemma similar_refl o : similar o o.
Proof. destruct o; simpl; auto. Qed.

Lemma similar_trans o1 o2 o3 : similar o1 o2 -> similar o2 o3 -> similar o1 o3.
Proof. destruct o1, o2, o3; simpl; try tauto; congruence. Qed.

Lemma stable_refl h : stable h h.
Proof. intros l o H. exists o. split; [assumption|apply similar_refl]. Qed.

Lemma stable_trans h1 h2 h3 : stable h1 h2 -> stable h2 h3 -> stable h1 h3.
Proof.
  intros H12 H23 l o H. destruct (H12 l o H) as (o2 & H2 & S2).
  destruct (H23 l o2 H2) as (o3 & H3 & S3).
  exists o3. split; [assumption|eapply similar_trans; eassumption].
Qed.

Lemma domBelow_lt m l o : domBelow m -> cells m !! l = Some o -> l < next m.
Proof.
  intros Hd H. destruct (Nat.lt_ge_cases l (next m)) as [|Hge]; [assumption|].
  rewrite Hd in H by assumption. discriminate.
Qed.

Lemma extends_stable m m' : extends m m' -> domBelow m -> stable (cells m) (cells m').
Proof.
  intros (_ & Hlo & _) Hd l o H. exists o. split; [|apply similar_refl].
  rewrite Hlo; [assumption|]. eapply domBelow_lt; eassumption.
Qed.

Lemma changes_refl P m : domBelow m -> changes P m m.
Proof.
  intros Hd. repeat split; auto. apply stable_refl.
Qed.

Lemma changes_trans P m1 m2 m3 : changes P m1 m2 -> changes P m2 m3 -> changes P m1 m3.
Proof.
  intros (Hn & Hf & Hc & Hs & Hd) (Hn' & Hf' & Hc' & Hs' & Hd').
  repeat split.
  - lia.
  - intros l Hl. rewrite Hf' by assumption. apply Hf, Hl.
  - intros l o H3. destruct (Hc' l o H3) as [H2|]; [|now right]. apply Hc, H2.
  - eapply stable_trans; eassumption.
  - assumption.
Qed.

Lemma changes_allocates P m m' :
  allocates (next m) m m' -> domBelow m -> (forall l, next m <= l -> P l) ->
  changes P m m'.
Proof.
  intros (_ & He & Hnew) Hd HP. pose proof He as (Hn & Hlo & Hhi). repeat split.
  - assumption.
  - intros l Hl. apply Hlo.
    destruct (Nat.lt_ge_cases l (next m)) as [|Hge]; [assumption|].
    exfalso. apply Hl, HP, Hge.
  - intros l o Hlook.
    destruct (Nat.lt_ge_cases l (next m)) as [Hlt|Hge].
    + left. rewrite <- Hlo; assumption.
    + destruct (Nat.lt_ge_cases l (next m')) as [Hlt'|Hge'].
      * right. eapply Forall_impl; [exact (Hnew l o Hge Hlt' Hlook)|].
        simpl. intros r [? _]. apply HP. assumption.
      * left. rewrite <- Hhi; assumption.
  - apply extends_stable; assumption.
  - eapply extends_domBelow; eassumption.
Qed.

Lemma changes_alloc P o m :
  domBelow m -> P (next m) -> Forall P (refs o) -> changes P m (snd (alloc o m)).
Proof.
  intros Hd HP Hr. unfold alloc; simpl. repeat split; simpl.
  - lia.
  - intros l Hl. apply lookup_insert_ne. intros <-. tauto.
  - intros l o'. destruct (decide (next m = l)) as [<-|Hne].
    + rewrite lookup_insert_eq. intros [= <-]. now right.
    + rewrite lookup_insert_ne by assumption. now left.
  - intros l o' H. exists o'. split; [|apply similar_refl].
    rewrite lookup_insert_ne; [assumption|].
    intros <-. rewrite Hd in H by lia. discriminate.
  - intros l Hl. simpl in *. rewrite lookup_insert_ne by lia. apply Hd. lia.
Qed.

Lemma changes_write P l o0 o m :
  domBelow m -> P l -> cells m !! l = Some o0 -> similar o0 o ->
  Forall P (refs o) -> changes P m (write l o m).
Proof.
  intros Hd HP H0 Hsim Hr. unfold write. repeat split; simpl.
  - lia.
  - intros x Hx. apply lookup_insert_ne. intros <-. tauto.
  - intros x o'. destruct (decide (l = x)) as [<-|Hne].
    + rewrite lookup_insert_eq. intros [= <-]. now right.
    + rewrite lookup_insert_ne by assumption. now left.
  - intros x o' H. destruct (decide (l = x)) as [<-|Hne].
    + rewrite lookup_insert_eq. exists o. split; [reflexivity|]. congruence.
    + rewrite lookup_insert_ne by assumption. exists o'.
      split; [assumption|apply similar_refl].
  - intros x Hx. simpl in *. rewrite lookup_insert_ne; [apply Hd, Hx|].
    intros <-. rewrite Hd in H0 by assumption. discriminate.
Qed.

Lemma assign_next l key value r m : next (assign l key value r m) = next m.
Proof.
  unfold assign. destruct (reachesSetter _ _ _); [destruct value|]; reflexivity.
Qed.

Lemma assign_lookup l key value r m x :
  cells m !! l = Some (ORecord r) ->
  cells (assign l key value r m) !! x =
    if decide (x = l) then Some (ORecord (assigned key value r (isBare l m)))
    else cells m !! x.
Proof.
  intros Hl. unfold assign, assigned.
  destruct (reachesSetter key r (isBare l m)).
  - assert (E : cells (match value with JNull => setBare l m | _ => m end) = cells m)
      by (destruct value; reflexivity).
    rewrite E. destruct (decide (x = l)) as [->|]; [exact Hl|reflexivity].
  - unfold write. cbn [cells]. destruct (decide (x = l)) as [->|Hne].
    + apply lookup_insert_eq.
    + apply lookup_insert_ne. congruence.
Qed.

Lemma changes_setBare P l m : domBelow m -> changes P m (setBare l m).
Proof.
  intros Hd. repeat split; auto. apply stable_refl.
Qed.

Lemma changes_assign P l key value r m :
  domBelow m -> P l -> cells m !! l = Some (ORecord r) ->
  changes P m (assign l key value r m).
Proof.
  intros Hd HP Hl. unfold assign. destruct (reachesSetter _ _ _).
  - destruct value; first [apply changes_setBare|apply changes_refl]; exact Hd.
  - apply (changes_write P l (ORecord r)); try assumption; [exact I|constructor].
Qed.

Lemma changes_closedUnder P m m' :
  closedUnder P m -> changes P m m' -> closedUnder P m'.
Proof.
  intros Hc (_ & _ & Hch & _) l o HP H.
  destruct (Hch l o H) as [H0|Hr]; [exact (Hc l o HP H0)|exact Hr].
Qed.

Lemma changes_fresh P m m' :
  changes P m m' -> (forall l, next m <= l -> P l) -> forall l, next m' <= l -> P l.
Proof. intros (Hn & _) HP l Hl. apply HP. lia. Qed.

(** Reading along references stays within [P]. *)
Lemma getState_lookup h l st : getState h l = Some st -> h !! l = Some (OState st).
Proof. unfold getState. destruct (h !! l) as [[]|]; congruence. Qed.
Lemma getMap_lookup h l es : getMap h l = Some es -> h !! l = Some (OMap es).
Proof. unfold getMap. destruct (h !! l) as [[]|]; congruence. Qed.
Lemma getAgent_lookup h l a : getAgent h l = Some a -> h !! l = Some (OAgent a).
Proof. unfold getAgent. destruct (h !! l) as [[]|]; congruence. Qed.
Lemma getMemory_lookup h l ls ll :
  getMemory h l = Some (ls, ll) -> h !! l = Some (OMemory ls ll).
Proof. unfold getMemory. destruct (h !! l) as [[]|]; congruence. Qed.
Lemma getRecord_lookup h l r : getRecord h l = Some r -> h !! l = Some (ORecord r).
Proof. unfold getRecord. destruct (h !! l) as [[]|]; congruence. Qed.
Lemma getArray_lookup h l a : getArray h l = Some a -> h !! l = Some (OArray a).
Proof. unfold getArray. destruct (h !! l) as [[]|]; congruence. Qed.

Lemma map_get_In_snd {V} (p : AgentPersona) (es : list (AgentPersona * V)) v :
  map_get p es = Some v -> In v (map snd es).
Proof.
  induction es as [|[k x] es IH]; simpl; [discriminate|].
  destruct (decide (p = k)); [intros [= ->]; now left|intros H; right; auto].
Qed.

Lemma map_get_In_fst {V} (p : AgentPersona) (es : list (AgentPersona * V)) v :
  map_get p es = Some v -> In p (map fst es).
Proof.
  induction es as [|[k x] es IH]; simpl; [discriminate|].
  destruct (decide (p = k)); [intros _; now left|intros H; right; auto].
Qed.

Lemma liveAgents_inv s lmap es :
  liveAgents s = Some (lmap, es) ->
  exists st, getState (cells (mem s)) (currentState s) = Some st /\
             agents st = lmap /\ getMap (cells (mem s)) lmap = Some es.
Proof.
  unfold liveAgents.
  destruct (getState _ _) as [st|]; [|discriminate].
  destruct (getMap _ _) as [es'|] eqn:E; [|discriminate].
  intros [= <- <-]. exists st. auto.
Qed.

Lemma P_state P m l st :
  closedUnder P m -> P l -> getState (cells m) l = Some st ->
  P (agents st) /\ P (globalContext st).
Proof.
  intros Hc HP H. apply getState_lookup in H.
  pose proof (Hc _ _ HP H) as Hr. simpl in Hr.
  inversion Hr as [|? ? ? Hr']; subst. inversion Hr'; subst. auto.
Qed.

Lemma P_map P m l es p x :
  closedUnder P m -> P l -> getMap (cells m) l = Some es ->
  map_get p es = Some x -> P x.
Proof.
  intros Hc HP H Hg. apply getMap_lookup in H.
  pose proof (Hc _ _ HP H) as Hr. simpl in Hr.
  rewrite List.Forall_forall in Hr. apply Hr. eapply map_get_In_snd; eassumption.
Qed.

Lemma P_map_all P m l es :
  closedUnder P m -> P l -> getMap (cells m) l = Some es -> Forall P (map snd es).
Proof. intros Hc HP H. apply getMap_lookup in H. exact (Hc _ _ HP H). Qed.

Lemma P_agent P m l a :
  closedUnder P m -> P l -> getAgent (cells m) l = Some a ->
  P (memory a) /\ P (currentTasks a) /\ P (metrics a).
Proof.
  intros Hc HP H. apply getAgent_lookup in H.
  pose proof (Hc _ _ HP H) as Hr. simpl in Hr.
  inversion Hr as [|? ? ? Hr']; subst. inversion Hr' as [|? ? ? Hr'']; subst.
  inversion Hr''; subst. auto.
Qed.

Lemma P_memory P m l ls ll :
  closedUnder P m -> P l -> getMemory (cells m) l = Some (ls, ll) -> P ls /\ P ll.
Proof.
  intros Hc HP H. apply getMemory_lookup in H.
  pose proof (Hc _ _ HP H) as Hr. simpl in Hr.
  inversion Hr as [|? ? ? Hr']; subst. inversion Hr'; subst. auto.
Qed.

(** *** What each call does to the heap *)

Lemma goodFor_changes P s s' :
  goodFor P s -> changes P (mem s) (mem s') -> P (currentState s') -> goodFor P s'.
Proof.
  intros (Hd & Hc & Hcs & Hf) Hch Hcs'. split; [apply Hch|].
  split; [eapply changes_closedUnder; eassumption|].
  split; [assumption|]. eapply changes_fresh; eassumption.
Qed.

Lemma persistAgentState_store p a s :
  let s' := storeOf (persistAgentState p a s) in
  mem s' = mem s /\ currentState s' = currentState s /\
  stateHistory s' = stateHistory s /\
  currentDoc (redis s') = currentDoc (redis s) /\
  snapshotDocs (redis s') = snapshotDocs (redis s).
Proof.
  unfold persistAgentState. destruct (readAgentValue _ a); simpl; auto.
Qed.

Lemma getSystemState_changes P s :
  goodFor P s ->
  changes P (mem s) (mem (storeOf (getSystemState s))) /\
  currentState (storeOf (getSystemState s)) = currentState s.
Proof.
  intros (Hd & Hc & Hcs & Hf). unfold getSystemState.
  destruct (getState _ _) as [st|] eqn:Est; simpl.
  - split; [|reflexivity]. apply changes_alloc; [assumption|apply Hf; lia|].
    destruct (P_state P _ _ _ Hc Hcs Est). simpl. auto.
  - split; [apply changes_refl; assumption|reflexivity].
Qed.

(** *** Snapshots *)

Lemma pushSnapshot_last snapshot h : last (pushSnapshot snapshot h) = Some snapshot.
Proof.
  unfold pushSnapshot. destruct (_ <? _)%nat eqn:E.
  - destruct h as [|x h]; simpl in *; [discriminate|]. apply last_snoc.
  - apply last_snoc.
Qed.


(** *** [getSystemState] *)

(** C5 (code at a failing input): the object [getSystemState] returns is
    a copy of the five top-level fields only.  After it was returned, a
    call of [updateGlobalContext], of [updateAgentState] and of
    [updateAgentMemory] each shows through it, because the [agents] map and
    the [globalContext] record are the live ones; only [phase], a field of
    the copy itself, stays as it was. *)
Theorem getSystemState_copy_shares_live_objects :
  let r := getSystemState initialStore in
  let copy := returned r in
  let s1 := storeOf r in
  let s2 := applyOps [UpdateGlobalContext "k" (JStr "v");
                      UpdateAgentState tech_lead working_update 7;
                      UpdateAgentMemory qa_engineer shortTerm "note" (JStr "x") 8;
                      SetPhase scaffold 9] s1 in
  isReturn r = true /\
  (seenContext s1 copy "k" = None /\ seenContext s2 copy "k" = Some (JStr "v")) /\
  (seenAgentState s1 copy tech_lead = Some idle /\
   seenAgentState s2 copy tech_lead = Some working) /\
  (seenShortTerm s1 copy qa_engineer "note" = None /\
   seenShortTerm s2 copy qa_engineer "note" = Some (JStr "x")) /\
  (seenPhase s1 copy = Some planning /\ seenPhase s2 copy = Some planning /\
   seenPhase s2 (currentState s2) = Some scaffold).
Proof. vm_compute. repeat split; reflexivity. Qed.

Lemma storeOf_emit {A} (r : Result A) ev :
  let s' := storeOf (match r with
                     | Throw e s1 => Throw e s1
                     | Ok _ s1 => Ok tt (emit ev s1)
                     end) in
  mem s' = mem (storeOf r) /\ currentState s' = currentState (storeOf r) /\
  stateHistory s' = stateHistory (storeOf r) /\ redis s' = redis (storeOf r).
Proof. destruct r; simpl; auto. Qed.

Lemma updateAgentState_changes P p u now s :
  goodFor P s -> Forall P (partialRefs u) ->
  changes P (mem s) (mem (storeOf (updateAgentState p u now s))) /\
  currentState (storeOf (updateAgentState p u now s)) = currentState s.
Proof.
  intros (Hd & Hc & Hcs & Hf) Hu. unfold updateAgentState.
  destruct (liveAgents s) as [[lmap es]|] eqn:El;
    [|simpl; split; [apply changes_refl; assumption|reflexivity]].
  destruct (liveAgents_inv _ _ _ El) as (st & Est & <- & Emap).
  destruct (P_state P _ _ _ Hc Hcs Est) as [Hpm _].
  destruct (map_get p es) as [lcur|] eqn:Eg;
    [|simpl; split; [apply changes_refl; assumption|reflexivity]].
  destruct (getAgent _ lcur) as [cur|] eqn:Ea;
    [|simpl; split; [apply changes_refl; assumption|reflexivity]].
  pose proof (P_map P _ _ _ _ _ Hc Hpm Emap Eg) as Hpl.
  destruct (P_agent P _ _ _ Hc Hpl Ea) as (Hp1 & Hp2 & Hp3).
  unfold alloc. cbn [fst snd].
  set (updated := {| persona := _ |}).
  assert (Hrefs : Forall P (refs (OAgent updated))).
  { unfold partialRefs in Hu. rewrite !Forall_app in Hu.
    destruct Hu as (Hu1 & Hu2 & Hu3). subst updated. simpl.
    repeat constructor.
    - destruct (u_memory u); simpl in *; [inversion Hu1; assumption|assumption].
    - destruct (u_currentTasks u); simpl in *; [inversion Hu2; assumption|assumption].
    - destruct (u_metrics u); simpl in *; [inversion Hu3; assumption|assumption]. }
  match goal with
  | |- context [persistAgentState p updated ?s0] =>
      destruct (storeOf_emit (persistAgentState p updated s0)
                  (StateAgentUpdated p (next (mem s)))) as (Hm1 & Hc1 & _);
      destruct (persistAgentState_store p updated s0) as (Hm2 & Hc2 & _)
  end.
  cbv zeta in *. rewrite Hm1, Hc1, Hm2, Hc2. cbn [setMem mem currentState].
  split; [|reflexivity].
  pose proof (changes_alloc P (OAgent updated) (mem s) Hd (Hf _ (Nat.le_refl _)) Hrefs)
    as Hch1.
  eapply changes_trans; [exact Hch1|].
  apply (changes_write P _ (OMap es)).
  - apply Hch1.
  - exact Hpm.
  - apply getMap_lookup in Emap. simpl.
    rewrite lookup_insert_ne; [exact Emap|].
    pose proof (domBelow_lt _ _ _ Hd Emap). lia.
  - simpl. symmetry. eapply map_set_keys_present. exact Eg.
  - simpl. apply map_set_values; [apply Hf; lia|].
    exact (P_map_all P (mem s) (agents st) es Hc Hpm Emap).
Qed.

Lemma updateGlobalContext_changes P key value s :
  goodFor P s ->
  changes P (mem s) (mem (storeOf (updateGlobalContext key value s))) /\
  currentState (storeOf (updateGlobalContext key value s)) = currentState s.
Proof.
  intros (Hd & Hc & Hcs & Hf). unfold updateGlobalContext.
  destruct (getState _ _) as [st|] eqn:Est;
    [|simpl; split; [apply changes_refl; assumption|reflexivity]].
  destruct (P_state P _ _ _ Hc Hcs Est) as [_ Hpg].
  destruct (getRecord _ _) as [gc|] eqn:Eg;
    [|simpl; split; [apply changes_refl; assumption|reflexivity]].
  simpl. split; [|reflexivity].
  apply changes_assign; try assumption.
  apply getRecord_lookup, Eg.
Qed.

Lemma createSnapshot_changes P why now s :
  goodFor P s ->
  changes P (mem s) (mem (storeOf (createSnapshot why now s))) /\
  currentState (storeOf (createSnapshot why now s)) = currentState s.
Proof.
  intros (Hd & Hc & Hcs & Hf). unfold createSnapshot.
  cbn [nextUuid mem currentState stateHistory].
  destruct (deepCloneState _ _) as [[l m1]|] eqn:Ec;
    [|simpl; split; [apply changes_refl; assumption|reflexivity]].
  destruct (deepCloneState_spec _ _ _ _ _ (Nat.le_refl _) Ec) as (Ha & _).
  cbn [setHistory setMem mem].
  destruct (readStateValue _ l); simpl; (split; [|reflexivity]);
    apply changes_allocates; assumption.
Qed.

Lemma setPhase_changes P ph now s :
  goodFor P s ->
  changes P (mem s) (mem (storeOf (setPhase ph now s))) /\
  currentState (storeOf (setPhase ph now s)) = currentState s.
Proof.
  intros Hg. pose proof Hg as (Hd & Hc & Hcs & Hf). unfold setPhase.
  destruct (getState _ _) as [st|] eqn:Est;
    [|simpl; split; [apply changes_refl; assumption|reflexivity]].
  destruct (P_state P _ _ _ Hc Hcs Est) as [Hpa Hpg].
  cbv zeta.
  set (st' := {| state_id := _ |}).
  set (s1 := setMem (write (currentState s) (OState st') (mem s)) s).
  assert (Hch1 : changes P (mem s) (mem s1)).
  { apply (changes_write P _ (OState st)); try assumption.
    - apply getState_lookup, Est.
    - reflexivity.
    - simpl. auto. }
  assert (Hg1 : goodFor P s1) by (eapply goodFor_changes; eassumption).
  match goal with
  | |- context [createSnapshot ?w now s1] =>
      destruct (storeOf_emit (createSnapshot w now s1)
                  (StatePhaseChanged (phase st) ph)) as (Hm1 & Hc1 & _);
      destruct (createSnapshot_changes P w now s1 Hg1) as (Hch2 & Hcur2)
  end.
  cbv zeta in *. rewrite Hm1, Hc1, Hcur2. split; [|reflexivity].
  eapply changes_trans; eassumption.
Qed.

Lemma saveState_store s :
  mem (saveState s) = mem s /\ currentState (saveState s) = currentState s /\
  stateHistory (saveState s) = stateHistory s.
Proof. unfold saveState. destruct (readStateValue _ _); simpl; auto. Qed.

Lemma loadState_changes P s :
  goodFor P s ->
  changes P (mem s) (mem (loadState s)) /\ P (currentState (loadState s)).
Proof.
  intros (Hd & Hc & Hcs & Hf). unfold loadState.
  destruct (currentDoc (redis s)) as [v|];
    [|split; [apply changes_refl; assumption|assumption]].
  destruct (deserializeState_spec (next (mem s)) v (mem s) (Nat.le_refl _))
    as (Ha & Hl1 & _).
  destruct (deserializeState v (mem s)) as [l m1]. cbn [fst snd] in *.
  simpl. split; [apply changes_allocates; assumption|apply Hf; assumption].
Qed.

Lemma restoreSnapshot_changes P snapshotId s :
  goodFor P s ->
  changes P (mem s) (mem (storeOf (restoreSnapshot snapshotId s))) /\
  P (currentState (storeOf (restoreSnapshot snapshotId s))).
Proof.
  intros (Hd & Hc & Hcs & Hf). unfold restoreSnapshot.
  destruct (snapshotDocs (redis s) !! snapshotId) as [sv|];
    [|simpl; split; [apply changes_refl; assumption|assumption]].
  destruct (deserializeState_spec (next (mem s)) (sv_state sv) (mem s) (Nat.le_refl _))
    as (Ha & Hl1 & _).
  destruct (deserializeState (sv_state sv) (mem s)) as [l0 m1]. cbn [fst snd] in *.
  pose proof (changes_allocates P _ _ Ha Hd Hf) as Hch1.
  pose proof (allocates_le _ _ _ Ha) as Hle.
  destruct (deepCloneState l0 m1) as [[l m2]|] eqn:Ec; [|simpl; auto].
  destruct (deepCloneState_spec _ _ _ _ _ (Nat.le_refl _) Ec) as (Ha2 & Hl2 & _).
  cbn [storeOf emit mem currentState].
  destruct (saveState_store (setCurrent l (setMem m2 s))) as (-> & -> & _).
  simpl. split; [|apply Hf; lia].
  eapply changes_trans; [exact Hch1|].
  apply changes_allocates; [assumption|apply Hch1|].
  intros x Hx. apply Hf. lia.
Qed.

Lemma updateAgentMemory_changes P p t key value now s :
  goodFor P s ->
  changes P (mem s) (mem (storeOf (updateAgentMemory p t key value now s))) /\
  currentState (storeOf (updateAgentMemory p t key value now s)) = currentState s.
Proof.
  intros (Hd & Hc & Hcs & Hf). unfold updateAgentMemory.
  destruct (liveAgents s) as [[lmap es]|] eqn:El;
    [|simpl; split; [apply changes_refl; assumption|reflexivity]].
  destruct (liveAgents_inv _ _ _ El) as (st & Est & <- & Emap).
  destruct (P_state P _ _ _ Hc Hcs Est) as [Hpm _].
  destruct (map_get p es) as [la|] eqn:Eg;
    [|simpl; split; [apply changes_refl; assumption|reflexivity]].
  destruct (getAgent _ la) as [a|] eqn:Ea;
    [|simpl; split; [apply changes_refl; assumption|reflexivity]].
  pose proof (P_map P _ _ _ _ _ Hc Hpm Emap Eg) as Hpl.
  destruct (P_agent P _ _ _ Hc Hpl Ea) as (Hp1 & Hp2 & Hp3).
  destruct (getMemory _ _) as [[ls ll]|] eqn:Em;
    [|simpl; split; [apply changes_refl; assumption|reflexivity]].
  destruct (P_memory P _ _ _ _ Hc Hp1 Em) as (Hps & Hpll).
  set (lr := match t with shortTerm => ls | longTerm => ll end).
  assert (Hpr : P lr) by (destruct t; assumption).
  destruct (getRecord _ lr) as [r|] eqn:Er;
    [|simpl; split; [apply changes_refl; assumption|reflexivity]].
  cbv zeta.
  match goal with
  | |- context [persistAgentState p ?a' ?s0] =>
      destruct (persistAgentState_store p a' s0) as (-> & -> & _)
  end.
  cbn [setMem mem currentState]. split; [|reflexivity].
  pose proof (changes_assign P lr key value r (mem s)
                Hd Hpr (getRecord_lookup _ _ _ Er)) as Hch1.
  eapply changes_trans; [exact Hch1|].
  apply (changes_write P _ (OAgent a)).
  - apply Hch1.
  - assumption.
  - apply getAgent_lookup in Ea. apply getRecord_lookup in Er.
    rewrite (assign_lookup _ _ _ _ _ la Er).
    destruct (decide (la = lr)) as [->|_]; [congruence|exact Ea].
  - exact I.
  - simpl. auto.
Qed.

Lemma clearShortTermMemory_changes P p now s :
  goodFor P s ->
  changes P (mem s) (mem (storeOf (clearShortTermMemory p now s))) /\
  currentState (storeOf (clearShortTermMemory p now s)) = currentState s.
Proof.
  intros (Hd & Hc & Hcs & Hf). unfold clearShortTermMemory.
  destruct (liveAgents s) as [[lmap es]|] eqn:El;
    [|simpl; split; [apply changes_refl; assumption|reflexivity]].
  destruct (liveAgents_inv _ _ _ El) as (st & Est & <- & Emap).
  destruct (P_state P _ _ _ Hc Hcs Est) as [Hpm _].
  destruct (map_get p es) as [la|] eqn:Eg;
    [|simpl; split; [apply changes_refl; assumption|reflexivity]].
  destruct (getAgent _ la) as [a|] eqn:Ea;
    [|simpl; split; [apply changes_refl; assumption|reflexivity]].
  pose proof (P_map P _ _ _ _ _ Hc Hpm Emap Eg) as Hpl.
  destruct (P_agent P _ _ _ Hc Hpl Ea) as (Hp1 & Hp2 & Hp3).
  destruct (getMemory _ _) as [[ls ll]|] eqn:Em;
    [|simpl; split; [apply changes_refl; assumption|reflexivity]].
  destruct (P_memory P _ _ _ _ Hc Hp1 Em) as (Hps & Hpll).
  unfold alloc. cbn [fst snd]. cbv zeta.
  match goal with
  | |- context [persistAgentState p ?a' ?s0] =>
      destruct (persistAgentState_store p a' s0) as (-> & -> & _)
  end.
  cbn [setMem mem currentState]. split; [|reflexivity].
  pose proof (changes_alloc P (ORecord ∅) (mem s) Hd (Hf _ (Nat.le_refl _))
                (List.Forall_nil P)) as Hch1.
  apply getAgent_lookup in Ea. apply getMemory_lookup in Em.
  pose proof (domBelow_lt _ _ _ Hd Ea) as Hlt1.
  pose proof (domBelow_lt _ _ _ Hd Em) as Hlt2.
  assert (Hch2 : changes P (snd (alloc (ORecord ∅) (mem s)))
                   (write (memory a) (OMemory (next (mem s)) ll)
                      (snd (alloc (ORecord ∅) (mem s))))).
  { apply (changes_write P _ (OMemory ls ll)).
    - apply Hch1.
    - assumption.
    - simpl. rewrite lookup_insert_ne by lia. exact Em.
    - exact I.
    - simpl. repeat constructor; [apply Hf; lia|assumption]. }
  eapply changes_trans; [exact Hch1|].
  eapply changes_trans; [exact Hch2|].
  apply (changes_write P _ (OAgent a)).
  - apply Hch2.
  - assumption.
  - simpl. rewrite lookup_insert_ne by congruence.
    rewrite lookup_insert_ne by lia. exact Ea.
  - exact I.
  - simpl. auto.
Qed.

Lemma applyOp_changes P op s :
  goodFor P s -> Forall P (opRefs op) ->
  changes P (mem s) (mem (applyOp op s)) /\ P (currentState (applyOp op s)).
Proof.
  intros Hg Hr. pose proof Hg as (Hd & Hc & Hcs & Hf).
  destruct op; cbn [applyOp opRefs] in *.
  - destruct (updateAgentState_changes P p updates now s Hg Hr) as [? ->]. auto.
  - destruct (updateAgentMemory_changes P p t key value now s Hg) as [? ->]. auto.
  - destruct (clearShortTermMemory_changes P p now s Hg) as [? ->]. auto.
  - destruct (updateGlobalContext_changes P key value s Hg) as [? ->]. auto.
  - destruct (setPhase_changes P ph now s Hg) as [? ->]. auto.
  - destruct (createSnapshot_changes P why now s Hg) as [? ->]. auto.
  - apply restoreSnapshot_changes; assumption.
  - destruct (getSystemState_changes P s Hg) as [? ->]. auto.
  - destruct (saveState_store s) as (-> & -> & _).
    split; [apply changes_refl; assumption|assumption].
  - apply loadState_changes; assumption.
  - simpl. split; [apply changes_refl; assumption|assumption].
Qed.

Lemma applyOps_changes P ops : forall s,
  goodFor P s -> Forall (fun o => Forall P (opRefs o)) ops ->
  changes P (mem s) (mem (applyOps ops s)) /\ goodFor P (applyOps ops s).
Proof.
  induction ops as [|o ops IH]; intros s Hg Hr.
  - simpl. split; [apply changes_refl; apply Hg|assumption].
  - inversion Hr as [|? ? Ho Hrest]; subst.
    destruct (applyOp_changes P o s Hg Ho) as [Hch Hcs].
    pose proof (goodFor_changes P s _ Hg Hch Hcs) as Hg'.
    destruct (IH _ Hg' Hrest) as [Hch' Hg''].
    simpl. split; [eapply changes_trans; eassumption|assumption].
Qed.

(** *** Reading inside a closed region *)

Section ReadFrame.
Variable R : loc -> Prop.
Variables h h' : gmap loc obj.
Hypothesis same : forall x, R x -> h' !! x = h !! x.
Hypothesis closed : forall x o, R x -> h !! x = Some o -> Forall R (refs o).

Lemma readAgentValue_frame a :
  R (memory a) -> R (currentTasks a) -> R (metrics a) ->
  readAgentValue h' a = readAgentValue h a.
Proof.
  intros Hm Ht He. unfold readAgentValue, getMemory, getRecord, getArray.
  rewrite (same _ Hm), (same _ Ht), (same _ He).
  destruct (h !! memory a) as [[| |ls ll| | |]|] eqn:E; try reflexivity.
  pose proof (closed _ _ Hm E) as Hr. simpl in Hr.
  inversion Hr as [|? ? Hls Hr']; subst. inversion Hr' as [|? ? Hll _]; subst.
  rewrite (same _ Hls), (same _ Hll). reflexivity.
Qed.

Lemma readEntries_frame es :
  Forall R (map snd es) -> readEntries h' es = readEntries h es.
Proof.
  induction es as [|[k l] es IH]; simpl; intros Hes; [reflexivity|].
  inversion Hes as [|? ? Hl Hrest]; subst.
  unfold getAgent. rewrite (same _ Hl).
  destruct (h !! l) as [[| | |a| |]|] eqn:E; try reflexivity.
  pose proof (closed _ _ Hl E) as Hr. simpl in Hr.
  inversion Hr as [|? ? H1 Hr1]; subst. inversion Hr1 as [|? ? H2 Hr2]; subst.
  inversion Hr2 as [|? ? H3 _]; subst.
  rewrite (readAgentValue_frame a H1 H2 H3), (IH Hrest). reflexivity.
Qed.

Lemma readStateValue_frame l :
  R l -> readStateValue h' l = readStateValue h l.
Proof.
  intros Hl. unfold readStateValue, getState. rewrite (same _ Hl).
  destruct (h !! l) as [[| | | | |st]|] eqn:E; try reflexivity.
  pose proof (closed _ _ Hl E) as Hr. simpl in Hr.
  inversion Hr as [|? ? Ha Hr1]; subst. inversion Hr1 as [|? ? Hg _]; subst.
  unfold getMap, getRecord. rewrite (same _ Ha), (same _ Hg).
  destruct (h !! agents st) as [[| | | |es|]|] eqn:Em; try reflexivity.
  pose proof (closed _ _ Ha Em) as Hes. simpl in Hes.
  rewrite (readEntries_frame es Hes). reflexivity.
Qed.
End ReadFrame.




(** *** The roster *)

Lemma goodFor_any s : domBelow (mem s) -> goodFor anyLoc s.
Proof.
  intros Hd. split; [assumption|]. split; [|split; [exact I|intros; exact I]].
  intros l o _ _. apply Forall_forall. intros; exact I.
Qed.

Lemma agentKeys_inv s ks :
  agentKeys s = Some ks ->
  exists st es, getState (cells (mem s)) (currentState s) = Some st /\
    getMap (cells (mem s)) (agents st) = Some es /\ map fst es = ks.
Proof.
  unfold agentKeys. destruct (liveAgents s) as [[lmap es]|] eqn:E; [|discriminate].
  intros [= <-]. destruct (liveAgents_inv _ _ _ E) as (st & ? & <- & ?).
  exists st, es. auto.
Qed.

Lemma agentKeys_intro s st es :
  getState (cells (mem s)) (currentState s) = Some st ->
  getMap (cells (mem s)) (agents st) = Some es ->
  agentKeys s = Some (map fst es).
Proof. intros H1 H2. unfold agentKeys, liveAgents. rewrite H1, H2. reflexivity. Qed.

Lemma agentKeys_stable s s' ks :
  stable (cells (mem s)) (cells (mem s')) -> currentState s' = currentState s ->
  agentKeys s = Some ks -> agentKeys s' = Some ks.
Proof.
  intros Hst Hcs Hk. destruct (agentKeys_inv _ _ Hk) as (st & es & Hs & Hm & <-).
  apply getState_lookup in Hs. apply getMap_lookup in Hm.
  destruct (Hst _ _ Hs) as (o1 & Ho1 & S1). destruct o1 as [| | | | |st']; try contradiction.
  simpl in S1.
  destruct (Hst _ _ Hm) as (o2 & Ho2 & S2). destruct o2 as [| | | |es'|]; try contradiction.
  simpl in S2. rewrite S2.
  apply agentKeys_intro with (st := st').
  - unfold getState. rewrite Hcs, Ho1. reflexivity.
  - unfold getMap. rewrite <- S1, Ho2. reflexivity.
Qed.

Lemma readEntries_keys h : forall es vs,
  readEntries h es = Some vs -> map fst vs = map fst es.
Proof.
  induction es as [|[k l] es IH]; simpl; intros vs H.
  - inversion H. reflexivity.
  - destruct (getAgent h l) as [a|]; [|discriminate].
    destruct (readAgentValue h a); [|discriminate].
    destruct (readEntries h es) as [vs'|]; [|discriminate].
    inversion H; subst. simpl. f_equal. apply IH. reflexivity.
Qed.

Lemma readStateValue_keys h l v :
  readStateValue h l = Some v ->
  exists st es, getState h l = Some st /\ getMap h (agents st) = Some es /\
    map fst (v_agents v) = map fst es.
Proof.
  unfold readStateValue.
  destruct (getState h l) as [st|] eqn:Es; [|discriminate].
  destruct (getMap h (agents st)) as [es|] eqn:Em; [|discriminate].
  destruct (getRecord h (globalContext st)); [|discriminate].
  destruct (readEntries h es) as [vs|] eqn:E; [|discriminate].
  intros [= <-]. exists st, es. simpl.
  split; [reflexivity|]. split; [assumption|]. eapply readEntries_keys, E.
Qed.

Lemma jsonState_keys v : map fst (v_agents (jsonState v)) = map fst (v_agents v).
Proof. unfold jsonState; simpl. rewrite map_map. reflexivity. Qed.

Lemma personas_nodup : List.NoDup personas.
Proof. repeat constructor; simpl; intuition discriminate. Qed.

(** A state read at the live location lists the roster. *)
Lemma liveValue_roster s v :
  agentKeys s = Some personas ->
  readStateValue (cells (mem s)) (currentState s) = Some v ->
  rosterDoc (jsonState v).
Proof.
  intros Hk Hv. destruct (agentKeys_inv _ _ Hk) as (st & es & Hs & Hm & He).
  destruct (readStateValue_keys _ _ _ Hv) as (st' & es' & Hs' & Hm' & Hk').
  unfold rosterDoc. rewrite jsonState_keys, Hk'. congruence.
Qed.

(** The copy [deepCloneState] makes of a state with roster keys has them too. *)
Lemma deepCloneState_roster l m l' m' st es :
  deepCloneState l m = Some (l', m') ->
  getState (cells m) l = Some st -> getMap (cells m) (agents st) = Some es ->
  map fst es = personas ->
  exists st' es', getState (cells m') l' = Some st' /\
    getMap (cells m') (agents st') = Some es' /\ map fst es' = personas.
Proof.
  intros Hc Hs Hm Hk.
  destruct (deepCloneState_spec _ _ _ _ _ (Nat.le_refl _) Hc)
    as (_ & _ & _ & st0 & es0 & st' & es' & Hs0 & Hm0 & Hs' & _ & _ & _ & Hm' & Hk').
  rewrite Hs in Hs0. injection Hs0 as <-. rewrite Hm in Hm0. injection Hm0 as <-.
  exists st', es'. split; [assumption|].
  rewrite map_of_entries_nodup in Hm'.
  - split; [assumption|congruence].
  - rewrite Hk', Hk. apply personas_nodup.
Qed.

Lemma deserializeState_roster v m :
  rosterDoc v ->
  exists st es,
    getState (cells (snd (deserializeState v m))) (fst (deserializeState v m)) = Some st /\
    getMap (cells (snd (deserializeState v m))) (agents st) = Some es /\
    map fst es = personas.
Proof.
  intros Hv.
  destruct (deserializeState_spec (next m) v m (Nat.le_refl _))
    as (_ & _ & _ & st & es & Hs & _ & Hm & Hk).
  exists st, es. split; [assumption|].
  rewrite map_of_entries_nodup in Hm.
  - split; [assumption|]. rewrite Hk. exact Hv.
  - rewrite Hk, Hv. apply personas_nodup.
Qed.

Lemma rosterRedis_same r r' :
  currentDoc r' = currentDoc r -> snapshotDocs r' = snapshotDocs r ->
  rosterRedis r -> rosterRedis r'.
Proof. intros H1 H2 [Hc Hs]. split; rewrite ?H1, ?H2; assumption. Qed.

Lemma createSnapshot_roster why now s :
  rosterInv s -> rosterRedis (redis (storeOf (createSnapshot why now s))).
Proof.
  intros (Hd & Hk & Hr). unfold createSnapshot.
  cbn [nextUuid mem currentState stateHistory].
  destruct (deepCloneState _ _) as [[l m1]|] eqn:Ec; [|exact Hr].
  cbn [setHistory setMem mem].
  destruct (readStateValue (cells m1) l) as [v|] eqn:Ev; [|exact Hr].
  cbn [storeOf setRedis redis setHistory setMem nextUuid].
  destruct (agentKeys_inv _ _ Hk) as (st & es & Hs & Hm & He).
  destruct (deepCloneState_roster _ _ _ _ _ _ Ec Hs Hm He) as (st' & es' & Hs' & Hm' & Hk').
  destruct (readStateValue_keys _ _ _ Ev) as (st2 & es2 & Hs2 & Hm2 & Hk2).
  rewrite Hs' in Hs2. injection Hs2 as <-. rewrite Hm' in Hm2. injection Hm2 as <-.
  destruct Hr as [Hrc Hrs]. split; [exact Hrc|]. cbn [snapshotDocs].
  intros i sv. rewrite lookup_insert. destruct (decide _) as [_|_].
  - intros [= <-]. unfold rosterDoc. cbn [sv_state].
    rewrite jsonState_keys. congruence.
  - apply Hrs.
Qed.

Ltac split_reads :=
  repeat match goal with
         | |- context [match ?x with _ => _ end] => destruct x
         end.

Lemma storeOf_emit_redis {A} (r : Result A) ev :
  redis (storeOf (match r with
                  | Throw e s1 => Throw e s1
                  | Ok _ s1 => Ok tt (emit ev s1)
                  end)) = redis (storeOf r).
Proof. destruct r; reflexivity. Qed.

Lemma updateAgentState_redis p u now s :
  let s' := storeOf (updateAgentState p u now s) in
  currentDoc (redis s') = currentDoc (redis s) /\
  snapshotDocs (redis s') = snapshotDocs (redis s).
Proof.
  unfold updateAgentState.
  destruct (liveAgents s) as [[lmap es]|]; [|simpl; auto].
  destruct (map_get p es) as [lcur|]; [|simpl; auto].
  destruct (getAgent _ lcur) as [cur|]; [|simpl; auto].
  unfold alloc. cbn [fst snd]. cbv zeta. rewrite storeOf_emit_redis.
  match goal with
  | |- context [persistAgentState p ?a ?s0] =>
      destruct (persistAgentState_store p a s0) as (_ & _ & _ & -> & ->)
  end. simpl. auto.
Qed.

Lemma updateAgentMemory_redis p t key value now s :
  let s' := storeOf (updateAgentMemory p t key value now s) in
  currentDoc (redis s') = currentDoc (redis s) /\
  snapshotDocs (redis s') = snapshotDocs (redis s).
Proof.
  unfold updateAgentMemory.
  destruct (liveAgents s) as [[lmap es]|]; [|simpl; auto].
  destruct (map_get p es) as [la|]; [|simpl; auto].
  destruct (getAgent _ la) as [a|]; [|simpl; auto].
  destruct (getMemory _ _) as [[ls ll]|]; [|simpl; auto].
  destruct (getRecord _ _) as [r|]; [|simpl; auto].
  cbv zeta.
  match goal with
  | |- context [persistAgentState p ?a ?s0] =>
      destruct (persistAgentState_store p a s0) as (_ & _ & _ & -> & ->)
  end. simpl. auto.
Qed.

Lemma clearShortTermMemory_redis p now s :
  let s' := storeOf (clearShortTermMemory p now s) in
  currentDoc (redis s') = currentDoc (redis s) /\
  snapshotDocs (redis s') = snapshotDocs (redis s).
Proof.
  unfold clearShortTermMemory.
  destruct (liveAgents s) as [[lmap es]|]; [|simpl; auto].
  destruct (map_get p es) as [la|]; [|simpl; auto].
  destruct (getAgent _ la) as [a|]; [|simpl; auto].
  destruct (getMemory _ _) as [[ls ll]|]; [|simpl; auto].
  unfold alloc. cbn [fst snd]. cbv zeta.
  match goal with
  | |- context [persistAgentState p ?a ?s0] =>
      destruct (persistAgentState_store p a s0) as (_ & _ & _ & -> & ->)
  end. simpl. auto.
Qed.

Lemma updateGlobalContext_redis key value s :
  let s' := storeOf (updateGlobalContext key value s) in
  currentDoc (redis s') = currentDoc (redis s) /\
  snapshotDocs (redis s') = snapshotDocs (redis s).
Proof. unfold updateGlobalContext. split_reads; simpl; auto. Qed.

Lemma getSystemState_redis s :
  redis (storeOf (getSystemState s)) = redis s.
Proof. unfold getSystemState. split_reads; simpl; auto. Qed.

Lemma rosterInv_step s s' :
  rosterInv s ->
  changes anyLoc (mem s) (mem s') -> currentState s' = currentState s ->
  rosterRedis (redis s') -> rosterInv s'.
Proof.
  intros (Hd & Hk & Hr) (_ & _ & _ & Hst & Hd') Hcs Hr'.
  split; [assumption|]. split; [|assumption].
  eapply agentKeys_stable; eassumption.
Qed.

Lemma saveState_roster s : rosterInv s -> rosterInv (saveState s).
Proof.
  intros Hi. pose proof Hi as (Hd & Hk & Hr). unfold saveState.
  destruct (readStateValue _ _) as [v|] eqn:Ev; [|assumption].
  split; [exact Hd|]. split; [exact Hk|].
  destruct Hr as [Hrc Hrs]. split; [|exact Hrs].
  cbn [setRedis redis currentDoc]. intros v' [= <-].
  eapply liveValue_roster; eassumption.
Qed.

Lemma setPhase_roster ph now s : rosterInv s -> rosterInv (storeOf (setPhase ph now s)).
Proof.
  intros Hi. pose proof Hi as (Hd & Hk & Hr).
  destruct (setPhase_changes anyLoc ph now s (goodFor_any _ Hd)) as [Hch Hcs].
  apply (rosterInv_step s); try assumption.
  unfold setPhase. destruct (getState _ _) as [st|] eqn:Est; [|exact Hr].
  cbv zeta.
  set (st' := {| state_id := _ |}).
  set (s1 := setMem (write (currentState s) (OState st') (mem s)) s).
  assert (Hi1 : rosterInv s1).
  { apply (rosterInv_step s); try assumption; try reflexivity.
    apply (changes_write anyLoc _ (OState st)); try assumption; try exact I.
    - apply getState_lookup, Est.
    - reflexivity.
    - apply Forall_forall. intros; exact I. }
  match goal with
  | |- context [createSnapshot ?w now s1] =>
      pose proof (createSnapshot_roster w now s1 Hi1) as Hc;
      destruct (createSnapshot w now s1)
  end; exact Hc.
Qed.

Lemma restoreSnapshot_roster i s :
  rosterInv s -> rosterInv (storeOf (restoreSnapshot i s)).
Proof.
  intros Hi. pose proof Hi as (Hd & Hk & Hr).
  destruct (restoreSnapshot_changes anyLoc i s (goodFor_any _ Hd))
    as [(_ & _ & _ & Hst & Hd') _].
  split; [exact Hd'|]. clear Hd' Hst.
  unfold restoreSnapshot.
  destruct (snapshotDocs (redis s) !! i) as [sv|] eqn:Ei; [|split; assumption].
  pose proof Hr as [_ Hrs].
  destruct (deserializeState_roster (sv_state sv) (mem s) (Hrs _ _ Ei))
    as (st0 & es0 & Hs0 & Hm0 & Hk0).
  destruct (deserializeState_spec (next (mem s)) (sv_state sv) (mem s) (Nat.le_refl _))
    as (Ha & _).
  destruct (deserializeState (sv_state sv) (mem s)) as [l0 m1]. cbn [fst snd] in *.
  destruct (deepCloneState l0 m1) as [[l m2]|] eqn:Ec.
  - destruct (deepCloneState_roster _ _ _ _ _ _ Ec Hs0 Hm0 Hk0) as (st' & es' & Hs' & Hm' & Hk').
    destruct (deepCloneState_spec _ _ _ _ _ (Nat.le_refl _) Ec) as (Ha2 & _).
    assert (Hi2 : rosterInv (setCurrent l (setMem m2 s))).
    { split; [|split; [|exact Hr]].
      - simpl. destruct Ha as (_ & He & _). destruct Ha2 as (_ & He2 & _).
        eapply extends_domBelow; [exact He2|].
        eapply extends_domBelow; [exact He|exact Hd].
      - rewrite <- Hk'. apply agentKeys_intro with (st := st'); assumption. }
    destruct (saveState_roster _ Hi2) as (_ & Hk3 & Hr3).
    cbn [storeOf]. split; [exact Hk3|exact Hr3].
  - cbn [storeOf]. split; [|exact Hr].
    apply (agentKeys_stable s (setMem m1 s) personas); [|reflexivity|exact Hk].
    simpl. destruct Ha as (_ & He & _). apply extends_stable; assumption.
Qed.

Lemma loadState_roster s : rosterInv s -> rosterInv (loadState s).
Proof.
  intros Hi. pose proof Hi as (Hd & Hk & Hr).
  destruct (loadState_changes anyLoc s (goodFor_any _ Hd)) as [(_ & _ & _ & _ & Hd') _].
  split; [exact Hd'|]. clear Hd'. unfold loadState.
  destruct (currentDoc (redis s)) as [v|] eqn:Ev; [|split; assumption].
  pose proof Hr as [Hrc _].
  destruct (deserializeState_roster v (mem s) (Hrc _ Ev)) as (st0 & es0 & Hs0 & Hm0 & Hk0).
  destruct (deserializeState v (mem s)) as [l m1]. cbn [fst snd] in *.
  split; [|exact Hr]. rewrite <- Hk0.
  apply agentKeys_intro with (st := st0); assumption.
Qed.

Lemma applyOp_roster op s : rosterInv s -> rosterInv (applyOp op s).
Proof.
  intros Hi. pose proof Hi as (Hd & Hk & Hr).
  pose proof (goodFor_any _ Hd) as Hg.
  destruct op; cbn [applyOp].
  - destruct (updateAgentState_changes anyLoc p updates now s Hg) as [Hch Hcs].
    { apply Forall_forall. intros; exact I. }
    destruct (updateAgentState_redis p updates now s) as [H1 H2].
    apply (rosterInv_step s); try assumption.
    eapply rosterRedis_same; eassumption.
  - destruct (updateAgentMemory_changes anyLoc p t key value now s Hg) as [Hch Hcs].
    destruct (updateAgentMemory_redis p t key value now s) as [H1 H2].
    apply (rosterInv_step s); try assumption.
    eapply rosterRedis_same; eassumption.
  - destruct (clearShortTermMemory_changes anyLoc p now s Hg) as [Hch Hcs].
    destruct (clearShortTermMemory_redis p now s) as [H1 H2].
    apply (rosterInv_step s); try assumption.
    eapply rosterRedis_same; eassumption.
  - destruct (updateGlobalContext_changes anyLoc key value s Hg) as [Hch Hcs].
    destruct (updateGlobalContext_redis key value s) as [H1 H2].
    apply (rosterInv_step s); try assumption.
    eapply rosterRedis_same; eassumption.
  - apply setPhase_roster; assumption.
  - destruct (createSnapshot_changes anyLoc why now s Hg) as [Hch Hcs].
    apply (rosterInv_step s); try assumption.
    apply createSnapshot_roster; assumption.
  - apply restoreSnapshot_roster; assumption.
  - destruct (getSystemState_changes anyLoc s Hg) as [Hch Hcs].
    apply (rosterInv_step s); try assumption.
    rewrite getSystemState_redis. assumption.
  - apply saveState_roster; assumption.
  - apply loadState_roster; assumption.
  - split; [exact Hd|]. split; [exact Hk|].
    destruct Hr as [Hrc Hrs]. split; [exact Hrc|].
    simpl. intros i sv Hl. apply lookup_delete_Some in Hl. eapply Hrs, Hl.
Qed.

Lemma newStore_roster r now : rosterRedis r -> rosterInv (newStore r now).
Proof.
  intros Hr. split; [apply newStore_wf|]. split; [|exact Hr].
  vm_compute. reflexivity.
Qed.

(** C8: whatever Redis held at start-up (as long as the states kept in
    it list the roster, as every state this service writes does) and
    whatever calls were made since, the live [agents] map has exactly the
    six personas of the roster as its keys, each once, in roster order. *)
Theorem roster_is_invariant (r : Redis) (now : Z) (ops : list Op) :
  rosterRedis r ->
  agentKeys (applyOps ops (newStore r now)) = Some personas.
Proof.
  intros Hr. pose proof (newStore_roster r now Hr) as Hi.
  generalize dependent (newStore r now).
  induction ops as [|o ops IH]; intros s Hi; [apply Hi|].
  simpl. apply IH. apply applyOp_roster. assumption.
Qed.

Lemma roster_is_invariant_witness :
  rosterRedis emptyRedis /\
  agentKeys (applyOps lifecycleCalls (newStore emptyRedis 0)) = Some personas.
Proof.
  assert (H : rosterRedis emptyRedis).
  { split; [intros v Hv; discriminate Hv|].
    intros i sv Hi. simpl in Hi. rewrite lookup_empty in Hi. discriminate Hi. }
  split; [exact H|]. apply (roster_is_invariant emptyRedis 0 lifecycleCalls H).
Defined.

(** *** Reading after allocation *)

Lemma lookup_extends m m' l o :
  extends m m' -> domBelow m -> cells m !! l = Some o -> cells m' !! l = Some o.
Proof.
  intros (_ & Hlo & _) Hd H. rewrite Hlo; [assumption|].
  eapply domBelow_lt; eassumption.
Qed.

Lemma getRecord_extends m m' l r :
  extends m m' -> domBelow m -> getRecord (cells m) l = Some r ->
  getRecord (cells m') l = Some r.
Proof.
  intros He Hd H. apply getRecord_lookup in H.
  unfold getRecord. rewrite (lookup_extends _ _ _ _ He Hd H). reflexivity.
Qed.

Lemma getArray_extends m m' l r :
  extends m m' -> domBelow m -> getArray (cells m) l = Some r ->
  getArray (cells m') l = Some r.
Proof.
  intros He Hd H. apply getArray_lookup in H.
  unfold getArray. rewrite (lookup_extends _ _ _ _ He Hd H). reflexivity.
Qed.

Lemma getMemory_extends m m' l r :
  extends m m' -> domBelow m -> getMemory (cells m) l = Some r ->
  getMemory (cells m') l = Some r.
Proof.
  intros He Hd H. destruct r as [ls ll]. apply getMemory_lookup in H.
  unfold getMemory. rewrite (lookup_extends _ _ _ _ He Hd H). reflexivity.
Qed.

Lemma getMap_extends m m' l r :
  extends m m' -> domBelow m -> getMap (cells m) l = Some r ->
  getMap (cells m') l = Some r.
Proof.
  intros He Hd H. apply getMap_lookup in H.
  unfold getMap. rewrite (lookup_extends _ _ _ _ He Hd H). reflexivity.
Qed.

Lemma getState_extends m m' l r :
  extends m m' -> domBelow m -> getState (cells m) l = Some r ->
  getState (cells m') l = Some r.
Proof.
  intros He Hd H. apply getState_lookup in H.
  unfold getState. rewrite (lookup_extends _ _ _ _ He Hd H). reflexivity.
Qed.

Lemma readAgentValue_inv h a v :
  readAgentValue h a = Some v ->
  exists ls ll sh lg ts me,
    getMemory h (memory a) = Some (ls, ll) /\ getRecord h ls = Some sh /\
    getRecord h ll = Some lg /\ getArray h (currentTasks a) = Some ts /\
    getRecord h (metrics a) = Some me /\
    v = {| v_persona := persona a; v_state := state a; v_shortTerm := sh;
           v_longTerm := lg; v_currentTasks := ts; v_metrics := me;
           v_lastUpdated := lastUpdated a |}.
Proof.
  unfold readAgentValue.
  destruct (getMemory h (memory a)) as [[ls ll]|] eqn:E1; [|discriminate].
  destruct (getRecord h ls) as [sh|] eqn:E2; [|discriminate].
  destruct (getRecord h ll) as [lg|] eqn:E3; [|discriminate].
  destruct (getArray h (currentTasks a)) as [ts|] eqn:E4; [|discriminate].
  destruct (getRecord h (metrics a)) as [me|] eqn:E5; [|discriminate].
  intros [= <-]. exists ls, ll, sh, lg, ts, me.
  repeat (split; [first [reflexivity|assumption]|]). reflexivity.
Qed.

Lemma readAgentValue_extends m m' a v :
  extends m m' -> domBelow m -> readAgentValue (cells m) a = Some v ->
  readAgentValue (cells m') a = Some v.
Proof.
  intros He Hd H.
  destruct (readAgentValue_inv _ _ _ H) as (ls & ll & sh & lg & ts & me & H1 & H2 & H3 & H4 & H5 & ->).
  unfold readAgentValue.
  rewrite (getMemory_extends _ _ _ _ He Hd H1), (getRecord_extends _ _ _ _ He Hd H2),
    (getRecord_extends _ _ _ _ He Hd H3), (getArray_extends _ _ _ _ He Hd H4),
    (getRecord_extends _ _ _ _ He Hd H5). reflexivity.
Qed.

Lemma readEntries_extends m m' : forall es vs,
  extends m m' -> domBelow m -> readEntries (cells m) es = Some vs ->
  readEntries (cells m') es = Some vs.
Proof.
  induction es as [|[k l] es IH]; simpl; intros vs He Hd H; [assumption|].
  destruct (getAgent (cells m) l) as [a|] eqn:Ea; [|discriminate].
  destruct (readAgentValue (cells m) a) as [v|] eqn:Ev; [|discriminate].
  destruct (readEntries (cells m) es) as [vs'|] eqn:Er; [|discriminate].
  rewrite (getAgent_extends _ _ _ _ He Hd Ea), (readAgentValue_extends _ _ _ _ He Hd Ev),
    (IH _ He Hd eq_refl). assumption.
Qed.

Lemma readStateValue_extends m m' l v :
  extends m m' -> domBelow m -> readStateValue (cells m) l = Some v ->
  readStateValue (cells m') l = Some v.
Proof.
  intros He Hd. unfold readStateValue.
  destruct (getState (cells m) l) as [st|] eqn:Es; [|discriminate].
  destruct (getMap (cells m) (agents st)) as [es|] eqn:Em; [|discriminate].
  destruct (getRecord (cells m) (globalContext st)) as [gc|] eqn:Eg; [|discriminate].
  destruct (readEntries (cells m) es) as [vs|] eqn:Er; [|discriminate].
  rewrite (getState_extends _ _ _ _ He Hd Es), (getMap_extends _ _ _ _ He Hd Em),
    (getRecord_extends _ _ _ _ He Hd Eg), (readEntries_extends _ _ _ _ He Hd Er).
  auto.
Qed.

(** *** [deepCloneState] returns a faithful copy *)

Lemma cloneAgent_total m a v :
  readAgentValue (cells m) a = Some v ->
  exists l' m', cloneAgent a m = Some (l', m').
Proof.
  intros H.
  destruct (readAgentValue_inv _ _ _ H) as (ls & ll & sh & lg & ts & me & H1 & H2 & H3 & H4 & H5 & _).
  unfold cloneAgent. rewrite H1, H2, H3, H4, H5.
  destruct (allocAgent _ _ _ _ _ _ _ m) as [l' m']. eauto.
Qed.

Lemma cloneEntries_total : forall es m vs,
  domBelow m -> readEntries (cells m) es = Some vs ->
  exists es' m', cloneEntries es m = Some (es', m') /\
    readEntries (cells m') es' = Some vs.
Proof.
  induction es as [|[k l] es IH]; simpl; intros m vs Hd H.
  - exists [], m. split; [reflexivity|assumption].
  - destruct (getAgent (cells m) l) as [a|] eqn:Ea; [|discriminate].
    destruct (readAgentValue (cells m) a) as [v|] eqn:Ev; [|discriminate].
    destruct (readEntries (cells m) es) as [vs'|] eqn:Er; [|discriminate].
    injection H as <-.
    destruct (cloneAgent_total _ _ _ Ev) as (l1 & m1 & Hc). rewrite Hc.
    destruct (cloneAgent_spec (next m) a m l1 m1 (Nat.le_refl _) Hc)
      as ((_ & He1 & _) & _ & _ & a1 & val & Hg1 & _ & _ & Hv & Hv1).
    rewrite Ev in Hv. injection Hv as <-.
    pose proof (extends_domBelow _ _ He1 Hd) as Hd1.
    destruct (IH m1 vs' Hd1 (readEntries_extends _ _ _ _ He1 Hd Er))
      as (es2 & m2 & Hc2 & Hr2).
    rewrite Hc2. exists ((k, l1) :: es2), m2. split; [reflexivity|].
    destruct (cloneEntries_spec (next m1) es m1 es2 m2 (Nat.le_refl _) Hc2)
      as ((_ & He2 & _) & _).
    simpl. rewrite (getAgent_extends _ _ _ _ He2 Hd1 Hg1),
      (readAgentValue_extends _ _ _ _ He2 Hd1 Hv1), Hr2. reflexivity.
Qed.

Lemma deepCloneState_total l m v :
  domBelow m -> readStateValue (cells m) l = Some v ->
  List.NoDup (map fst (v_agents v)) ->
  exists l' m', deepCloneState l m = Some (l', m') /\
    readStateValue (cells m') l' = Some v.
Proof.
  intros Hd Hv Hnd. unfold readStateValue in Hv.
  destruct (getState (cells m) l) as [st|] eqn:Es; [|discriminate].
  destruct (getMap (cells m) (agents st)) as [es|] eqn:Em; [|discriminate].
  destruct (getRecord (cells m) (globalContext st)) as [gc|] eqn:Eg; [|discriminate].
  destruct (readEntries (cells m) es) as [vs|] eqn:Er; [|discriminate].
  injection Hv as <-. cbn [v_agents] in Hnd.
  destruct (cloneEntries_total es m vs Hd Er) as (es' & m1 & Hc & Hr1).
  destruct (cloneEntries_spec (next m) es m es' m1 (Nat.le_refl _) Hc)
    as ((_ & He1 & _) & Hk & _).
  pose proof (extends_domBelow _ _ He1 Hd) as Hd1.
  assert (Hmo : map_of_entries es' = es').
  { apply map_of_entries_nodup. rewrite Hk, <- (readEntries_keys _ _ _ Er). exact Hnd. }
  unfold deepCloneState. rewrite Es, Em, Hc, Hmo.
  unfold alloc at 1. cbn [fst snd cells next].
  assert (Eg1 : getRecord (cells m1) (globalContext st) = Some gc)
    by exact (getRecord_extends _ _ _ _ He1 Hd Eg).
  assert (Hlt : globalContext st < next m1).
  { apply getRecord_lookup in Eg1. eapply domBelow_lt; eassumption. }
  assert (Eg2 : getRecord (<[next m1 := OMap es']> (cells m1)) (globalContext st) = Some gc).
  { unfold getRecord. rewrite lookup_insert_ne by lia. exact Eg1. }
  rewrite Eg2. unfold alloc. cbn [fst snd cells next].
  set (stc := {| state_id := state_id st; phase := phase st; agents := next m1;
                 globalContext := S (next m1); timestamp := timestamp st |}).
  set (m3 := snd (alloc (OState stc)
                    (snd (alloc (ORecord gc) (snd (alloc (OMap es') m1)))))).
  exists (S (S (next m1))), m3. split; [reflexivity|].
  assert (He3 : extends m1 m3).
  { eapply extends_trans; [apply (extends_alloc (OMap es'))|].
    eapply extends_trans; [apply (extends_alloc (ORecord gc))|].
    apply (extends_alloc (OState stc)). }
  assert (H1 : getState (cells m3) (S (S (next m1))) = Some stc).
  { subst m3. unfold getState, alloc. cbn [fst snd cells next]. lookup_new. reflexivity. }
  assert (H2 : getMap (cells m3) (next m1) = Some es').
  { subst m3. unfold getMap, alloc. cbn [fst snd cells next]. lookup_new. reflexivity. }
  assert (H3 : getRecord (cells m3) (S (next m1)) = Some gc).
  { subst m3. unfold getRecord, alloc. cbn [fst snd cells next]. lookup_new. reflexivity. }
  unfold readStateValue. rewrite H1. cbn [agents globalContext stc].
  rewrite H2, H3, (readEntries_extends _ _ _ _ He3 Hd1 Hr1). reflexivity.
Qed.

(** *** Writing the state object *)

Section WriteState.
Variables (h : gmap loc obj) (l : loc) (st st' : SystemState).
Hypothesis live : getState h l = Some st.

Lemma getMap_write_state x : getMap (<[l := OState st']> h) x = getMap h x.
Proof.
  apply getState_lookup in live. unfold getMap.
  destruct (decide (l = x)) as [<-|Hne];
    [rewrite lookup_insert_eq, live|rewrite lookup_insert_ne by assumption]; reflexivity.
Qed.
Lemma getRecord_write_state x : getRecord (<[l := OState st']> h) x = getRecord h x.
Proof.
  apply getState_lookup in live. unfold getRecord.
  destruct (decide (l = x)) as [<-|Hne];
    [rewrite lookup_insert_eq, live|rewrite lookup_insert_ne by assumption]; reflexivity.
Qed.
Lemma getArray_write_state x : getArray (<[l := OState st']> h) x = getArray h x.
Proof.
  apply getState_lookup in live. unfold getArray.
  destruct (decide (l = x)) as [<-|Hne];
    [rewrite lookup_insert_eq, live|rewrite lookup_insert_ne by assumption]; reflexivity.
Qed.
Lemma getMemory_write_state x : getMemory (<[l := OState st']> h) x = getMemory h x.
Proof.
  apply getState_lookup in live. unfold getMemory.
  destruct (decide (l = x)) as [<-|Hne];
    [rewrite lookup_insert_eq, live|rewrite lookup_insert_ne by assumption]; reflexivity.
Qed.
Lemma getAgent_write_state x : getAgent (<[l := OState st']> h) x = getAgent h x.
Proof.
  apply getState_lookup in live. unfold getAgent.
  destruct (decide (l = x)) as [<-|Hne];
    [rewrite lookup_insert_eq, live|rewrite lookup_insert_ne by assumption]; reflexivity.
Qed.

Lemma readAgentValue_write_state a :
  readAgentValue (<[l := OState st']> h) a = readAgentValue h a.
Proof.
  unfold readAgentValue. rewrite getMemory_write_state.
  destruct (getMemory h (memory a)) as [[ls ll]|]; [|reflexivity].
  rewrite !getRecord_write_state, getArray_write_state. reflexivity.
Qed.

Lemma readEntries_write_state es :
  readEntries (<[l := OState st']> h) es = readEntries h es.
Proof.
  induction es as [|[k x] es IH]; simpl; [reflexivity|].
  rewrite getAgent_write_state. destruct (getAgent h x) as [a|]; [|reflexivity].
  rewrite readAgentValue_write_state, IH. reflexivity.
Qed.

Lemma readStateValue_write_state v :
  agents st' = agents st -> globalContext st' = globalContext st ->
  readStateValue h l = Some v ->
  readStateValue (<[l := OState st']> h) l =
    Some {| v_id := state_id st'; v_phase := phase st'; v_agents := v_agents v;
            v_globalContext := v_globalContext v; v_timestamp := timestamp st' |}.
Proof.
  intros Ha Hg. unfold readStateValue. rewrite live.
  unfold getState at 1. rewrite lookup_insert_eq.
  rewrite getMap_write_state, getRecord_write_state, Ha, Hg.
  destruct (getMap h (agents st)) as [es|]; [|discriminate].
  destruct (getRecord h (globalContext st)) as [gc|]; [|discriminate].
  rewrite readEntries_write_state.
  destruct (readEntries h es) as [vs|]; [|discriminate].
  intros [= <-]. reflexivity.
Qed.
End WriteState.

Lemma readStateValue_inv h l v :
  readStateValue h l = Some v ->
  exists st, getState h l = Some st /\ v_id v = state_id st /\
    v_phase v = phase st /\ v_timestamp v = timestamp st.
Proof.
  unfold readStateValue.
  destruct (getState h l) as [st|]; [|discriminate].
  destruct (getMap h (agents st)) as [es|]; [|discriminate].
  destruct (getRecord h (globalContext st)); [|discriminate].
  destruct (readEntries h es) as [vs|]; [|discriminate].
  intros [= <-]. exists st. repeat split.
Qed.

Lemma createSnapshot_returns why now s v :
  domBelow (mem s) -> liveValue s = Some v -> List.NoDup (map fst (v_agents v)) ->
  exists s' snapshot,
    createSnapshot why now s = Ok (uuidv4 (uuidSeed s)) s' /\
    last (stateHistory s') = Some snapshot /\
    snap_id snapshot = uuidv4 (uuidSeed s) /\ reason snapshot = why /\
    readStateValue (cells (mem s')) (systemState snapshot) = Some v /\
    liveValue s' = Some v.
Proof.
  intros Hd Hv Hnd. unfold createSnapshot.
  cbn [nextUuid mem currentState stateHistory].
  destruct (deepCloneState_total _ _ _ Hd Hv Hnd) as (l' & m' & Hc & Hr).
  destruct (deepCloneState_spec _ _ _ _ _ (Nat.le_refl _) Hc) as ((_ & He & _) & _).
  rewrite Hc. cbn [setHistory setMem mem]. rewrite Hr.
  eexists. eexists. split; [reflexivity|].
  cbn [setRedis setHistory setMem nextUuid stateHistory mem currentState].
  split; [apply pushSnapshot_last|]. cbn [snap_id reason systemState].
  split; [reflexivity|]. split; [reflexivity|]. split; [exact Hr|].
  unfold liveValue. cbn [mem currentState].
  eapply readStateValue_extends; eassumption.
Qed.



(** *** Typed heaps *)

Lemma kindAt_lookup h l o : h !! l = Some o -> kindAt h l = Some (kind o).
Proof. unfold kindAt. intros ->. reflexivity. Qed.

Lemma kindAt_inv h l k :
  kindAt h l = Some k -> exists o, h !! l = Some o /\ kind o = k.
Proof.
  unfold kindAt. destruct (h !! l) as [o|]; simpl; [|discriminate].
  intros [= <-]. eauto.
Qed.

Lemma kindAt_record h l : kindAt h l = Some KRecord -> exists r, getRecord h l = Some r.
Proof.
  intros H. destruct (kindAt_inv _ _ _ H) as ([] & Hl & Hk); try discriminate.
  unfold getRecord. rewrite Hl. eauto.
Qed.

Lemma kindAt_array h l : kindAt h l = Some KArray -> exists r, getArray h l = Some r.
Proof.
  intros H. destruct (kindAt_inv _ _ _ H) as ([] & Hl & Hk); try discriminate.
  unfold getArray. rewrite Hl. eauto.
Qed.

Lemma kindAt_memory h l :
  kindAt h l = Some KMemory -> exists s g, getMemory h l = Some (s, g).
Proof.
  intros H. destruct (kindAt_inv _ _ _ H) as ([] & Hl & Hk); try discriminate.
  unfold getMemory. rewrite Hl. eauto.
Qed.

Lemma kindAt_agent h l : kindAt h l = Some KAgent -> exists a, getAgent h l = Some a.
Proof.
  intros H. destruct (kindAt_inv _ _ _ H) as ([] & Hl & Hk); try discriminate.
  unfold getAgent. rewrite Hl. eauto.
Qed.

Lemma kindAt_map h l : kindAt h l = Some KMap -> exists es, getMap h l = Some es.
Proof.
  intros H. destruct (kindAt_inv _ _ _ H) as ([] & Hl & Hk); try discriminate.
  unfold getMap. rewrite Hl. eauto.
Qed.

Lemma kindAt_state h l : kindAt h l = Some KState -> exists st, getState h l = Some st.
Proof.
  intros H. destruct (kindAt_inv _ _ _ H) as ([] & Hl & Hk); try discriminate.
  unfold getState. rewrite Hl. eauto.
Qed.

Lemma kindAt_below m l k : domBelow m -> kindAt (cells m) l = Some k -> l < next m.
Proof.
  intros Hd H. destruct (kindAt_inv _ _ _ H) as (o & Hl & _).
  eapply domBelow_lt; eassumption.
Qed.

Lemma typed_kept h h' o :
  (forall l k, kindAt h l = Some k -> kindAt h' l = Some k) ->
  typed h o -> typed h' o.
Proof.
  intros Hk. destruct o; simpl; try tauto.
  - intros [? ?]. auto.
  - intros (? & ? & ?). auto.
  - intros [Hnd Hf]. split; [assumption|].
    eapply Forall_impl; [exact Hf|]. simpl. auto.
  - intros [? ?]. auto.
Qed.

Lemma keeps_refl m : typedHeap m -> keeps m m.
Proof. intros H. split; auto. Qed.

Lemma keeps_trans m1 m2 m3 : keeps m1 m2 -> keeps m2 m3 -> keeps m1 m3.
Proof. intros [_ H1] [H2 H3]. split; auto. Qed.

Lemma keeps_alloc o m l m' :
  alloc o m = (l, m') -> typedHeap m -> typed (cells m) o ->
  keeps m m' /\ kindAt (cells m') l = Some (kind o).
Proof.
  intros [= <- <-] [Hd Ht] Ho.
  assert (Hk : forall x k, kindAt (cells m) x = Some k ->
                 kindAt (<[next m := o]> (cells m)) x = Some k).
  { intros x k Hx. pose proof (kindAt_below _ _ _ Hd Hx).
    unfold kindAt in *. rewrite lookup_insert_ne by lia. assumption. }
  split; [split; [split|]|].
  - intros x Hx. simpl in *. rewrite lookup_insert_ne by lia. apply Hd. lia.
  - intros x ox. simpl. destruct (decide (x = next m)) as [->|Hne].
    + rewrite lookup_insert_eq. intros [= <-]. eapply typed_kept; eassumption.
    + rewrite lookup_insert_ne by congruence. intros Hx.
      eapply typed_kept; [exact Hk|]. eapply Ht; eassumption.
  - exact Hk.
  - simpl. unfold kindAt. rewrite lookup_insert_eq. reflexivity.
Qed.

Lemma keeps_write o m l :
  typedHeap m -> kindAt (cells m) l = Some (kind o) -> typed (cells m) o ->
  keeps m (write l o m).
Proof.
  intros [Hd Ht] Hl Ho.
  assert (Hk : forall x k, kindAt (cells m) x = Some k ->
                 kindAt (<[l := o]> (cells m)) x = Some k).
  { intros x k Hx. unfold kindAt in *. destruct (decide (x = l)) as [->|Hne].
    - rewrite lookup_insert_eq. simpl. congruence.
    - rewrite lookup_insert_ne by congruence. assumption. }
  split; [split|exact Hk].
  - intros x Hx. simpl in *. pose proof (kindAt_below _ _ _ Hd Hl).
    rewrite lookup_insert_ne by lia. apply Hd. assumption.
  - intros x ox. simpl. destruct (decide (x = l)) as [->|Hne].
    + rewrite lookup_insert_eq. intros [= <-]. eapply typed_kept; eassumption.
    + rewrite lookup_insert_ne by congruence. intros Hx.
      eapply typed_kept; [exact Hk|]. eapply Ht; eassumption.
Qed.

Lemma keeps_assign l key value r m :
  typedHeap m -> kindAt (cells m) l = Some KRecord ->
  keeps m (assign l key value r m).
Proof.
  intros H0 Hl. unfold assign. destruct (reachesSetter _ _ _).
  - destruct value; (split; [exact H0|auto]).
  - apply keeps_write; [exact H0|exact Hl|exact I].
Qed.

Lemma allocAgent_keeps p st sh lg ts me upd m l m' :
  typedHeap m -> allocAgent p st sh lg ts me upd m = (l, m') ->
  keeps m m' /\ kindAt (cells m') l = Some KAgent.
Proof.
  intros H0. unfold allocAgent.
  destruct (alloc (ORecord sh) m) as [ls m1] eqn:E1.
  destruct (alloc (ORecord lg) m1) as [ll m2] eqn:E2.
  destruct (alloc (OMemory ls ll) m2) as [lm m3] eqn:E3.
  destruct (alloc (OArray ts) m3) as [lt m4] eqn:E4.
  destruct (alloc (ORecord me) m4) as [le m5] eqn:E5.
  intros E6.
  destruct (keeps_alloc _ _ _ _ E1 H0 I) as [K1 A1].
  destruct (keeps_alloc _ _ _ _ E2 (proj1 K1) I) as [K2 A2].
  destruct (keeps_alloc _ _ _ _ E3 (proj1 K2) (conj (proj2 K2 _ _ A1) A2)) as [K3 A3].
  destruct (keeps_alloc _ _ _ _ E4 (proj1 K3) I) as [K4 A4].
  destruct (keeps_alloc _ _ _ _ E5 (proj1 K4) I) as [K5 A5].
  assert (T6 : typed (cells m5)
                 (OAgent {| persona := p; state := st; memory := lm;
                            currentTasks := lt; metrics := le; lastUpdated := upd |})).
  { simpl. split; [|split].
    - apply (proj2 K5), (proj2 K4). exact A3.
    - apply (proj2 K5). exact A4.
    - exact A5. }
  destruct (keeps_alloc _ _ _ _ E6 (proj1 K5) T6) as [K6 A6].
  split; [|exact A6].
  exact (keeps_trans _ _ _ K1 (keeps_trans _ _ _ K2 (keeps_trans _ _ _ K3
           (keeps_trans _ _ _ K4 (keeps_trans _ _ _ K5 K6))))).
Qed.

Lemma initAgents_keeps now : forall ps acc m es m',
  typedHeap m -> List.NoDup (map fst acc) ->
  Forall (fun l => kindAt (cells m) l = Some KAgent) (map snd acc) ->
  initAgents ps now acc m = (es, m') ->
  keeps m m' /\ List.NoDup (map fst es) /\
  Forall (fun l => kindAt (cells m') l = Some KAgent) (map snd es).
Proof.
  induction ps as [|p ps IH]; intros acc m es m' H0 Hnd Hacc; cbn [initAgents].
  - intros [= <- <-]. split; [apply keeps_refl; assumption|auto].
  - destruct (allocAgent p idle ∅ ∅ [] initialMetrics (SDate now) m) as [l m1] eqn:Ea.
    destruct (allocAgent_keeps _ _ _ _ _ _ _ _ _ _ H0 Ea) as [K1 A1].
    intros E. destruct (IH (map_set p l acc) m1 es m' (proj1 K1)) as (K2 & Hnd' & Hes).
    + apply map_set_nodup. assumption.
    + apply map_set_values; [exact A1|].
      eapply Forall_impl; [exact Hacc|]. intros x Hx. exact (proj2 K1 _ _ Hx).
    + exact E.
    + split; [exact (keeps_trans _ _ _ K1 K2)|auto].
Qed.

Lemma initializeSystemState_keeps id now m l m' :
  typedHeap m -> initializeSystemState id now m = (l, m') ->
  keeps m m' /\ kindAt (cells m') l = Some KState.
Proof.
  intros H0. unfold initializeSystemState.
  destruct (initAgents personas now [] m) as [entries m1] eqn:Ei.
  destruct (initAgents_keeps now personas [] m entries m1 H0) as (K1 & Hnd & Hes);
    [constructor|constructor|exact Ei|].
  destruct (alloc (OMap entries) m1) as [lmap m2] eqn:E2.
  destruct (alloc (ORecord ∅) m2) as [lgc m3] eqn:E3.
  intros E4.
  destruct (keeps_alloc _ _ _ _ E2 (proj1 K1) (conj Hnd Hes)) as [K2 A2].
  destruct (keeps_alloc _ _ _ _ E3 (proj1 K2) I) as [K3 A3].
  destruct (keeps_alloc _ _ _ _ E4 (proj1 K3) (conj (proj2 K3 _ _ A2) A3)) as [K4 A4].
  split; [|exact A4].
  exact (keeps_trans _ _ _ K1 (keeps_trans _ _ _ K2 (keeps_trans _ _ _ K3 K4))).
Qed.

Lemma cloneAgent_keeps v m l m' :
  typedHeap m -> cloneAgent v m = Some (l, m') ->
  keeps m m' /\ kindAt (cells m') l = Some KAgent.
Proof.
  intros H0. unfold cloneAgent.
  destruct (getMemory (cells m) (memory v)) as [[ls ll]|]; [|discriminate].
  destruct (getRecord (cells m) ls) as [sh|]; [|discriminate].
  destruct (getRecord (cells m) ll) as [lg|]; [|discriminate].
  destruct (getArray (cells m) (currentTasks v)) as [ts|]; [|discriminate].
  destruct (getRecord (cells m) (metrics v)) as [me|]; [|discriminate].
  intros E.
  apply (allocAgent_keeps (persona v) (state v) sh lg ts me (lastUpdated v) m l m' H0).
  congruence.
Qed.

Lemma cloneEntries_keeps : forall es m es' m',
  typedHeap m -> cloneEntries es m = Some (es', m') ->
  keeps m m' /\ Forall (fun l => kindAt (cells m') l = Some KAgent) (map snd es').
Proof.
  induction es as [|[k l] es IH]; simpl; intros m es' m' H0.
  - intros [= <- <-]. split; [apply keeps_refl; assumption|constructor].
  - destruct (getAgent (cells m) l) as [v|]; [|discriminate].
    destruct (cloneAgent v m) as [[l1 m1]|] eqn:Ec; [|discriminate].
    destruct (cloneEntries es m1) as [[es2 m2]|] eqn:Er; [|discriminate].
    intros [= <- <-].
    destruct (cloneAgent_keeps _ _ _ _ H0 Ec) as [K1 A1].
    destruct (IH _ _ _ (proj1 K1) Er) as [K2 Hes].
    split; [exact (keeps_trans _ _ _ K1 K2)|].
    simpl. constructor; [exact (proj2 K2 _ _ A1)|exact Hes].
Qed.

Lemma deepCloneState_keeps l m l' m' :
  typedHeap m -> deepCloneState l m = Some (l', m') ->
  keeps m m' /\ kindAt (cells m') l' = Some KState.
Proof.
  intros H0. unfold deepCloneState.
  destruct (getState (cells m) l) as [st|]; [|discriminate].
  destruct (getMap (cells m) (agents st)) as [es|]; [|discriminate].
  destruct (cloneEntries es m) as [[es' m1]|] eqn:Ec; [|discriminate].
  destruct (cloneEntries_keeps _ _ _ _ H0 Ec) as [K1 Hes].
  destruct (alloc (OMap (map_of_entries es')) m1) as [lmap m2] eqn:E2.
  destruct (getRecord (cells m2) (globalContext st)) as [gc|]; [|discriminate].
  destruct (alloc (ORecord gc) m2) as [lgc m3] eqn:E3.
  intros E4. apply (inj Some) in E4.
  assert (T2 : typed (cells m1) (OMap (map_of_entries es'))).
  { split; [apply map_of_entries_keys_nodup|].
    apply map_of_entries_values. exact Hes. }
  destruct (keeps_alloc _ _ _ _ E2 (proj1 K1) T2) as [K2 A2].
  destruct (keeps_alloc _ _ _ _ E3 (proj1 K2) I) as [K3 A3].
  destruct (keeps_alloc _ _ _ _ E4 (proj1 K3) (conj (proj2 K3 _ _ A2) A3)) as [K4 A4].
  split; [|exact A4].
  exact (keeps_trans _ _ _ K1 (keeps_trans _ _ _ K2 (keeps_trans _ _ _ K3 K4))).
Qed.

Lemma parseEntries_keeps : forall vs m es m',
  typedHeap m -> parseEntries vs m = (es, m') ->
  keeps m m' /\ Forall (fun l => kindAt (cells m') l = Some KAgent) (map snd es).
Proof.
  induction vs as [|[k v] vs IH]; intros m es m' H0; cbn [parseEntries].
  - intros [= <- <-]. split; [apply keeps_refl; assumption|constructor].
  - destruct (allocAgent _ _ _ _ _ _ _ m) as [l m1] eqn:Ea.
    destruct (parseEntries vs m1) as [es1 m2] eqn:Er.
    intros [= <- <-].
    destruct (allocAgent_keeps _ _ _ _ _ _ _ _ _ _ H0 Ea) as [K1 A1].
    destruct (IH _ _ _ (proj1 K1) Er) as [K2 Hes].
    split; [exact (keeps_trans _ _ _ K1 K2)|].
    simpl. constructor; [exact (proj2 K2 _ _ A1)|exact Hes].
Qed.

Lemma deserializeState_keeps v m l m' :
  typedHeap m -> deserializeState v m = (l, m') ->
  keeps m m' /\ kindAt (cells m') l = Some KState.
Proof.
  intros H0. unfold deserializeState.
  destruct (parseEntries (v_agents v) m) as [es m1] eqn:Ep.
  destruct (parseEntries_keeps _ _ _ _ H0 Ep) as [K1 Hes].
  destruct (alloc (ORecord (v_globalContext v)) m1) as [lgc m2] eqn:E2.
  destruct (alloc (OMap (map_of_entries es)) m2) as [lmap m3] eqn:E3.
  intros E4.
  destruct (keeps_alloc _ _ _ _ E2 (proj1 K1) I) as [K2 A2].
  assert (T3 : typed (cells m2) (OMap (map_of_entries es))).
  { split; [apply map_of_entries_keys_nodup|].
    apply map_of_entries_values.
    eapply Forall_impl; [exact Hes|]. intros x Hx. exact (proj2 K2 _ _ Hx). }
  destruct (keeps_alloc _ _ _ _ E3 (proj1 K2) T3) as [K3 A3].
  destruct (keeps_alloc _ _ _ _ E4 (proj1 K3) (conj A3 (proj2 K3 _ _ A2))) as [K4 A4].
  split; [|exact A4].
  exact (keeps_trans _ _ _ K1 (keeps_trans _ _ _ K2 (keeps_trans _ _ _ K3 K4))).
Qed.

(** *** A typed heap reads *)

Lemma typed_readAgentValue m a :
  typedHeap m -> typed (cells m) (OAgent a) ->
  exists v, readAgentValue (cells m) a = Some v.
Proof.
  intros [_ Ht] (Hm & Hc & He). unfold readAgentValue.
  destruct (kindAt_memory _ _ Hm) as (ls & ll & Em). rewrite Em.
  destruct (Ht _ _ (getMemory_lookup _ _ _ _ Em)) as [Hs Hl].
  destruct (kindAt_record _ _ Hs) as [sh ->].
  destruct (kindAt_record _ _ Hl) as [lg ->].
  destruct (kindAt_array _ _ Hc) as [ts ->].
  destruct (kindAt_record _ _ He) as [me ->]. eauto.
Qed.

Lemma typed_readEntries m : forall es,
  typedHeap m ->
  Forall (fun l => kindAt (cells m) l = Some KAgent) (map snd es) ->
  exists vs, readEntries (cells m) es = Some vs /\ map fst vs = map fst es.
Proof.
  induction es as [|[k l] es IH]; simpl; intros H0 Hes.
  - exists []. auto.
  - inversion Hes as [|? ? Hl Hrest]; subst.
    destruct (kindAt_agent _ _ Hl) as [a Ea]. rewrite Ea.
    destruct (typed_readAgentValue m a H0) as [v ->].
    { exact (proj2 H0 _ _ (getAgent_lookup _ _ _ Ea)). }
    destruct (IH H0 Hrest) as (vs & -> & Hk).
    exists ((k, v) :: vs). simpl. rewrite Hk. auto.
Qed.

Lemma typed_readStateValue m l :
  typedHeap m -> kindAt (cells m) l = Some KState ->
  exists v, readStateValue (cells m) l = Some v /\
            List.NoDup (map fst (v_agents v)).
Proof.
  intros H0 Hl. unfold readStateValue.
  destruct (kindAt_state _ _ Hl) as [st Es]. rewrite Es.
  destruct (proj2 H0 _ _ (getState_lookup _ _ _ Es)) as [Ha Hg].
  destruct (kindAt_map _ _ Ha) as [es Em]. rewrite Em.
  destruct (kindAt_record _ _ Hg) as [gc ->].
  destruct (proj2 H0 _ _ (getMap_lookup _ _ _ Em)) as [Hnd Hes].
  destruct (typed_readEntries m es H0 Hes) as (vs & -> & Hk).
  eexists. split; [reflexivity|]. simpl. rewrite Hk. exact Hnd.
Qed.

Lemma typedStore_reads s :
  typedStore s ->
  exists v, liveValue s = Some v /\ List.NoDup (map fst (v_agents v)).
Proof. intros [H0 Hl]. exact (typed_readStateValue _ _ H0 Hl). Qed.

Lemma typedStore_wf s : typedStore s -> wfStore s.
Proof.
  intros [[Hd Ht] Hl]. split; [exact Hd|]. split.
  - intros l o Hlo. specialize (Ht l o Hlo). destruct o; simpl in *.
    + constructor.
    + constructor.
    + destruct Ht as [H1 H2]. repeat constructor; eapply kindAt_below; eassumption.
    + destruct Ht as (H1 & H2 & H3). repeat constructor; eapply kindAt_below; eassumption.
    + destruct Ht as [_ Hf]. eapply Forall_impl; [exact Hf|].
      intros x Hx. exact (kindAt_below _ _ _ Hd Hx).
    + destruct Ht as [H1 H2]. repeat constructor; eapply kindAt_below; eassumption.
  - eapply kindAt_below; eassumption.
Qed.

(** *** Every call keeps the heap typed *)

Lemma typedStore_keeps s s' :
  typedStore s -> keeps (mem s) (mem s') -> currentState s' = currentState s ->
  typedStore s'.
Proof.
  intros [_ Hc] [H1 Hk] E. split; [exact H1|]. rewrite E. exact (Hk _ _ Hc).
Qed.

Lemma updateAgentState_keeps p u now s :
  typedStore s -> typedPartial (cells (mem s)) u ->
  keeps (mem s) (mem (storeOf (updateAgentState p u now s))) /\
  currentState (storeOf (updateAgentState p u now s)) = currentState s.
Proof.
  intros [H0 Hc] (Hu1 & Hu2 & Hu3). unfold updateAgentState.
  destruct (liveAgents s) as [[lmap es]|] eqn:El;
    [|simpl; split; [apply keeps_refl; assumption|reflexivity]].
  destruct (liveAgents_inv _ _ _ El) as (st & Est & <- & Emap).
  destruct (map_get p es) as [lcur|] eqn:Eg;
    [|simpl; split; [apply keeps_refl; assumption|reflexivity]].
  destruct (getAgent _ lcur) as [cur|] eqn:Ea;
    [|simpl; split; [apply keeps_refl; assumption|reflexivity]].
  destruct (proj2 H0 _ _ (getAgent_lookup _ _ _ Ea)) as (Hc1 & Hc2 & Hc3).
  destruct (proj2 H0 _ _ (getMap_lookup _ _ _ Emap)) as [Hnd Hes].
  set (updated := {| persona := _ |}).
  assert (T1 : typed (cells (mem s)) (OAgent updated)).
  { subst updated. simpl. split; [|split].
    - destruct (u_memory u) as [x|]; simpl; [apply Hu1; reflexivity|assumption].
    - destruct (u_currentTasks u) as [x|]; simpl; [apply Hu2; reflexivity|assumption].
    - destruct (u_metrics u) as [x|]; simpl; [apply Hu3; reflexivity|assumption]. }
  destruct (alloc (OAgent updated) (mem s)) as [l m1] eqn:E1.
  destruct (keeps_alloc _ _ _ _ E1 H0 T1) as [K1 A1].
  match goal with
  | |- context [persistAgentState p updated ?s0] =>
      destruct (storeOf_emit (persistAgentState p updated s0)
                  (StateAgentUpdated p l)) as (Hm1 & Hcu1 & _);
      destruct (persistAgentState_store p updated s0) as (Hm2 & Hcu2 & _)
  end.
  cbv zeta in *. rewrite Hm1, Hcu1, Hm2, Hcu2. cbn [setMem mem currentState].
  split; [|reflexivity].
  eapply keeps_trans; [exact K1|].
  apply keeps_write; [exact (proj1 K1)| |].
  - apply (proj2 K1). apply (kindAt_lookup _ _ _ (getMap_lookup _ _ _ Emap)).
  - split; [apply map_set_nodup; assumption|].
    apply map_set_values; [exact A1|].
    eapply Forall_impl; [exact Hes|]. intros x Hx. exact (proj2 K1 _ _ Hx).
Qed.

Lemma updateGlobalContext_keeps key value s :
  typedStore s ->
  keeps (mem s) (mem (storeOf (updateGlobalContext key value s))) /\
  currentState (storeOf (updateGlobalContext key value s)) = currentState s.
Proof.
  intros [H0 Hc]. unfold updateGlobalContext.
  destruct (getState _ _) as [st|] eqn:Est;
    [|simpl; split; [apply keeps_refl; assumption|reflexivity]].
  destruct (getRecord _ _) as [gc|] eqn:Eg;
    [|simpl; split; [apply keeps_refl; assumption|reflexivity]].
  simpl. split; [|reflexivity].
  apply keeps_assign; [assumption|].
  apply (kindAt_lookup _ _ _ (getRecord_lookup _ _ _ Eg)).
Qed.

Lemma createSnapshot_keeps why now s :
  typedStore s ->
  keeps (mem s) (mem (storeOf (createSnapshot why now s))) /\
  currentState (storeOf (createSnapshot why now s)) = currentState s.
Proof.
  intros [H0 Hc]. unfold createSnapshot.
  cbn [nextUuid mem currentState stateHistory].
  destruct (deepCloneState _ _) as [[l m1]|] eqn:Ec;
    [|simpl; split; [apply keeps_refl; assumption|reflexivity]].
  destruct (deepCloneState_keeps _ _ _ _ H0 Ec) as [K1 _].
  cbn [setHistory setMem mem].
  destruct (readStateValue _ l); simpl; (split; [exact K1|reflexivity]).
Qed.

Lemma setPhase_keeps ph now s :
  typedStore s ->
  keeps (mem s) (mem (storeOf (setPhase ph now s))) /\
  currentState (storeOf (setPhase ph now s)) = currentState s.
Proof.
  intros Hs. pose proof Hs as [H0 Hc]. unfold setPhase.
  destruct (getState _ _) as [st|] eqn:Est;
    [|simpl; split; [apply keeps_refl; assumption|reflexivity]].
  destruct (proj2 H0 _ _ (getState_lookup _ _ _ Est)) as [Ha Hg].
  cbv zeta.
  set (st' := {| state_id := _ |}).
  set (s1 := setMem (write (currentState s) (OState st') (mem s)) s).
  assert (K1 : keeps (mem s) (mem s1)).
  { apply keeps_write; [assumption|exact Hc|]. simpl. auto. }
  assert (Hs1 : typedStore s1) by (apply (typedStore_keeps s); auto).
  match goal with
  | |- context [createSnapshot ?w now s1] =>
      destruct (storeOf_emit (createSnapshot w now s1)
                  (StatePhaseChanged (phase st) ph)) as (Hm1 & Hc1 & _);
      destruct (createSnapshot_keeps w now s1 Hs1) as (K2 & Hcur2)
  end.
  cbv zeta in *. rewrite Hm1, Hc1, Hcur2. split; [|reflexivity].
  eapply keeps_trans; eassumption.
Qed.

Lemma getSystemState_keeps s :
  typedStore s ->
  keeps (mem s) (mem (storeOf (getSystemState s))) /\
  currentState (storeOf (getSystemState s)) = currentState s.
Proof.
  intros [H0 Hc]. unfold getSystemState.
  destruct (getState _ _) as [st|] eqn:Est;
    [|simpl; split; [apply keeps_refl; assumption|reflexivity]].
  destruct (alloc (OState st) (mem s)) as [l m1] eqn:E1.
  destruct (keeps_alloc _ _ _ _ E1 H0 (proj2 H0 _ _ (getState_lookup _ _ _ Est)))
    as [K1 _].
  simpl. split; [exact K1|reflexivity].
Qed.

Lemma updateAgentMemory_keeps p t key value now s :
  typedStore s ->
  keeps (mem s) (mem (storeOf (updateAgentMemory p t key value now s))) /\
  currentState (storeOf (updateAgentMemory p t key value now s)) = currentState s.
Proof.
  intros [H0 Hc]. unfold updateAgentMemory.
  destruct (liveAgents s) as [[lmap es]|] eqn:El;
    [|simpl; split; [apply keeps_refl; assumption|reflexivity]].
  destruct (map_get p es) as [la|] eqn:Eg;
    [|simpl; split; [apply keeps_refl; assumption|reflexivity]].
  destruct (getAgent _ la) as [a|] eqn:Ea;
    [|simpl; split; [apply keeps_refl; assumption|reflexivity]].
  destruct (getMemory _ (memory a)) as [[ls ll]|] eqn:Em;
    [|simpl; split; [apply keeps_refl; assumption|reflexivity]].
  set (lr := match t with shortTerm => ls | longTerm => ll end).
  destruct (getRecord _ lr) as [r|] eqn:Er;
    [|simpl; split; [apply keeps_refl; assumption|reflexivity]].
  set (a' := {| persona := _ |}).
  match goal with
  | |- context [persistAgentState p a' ?s0] =>
      destruct (persistAgentState_store p a' s0) as (Hm2 & Hc2 & _)
  end.
  cbv zeta in *. rewrite Hm2, Hc2. cbn [setMem mem currentState].
  split; [|reflexivity].
  assert (K1 : keeps (mem s) (assign lr key value r (mem s))).
  { apply keeps_assign; [assumption|].
    apply (kindAt_lookup _ _ _ (getRecord_lookup _ _ _ Er)). }
  eapply keeps_trans; [exact K1|].
  apply keeps_write; [exact (proj1 K1)| |].
  - apply (proj2 K1). apply (kindAt_lookup _ _ _ (getAgent_lookup _ _ _ Ea)).
  - eapply typed_kept; [exact (proj2 K1)|].
    exact (proj2 H0 _ _ (getAgent_lookup _ _ _ Ea)).
Qed.

Lemma clearShortTermMemory_keeps p now s :
  typedStore s ->
  keeps (mem s) (mem (storeOf (clearShortTermMemory p now s))) /\
  currentState (storeOf (clearShortTermMemory p now s)) = currentState s.
Proof.
  intros [H0 Hc]. unfold clearShortTermMemory.
  destruct (liveAgents s) as [[lmap es]|] eqn:El;
    [|simpl; split; [apply keeps_refl; assumption|reflexivity]].
  destruct (map_get p es) as [la|] eqn:Eg;
    [|simpl; split; [apply keeps_refl; assumption|reflexivity]].
  destruct (getAgent _ la) as [a|] eqn:Ea;
    [|simpl; split; [apply keeps_refl; assumption|reflexivity]].
  destruct (getMemory _ (memory a)) as [[ls ll]|] eqn:Em;
    [|simpl; split; [apply keeps_refl; assumption|reflexivity]].
  set (a' := {| persona := _ |}).
  destruct (alloc (ORecord ∅) (mem s)) as [l m1] eqn:E1.
  destruct (keeps_alloc _ _ _ _ E1 H0 I) as [K1 A1].
  match goal with
  | |- context [persistAgentState p a' ?s0] =>
      destruct (persistAgentState_store p a' s0) as (Hm2 & Hc2 & _)
  end.
  cbv zeta in *. rewrite Hm2, Hc2. cbn [setMem mem currentState].
  split; [|reflexivity].
  destruct (proj2 H0 _ _ (getMemory_lookup _ _ _ _ Em)) as [_ Hll].
  assert (K2 : keeps m1 (write (memory a) (OMemory l ll) m1)).
  { apply keeps_write; [exact (proj1 K1)| |].
    - apply (proj2 K1). apply (kindAt_lookup _ _ _ (getMemory_lookup _ _ _ _ Em)).
    - split; [exact A1|exact (proj2 K1 _ _ Hll)]. }
  eapply keeps_trans; [exact K1|]. eapply keeps_trans; [exact K2|].
  apply keeps_write; [exact (proj1 K2)| |].
  - apply (proj2 K2), (proj2 K1).
    apply (kindAt_lookup _ _ _ (getAgent_lookup _ _ _ Ea)).
  - eapply typed_kept; [exact (proj2 K2)|].
    eapply typed_kept; [exact (proj2 K1)|].
    exact (proj2 H0 _ _ (getAgent_lookup _ _ _ Ea)).
Qed.

Lemma loadState_typed s : typedStore s -> typedStore (loadState s).
Proof.
  intros [H0 Hc]. unfold loadState.
  destruct (currentDoc (redis s)) as [v|]; [|split; assumption].
  destruct (deserializeState v (mem s)) as [l m1] eqn:E.
  destruct (deserializeState_keeps _ _ _ _ H0 E) as [K1 A1].
  split; [exact (proj1 K1)|exact A1].
Qed.

Lemma restoreSnapshot_typed i s :
  typedStore s -> typedStore (storeOf (restoreSnapshot i s)).
Proof.
  intros [H0 Hc]. unfold restoreSnapshot.
  destruct (snapshotDocs (redis s) !! i) as [sv|]; [|split; assumption].
  destruct (deserializeState (sv_state sv) (mem s)) as [l0 m1] eqn:E.
  destruct (deserializeState_keeps _ _ _ _ H0 E) as [K1 A1].
  destruct (deepCloneState l0 m1) as [[l m2]|] eqn:Ec.
  - destruct (deepCloneState_keeps _ _ _ _ (proj1 K1) Ec) as [K2 A2].
    cbn [storeOf]. unfold typedStore. cbn [emit mem currentState].
    destruct (saveState_store (setCurrent l (setMem m2 s))) as (-> & -> & _).
    split; [exact (proj1 K2)|exact A2].
  - simpl. split; [exact (proj1 K1)|exact (proj2 K1 _ _ Hc)].
Qed.

Lemma applyOp_typed o s :
  typedStore s -> typedOp (cells (mem s)) o -> typedStore (applyOp o s).
Proof.
  intros Hs Ho. destruct o; cbn [applyOp typedOp] in *.
  - destruct (updateAgentState_keeps p updates now s Hs Ho) as [K E].
    exact (typedStore_keeps _ _ Hs K E).
  - destruct (updateAgentMemory_keeps p t key value now s Hs) as [K E].
    exact (typedStore_keeps _ _ Hs K E).
  - destruct (clearShortTermMemory_keeps p now s Hs) as [K E].
    exact (typedStore_keeps _ _ Hs K E).
  - destruct (updateGlobalContext_keeps key value s Hs) as [K E].
    exact (typedStore_keeps _ _ Hs K E).
  - destruct (setPhase_keeps ph now s Hs) as [K E].
    exact (typedStore_keeps _ _ Hs K E).
  - destruct (createSnapshot_keeps why now s Hs) as [K E].
    exact (typedStore_keeps _ _ Hs K E).
  - apply restoreSnapshot_typed; assumption.
  - destruct (getSystemState_keeps s Hs) as [K E].
    exact (typedStore_keeps _ _ Hs K E).
  - destruct (saveState_store s) as (Hm & Hcur & _).
    destruct Hs as [H0 Hc]. unfold typedStore. rewrite Hm, Hcur. split; assumption.
  - apply loadState_typed; assumption.
  - exact Hs.
Qed.

Lemma applyOps_typed ops : forall s,
  typedStore s -> typedCalls ops s -> typedStore (applyOps ops s).
Proof.
  induction ops as [|o ops IH]; intros s Hs Hc; [exact Hs|].
  destruct Hc as [Ho Hrest]. simpl. apply IH; [|exact Hrest].
  apply applyOp_typed; assumption.
Qed.

Lemma newStore_typed r now : typedStore (newStore r now).
Proof.
  assert (H0 : typedHeap {| cells := ∅; next := 0; bare := ∅ |}).
  { split.
    - intros x _. apply lookup_empty.
    - intros x o Hx. simpl in Hx. rewrite lookup_empty in Hx. discriminate. }
  unfold newStore.
  destruct (initializeSystemState _ _ _) as [l m] eqn:E.
  destruct (initializeSystemState_keeps _ _ _ _ _ H0 E) as [K A].
  split; [exact (proj1 K)|exact A].
Qed.

(** *** Stores the service can be in *)

(** After the constructor and any sequence of well-typed calls the store
    is well formed and the live state reads, with each key of its
    [agents] map once. *)
Lemma reachable_in_order r now ops :
  typedCalls ops (newStore r now) ->
  typedStore (applyOps ops (newStore r now)) /\
  wfStore (applyOps ops (newStore r now)) /\
  exists v, liveValue (applyOps ops (newStore r now)) = Some v /\
            List.NoDup (map fst (v_agents v)).
Proof.
  intros Hc.
  pose proof (applyOps_typed ops _ (newStore_typed r now) Hc) as Hs.
  split; [exact Hs|]. split; [apply typedStore_wf; exact Hs|].
  apply typedStore_reads; exact Hs.
Qed.

Lemma applyOps_roster ops : forall s, rosterInv s -> rosterInv (applyOps ops s).
Proof.
  induction ops as [|o ops IH]; intros s Hi; [exact Hi|].
  simpl. apply IH. apply applyOp_roster. assumption.
Qed.

Lemma map_get_present {V} (p : AgentPersona) (es : list (AgentPersona * V)) :
  In p (map fst es) -> exists v, map_get p es = Some v.
Proof.
  intros Hin. destruct (map_get p es) as [v|] eqn:E; [eauto|].
  exfalso. exact (map_get_None_notin _ _ E Hin).
Qed.

(** The entry of each persona of the roster is an [AgentStateData]
    object with its memory, tasks and metrics. *)
Lemma roster_entries r now ops p :
  rosterRedis r -> typedCalls ops (newStore r now) -> In p personas ->
  exists l a v,
    getAgentState p (applyOps ops (newStore r now)) = Some l /\
    getAgent (cells (mem (applyOps ops (newStore r now)))) l = Some a /\
    readAgentValue (cells (mem (applyOps ops (newStore r now)))) a = Some v.
Proof.
  intros Hr Hc Hp.
  destruct (reachable_in_order r now ops Hc) as ([H0 _] & _ & _).
  destruct (applyOps_roster ops _ (newStore_roster r now Hr)) as (_ & Hk & _).
  set (s := applyOps ops (newStore r now)) in *.
  destruct (agentKeys_inv _ _ Hk) as (st & es & Est & Emap & Hks).
  rewrite <- Hks in Hp. destruct (map_get_present p es Hp) as [l Hl].
  destruct (proj2 H0 _ _ (getMap_lookup _ _ _ Emap)) as [_ Hes].
  rewrite List.Forall_forall in Hes.
  destruct (kindAt_agent _ _ (Hes l (map_get_In_snd _ _ _ Hl)))
    as [a Ea].
  destruct (typed_readAgentValue _ a H0 (proj2 H0 _ _ (getAgent_lookup _ _ _ Ea)))
    as [v Ev].
  exists l, a, v. split; [|split; assumption].
  unfold getAgentState, liveAgents. rewrite Est, Emap. exact Hl.
Qed.

Lemma typedPartial_plain h u :
  partialRefs u = [] -> typedPartial h u.
Proof.
  unfold partialRefs, typedPartial.
  destruct (u_memory u), (u_currentTasks u), (u_metrics u); simpl; try discriminate.
  intros _. repeat split; intros l H; discriminate H.
Qed.

(** A sequence of calls that hands over no object is well typed. *)
Lemma typedCalls_plain ops : forall s,
  Forall (fun o => opRefs o = []) ops -> typedCalls ops s.
Proof.
  induction ops as [|o ops IH]; intros s Hr; [exact I|].
  inversion Hr as [|? ? Ho Hrest]; subst. split; [|apply IH; exact Hrest].
  destruct o; simpl; try exact I. apply typedPartial_plain. exact Ho.
Qed.

Lemma lifecycle_in_order :
  exists v, liveValue (applyOps lifecycleCalls (newStore emptyRedis 0)) = Some v /\
            List.NoDup (map fst (v_agents v)).
Proof.
  apply (reachable_in_order emptyRedis 0 lifecycleCalls).
  apply typedCalls_plain. repeat constructor.
Qed.

End StateManagerFacts.

(** ** Orchestrator *)

Section OrchestratorFacts.
Import Orchestrator.

Lemma initialize_idem a : initialize (initialize a) = initialize a.
Proof. reflexivity. Qed.

Lemma activatePhaseAgents_spec : forall ps o,
  Forall (fun p => is_Some (map_get p (agents o))) ps ->
  exists o', activatePhaseAgents ps o = (Returned tt, o') /\
    currentPhase o' = currentPhase o /\ taskQueue o' = taskQueue o /\
    events o' = events o /\ phaseConfigs o' = phaseConfigs o /\
    completedTaskCount o' = completedTaskCount o /\
    (forall q, map_get q (agents o') =
               if bool_decide (q ∈ ps) then initialize <$> map_get q (agents o)
               else map_get q (agents o)) /\
    (forall q, map_get q (activeAgents o') =
               if bool_decide (q ∈ ps)
               then (fun a => reportStatus (initialize a)) <$> map_get q (agents o)
               else map_get q (activeAgents o)).
Proof.
  induction ps as [|p ps IH]; intros o Hreg.
  - exists o. simpl. repeat split.
  - inversion Hreg as [|? ? [a Ha] Hrest]; subst.
    cbn [activatePhaseAgents]. unfold createOrGetAgent. rewrite Ha.
    set (o1 := setAgents _ _ o).
    assert (Hag1 : forall q, map_get q (agents o1) =
                     if decide (p = q) then Some (initialize a) else map_get q (agents o)).
    { intros q. subst o1. cbn [setAgents agents].
      destruct (decide (p = q)) as [<-|Hne];
        [apply map_get_set_eq|apply map_get_set_ne; assumption]. }
    assert (Hac1 : forall q, map_get q (activeAgents o1) =
                     if decide (p = q) then Some (reportStatus (initialize a))
                     else map_get q (activeAgents o)).
    { intros q. subst o1. cbn [setAgents activeAgents].
      destruct (decide (p = q)) as [<-|Hne];
        [apply map_get_set_eq|apply map_get_set_ne; assumption]. }
    destruct (IH o1) as (o' & Hrun & Hph & Hq & Hev & Hcfg & Hcnt & Hag & Hac).
    { eapply Forall_impl; [exact Hrest|]. simpl. intros q [x Hx].
      rewrite Hag1. destruct (decide (p = q)); eauto. }
    exists o'. split; [exact Hrun|]. repeat split; try assumption.
    + intros q. rewrite Hag, Hag1.
      destruct (decide (p = q)) as [<-|Hne].
      * rewrite (bool_decide_eq_true_2 (p ∈ p :: ps)) by (apply elem_of_cons; now left).
        rewrite Ha. destruct (bool_decide (p ∈ ps)); reflexivity.
      * destruct (bool_decide (q ∈ ps)) eqn:E.
        -- apply bool_decide_eq_true in E.
           rewrite (bool_decide_eq_true_2 (q ∈ p :: ps))
             by (apply elem_of_cons; now right). reflexivity.
        -- apply bool_decide_eq_false in E.
           rewrite (bool_decide_eq_false_2 (q ∈ p :: ps)); [reflexivity|].
           rewrite elem_of_cons. intros [?|?]; [congruence|tauto].
    + intros q. rewrite Hac, Hag1, Hac1.
      destruct (decide (p = q)) as [<-|Hne].
      * rewrite (bool_decide_eq_true_2 (p ∈ p :: ps)) by (apply elem_of_cons; now left).
        rewrite Ha. destruct (bool_decide (p ∈ ps)); reflexivity.
      * destruct (bool_decide (q ∈ ps)) eqn:E.
        -- apply bool_decide_eq_true in E.
           rewrite (bool_decide_eq_true_2 (q ∈ p :: ps))
             by (apply elem_of_cons; now right). reflexivity.
        -- apply bool_decide_eq_false in E.
           rewrite (bool_decide_eq_false_2 (q ∈ p :: ps)); [reflexivity|].
           rewrite elem_of_cons. intros [?|?]; [congruence|tauto].
Qed.

Lemma deactivate_agents o q :
  map_get q (agents (deactivateCurrentAgents o)) = stopIfBusy <$> map_get q (agents o).
Proof.
  unfold deactivateCurrentAgents. cbn [setAgents agents].
  apply (map_get_map_values stopIfBusy).
Qed.

Lemma deactivate_active o q :
  map_get q (activeAgents (deactivateCurrentAgents o)) =
  if bool_decide (q ∈ map fst (agents o)) then None else map_get q (activeAgents o).
Proof.
  unfold deactivateCurrentAgents. cbn [setAgents activeAgents].
  apply map_get_delete_all.
Qed.

Lemma map_get_Some_elem {V} (q : AgentPersona) (m : list (AgentPersona * V)) :
  is_Some (map_get q m) -> q ∈ map fst m.
Proof.
  intros [v Hv]. apply list_elem_of_In. eapply map_get_In_fst. exact Hv.
Qed.

(** C2 (code at a failing input): the service as constructed, with an
    empty task queue and, as nothing registers an agent implementation,
    an empty [agents] map.  Every exit criterion of [planning] passes, yet
    [transitionPhase scaffold] neither returns [true] nor leaves the phase
    alone: it throws, after it has emitted the report and archive events
    and has set [currentPhase] to [scaffold]. *)
Lemma transitionPhase_throws_after_phase_change :
  validatePhaseTransition shippedCheck planning scaffold newOrchestrator = true /\
  taskQueue newOrchestrator = [] /\
  fst (transitionPhase shippedCheck scaffold newOrchestrator)
    = Threw "Agent implementation not found for persona: tech_lead" /\
  fst (transitionPhase shippedCheck scaffold newOrchestrator) <> Returned true /\
  currentPhase newOrchestrator = planning /\
  currentPhase (snd (transitionPhase shippedCheck scaffold newOrchestrator)) = scaffold /\
  events (snd (transitionPhase shippedCheck scaffold newOrchestrator))
    = [PhaseReportGenerated planning; PhaseDataArchived planning].
Proof. vm_compute. repeat split; try reflexivity. discriminate. Qed.

(** The branches of [transitionPhase(toPhase)].  It returns [false] and
    changes nothing when the current or the target phase has no
    configuration or an exit criterion of the current phase fails.
    Otherwise it waits while the task queue is not empty; with the queue
    empty it emits the phase report and the phase archive events and
    initializes the target phase, and on an orchestrator in which every
    active agent of the target phase is registered it returns [true]:
    [currentPhase] is the target phase, each of its agents is idle and
    active with its reported status, no other registered agent is active,
    and [phase:initialized] and [phase:transitioned] were emitted. *)
Theorem transitionPhase_gate (check : string -> bool)
    (toPhase : DevelopmentPhase) (o : Orchestrator) :
  ((map_get (currentPhase o) (phaseConfigs o) = None \/
    map_get toPhase (phaseConfigs o) = None \/
    validatePhaseTransition check (currentPhase o) toPhase o = false) ->
   transitionPhase check toPhase o = (Returned false, o)) /\
  (forall cfg,
     map_get toPhase (phaseConfigs o) = Some cfg ->
     validatePhaseTransition check (currentPhase o) toPhase o = true ->
     (taskQueue o <> [] -> transitionPhase check toPhase o = (Waiting, o)) /\
     (taskQueue o = [] ->
      Forall (fun p => is_Some (map_get p (agents o))) (cfg_activeAgents cfg) ->
      exists o',
        transitionPhase check toPhase o = (Returned true, o') /\
        currentPhase o' = toPhase /\ taskQueue o' = [] /\
        events o' = events o ++
          [PhaseReportGenerated (currentPhase o); PhaseDataArchived (currentPhase o);
           PhaseInitialized toPhase (cfg_activeAgents cfg);
           PhaseTransitioned toPhase toPhase] /\
        (forall p, p ∈ cfg_activeAgents cfg ->
           exists a, map_get p (agents o') = Some a /\ a_state a = idle /\
                     map_get p (activeAgents o') = Some (reportStatus a)) /\
        (forall p, is_Some (map_get p (agents o)) -> p ∉ cfg_activeAgents cfg ->
           map_get p (activeAgents o') = None))).
Proof.
  split.
  - intros H. unfold transitionPhase.
    destruct (map_get (currentPhase o) (phaseConfigs o)) as [c1|] eqn:E1; [|reflexivity].
    destruct (map_get toPhase (phaseConfigs o)) as [c2|] eqn:E2; [|reflexivity].
    destruct H as [H|[H|H]]; try discriminate. rewrite H. reflexivity.
  - intros cfg Hcfg Hval.
    assert (Hcur : is_Some (map_get (currentPhase o) (phaseConfigs o))).
    { unfold validatePhaseTransition in Hval.
      destruct (map_get (currentPhase o) (phaseConfigs o)); [eauto|discriminate]. }
    destruct Hcur as [c1 Hc1]. unfold transitionPhase. rewrite Hc1, Hcfg, Hval.
    unfold completeCurrentPhase, waitForTaskCompletion. split.
    + intros Hq. destruct (taskQueue o); [contradiction|reflexivity].
    + intros Hq Hreg. rewrite Hq.
      set (o1 := emit (PhaseDataArchived (currentPhase o))
                      (emit (PhaseReportGenerated (currentPhase o)) o)).
      unfold initializePhase.
      assert (Hcfg1 : map_get toPhase (phaseConfigs (setPhaseField toPhase o1)) = Some cfg)
        by exact Hcfg.
      rewrite Hcfg1.
      set (o2 := deactivateCurrentAgents (setPhaseField toPhase o1)).
      destruct (activatePhaseAgents_spec (cfg_activeAgents cfg) o2)
        as (o3 & Hrun & Hph & Hqu & Hev & _ & _ & Hag & Hac).
      { eapply Forall_impl; [exact Hreg|]. cbv beta. intros p [a Ha].
        subst o2. rewrite deactivate_agents. subst o1.
        cbn [setPhaseField agents emit]. rewrite Ha. simpl. eauto. }
      rewrite Hrun. eexists. split; [reflexivity|].
      cbn [emit currentPhase taskQueue events agents activeAgents].
      rewrite Hph, Hqu, Hev. subst o2 o1.
      cbn [deactivateCurrentAgents setAgents setPhaseField emit currentPhase
           taskQueue events].
      split; [reflexivity|]. split; [exact Hq|].
      split; [rewrite <- !app_assoc; reflexivity|]. split.
      * intros p Hp. rewrite Hag, Hac, deactivate_agents.
        rewrite bool_decide_eq_true_2 by assumption.
        rewrite List.Forall_forall in Hreg.
        destruct (Hreg p) as [a Ha]; [apply list_elem_of_In; assumption|].
        cbn [setPhaseField emit agents]. rewrite Ha. simpl.
        eexists. split; [reflexivity|]. split; reflexivity.
      * intros p Hp Hn. rewrite Hac, bool_decide_eq_false_2 by assumption.
        rewrite deactivate_active. cbn [setPhaseField emit agents].
        rewrite bool_decide_eq_true_2; [reflexivity|].
        apply map_get_Some_elem. assumption.
Qed.

Lemma transitionPhase_gate_witness :
  transitionPhase strictCheck scaffold staffedOrchestrator
    = (Returned false, staffedOrchestrator) /\
  exists o',
    transitionPhase shippedCheck deploy staffedOrchestrator = (Returned true, o') /\
    currentPhase o' = deploy /\
    map_get qa_engineer (activeAgents o') = None.
Proof.
  split.
  - apply (transitionPhase_gate strictCheck scaffold staffedOrchestrator).
    right. right. vm_compute. reflexivity.
  - destruct (transitionPhase_gate shippedCheck deploy staffedOrchestrator) as [_ H].
    destruct (H {| cfg_phase := deploy; cfg_activeAgents := phaseAgentMap deploy;
                   exitCriteria := getPhaseExitCriteria deploy;
                   deliverables := getPhaseDeliverables deploy |})
      as [_ H2]; [vm_compute; reflexivity|vm_compute; reflexivity|].
    destruct H2 as (o' & Hrun & Hph & _ & _ & _ & Hoff);
      [reflexivity|repeat constructor; vm_compute; eauto|].
    exists o'. split; [exact Hrun|]. split; [exact Hph|].
    apply Hoff; [vm_compute; eauto|].
    intros Hin. vm_compute in Hin.
    repeat (apply elem_of_cons in Hin; destruct Hin as [Hin|Hin]; [discriminate|]).
    apply elem_of_nil in Hin. exact Hin.
Defined.

End OrchestratorFacts.

Section MessageBusMore.
Import MessageBus.

(** The regular expression engine of the platform, whatever it is. *)
Variable regExpTest : string -> string -> option bool.
Local Abbreviation matchPattern := (MessageBus.matchPattern regExpTest).
Local Abbreviation runHandlers := (MessageBus.runHandlers regExpTest).
Local Abbreviation somePattern := (MessageBus.somePattern regExpTest).
Local Abbreviation runSubscriptions := (MessageBus.runSubscriptions regExpTest).
Local Abbreviation handleIncomingMessage :=
  (MessageBus.handleIncomingMessage regExpTest).
Local Abbreviation onPmessage := (MessageBus.onPmessage regExpTest).
Local Abbreviation deliver := (MessageBus.deliver regExpTest).
Local Abbreviation publishAndDeliver := (MessageBus.publishAndDeliver regExpTest).
Local Abbreviation requestResponse := (MessageBus.requestResponse regExpTest).
Local Abbreviation matches := (MessageBus.matches regExpTest).
Local Abbreviation compiles := (MessageBus.compiles regExpTest).

Lemma addToHistory_drop (m : AgentMessage) (l : list AgentMessage) :
  addToHistory m (drop (length l - maxHistorySize) l) =
  drop (length (l ++ [m]) - maxHistorySize) (l ++ [m]).
Proof.
  unfold addToHistory. generalize maxHistorySize. intros n. cbv zeta.
  rewrite !length_app, length_drop. cbn [length].
  destruct (Nat.ltb_spec n (length l - (length l - n) + 1)) as [Hlt|Hge].
  - replace (length l + 1 - n) with (length l - n + 1) by lia.
    rewrite <- (drop_drop _ 1 (length l - n)).
    rewrite drop_app_le by lia. destruct (drop (length l - n) l ++ [m]); reflexivity.
  - replace (length l - n) with 0 by lia.
    replace (length l + 1 - n) with 0 by lia. reflexivity.
Qed.

Lemma publish_history (m : AgentMessage) (b : Bus) :
  messageHistory (snd (publish m b)) = addToHistory m (messageHistory b).
Proof. reflexivity. Qed.

Lemma drop_all_kept {A} (n : nat) (l : list A) : length l <= n -> drop (length l - n) l = l.
Proof. intros H. replace (length l - n) with 0 by lia. reflexivity. Qed.

Lemma publishAll_history (ms : list AgentMessage) : forall (b : Bus) (all : list AgentMessage),
  messageHistory b = drop (length all - maxHistorySize) all ->
  messageHistory (publishAll ms b) =
  drop (length (all ++ ms) - maxHistorySize) (all ++ ms).
Proof.
  induction ms as [|m ms IH]; intros b all Hb.
  - rewrite app_nil_r. exact Hb.
  - cbn [publishAll fold_left]. change (fold_left _ ms ?x) with (publishAll ms x).
    rewrite (IH (snd (publish m b)) (all ++ [m])).
    + rewrite <- app_assoc. reflexivity.
    + rewrite publish_history, Hb. apply addToHistory_drop.
Qed.

(** X1: the message history after any run of [publish] calls is the last
    [maxHistorySize] (1000) messages of what it held before followed by
    the published messages, in order; it never grows beyond 1000. *)
Theorem history_keeps_most_recent (ms : list AgentMessage) (b : Bus) :
  length (messageHistory b) <= maxHistorySize ->
  messageHistory (publishAll ms b) =
    drop (length (messageHistory b ++ ms) - maxHistorySize) (messageHistory b ++ ms) /\
  length (messageHistory (publishAll ms b)) <= maxHistorySize.
Proof.
  intros Hb.
  assert (H : messageHistory (publishAll ms b) =
              drop (length (messageHistory b ++ ms) - maxHistorySize)
                   (messageHistory b ++ ms)).
  { apply publishAll_history. symmetry. apply drop_all_kept. exact Hb. }
  split; [exact H|]. rewrite H, length_drop. lia.
Qed.

Lemma history_keeps_most_recent_witness :
  length (messageHistory newBus) <= maxHistorySize /\
  messageHistory (publishAll [exampleMessage; exampleMessage] newBus) =
    [exampleMessage; exampleMessage].
Proof.
  assert (H0 : length (messageHistory newBus) <= maxHistorySize)
    by (unfold maxHistorySize; simpl; lia).
  split; [exact H0|].
  destruct (history_keeps_most_recent [exampleMessage; exampleMessage] newBus H0)
    as [H _].
  rewrite H. reflexivity.
Defined.

Lemma filter_sublist {A} (f : A -> bool) (l : list A) : sublist (List.filter f l) l.
Proof.
  induction l as [|a l IH]; simpl; [constructor|].
  destruct (f a); [apply sublist_skip|apply sublist_cons]; exact IH.
Qed.

Lemma in_opt_filter {A B} (o : option B) (p : B -> A -> bool) (l : list A) (m : A) :
  In m (match o with Some a => List.filter (p a) l | None => l end) <->
  In m l /\ (forall a, o = Some a -> p a m = true).
Proof.
  destruct o as [a|].
  - rewrite filter_In. split.
    + intros [H1 H2]. split; [exact H1|]. intros ? [= <-]. exact H2.
    + intros [H1 H2]. split; [exact H1|]. apply H2. reflexivity.
  - split; [intros H; split; [exact H|intros ? [=]]|intros [H _]; exact H].
Qed.

(** X2: [getMessageHistory] returns the whole history when no filter is
    given; with a filter it returns, in history order, exactly the
    messages that meet every criterion the filter sets (sender,
    addressee, type, sent strictly after [since]); a broadcast is never
    matched by an addressee. *)
Theorem getMessageHistory_selects (f : HistoryFilter) (b : Bus) :
  getMessageHistory None b = messageHistory b /\
  sublist (getMessageHistory (Some f) b) (messageHistory b) /\
  (forall m, In m (getMessageHistory (Some f) b) <->
     In m (messageHistory b) /\
     (forall a, f_fromAgent f = Some a -> fromAgent m = a) /\
     (forall a, f_toAgent f = Some a -> addressedTo a m = true) /\
     (forall t, f_messageType f = Some t -> messageType m = t) /\
     (forall d, f_since f = Some d -> (d < timestamp m)%Z)) /\
  (forall a m, f_toAgent f = Some a -> In m (getMessageHistory (Some f) b) ->
     toAgent m <> ToAll).
Proof.
  assert (Hiff : forall m, In m (getMessageHistory (Some f) b) <->
     In m (messageHistory b) /\
     (forall a, f_fromAgent f = Some a -> fromAgent m = a) /\
     (forall a, f_toAgent f = Some a -> addressedTo a m = true) /\
     (forall t, f_messageType f = Some t -> messageType m = t) /\
     (forall d, f_since f = Some d -> (d < timestamp m)%Z)).
  { intros m. unfold getMessageHistory. cbv zeta.
    rewrite (in_opt_filter (f_since f) (fun d m => (d <? timestamp m)%Z)).
    rewrite (in_opt_filter (f_messageType f)
               (fun t m => bool_decide (messageType m = t))).
    rewrite (in_opt_filter (f_toAgent f) addressedTo).
    rewrite (in_opt_filter (f_fromAgent f)
               (fun a m => bool_decide (fromAgent m = a))).
    split.
    - intros ((((H0 & H1) & H2) & H3) & H4).
      split; [exact H0|]. split; [|split; [exact H2|split]].
      + intros a Ha. exact (proj1 (bool_decide_eq_true _) (H1 a Ha)).
      + intros t Ht. exact (proj1 (bool_decide_eq_true _) (H3 t Ht)).
      + intros d Hd. exact (proj1 (Z.ltb_lt _ _) (H4 d Hd)).
    - intros (H0 & H1 & H2 & H3 & H4).
      split; [split; [split; [split; [exact H0|]|exact H2]|]|].
      + intros a Ha. exact (proj2 (bool_decide_eq_true _) (H1 a Ha)).
      + intros t Ht. exact (proj2 (bool_decide_eq_true _) (H3 t Ht)).
      + intros d Hd. exact (proj2 (Z.ltb_lt _ _) (H4 d Hd)). }
  split; [reflexivity|]. split; [|split; [exact Hiff|]].
  - unfold getMessageHistory. cbv zeta.
    destruct (f_fromAgent f), (f_toAgent f), (f_messageType f), (f_since f);
      repeat (etrans; [apply filter_sublist|]); reflexivity.
  - intros a m Ha Hin Hall. apply Hiff in Hin.
    destruct Hin as (_ & _ & Hto & _). specialize (Hto a Ha).
    unfold addressedTo in Hto. rewrite Hall in Hto. discriminate.
Qed.

Lemma filter_idem {A} (f : A -> bool) (l : list A) :
  List.filter f (List.filter f l) = List.filter f l.
Proof.
  induction l as [|a l IH]; simpl; [reflexivity|].
  destruct (f a) eqn:E; simpl; [rewrite E, IH|rewrite IH]; reflexivity.
Qed.

(** X3: [purgeOldMessages(olderThan)] keeps exactly the messages sent
    strictly after [olderThan], in order, and returns the number of
    messages it removed; purging again with the same date removes nothing. *)
Theorem purgeOldMessages_counts (olderThan : Z) (b : Bus) :
  let removed := fst (purgeOldMessages olderThan b) in
  let b' := snd (purgeOldMessages olderThan b) in
  (removed + length (messageHistory b') = length (messageHistory b))%nat /\
  sublist (messageHistory b') (messageHistory b) /\
  (forall m, In m (messageHistory b') <->
     In m (messageHistory b) /\ (olderThan < timestamp m)%Z) /\
  purgeOldMessages olderThan b' = (0%nat, b').
Proof.
  cbn [purgeOldMessages fst snd messageHistory].
  set (keep := fun m : AgentMessage => (olderThan <? timestamp m)%Z).
  assert (Hlen : length (List.filter keep (messageHistory b)) <= length (messageHistory b)).
  { apply sublist_length, filter_sublist. }
  split; [lia|]. split; [apply filter_sublist|]. split.
  - intros m. rewrite filter_In. unfold keep. rewrite Z.ltb_lt. reflexivity.
  - unfold purgeOldMessages. cbn [messageHistory messageHandlers subscriptions
                                  psubscribed uuidSeed log].
    fold keep.
    rewrite filter_idem, Nat.sub_diag. reflexivity.
Qed.

Lemma callbackCount_app (sid : string) l1 l2 :
  callbackCount sid (l1 ++ l2) = (callbackCount sid l1 + callbackCount sid l2)%nat.
Proof. unfold callbackCount. rewrite List.filter_app, length_app. reflexivity. Qed.

Lemma runHandlers_no_callback hs m pat sid :
  callbackCount sid (fst (runHandlers hs m pat)) = 0%nat.
Proof.
  induction hs as [|[k h] hs IH]; simpl; [reflexivity|].
  destruct (matchPattern pat (h_pattern h)) as [[|]|]; simpl; [|exact IH|reflexivity].
  destruct (runHandlers hs m pat) as [l c]. simpl in *.
  rewrite callbackCount_app, IH. destruct (handler h m); reflexivity.
Qed.

Lemma runSubscriptions_no_handler ss m pat :
  handlerCalls (fst (runSubscriptions ss m pat)) = [].
Proof.
  induction ss as [|[k s] ss IH]; simpl; [reflexivity|].
  destruct (somePattern pat (patterns s)) as [[|]|]; simpl; [|exact IH|reflexivity].
  destruct (callback s m); [|reflexivity].
  destruct (runSubscriptions ss m pat) as [l c]. simpl in *. exact IH.
Qed.

Lemma runSubscriptions_normal ss m pat :
  (forall k s, In (k, s) ss ->
     callback s m = Returns /\ somePattern pat (patterns s) <> None) ->
  snd (runSubscriptions ss m pat) = Normal.
Proof.
  induction ss as [|[k s] ss IH]; simpl; intros Hok; [reflexivity|].
  destruct (Hok k s (or_introl eq_refl)) as [Hret Hsome].
  assert (IH' : snd (runSubscriptions ss m pat) = Normal)
    by (apply IH; intros k' s' Hin; apply (Hok k' s'); now right).
  destruct (somePattern pat (patterns s)) as [[|]|]; [| |congruence].
  - rewrite Hret. destruct (runSubscriptions ss m pat) as [l c]. exact IH'.
  - exact IH'.
Qed.


Lemma In_map_delete {V} (k k' : string) (v : V) (m : list (string * V)) :
  In (k', v) (map_delete k m) -> k' <> k /\ In (k', v) m.
Proof.
  clear regExpTest. induction m as [|[k0 v0] m IH]; simpl; [tauto|].
  destruct (decide (k = k0)) as [->|Hne].
  - intros H. destruct (IH H). split; [assumption|now right].
  - intros [[= <- <-]|H]; [split; [congruence|now left]|].
    destruct (IH H). split; [assumption|now right].
Qed.

Lemma runHandlers_calls hs m pat x :
  In x (handlerCalls (fst (runHandlers hs m pat))) ->
  exists k h, In (k, h) hs /\ h_id h = x.
Proof.
  induction hs as [|[k h] hs IH]; simpl; [tauto|].
  destruct (matchPattern pat (h_pattern h)) as [[|]|]; simpl; [| |tauto].
  - destruct (runHandlers hs m pat) as [l c]. simpl in *.
    rewrite handlerCalls_app, in_app_iff. intros [H|H].
    + exists k, h. split; [now left|].
      destruct (handler h m); simpl in H; destruct H as [<-|[]]; reflexivity.
    + destruct (IH H) as (k' & h' & Hin & Hid). exists k', h'. split; [now right|exact Hid].
  - intros H. destruct (IH H) as (k' & h' & Hin & Hid).
    exists k', h'. split; [now right|exact Hid].
Qed.

Lemma handleIncomingMessage_calls m pat b x :
  In x (handlerCalls (fst (handleIncomingMessage m pat b))) ->
  In x (handlerCalls (fst (runHandlers (messageHandlers b) m pat))).
Proof.
  unfold handleIncomingMessage.
  destruct (runHandlers (messageHandlers b) m pat) as [l1 [|e]]; simpl; [|tauto].
  pose proof (runSubscriptions_no_handler (subscriptions b) m pat) as Hnh.
  destruct (runSubscriptions (subscriptions b) m pat) as [l2 [|e]]; simpl in *;
    rewrite ?handlerCalls_app, Hnh; simpl; rewrite ?app_nil_r; tauto.
Qed.

Lemma registerHandler_keyed pattern h b :
  handlersKeyed b -> handlersKeyed (snd (registerHandler pattern h b)).
Proof.
  unfold handlersKeyed, registerHandler. cbn [snd messageHandlers].
  generalize (uuidv4 (uuidSeed b)). intros hid.
  induction (messageHandlers b) as [|[k0 h0] hs IH]; simpl; intros H.
  - repeat constructor.
  - inversion H as [|? ? H1 H2]; subst.
    destruct (decide (hid = k0)) as [->|Hne]; constructor; auto.
Qed.

(** X5: once [unregisterHandler(id)] has run, the handler registered
    under [id] is never invoked again, whatever message comes in. *)
Theorem unregistered_handler_not_called (hid : string) (m : AgentMessage)
    (pat : string) (b : Bus) :
  handlersKeyed b ->
  ~ In hid (handlerCalls (fst (handleIncomingMessage m pat (unregisterHandler hid b)))).
Proof.
  intros Hk Hin. apply handleIncomingMessage_calls in Hin.
  destruct (runHandlers_calls _ _ _ _ Hin) as (k & h & Hkh & Hid).
  cbn [unregisterHandler messageHandlers] in Hkh.
  destruct (In_map_delete _ _ _ _ Hkh) as [Hne Hold].
  unfold handlersKeyed in Hk. rewrite List.Forall_forall in Hk.
  specialize (Hk (k, h) Hold). simpl in Hk. congruence.
Qed.

Lemma map_delete_notin {V} (k : string) (m : list (string * V)) :
  ~ In k (map fst (map_delete k m)).
Proof.
  intros Hin. apply in_map_iff in Hin. destruct Hin as ([k' v] & Hk & Hin).
  simpl in Hk. subst k'. destruct (In_map_delete _ _ _ _ Hin) as [Hne _]. congruence.
Qed.

(** X6: after [unsubscribe(id)] the callback of that subscription is not
    invoked by any incoming message. *)
Theorem unsubscribed_callback_not_called (sid : string) (m : AgentMessage)
    (pat : string) (b : Bus) :
  callbackCount sid
    (fst (handleIncomingMessage m pat (snd (unsubscribe sid b)))) = 0%nat.
Proof.
  assert (Hn : ~ In sid (map fst (subscriptions (snd (unsubscribe sid b))))).
  { unfold unsubscribe. destruct (map_get sid (subscriptions b)) as [sub|] eqn:E.
    - cbn [snd subscriptions]. apply map_delete_notin.
    - cbn [snd]. apply map_get_None_notin. exact E. }
  set (b' := snd (unsubscribe sid b)) in *.
  unfold handleIncomingMessage.
  pose proof (runHandlers_no_callback (messageHandlers b') m pat sid) as H1.
  pose proof (runSubscriptions_skips regExpTest (subscriptions b') m pat sid Hn) as H2.
  destruct (runHandlers (messageHandlers b') m pat) as [l1 [|e]]; simpl in *;
    [|exact H1].
  destruct (runSubscriptions (subscriptions b') m pat) as [l2 [|e]]; simpl in *;
    rewrite ?callbackCount_app, H1, H2; reflexivity.
Qed.

Lemma punsubscribe_all (pats : list string) : forall (ps : list string) (x : string),
  x ∈ fold_left (fun ps p => punsubscribe p ps) pats ps <-> x ∈ ps /\ x ∉ pats.
Proof.
  clear regExpTest. induction pats as [|p pats IH]; intros ps x; cbn [fold_left].
  - split; [intros H; split; [exact H|apply not_elem_of_nil]|intros [H _]; exact H].
  - rewrite IH. unfold punsubscribe. rewrite list_elem_of_filter, not_elem_of_cons.
    tauto.
Qed.

(** X7: [unsubscribe(id)] takes every pattern of the subscription out of
    the pattern set of the Redis connection, whether or not another
    subscription (or the service's own ['agent:*']) lists the same
    pattern; patterns the subscription does not list stay. *)
Theorem unsubscribe_drops_patterns (sid : string) (sub : MessageSubscription)
    (b : Bus) (p : string) :
  map_get sid (subscriptions b) = Some sub ->
  (p ∈ psubscribed (snd (unsubscribe sid b)) <->
   p ∈ psubscribed b /\ p ∉ patterns sub).
Proof.
  intros H. unfold unsubscribe. rewrite H. cbn [snd psubscribed].
  apply punsubscribe_all.
Qed.

Lemma replaceStar_plain (s : string) : plain s = true -> replaceStar s = s.
Proof.
  induction s as [|c s IH]; simpl; [reflexivity|].
  intros H. apply andb_prop in H. destruct H as [Hc Hs].
  destruct (Ascii.eqb_spec c "*") as [->|_]; [discriminate Hc|].
  rewrite IH by assumption. reflexivity.
Qed.

Lemma replaceQuestion_plain (s : string) : plain s = true -> replaceQuestion s = s.
Proof.
  induction s as [|c s IH]; simpl; [reflexivity|].
  intros H. apply andb_prop in H. destruct H as [Hc Hs].
  destruct (Ascii.eqb_spec c "?") as [->|_]; [discriminate Hc|].
  rewrite IH by assumption. reflexivity.
Qed.

Lemma replaceStar_app (a b : string) :
  replaceStar (a +:+ b) = replaceStar a +:+ replaceStar b.
Proof.
  induction a as [|c a IH]; simpl; [reflexivity|].
  destruct (Ascii.eqb c "*"); rewrite IH; reflexivity.
Qed.

Lemma replaceQuestion_app (a b : string) :
  replaceQuestion (a +:+ b) = replaceQuestion a +:+ replaceQuestion b.
Proof.
  induction a as [|c a IH]; simpl; [reflexivity|].
  destruct (Ascii.eqb c "?"); rewrite IH; reflexivity.
Qed.

Lemma compileRegex_lit (c : ascii) (rest : string) :
  isMeta c = false ->
  compileRegex (String c rest) = option_map (cons (RLit c)) (compileRegex rest).
Proof.
  intros H.
  destruct c as [[] [] [] [] [] [] [] []]; try discriminate H; reflexivity.
Qed.

Lemma compileRegex_plain (p rest : string) :
  plain p = true ->
  compileRegex (p +:+ rest) =
  option_map (app (map RLit (list_ascii_of_string p))) (compileRegex rest).
Proof.
  induction p as [|c p IH]; intros H.
  - change ("" +:+ rest) with rest. destruct (compileRegex rest); reflexivity.
  - simpl in H. apply andb_prop in H. destruct H as [Hc Hp].
    apply negb_true_iff in Hc.
    change (String c p +:+ rest) with (String c (p +:+ rest)).
    rewrite (compileRegex_lit c _ Hc), (IH Hp).
    destruct (compileRegex rest); reflexivity.
Qed.

Lemma matchTokens_lits (cs : string) (ts : list RegexTok) (s : string) :
  matchTokens (map RLit (list_ascii_of_string cs) ++ ts) s = true <->
  exists rest, s = cs +:+ rest /\ matchTokens ts rest = true.
Proof.
  revert s. induction cs as [|c cs IH]; intros s.
  - simpl. split; [intros H; exists s; auto|intros (rest & -> & H); exact H].
  - cbn [list_ascii_of_string map app matchTokens]. destruct s as [|d s].
    + split; [discriminate|intros (rest & H & _); discriminate H].
    + rewrite andb_true_iff, IH. split.
      * intros [Hc (rest & -> & H)]. apply Ascii.eqb_eq in Hc. subst d.
        exists rest. auto.
      * intros (rest & [= -> ->] & H). split; [apply Ascii.eqb_refl|eauto].
Qed.

Lemma matchTokens_star (s : string) : matchTokens [RNotColonStar] s = noColon s.
Proof.
  induction s as [|d s IH]; [reflexivity|].
  cbn [matchTokens] in *. cbn [noColon]. rewrite IH. reflexivity.
Qed.

Lemma app_empty_r_string (s : string) : s +:+ "" = s.
Proof.
  induction s as [|c s IH]; [reflexivity|].
  change (String c s +:+ "") with (String c (s +:+ "")). rewrite IH. reflexivity.
Qed.

Lemma matchTokens_nil (s : string) : matchTokens [] s = true <-> s = "".
Proof. destruct s; simpl; split; congruence. Qed.

(** X8: in a pattern made of ordinary characters followed by [*], the
    star stands for one channel segment: the channel matches exactly when
    it is the prefix followed by any run of characters (possibly none)
    that holds no colon. *)
Theorem matchPattern_trailing_star (prefix channel : string) :
  plain prefix = true ->
  exists r, matchPattern channel (prefix +:+ "*") = Some r /\
    (r = true <-> exists segment, channel = prefix +:+ segment /\ noColon segment = true).
Proof.
  intros Hp. unfold matchPattern, regexPattern.
  rewrite replaceStar_app, replaceQuestion_app, (replaceStar_plain _ Hp),
    (replaceQuestion_plain _ Hp).
  change (replaceQuestion (replaceStar "*")) with "[^:]*".
  rewrite (compileRegex_plain prefix "[^:]*" Hp).
  change (compileRegex "[^:]*") with (Some [RNotColonStar]). cbn [option_map].
  eexists. split; [reflexivity|].
  rewrite matchTokens_lits. split.
  - intros (rest & -> & H). rewrite matchTokens_star in H. eauto.
  - intros (seg & -> & H). exists seg. rewrite matchTokens_star. auto.
Qed.

(** X9: a pattern made of ordinary characters only matches its own text
    and nothing else. *)
Theorem matchPattern_literal (pattern channel : string) :
  plain pattern = true ->
  matchPattern channel pattern = Some (String.eqb channel pattern).
Proof.
  intros Hp. unfold matchPattern, regexPattern.
  rewrite (replaceStar_plain _ Hp), (replaceQuestion_plain _ Hp).
  rewrite <- (app_empty_r_string pattern) at 1.
  rewrite (compileRegex_plain pattern "" Hp). cbn [compileRegex option_map].
  f_equal. apply eq_true_iff_eq.
  rewrite matchTokens_lits, String.eqb_eq. split.
  - intros (rest & -> & H). apply matchTokens_nil in H. subst rest.
    apply app_empty_r_string.
  - intros ->. exists "". split; [symmetry; apply app_empty_r_string|reflexivity].
Qed.

End MessageBusMore.

(** ** Message bus: the properties above on the sample buses

    The sample buses keep to patterns of the fragment, so the engine is
    never consulted; [noRegExp] stands in for it. *)
Section MessageBusSamples.
Import MessageBus.
Local Abbreviation matchPattern := (MessageBus.matchPattern noRegExp).
Local Abbreviation handleIncomingMessage :=
  (MessageBus.handleIncomingMessage noRegExp).
Local Abbreviation publishAndDeliver := (MessageBus.publishAndDeliver noRegExp).


Lemma unregistered_handler_not_called_witness :
  handlersKeyed busThreeHandlers /\
  In "uuid-1" (handlerCalls
    (fst (handleIncomingMessage exampleMessage "agent:*" busThreeHandlers))) /\
  ~ In "uuid-1" (handlerCalls
    (fst (handleIncomingMessage exampleMessage "agent:*"
            (unregisterHandler "uuid-1" busThreeHandlers)))).
Proof.
  assert (Hk : handlersKeyed busThreeHandlers).
  { unfold busThreeHandlers. repeat apply registerHandler_keyed. constructor. }
  split; [exact Hk|]. split; [vm_compute; tauto|].
  apply (unregistered_handler_not_called noRegExp "uuid-1" exampleMessage "agent:*"
           busThreeHandlers Hk).
Defined.

Lemma unsubscribe_drops_patterns_witness :
  map fst (subscriptions (snd (unsubscribe "uuid-0" busTwoWildcards))) = ["uuid-1"] /\
  ("agent:*" ∉ psubscribed (snd (unsubscribe "uuid-0" busTwoWildcards))) /\
  callbackCount "uuid-1" (log (publishAndDeliver exampleMessage busTwoWildcards)) = 1%nat /\
  callbackCount "uuid-1"
    (log (publishAndDeliver exampleMessage (snd (unsubscribe "uuid-0" busTwoWildcards))))
    = 0%nat.
Proof.
  split; [reflexivity|]. split; [|split; vm_compute; reflexivity].
  intros Hin.
  apply (unsubscribe_drops_patterns "uuid-0"
           {| agentId := "first"; patterns := ["agent:*"]; callback := quiet |}
           busTwoWildcards "agent:*") in Hin; [|reflexivity].
  destruct Hin as [_ Hn]. apply Hn. simpl. apply elem_of_cons. left. reflexivity.
Defined.

Lemma matchPattern_trailing_star_witness :
  plain "agent:" = true /\
  matchPattern "agent:qa_engineer" "agent:*" = Some true /\
  matchPattern "agent:qa:extra" "agent:*" = Some false.
Proof.
  split; [reflexivity|].
  destruct (matchPattern_trailing_star noRegExp "agent:" "agent:qa_engineer" eq_refl)
    as (r & Hr & Hiff).
  split; [|vm_compute; reflexivity].
  change "agent:*" with ("agent:" +:+ "*").
  rewrite Hr. f_equal. apply Hiff. exists "qa_engineer". split; reflexivity.
Defined.

Lemma matchPattern_literal_witness :
  plain "agent:multicast" = true /\
  matchPattern "agent:multicast" "agent:multicast" = Some true /\
  matchPattern "agent:multicasts" "agent:multicast" = Some false.
Proof.
  split; [reflexivity|]. split.
  - rewrite (matchPattern_literal noRegExp "agent:multicast" "agent:multicast" eq_refl).
    reflexivity.
  - rewrite (matchPattern_literal noRegExp "agent:multicast" "agent:multicasts" eq_refl).
    reflexivity.
Defined.

End MessageBusSamples.


Section TaskDispatcherMore.
Import TaskDispatcher.

Lemma assignedToAgent_cons a t ts :
  assignedToAgent a (t :: ts) =
  if bool_decide (assignedTo t = a) then t :: assignedToAgent a ts
  else assignedToAgent a ts.
Proof. reflexivity. Qed.

Lemma groupFold_get (a : AgentPersona) : forall ts grouped,
  map_get a (fold_left groupStep ts grouped) =
  match assignedToAgent a ts with
  | [] => map_get a grouped
  | l => Some (default [] (map_get a grouped) ++ l)
  end.
Proof.
  induction ts as [|t ts IH]; intros grouped; [reflexivity|].
  cbn [fold_left]. rewrite IH, assignedToAgent_cons. unfold groupStep.
  destruct (bool_decide (assignedTo t = a)) eqn:E.
  - apply bool_decide_eq_true in E. rewrite E, map_get_set_eq. simpl.
    destruct (assignedToAgent a ts); [reflexivity|].
    rewrite <- app_assoc. reflexivity.
  - apply bool_decide_eq_false in E. rewrite map_get_set_ne by assumption.
    reflexivity.
Qed.

Lemma groupFold_nodup : forall ts grouped,
  List.NoDup (map fst grouped) -> List.NoDup (map fst (fold_left groupStep ts grouped)).
Proof.
  induction ts as [|t ts IH]; intros grouped H; [exact H|].
  cbn [fold_left]. apply IH. apply map_set_nodup. exact H.
Qed.

Lemma groupTasksByAgent_groups (tasks : list Task) (agent : AgentPersona) :
  map_get agent (groupTasksByAgent tasks) =
    match assignedToAgent agent tasks with
    | [] => None
    | l => Some l
    end /\
  List.NoDup (map fst (groupTasksByAgent tasks)).
Proof.
  split.
  - unfold groupTasksByAgent. rewrite groupFold_get. reflexivity.
  - apply groupFold_nodup. constructor.
Qed.

(** X10: [groupTasksByAgent] loses and duplicates nothing: a role has a
    group exactly when some task is assigned to it, the group holds the
    tasks assigned to the role in the order they were given, and each
    role has one group. *)
Theorem groupTasksByAgent_partitions (tasks : list Task) (agent : AgentPersona) :
  map_get agent (groupTasksByAgent tasks) =
    match assignedToAgent agent tasks with
    | [] => None
    | l => Some l
    end /\
  List.NoDup (map fst (groupTasksByAgent tasks)).
Proof. apply groupTasksByAgent_groups. Qed.

Lemma queue_addBulk_spec name : forall ts q jobs q',
  queue_addBulk name ts q = (jobs, q') ->
  waiting q' = waiting q ++ jobs /\ map job_data jobs = ts /\
  weighted jobs /\ length jobs = length ts.
Proof.
  induction ts as [|t ts IH]; intros q jobs q'; cbn [queue_addBulk].
  - intros [= <- <-]. rewrite app_nil_r. repeat split. constructor.
  - unfold queue_add at 1.
    destruct (queue_addBulk name ts _) as [js q2] eqn:E.
    intros [= <- <-]. destruct (IH _ _ _ E) as (Hw & Hd & Hp & Hl).
    rewrite Hw. cbn [waiting]. rewrite <- app_assoc.
    split; [reflexivity|]. split; [simpl; rewrite Hd; reflexivity|].
    split; [constructor; [reflexivity|exact Hp]|simpl; rewrite Hl; reflexivity].
Qed.

Lemma queueOf_set a b q d ev :
  queueOf a {| taskQueues := map_set b q (taskQueues d); events := ev |} =
  if decide (b = a) then q else queueOf a d.
Proof.
  unfold queueOf. cbn [taskQueues]. destruct (decide (b = a)) as [->|Hne].
  - rewrite map_get_set_eq. reflexivity.
  - rewrite map_get_set_ne by assumption. reflexivity.
Qed.

Lemma getOrCreateQueue_spec agent d q d1 :
  getOrCreateQueue agent d = (q, d1) ->
  q = queueOf agent d /\ events d1 = events d /\
  (forall a, queueOf a d1 = queueOf a d) /\
  (forall x, map_get agent (taskQueues d) = Some x -> d1 = d).
Proof.
  unfold getOrCreateQueue, queueOf.
  destruct (map_get agent (taskQueues d)) as [q0|] eqn:E.
  - intros [= <- <-]. repeat split.
  - unfold createQueueForAgent. cbn [taskQueues]. rewrite map_get_set_eq.
    intros [= <- <-]. cbn [events taskQueues]. split; [reflexivity|].
    split; [reflexivity|]. split; [|intros x [=]].
    intros a. destruct (decide (agent = a)) as [->|Hne].
    + rewrite map_get_set_eq, E. reflexivity.
    + rewrite map_get_set_ne by assumption. reflexivity.
Qed.

Lemma bulkFold_spec (a : AgentPersona) : forall gs ids d,
  List.NoDup (map fst gs) ->
  exists jobs,
    waiting (queueOf a (snd (fold_left bulkStep gs (ids, d)))) =
      waiting (queueOf a d) ++ jobs /\
    map job_data jobs = default [] (map_get a gs) /\ weighted jobs /\
    length (fst (fold_left bulkStep gs (ids, d))) = (length ids + totalGrouped gs)%nat /\
    events (snd (fold_left bulkStep gs (ids, d))) = events d.
Proof.
  induction gs as [|[agent agentTasks] gs IH]; intros ids d Hnd.
  - exists []. simpl. rewrite app_nil_r. repeat split; [constructor|lia].
  - inversion Hnd as [|? ? Hnotin Hnd']; subst.
    cbn [fold_left].
    destruct (getOrCreateQueue agent d) as [queue d1] eqn:Eg.
    destruct (getOrCreateQueue_spec _ _ _ _ Eg) as (Hq & Hev & Hsame & _).
    destruct (queue_addBulk agent agentTasks queue) as [results queue'] eqn:Eb.
    destruct (queue_addBulk_spec _ _ _ _ _ Eb) as (Hw & Hd & Hp & Hl).
    set (d2 := {| taskQueues := map_set agent queue' (taskQueues d1);
                  events := events d1 |}).
    assert (Hstep : bulkStep (ids, d) (agent, agentTasks) =
                    (ids ++ map job_id results, d2))
      by (unfold bulkStep; rewrite Eg, Eb; reflexivity).
    rewrite Hstep.
    destruct (IH (ids ++ map job_id results) d2 Hnd')
      as (jobs & Hw2 & Hd2 & Hp2 & Hl2 & Hev2).
    assert (Hq2 : queueOf a d2 = if decide (agent = a) then queue' else queueOf a d).
    { unfold d2. rewrite queueOf_set. destruct (decide (agent = a)); [reflexivity|].
      apply Hsame. }
    cbn [map fst map_get].
    destruct (decide (a = agent)) as [->|Hne].
    + rewrite decide_True in Hq2 by reflexivity.
      exists (results ++ jobs). rewrite Hw2, Hq2, Hw, Hq, <- app_assoc.
      split; [reflexivity|]. split; [|split; [|split]].
      * rewrite map_app, Hd, Hd2.
        rewrite (proj2 (eq_None_not_Some (map_get agent gs))).
        { simpl. apply app_nil_r. }
        intros [x Hx]. apply Hnotin. eapply map_get_In_fst. exact Hx.
      * apply Forall_app. split; assumption.
      * rewrite Hl2, length_app, length_map, Hl. simpl. lia.
      * rewrite Hev2. unfold d2. simpl. exact Hev.
    + rewrite decide_False in Hq2 by congruence.
      exists jobs. rewrite Hw2, Hq2.
      split; [reflexivity|]. split; [exact Hd2|]. split; [exact Hp2|]. split.
      * rewrite Hl2, length_app, length_map, Hl. simpl. lia.
      * rewrite Hev2. unfold d2. simpl. exact Hev.
Qed.

Lemma totalGrouped_set k v (g : list (AgentPersona * list Task)) :
  (totalGrouped (map_set k v g) + length (default [] (map_get k g)) =
   totalGrouped g + length v)%nat.
Proof.
  induction g as [|[k0 v0] g IH]; simpl; [lia|].
  destruct (decide (k = k0)) as [->|Hne]; simpl; lia.
Qed.

Lemma totalGrouped_fold : forall ts g,
  totalGrouped (fold_left groupStep ts g) = (totalGrouped g + length ts)%nat.
Proof.
  induction ts as [|t ts IH]; intros g; simpl; [lia|].
  rewrite IH. unfold groupStep.
  pose proof (totalGrouped_set (assignedTo t)
                (default [] (map_get (assignedTo t) g) ++ [t]) g) as H.
  rewrite length_app in H. simpl in H. lia.
Qed.

(** X11: [bulkDispatch] appends to the queue of every role exactly the
    tasks assigned to that role, in the order given and with the weight
    of their priority as priority number; it returns one job id per task
    and, unlike [dispatchTask], emits no [task:dispatched] event. *)
Theorem bulkDispatch_enqueues_by_role (tasks : list Task) (d : Dispatcher)
    (agent : AgentPersona) :
  (exists jobs,
     waiting (queueOf agent (snd (bulkDispatch tasks d))) =
       waiting (queueOf agent d) ++ jobs /\
     map job_data jobs = assignedToAgent agent tasks /\ weighted jobs) /\
  length (fst (bulkDispatch tasks d)) = length tasks /\
  events (snd (bulkDispatch tasks d)) = events d.
Proof.
  unfold bulkDispatch.
  destruct (groupTasksByAgent_groups tasks agent) as [Hg Hnd].
  destruct (bulkFold_spec agent (groupTasksByAgent tasks) [] d Hnd)
    as (jobs & Hw & Hd & Hp & Hl & Hev).
  split; [|split].
  - exists jobs. split; [exact Hw|]. split; [|exact Hp].
    rewrite Hd, Hg. destruct (assignedToAgent agent tasks); reflexivity.
  - rewrite Hl. unfold groupTasksByAgent. rewrite totalGrouped_fold. simpl. lia.
  - exact Hev.
Qed.

Lemma countEvents_cons e x evs :
  countEvents e (x :: evs) =
  ((match e, x with
    | Completed, Completed | Failed, Failed => 1
    | _, _ => 0
    end) + countEvents e evs)%nat.
Proof. unfold countEvents. simpl. destruct e, x; reflexivity. Qed.

Lemma afterEvents_cons agent e evs tm :
  afterEvents agent (e :: evs) tm = afterEvents agent evs (updateMetrics agent e tm).
Proof. reflexivity. Qed.

Lemma afterEvents_counts (agent : AgentPersona) : forall evs tm m,
  map_get agent tm = Some m ->
  exists m',
    map_get agent (afterEvents agent evs tm) = Some m' /\
    completedTasks m' = (completedTasks m + countEvents Completed evs)%nat /\
    failedTasks m' = (failedTasks m + countEvents Failed evs)%nat /\
    (evs <> [] -> totalTasks m' = (completedTasks m' + failedTasks m')%nat) /\
    averageProcessingTime m' = averageProcessingTime m /\
    forall other, other <> agent ->
      map_get other (afterEvents agent evs tm) = map_get other tm.
Proof.
  induction evs as [|e evs IH]; intros tm m Hm.
  - exists m. simpl. unfold countEvents. simpl.
    repeat split; try lia; try assumption. congruence.
  - rewrite afterEvents_cons. unfold updateMetrics. rewrite Hm. cbv zeta.
    set (m1 := {| totalTasks := _ |}).
    destruct (IH (map_set agent m1 tm) m1 (map_get_set_eq _ _ _))
      as (m' & Hg & Hc & Hf & Ht & Ha & Ho).
    exists m'. split; [exact Hg|]. rewrite !countEvents_cons.
    split; [rewrite Hc; subst m1; destruct e; simpl; lia|].
    split; [rewrite Hf; subst m1; destruct e; simpl; lia|].
    split; [|split; [rewrite Ha; reflexivity|]].
    + intros _. destruct evs as [|e' evs'].
      * simpl in Hg. rewrite map_get_set_eq in Hg. injection Hg as <-.
        reflexivity.
      * apply Ht. discriminate.
    + intros other Hne. rewrite Ho by assumption.
      apply map_get_set_ne. congruence.
Qed.

(** X12: for a role whose metrics were initialised, after any run of
    [completed] and [failed] queue events [completedTasks] and
    [failedTasks] count the events of each kind and [totalTasks] is their
    sum, the number of events; the metrics of the other roles are not
    touched.  For a role without metrics an event changes nothing. *)
Theorem metrics_count_events (agent : AgentPersona) (evs : list QueueEvent)
    (tm : list (AgentPersona * TaskMetrics)) :
  (exists m,
     map_get agent (afterEvents agent evs (initializeMetrics agent tm)) = Some m /\
     completedTasks m = countEvents Completed evs /\
     failedTasks m = countEvents Failed evs /\
     totalTasks m = length evs) /\
  (forall other, other <> agent ->
     map_get other (afterEvents agent evs (initializeMetrics agent tm)) =
     map_get other tm) /\
  (map_get agent tm = None -> afterEvents agent evs tm = tm).
Proof.
  destruct (afterEvents_counts agent evs (initializeMetrics agent tm) zeroMetrics)
    as (m & Hg & Hc & Hf & Ht & _ & Ho).
  { apply map_get_set_eq. }
  split; [|split].
  - exists m. split; [exact Hg|]. simpl in Hc, Hf.
    split; [exact Hc|]. split; [exact Hf|].
    destruct evs as [|e evs].
    + simpl in Hg. unfold initializeMetrics in Hg. rewrite map_get_set_eq in Hg.
      injection Hg as <-. reflexivity.
    + rewrite Ht by discriminate. rewrite Hc, Hf.
      clear. induction (e :: evs) as [|x l IH]; [reflexivity|].
      rewrite !countEvents_cons. simpl length. destruct x; lia.
  - intros other Hne. rewrite Ho by assumption.
    apply map_get_set_ne. congruence.
  - intros Hn. clear - Hn. induction evs as [|e evs IH]; [reflexivity|].
    rewrite afterEvents_cons. unfold updateMetrics. rewrite Hn. exact IH.
Qed.

Section JobCountsFacts.
Variable getJobCounts : AgentPersona -> nat * nat.

Lemma leastLoaded_spec : forall agents m s,
  (m = None /\ s = None \/
   exists a, s = Some a /\ m = Some (reportedDepth getJobCounts a)) ->
  (leastLoaded getJobCounts agents m s = None <-> agents = [] /\ s = None) /\
  forall r, leastLoaded getJobCounts agents m s = Some r ->
    (s = Some r \/ In r agents) /\
    (forall a, s = Some a ->
       reportedDepth getJobCounts r <= reportedDepth getJobCounts a) /\
    (forall a, In a agents ->
       reportedDepth getJobCounts r <= reportedDepth getJobCounts a).
Proof.
  induction agents as [|x agents IH]; intros m s Hms.
  - simpl. split.
    + split; [intros ->; auto|intros [_ ->]; reflexivity].
    + intros r ->. split; [now left|]. split; [|intros a []].
      intros a [= ->]. lia.
  - cbn [leastLoaded].
    destruct Hms as [[-> ->]|(a0 & -> & ->)].
    + destruct (IH (Some (reportedDepth getJobCounts x)) (Some x)) as [Hn Hs];
        [right; eauto|].
      split.
      * split; [intros H; apply Hn in H; destruct H as [_ H]; discriminate
               |intros [H _]; discriminate].
      * intros r Hr. destruct (Hs r Hr) as (Hin & Hle1 & Hle2).
        split; [right; destruct Hin as [[= ->]|Hin]; [now left|now right]|].
        split; [intros a [=]|].
        intros a [<-|Ha]; [apply Hle1; reflexivity|apply Hle2; exact Ha].
    + destruct (Nat.ltb_spec (reportedDepth getJobCounts x)
                             (reportedDepth getJobCounts a0)) as [Hlt|Hge].
      * destruct (IH (Some (reportedDepth getJobCounts x)) (Some x)) as [Hn Hs];
          [right; eauto|].
        split.
        -- split; [intros H; apply Hn in H; destruct H as [_ H]; discriminate
                  |intros [H _]; discriminate].
        -- intros r Hr. destruct (Hs r Hr) as (Hin & Hle1 & Hle2).
           split; [right; destruct Hin as [[= ->]|Hin]; [now left|now right]|].
           split.
           ++ intros a [= <-]. specialize (Hle1 x eq_refl). lia.
           ++ intros a [<-|Ha]; [apply Hle1; reflexivity|apply Hle2; exact Ha].
      * destruct (IH (Some (reportedDepth getJobCounts a0)) (Some a0)) as [Hn Hs];
          [right; eauto|].
        split.
        -- split; [intros H; apply Hn in H; destruct H as [_ H]; discriminate
                  |intros [H _]; discriminate].
        -- intros r Hr. destruct (Hs r Hr) as (Hin & Hle1 & Hle2).
           split; [destruct Hin as [Hin|Hin]; [now left|right; now right]|].
           split; [exact Hle1|].
           intros a [<-|Ha]; [specialize (Hle1 a0 eq_refl); lia|apply Hle2; exact Ha].
Qed.

(** X13: [findAlternativeAgent(task, excludeAgent)] never proposes the
    excluded role: it returns a role that has a queue, differs from the
    excluded one and has the least reported queue depth (waiting plus
    active jobs) among those; it returns nothing only when no other role
    has a queue. *)
Theorem findAlternativeAgent_least_loaded (excludeAgent : AgentPersona)
    (d : Dispatcher) :
  (findAlternativeAgent getJobCounts excludeAgent d = None <->
   forall a, In a (map fst (taskQueues d)) -> a = excludeAgent) /\
  forall r, findAlternativeAgent getJobCounts excludeAgent d = Some r ->
    r <> excludeAgent /\ In r (map fst (taskQueues d)) /\
    forall a, In a (map fst (taskQueues d)) -> a <> excludeAgent ->
      reportedDepth getJobCounts r <= reportedDepth getJobCounts a.
Proof.
  unfold findAlternativeAgent.
  set (others := List.filter _ _).
  assert (Hin : forall a, In a others <->
                  In a (map fst (taskQueues d)) /\ a <> excludeAgent).
  { intros a. unfold others. rewrite filter_In, negb_true_iff, bool_decide_eq_false.
    reflexivity. }
  destruct (leastLoaded_spec others None None) as [Hn Hs]; [now left|].
  split.
  - rewrite Hn. split.
    + intros [He _] a Ha.
      destruct (decide (a = excludeAgent)) as [|Hne]; [assumption|].
      assert (In a others) by (apply Hin; auto). rewrite He in H. destruct H.
    + intros H. split; [|reflexivity].
      destruct others as [|a l] eqn:E; [reflexivity|].
      assert (Ha : In a (a :: l)) by now left.
      apply Hin in Ha. destruct Ha as [Ha Hne]. elim Hne. apply H, Ha.
  - intros r Hr. destruct (Hs r Hr) as ([[=]|Hr'] & _ & Hle).
    apply Hin in Hr'. destruct Hr' as [Hk Hne].
    split; [exact Hne|]. split; [exact Hk|].
    intros a Ha Hna. apply Hle, Hin. auto.
Qed.
End JobCountsFacts.

Lemma persona_in_roster (a : AgentPersona) : In a personas.
Proof. destruct a; simpl; tauto. Qed.

Lemma roster_queue (a : AgentPersona) (d : Dispatcher) :
  map fst (taskQueues d) = personas -> exists q, map_get a (taskQueues d) = Some q.
Proof.
  intros H. destruct (map_get a (taskQueues d)) as [q|] eqn:E; [eauto|].
  exfalso. apply (map_get_None_notin _ _ E). rewrite H. apply persona_in_roster.
Qed.

Lemma dispatchTask_keys (t : Task) (d : Dispatcher) :
  map fst (taskQueues d) = personas ->
  map fst (taskQueues (snd (dispatchTask t d))) = personas.
Proof.
  intros H. unfold dispatchTask.
  destruct (getOrCreateQueue (assignedTo t) d) as [queue d1] eqn:Eg.
  destruct (roster_queue (assignedTo t) d H) as [q Hq].
  destruct (getOrCreateQueue_spec _ _ _ _ Eg) as (_ & _ & _ & Hd).
  rewrite (Hd q Hq). unfold queue_add. cbn [snd taskQueues].
  rewrite (map_set_keys_present _ _ _ q Hq). exact H.
Qed.

Lemma bulkFold_keys : forall gs ids d,
  map fst (taskQueues d) = personas ->
  map fst (taskQueues (snd (fold_left bulkStep gs (ids, d)))) = personas.
Proof.
  induction gs as [|[agent agentTasks] gs IH]; intros ids d H; [exact H|].
  cbn [fold_left].
  destruct (getOrCreateQueue agent d) as [queue d1] eqn:Eg.
  destruct (queue_addBulk agent agentTasks queue) as [results queue'] eqn:Eb.
  assert (Hstep : bulkStep (ids, d) (agent, agentTasks) =
                  (ids ++ map job_id results,
                   {| taskQueues := map_set agent queue' (taskQueues d1);
                      events := events d1 |}))
    by (unfold bulkStep; rewrite Eg, Eb; reflexivity).
  rewrite Hstep. apply IH. cbn [taskQueues].
  destruct (roster_queue agent d H) as [q Hq].
  destruct (getOrCreateQueue_spec _ _ _ _ Eg) as (_ & _ & _ & Hd).
  rewrite (Hd q Hq). rewrite (map_set_keys_present _ _ _ q Hq). exact H.
Qed.

(** X14: the service keeps one queue per role of the roster: once
    [initializeQueues] has run, [dispatchTask] and [bulkDispatch] find the
    queue of every role and neither add nor remove a queue. *)
Theorem queues_stay_one_per_role (d : Dispatcher) (t : Task) (ts : list Task) :
  map fst (taskQueues d) = personas ->
  fst (getOrCreateQueue (assignedTo t) d) = queueOf (assignedTo t) d /\
  snd (getOrCreateQueue (assignedTo t) d) = d /\
  map fst (taskQueues (snd (dispatchTask t d))) = personas /\
  map fst (taskQueues (snd (bulkDispatch ts d))) = personas.
Proof.
  intros H. destruct (roster_queue (assignedTo t) d H) as [q Hq].
  destruct (getOrCreateQueue (assignedTo t) d) as [queue d1] eqn:Eg.
  destruct (getOrCreateQueue_spec _ _ _ _ Eg) as (Hqueue & _ & _ & Hd).
  split; [exact Hqueue|]. split; [exact (Hd q Hq)|].
  split; [apply dispatchTask_keys; exact H|].
  unfold bulkDispatch. apply bulkFold_keys. exact H.
Qed.

Lemma queues_stay_one_per_role_witness :
  map fst (taskQueues newDispatcher) = personas /\
  map fst (taskQueues
             (snd (bulkDispatch [exampleTask "B1" HIGH; exampleTask "B2" LOW]
                     (snd (dispatchTask (exampleTask "T1" LOW) newDispatcher)))))
    = personas.
Proof.
  split; [reflexivity|].
  apply (queues_stay_one_per_role
           (snd (dispatchTask (exampleTask "T1" LOW) newDispatcher))
           (exampleTask "B1" HIGH) [exampleTask "B1" HIGH; exampleTask "B2" LOW]).
  apply (queues_stay_one_per_role newDispatcher (exampleTask "T1" LOW) []).
  reflexivity.
Defined.

Lemma dispatchTask_queue (a : AgentPersona) (t : Task) (d : Dispatcher) :
  exists jobs,
    waiting (queueOf a (snd (dispatchTask t d))) = waiting (queueOf a d) ++ jobs /\
    map job_data jobs = assignedToAgent a [t] /\ weighted jobs.
Proof.
  unfold dispatchTask.
  destruct (getOrCreateQueue (assignedTo t) d) as [queue d1] eqn:Eg.
  destruct (getOrCreateQueue_spec _ _ _ _ Eg) as (Hq & _ & Hsame & _).
  unfold queue_add. cbn [snd]. rewrite queueOf_set.
  unfold assignedToAgent. cbn [List.filter].
  destruct (decide (assignedTo t = a)) as [Heq|Hne].
  - rewrite bool_decide_eq_true_2 by assumption.
    eexists [_]. cbn [waiting]. rewrite Hq, Heq.
    split; [reflexivity|]. split; [reflexivity|].
    constructor; [reflexivity|constructor].
  - rewrite bool_decide_eq_false_2 by assumption.
    exists []. rewrite app_nil_r, Hsame. repeat split. constructor.
Qed.

Lemma dispatchAll_queue (a : AgentPersona) : forall ts d,
  exists jobs,
    waiting (queueOf a (dispatchAll ts d)) = waiting (queueOf a d) ++ jobs /\
    map job_data jobs = assignedToAgent a ts /\ weighted jobs.
Proof.
  induction ts as [|t ts IH]; intros d.
  - exists []. simpl. rewrite app_nil_r. repeat split. constructor.
  - cbn [dispatchAll fold_left].
    change (fold_left _ ts ?x) with (dispatchAll ts x).
    destruct (dispatchTask_queue a t d) as (j1 & Hw1 & Hd1 & Hp1).
    destruct (IH (snd (dispatchTask t d))) as (j2 & Hw2 & Hd2 & Hp2).
    exists (j1 ++ j2). rewrite Hw2, Hw1, <- app_assoc.
    split; [reflexivity|]. split; [|apply Forall_app; split; assumption].
    rewrite map_app, Hd1, Hd2. unfold assignedToAgent. simpl.
    destruct (bool_decide (assignedTo t = a)); reflexivity.
Qed.

Lemma pickNext_perm (js : list Job) j rest :
  pickNext js = Some (j, rest) -> Permutation js (j :: rest).
Proof.
  revert j rest. induction js as [|a js IH]; simpl; intros j rest H; [discriminate|].
  destruct (pickNext js) as [[j' rest']|] eqn:E.
  - destruct (opt_priority (job_opts a) <=? opt_priority (job_opts j'))%Z;
      inversion H; subst; clear H; [reflexivity|].
    rewrite (IH _ _ eq_refl). apply perm_swap.
  - inversion H; subst. destruct js as [|b js]; [reflexivity|].
    simpl in E. destruct (pickNext js) as [[? ?]|];
      [destruct (_ <=? _)%Z|]; discriminate.
Qed.

Lemma pickNext_none (js : list Job) : pickNext js = None -> js = [].
Proof.
  destruct js as [|a js]; [reflexivity|]. simpl.
  destruct (pickNext js) as [[? ?]|]; [destruct (_ <=? _)%Z|]; discriminate.
Qed.

Lemma runWorker_perm agent : forall fuel js,
  length js <= fuel -> Permutation (runWorker fuel agent js) js.
Proof.
  induction fuel as [|fuel IH]; intros js Hl.
  - destruct js; [reflexivity|simpl in Hl; lia].
  - cbn [runWorker]. destruct (pickNext js) as [[j rest]|] eqn:E.
    + pose proof (pickNext_perm _ _ _ E) as Hp.
      rewrite Hp. constructor. apply IH.
      apply Permutation_length in Hp. simpl in Hp. lia.
    + rewrite (pickNext_none _ E). reflexivity.
Qed.

Lemma Forall_perm_weighted l l' : Permutation l l' -> weighted l' -> weighted l.
Proof.
  unfold weighted. intros Hp H. rewrite List.Forall_forall in *.
  intros x Hx. apply H. eapply Permutation_in; eassumption.
Qed.

Lemma sorted_by_rank (run : list Job) :
  weighted run ->
  StronglySorted
    (fun a b => (opt_priority (job_opts a) <= opt_priority (job_opts b))%Z) run ->
  StronglySorted lowerRank (map job_data run).
Proof.
  induction run as [|j run IH]; intros Hw Hs; [constructor|].
  inversion Hw as [|? ? Hj Hw']; subst. inversion Hs as [|? ? Hs' Hall]; subst.
  simpl. constructor; [apply IH; assumption|].
  apply List.Forall_forall. intros t Ht.
  apply in_map_iff in Ht. destruct Ht as (j' & <- & Hin).
  pose proof (proj1 (List.Forall_forall _ _) Hw' j' Hin) as Hj'.
  pose proof (proj1 (List.Forall_forall _ _) Hall j' Hin) as Hle.
  cbv beta in Hj', Hle. rewrite Hj, Hj' in Hle.
  unfold lowerRank. apply weight_follows_rank. exact Hle.
Qed.

(** X15: for tasks that are all in the queue before the worker of their
    role takes the first of them (for instance dispatched with
    [dispatchTask] while the queue is paused with [pauseAgent]).  The
    tasks waiting in the queue of a role are exactly the dispatched tasks
    assigned to that role, each once, and the worker takes them in
    ascending order of priority: no task is taken before a task of lower
    priority that waits in the same queue (LOW first, CRITICAL last).  A
    task that reaches an idle worker is taken as it arrives and is no part
    of this statement. *)
Theorem worker_takes_lowest_priority_first (tasks : list Task)
    (agent : AgentPersona) :
  let q := queueOf agent (dispatchAll tasks newDispatcher) in
  let run := runWorker (length (waiting q)) agent (waiting q) in
  Permutation (map job_data run) (assignedToAgent agent tasks) /\
  StronglySorted lowerRank (map job_data run).
Proof.
  cbv zeta.
  destruct (dispatchAll_queue agent tasks newDispatcher) as (jobs & Hw & Hd & Hp).
  assert (H0 : waiting (queueOf agent newDispatcher) = []).
  { destruct agent; reflexivity. }
  rewrite H0 in Hw. simpl in Hw. rewrite Hw.
  pose proof (runWorker_perm agent (length jobs) jobs (Nat.le_refl _)) as Hperm.
  split.
  - rewrite <- Hd. apply Permutation_map. exact Hperm.
  - apply sorted_by_rank.
    + eapply Forall_perm_weighted; eassumption.
    + apply runWorker_ascending.
Qed.

End TaskDispatcherMore.

Section StateManagerMore.
Import StateManager.

Ltac lookup_fresh :=
  repeat first [rewrite lookup_insert_eq | rewrite lookup_insert_ne by lia].

Lemma AgentValue_eta (v : AgentValue) :
  {| v_persona := v_persona v; v_state := v_state v; v_shortTerm := v_shortTerm v;
     v_longTerm := v_longTerm v; v_currentTasks := v_currentTasks v;
     v_metrics := v_metrics v; v_lastUpdated := v_lastUpdated v |} = v.
Proof. destruct v; reflexivity. Qed.

Lemma parseEntries_reads : forall vs m es m',
  domBelow m -> parseEntries vs m = (es, m') ->
  readEntries (cells m') es = Some vs /\ extends m m' /\ domBelow m'.
Proof.
  induction vs as [|[k v] vs IH]; intros m es m' Hd; cbn [parseEntries].
  - intros [= <- <-]. split; [reflexivity|]. split; [apply extends_refl|exact Hd].
  - destruct (allocAgent_spec (next m) (v_persona v) (v_state v) (v_shortTerm v)
                (v_longTerm v) (v_currentTasks v) (v_metrics v) (v_lastUpdated v) m
                (Nat.le_refl _))
      as ((_ & He1 & _) & _ & _ & a & Hg & _ & _ & _ & Hr).
    destruct (allocAgent _ _ _ _ _ _ _ m) as [l m1]. cbn [fst snd] in *.
    rewrite AgentValue_eta in Hr.
    pose proof (extends_domBelow _ _ He1 Hd) as Hd1.
    destruct (parseEntries vs m1) as [es1 m2] eqn:Ep.
    destruct (IH _ _ _ Hd1 Ep) as (Hr2 & He2 & Hd2).
    intros [= <- <-]. split; [|split; [eapply extends_trans; eassumption|exact Hd2]].
    simpl. rewrite (getAgent_extends _ _ _ _ He2 Hd1 Hg),
      (readAgentValue_extends _ _ _ _ He2 Hd1 Hr), Hr2. reflexivity.
Qed.

Lemma readEntries_cons_inv h k l es vs :
  readEntries h ((k, l) :: es) = Some vs ->
  exists a v vs', getAgent h l = Some a /\ readAgentValue h a = Some v /\
    readEntries h es = Some vs' /\ vs = (k, v) :: vs'.
Proof.
  simpl. destruct (getAgent h l) as [a|] eqn:Ea; [|discriminate].
  destruct (readAgentValue h a) as [v|] eqn:Ev; [|discriminate].
  destruct (readEntries h es) as [vs'|] eqn:Er; [|discriminate].
  intros [= <-]. exists a, v, vs'. auto.
Qed.

Lemma readEntries_map_set h k l a v : forall es vs,
  getAgent h l = Some a -> readAgentValue h a = Some v ->
  readEntries h es = Some vs ->
  readEntries h (map_set k l es) = Some (map_set k v vs).
Proof.
  induction es as [|[k0 l0] es IH]; intros vs Ha Hv H.
  - injection H as <-. simpl. rewrite Ha, Hv. reflexivity.
  - destruct (readEntries_cons_inv _ _ _ _ _ H) as (a0 & v0 & vs' & Ha0 & Hv0 & Hes & ->).
    simpl. destruct (decide (k = k0)) as [->|Hne]; simpl.
    + rewrite Ha, Hv, Hes. reflexivity.
    + rewrite Ha0, Hv0, (IH vs' Ha Hv Hes). reflexivity.
Qed.

Lemma readEntries_map_of_entries h es vs :
  readEntries h es = Some vs ->
  readEntries h (map_of_entries es) = Some (map_of_entries vs).
Proof.
  unfold map_of_entries.
  assert (G : forall es vs acc accv,
            readEntries h acc = Some accv -> readEntries h es = Some vs ->
            readEntries h (fold_left (fun m e => map_set (fst e) (snd e) m) es acc) =
            Some (fold_left (fun m e => map_set (fst e) (snd e) m) vs accv)).
  { clear. induction es as [|[k l] es IH]; intros vs acc accv Hacc H.
    - injection H as <-. exact Hacc.
    - destruct (readEntries_cons_inv _ _ _ _ _ H) as (a & v & vs' & Ha & Hv & Hes & ->).
      cbn [fold_left fst snd]. apply IH; [|exact Hes].
      apply (readEntries_map_set h k l a v); assumption. }
  intros H. apply G; [reflexivity|exact H].
Qed.

Lemma deserializeState_reads v m l m' :
  domBelow m -> deserializeState v m = (l, m') ->
  readStateValue (cells m') l = Some (deserialized v) /\
  extends m m' /\ domBelow m'.
Proof.
  intros Hd. unfold deserializeState.
  destruct (parseEntries (v_agents v) m) as [es m1] eqn:Ep.
  destruct (parseEntries_reads _ _ _ _ Hd Ep) as (Hr & He1 & Hd1).
  unfold alloc. cbn [fst snd cells next]. intros [= <- <-].
  set (m3 := {| cells := _; next := _; bare := _ |}).
  assert (He3 : extends m1 m3).
  { eapply extends_trans; [apply (extends_alloc (ORecord (v_globalContext v)))|].
    eapply extends_trans; [apply (extends_alloc (OMap (map_of_entries es)))|].
    apply (extends_alloc (OState {| state_id := v_id v; phase := v_phase v;
             agents := S (next m1); globalContext := next m1;
             timestamp := SDate (stamp_ms (v_timestamp v)) |})). }
  split; [|split; [eapply extends_trans; eassumption
                  |eapply extends_domBelow; eassumption]].
  unfold readStateValue, getState, getMap, getRecord. subst m3. cbn [cells].
  lookup_fresh. cbn [agents globalContext]. lookup_fresh.
  change (readEntries ?h (map_of_entries es)) with
    (readEntries (cells {| cells := h; next := S (S (S (next m1))); bare := ∅ |})
       (map_of_entries es)).
  rewrite (readEntries_map_of_entries _ es (v_agents v)); [reflexivity|].
  exact (readEntries_extends _ _ _ _ He3 Hd1 Hr).
Qed.

Lemma deserialized_json v :
  List.NoDup (map fst (v_agents v)) -> deserialized (jsonState v) = reloaded v.
Proof.
  intros Hnd. unfold deserialized, reloaded.
  rewrite map_of_entries_nodup by (rewrite jsonState_keys; exact Hnd).
  reflexivity.
Qed.

Lemma loadState_value s v :
  domBelow (mem s) -> currentDoc (redis s) = Some v ->
  liveValue (loadState s) = Some (deserialized v) /\ domBelow (mem (loadState s)).
Proof.
  intros Hd Hc. unfold loadState. rewrite Hc.
  destruct (deserializeState v (mem s)) as [l m1] eqn:E.
  destruct (deserializeState_reads _ _ _ _ Hd E) as (Hr & _ & Hd1).
  split; [exact Hr|exact Hd1].
Qed.



Lemma restoreSnapshot_found i sv s :
  domBelow (mem s) -> snapshotDocs (redis s) !! i = Some sv ->
  exists s',
    restoreSnapshot i s = Ok tt s' /\
    liveValue s' = Some (deserialized (sv_state sv)) /\
    stateHistory s' = stateHistory s /\
    currentDoc (redis s') = Some (jsonState (deserialized (sv_state sv))) /\
    snapshotDocs (redis s') = snapshotDocs (redis s) /\
    domBelow (mem s').
Proof.
  intros Hd Hi. unfold restoreSnapshot. rewrite Hi.
  destruct (deserializeState (sv_state sv) (mem s)) as [l0 m1] eqn:E.
  destruct (deserializeState_reads _ _ _ _ Hd E) as (Hr & _ & Hd1).
  destruct (deepCloneState_total l0 m1 _ Hd1 Hr) as (l & m2 & Hc & Hr2).
  { apply map_of_entries_keys_nodup. }
  rewrite Hc.
  destruct (deepCloneState_spec _ _ _ _ _ (Nat.le_refl _) Hc) as ((_ & He & _) & _).
  set (s1 := setCurrent l (setMem m2 s)).
  assert (Hs : saveState s1 =
               setRedis {| currentDoc := Some (jsonState (deserialized (sv_state sv)));
                           agentDocs := agentDocs (redis s1);
                           contextDoc := contextDoc (redis s1);
                           snapshotDocs := snapshotDocs (redis s1) |} s1).
  { unfold saveState. subst s1. cbn [setCurrent setMem mem currentState].
    rewrite Hr2. reflexivity. }
  rewrite Hs. eexists. split; [reflexivity|].
  subst s1. cbn [emit setRedis setCurrent setMem mem currentState stateHistory
                 redis currentDoc snapshotDocs].
  unfold liveValue. cbn [mem currentState].
  split; [exact Hr2|]. split; [reflexivity|]. split; [reflexivity|].
  split; [reflexivity|]. eapply extends_domBelow; eassumption.
Qed.

(** X17: [restoreSnapshot(id)] looks the snapshot up in Redis only.
    When no document is stored under the id (it was never written, or
    its key has expired) the call throws "Snapshot not found" and leaves
    the store as it was, even if the snapshot is still in the history
    kept in memory.  When the document is there the call returns: the
    live state is the stored state rebuilt in new objects, it is saved
    as the current state in Redis, and the history is not changed. *)
Theorem restoreSnapshot_reads_redis_only (i : string) (s : Store) :
  domBelow (mem s) ->
  match snapshotDocs (redis s) !! i with
  | None => restoreSnapshot i s = Throw ("Snapshot not found: " +:+ i) s
  | Some sv =>
      exists s',
        restoreSnapshot i s = Ok tt s' /\
        liveValue s' = Some (deserialized (sv_state sv)) /\
        stateHistory s' = stateHistory s /\
        currentDoc (redis s') = Some (jsonState (deserialized (sv_state sv)))
  end.
Proof.
  intros Hd. destruct (snapshotDocs (redis s) !! i) as [sv|] eqn:Hi.
  - destruct (restoreSnapshot_found i sv s Hd Hi) as (s' & H1 & H2 & H3 & H4 & _).
    exists s'. auto.
  - unfold restoreSnapshot. rewrite Hi. reflexivity.
Qed.

Lemma restoreSnapshot_reads_redis_only_witness :
  let s1 := storeOf (createSnapshot "manual" 1 initialStore) in
  let s2 := expireSnapshot "uuid-1" s1 in
  map snap_id (stateHistory s2) = ["uuid-1"] /\
  isReturn (restoreSnapshot "uuid-1" s1) = true /\
  restoreSnapshot "uuid-1" s2 = Throw "Snapshot not found: uuid-1" s2.
Proof.
  cbv zeta. split; [vm_compute; reflexivity|]. split; [vm_compute; reflexivity|].
  assert (Hd : domBelow (mem (storeOf (createSnapshot "manual" 1 initialStore)))).
  { destruct (createSnapshot_keeps "manual" 1 initialStore
                (newStore_typed emptyRedis 0)) as [[[Hd _] _] _].
    exact Hd. }
  generalize dependent (storeOf (createSnapshot "manual" 1 initialStore)).
  intros s1 Hd.
  pose proof (restoreSnapshot_reads_redis_only "uuid-1" (expireSnapshot "uuid-1" s1) Hd)
    as H.
  unfold expireSnapshot in H at 1. cbn [setRedis redis snapshotDocs] in H.
  rewrite lookup_delete_eq in H. exact H.
Defined.

Lemma createSnapshot_stores why now s v :
  domBelow (mem s) -> liveValue s = Some v -> List.NoDup (map fst (v_agents v)) ->
  exists s',
    createSnapshot why now s = Ok (uuidv4 (uuidSeed s)) s' /\
    snapshotDocs (redis s') !! uuidv4 (uuidSeed s) =
      Some {| sv_id := uuidv4 (uuidSeed s); sv_state := jsonState v;
              sv_createdAt := now; sv_reason := why |} /\
    domBelow (mem s') /\ liveValue s' = Some v.
Proof.
  intros Hd Hv Hnd. unfold createSnapshot.
  cbn [nextUuid mem currentState stateHistory].
  destruct (deepCloneState_total _ _ _ Hd Hv Hnd) as (l' & m' & Hc & Hr).
  destruct (deepCloneState_spec _ _ _ _ _ (Nat.le_refl _) Hc) as ((_ & He & _) & _).
  rewrite Hc. cbn [setHistory setMem mem]. rewrite Hr.
  eexists. split; [reflexivity|].
  cbn [setRedis setHistory setMem nextUuid redis snapshotDocs mem currentState uuidSeed].
  split; [apply lookup_insert_eq|].
  split; [eapply extends_domBelow; eassumption|].
  unfold liveValue. cbn [mem currentState].
  eapply readStateValue_extends; eassumption.
Qed.

Lemma saveState_redis s :
  snapshotDocs (redis (saveState s)) = snapshotDocs (redis s).
Proof. unfold saveState. destruct (readStateValue _ _); reflexivity. Qed.

Lemma restoreSnapshot_redis i s :
  snapshotDocs (redis (storeOf (restoreSnapshot i s))) = snapshotDocs (redis s).
Proof.
  unfold restoreSnapshot. destruct (snapshotDocs (redis s) !! i) as [sv|]; [|reflexivity].
  destruct (deserializeState (sv_state sv) (mem s)) as [l0 m1].
  destruct (deepCloneState l0 m1) as [[l m2]|]; [|reflexivity].
  cbn [storeOf emit redis]. rewrite saveState_redis. reflexivity.
Qed.

Lemma loadState_redis s : redis (loadState s) = redis s.
Proof.
  unfold loadState. destruct (currentDoc (redis s)) as [v|]; [|reflexivity].
  destruct (deserializeState v (mem s)) as [l m1]. reflexivity.
Qed.

Lemma applyOp_keeps_snapshots o s :
  keepsSnapshots o = true ->
  snapshotDocs (redis (applyOp o s)) = snapshotDocs (redis s).
Proof.
  destruct o; cbn [keepsSnapshots applyOp]; intros H; try discriminate H.
  - apply (updateAgentState_redis p updates now s).
  - apply (updateAgentMemory_redis p t key value now s).
  - apply (clearShortTermMemory_redis p now s).
  - apply (updateGlobalContext_redis key value s).
  - apply restoreSnapshot_redis.
  - rewrite getSystemState_redis. reflexivity.
  - apply saveState_redis.
  - rewrite loadState_redis. reflexivity.
Qed.

Lemma applyOps_keeps_snapshots ops : forall s,
  Forall (fun o => keepsSnapshots o = true) ops ->
  snapshotDocs (redis (applyOps ops s)) = snapshotDocs (redis s).
Proof.
  induction ops as [|o ops IH]; intros s H; [reflexivity|].
  inversion H as [|? ? Ho Hrest]; subst. simpl.
  rewrite (IH _ Hrest). apply applyOp_keeps_snapshots. exact Ho.
Qed.

Lemma applyOps_domBelow ops s : domBelow (mem s) -> domBelow (mem (applyOps ops s)).
Proof.
  intros Hd.
  destruct (applyOps_changes anyLoc ops s (goodFor_any s Hd)) as [_ (Hd' & _)].
  - apply List.Forall_forall. intros o _. apply List.Forall_forall. intros; exact I.
  - exact Hd'.
Qed.



Lemma getAgentMemory_inv p t s l s1 :
  getAgentMemory p t s = Ok l s1 ->
  exists r, l = next (mem s) /\ s1 = setMem (snd (alloc (ORecord r) (mem s))) s /\
    (getAgentState p s = None -> r = ∅) /\
    (forall la a ls ll,
       getAgentState p s = Some la -> getAgent (cells (mem s)) la = Some a ->
       getMemory (cells (mem s)) (memory a) = Some (ls, ll) ->
       getRecord (cells (mem s)) (match t with shortTerm => ls | longTerm => ll end)
         = Some r).
Proof.
  unfold getAgentMemory, getAgentState.
  destruct (liveAgents s) as [[lmap es]|]; [|discriminate].
  destruct (map_get p es) as [la|].
  - destruct (getAgent _ la) as [a|] eqn:Ea; [|discriminate].
    destruct (getMemory _ _) as [[ls ll]|] eqn:Em; [|discriminate].
    destruct (getRecord _ _) as [r|] eqn:Er; [|discriminate].
    unfold alloc. intros [= <- <-]. exists r. split; [reflexivity|].
    split; [reflexivity|]. split; [discriminate|].
    intros la' a' ls' ll' [= <-] Ha' Hm'.
    rewrite Ea in Ha'. injection Ha' as <-.
    rewrite Em in Hm'. injection Hm' as <- <-. exact Er.
  - unfold alloc. intros [= <- <-]. exists ∅. split; [reflexivity|].
    split; [reflexivity|]. split; [reflexivity|]. intros; discriminate.
Qed.

(** X19: unlike [getSystemState], [getAgentMemory] hands out a copy: the
    record it returns holds the entries the memory of the persona had at
    the call (no entries when the persona has no state) and no later call
    on the store changes it, as long as the caller does not hand the
    record back to the store. *)
Theorem getAgentMemory_returns_isolated_copy (p : AgentPersona) (t : MemoryType)
    (s s1 : Store) (l : loc) (ops : list Op) :
  wfStore s ->
  getAgentMemory p t s = Ok l s1 ->
  Forall (fun o => Forall (fun r => r <> l) (opRefs o)) ops ->
  exists r,
    seenRecord s1 l = Some r /\
    seenRecord (applyOps ops s1) l = Some r /\
    (getAgentState p s = None -> r = ∅) /\
    (forall la a ls ll,
       getAgentState p s = Some la -> getAgent (cells (mem s)) la = Some a ->
       getMemory (cells (mem s)) (memory a) = Some (ls, ll) ->
       getRecord (cells (mem s)) (match t with shortTerm => ls | longTerm => ll end)
         = Some r).
Proof.
  intros (Hd & Hrb & Hcs) Hget Hops.
  destruct (getAgentMemory_inv _ _ _ _ _ Hget) as (r & -> & -> & Hnone & Hsome).
  exists r.
  assert (H1 : seenRecord (setMem (snd (alloc (ORecord r) (mem s))) s) (next (mem s))
               = Some r).
  { unfold seenRecord, getRecord, alloc. cbn [setMem mem snd cells].
    rewrite lookup_insert_eq. reflexivity. }
  split; [exact H1|]. split; [|split; assumption].
  set (s1 := setMem (snd (alloc (ORecord r) (mem s))) s) in *.
  set (P := fun x : loc => x <> next (mem s)).
  assert (Hg : goodFor P s1).
  { split; [|split; [|split]].
    - apply (extends_domBelow (mem s)); [apply extends_alloc|exact Hd].
    - intros x o Hx Hlook. subst s1. unfold alloc in Hlook.
      cbn [setMem mem snd cells] in Hlook.
      rewrite lookup_insert_ne in Hlook by (unfold P in Hx; congruence).
      eapply Forall_impl; [exact (Hrb x o Hlook)|]. intros y Hy. unfold P.
      cbv beta in Hy. lia.
    - unfold P. subst s1. cbn [setMem currentState]. intros Heq. rewrite Heq in Hcs. lia.
    - intros x Hx. unfold P. subst s1. unfold alloc in Hx.
      cbn [setMem mem snd next] in Hx. lia. }
  destruct (applyOps_changes P ops s1 Hg Hops) as [(_ & Hframe & _) _].
  unfold seenRecord, getRecord in *. rewrite Hframe; [exact H1|].
  unfold P. intros Hne. apply Hne. reflexivity.
Qed.

Lemma getAgentMemory_returns_isolated_copy_witness :
  let s := applyOp (UpdateAgentMemory qa_engineer shortTerm "note" (JStr "x") 8)
                   initialStore in
  let res := getAgentMemory qa_engineer shortTerm s in
  isReturn res = true /\
  seenRecord (storeOf res) (returned res) = Some (<["note" := JStr "x"]> ∅) /\
  seenRecord (applyOps exampleCalls (storeOf res)) (returned res)
    = Some (<["note" := JStr "x"]> ∅) /\
  seenShortTerm (applyOps exampleCalls (storeOf res)) (currentState s)
                qa_engineer "note" = None.
Proof.
  assert (Hwf : wfStore (applyOp (UpdateAgentMemory qa_engineer shortTerm "note"
                                    (JStr "x") 8) initialStore)).
  { apply typedStore_wf. apply applyOp_typed; [apply newStore_typed|exact I]. }
  intros s res. fold s in Hwf.
  assert (E : res = Ok (returned res) (storeOf res)) by (vm_compute; reflexivity).
  destruct (getAgentMemory_returns_isolated_copy qa_engineer shortTerm s
              (storeOf res) (returned res) exampleCalls Hwf E)
    as (r & H1 & H2 & _ & _).
  { repeat constructor. }
  assert (Hr : seenRecord (storeOf res) (returned res)
               = Some (<["note" := JStr "x"]> ∅)) by (vm_compute; reflexivity).
  split; [vm_compute; reflexivity|]. split; [exact Hr|].
  split; [rewrite H2, <- H1; exact Hr|vm_compute; reflexivity].
Defined.

Lemma memoryRead_present p t s lmap es la a ls ll r :
  liveAgents s = Some (lmap, es) -> map_get p es = Some la ->
  getAgent (cells (mem s)) la = Some a ->
  getMemory (cells (mem s)) (memory a) = Some (ls, ll) ->
  getRecord (cells (mem s)) (match t with shortTerm => ls | longTerm => ll end)
    = Some r ->
  memoryRead p t s = Some r.
Proof.
  intros El Ep Ea Em Er. unfold memoryRead, getAgentMemory.
  rewrite El, Ep, Ea, Em, Er. unfold alloc. cbn [setMem mem cells].
  unfold getRecord. rewrite lookup_insert_eq. reflexivity.
Qed.

Lemma memoryRead_absent p t s lmap es :
  liveAgents s = Some (lmap, es) -> map_get p es = None ->
  memoryRead p t s = Some ∅.
Proof.
  intros El Ep. unfold memoryRead, getAgentMemory.
  rewrite El, Ep. unfold alloc. cbn [setMem mem cells].
  unfold getRecord. rewrite lookup_insert_eq. reflexivity.
Qed.

Lemma liveAgents_intro s st es :
  cells (mem s) !! currentState s = Some (OState st) ->
  cells (mem s) !! agents st = Some (OMap es) ->
  liveAgents s = Some (agents st, es).
Proof.
  intros H1 H2. unfold liveAgents, getState, getMap. rewrite H1, H2. reflexivity.
Qed.



(** X21: [clearShortTermMemory] empties the short-term memory and nothing
    else of the agent: when it returns, [getAgentMemory] gives an empty
    short-term record and the long-term record it gave before, and the
    agent document in Redis has an empty short-term record; for a persona
    without state the call returns and leaves the store as it was. *)
Theorem clearShortTermMemory_clears (p : AgentPersona) (now : Z) (s s1 : Store) :
  wfStore s ->
  clearShortTermMemory p now s = Ok tt s1 ->
  memoryRead p shortTerm s1 = Some ∅ /\
  memoryRead p longTerm s1 = memoryRead p longTerm s /\
  (getAgentState p s = None -> s1 = s) /\
  (forall la, getAgentState p s = Some la ->
     exists a, map_get p (agentDocs (redis s1)) = Some a /\ v_shortTerm a = ∅).
Proof.
  intros (Hd & Hrb & _). unfold clearShortTermMemory, getAgentState.
  destruct (liveAgents s) as [[lmap es]|] eqn:El; [|discriminate].
  destruct (map_get p es) as [la|] eqn:Ep.
  2:{ intros [= <-]. split; [exact (memoryRead_absent _ _ _ _ _ El Ep)|].
      split; [reflexivity|]. split; [reflexivity|]. intros; discriminate. }
  destruct (getAgent _ la) as [a|] eqn:Ea; [|discriminate].
  destruct (getMemory _ _) as [[ls ll]|] eqn:Em; [|discriminate].
  unfold alloc, persistAgentState. cbn [setMem mem].
  set (a' := {| persona := persona a; state := state a; memory := memory a;
                currentTasks := currentTasks a; metrics := metrics a;
                lastUpdated := SDate now |}).
  set (n := next (mem s)).
  set (m3 := write la (OAgent a')
               (write (memory a) (OMemory n ll)
                  {| cells := <[n := ORecord ∅]> (cells (mem s)); next := S n;
                     bare := bare (mem s) ∖ {[n]} |})).
  destruct (readAgentValue (cells m3) a') as [av|] eqn:Erv; [|discriminate].
  intros [= <-].
  destruct (liveAgents_inv _ _ _ El) as (st & Hst & <- & Hmap).
  apply getState_lookup in Hst. apply getMap_lookup in Hmap.
  pose proof (getAgent_lookup _ _ _ Ea) as Hla.
  pose proof (getMemory_lookup _ _ _ _ Em) as Hmem.
  assert (Hn : cells (mem s) !! n = None) by (apply Hd; subst n; lia).
  assert (Hll : ll < n).
  { pose proof (Hrb _ _ Hmem) as Hf. cbn [refs] in Hf.
    inversion Hf as [|? ? _ Hf']; subst. inversion Hf'; subst. assumption. }
  assert (L3 : forall l, l <> la -> l <> memory a -> l <> n ->
                 cells m3 !! l = cells (mem s) !! l).
  { intros l H1 H2 H3. subst m3. unfold write. cbn [cells].
    rewrite !lookup_insert_ne by congruence. reflexivity. }
  assert (Hmla : memory a <> la) by (intros E; rewrite E in Hmem; congruence).
  assert (Lla : cells m3 !! la = Some (OAgent a')).
  { subst m3. unfold write. cbn [cells]. apply lookup_insert_eq. }
  assert (Lmem : cells m3 !! memory a = Some (OMemory n ll)).
  { subst m3. unfold write. cbn [cells]. rewrite lookup_insert_ne by congruence.
    apply lookup_insert_eq. }
  assert (Ln : cells m3 !! n = Some (ORecord ∅)).
  { subst m3. unfold write. cbn [cells].
    rewrite !lookup_insert_ne by (intros E; rewrite E in *; congruence).
    apply lookup_insert_eq. }
  destruct (readAgentValue_inv _ _ _ Erv)
    as (ls' & ll' & sh & lg & ts & me & Hm' & Hsh & Hlg & _ & _ & ->).
  subst a'. cbn [memory] in Hm'. unfold getMemory in Hm'. rewrite Lmem in Hm'.
  injection Hm' as <- <-.
  set (a' := {| persona := persona a; state := state a; memory := memory a;
                currentTasks := currentTasks a; metrics := metrics a;
                lastUpdated := SDate now |}) in *.
  assert (Hlive : forall rd,
            liveAgents (setRedis rd (setMem m3 s)) = Some (agents st, es)).
  { intros rd. apply liveAgents_intro; cbn [setRedis setMem mem currentState].
    - rewrite L3; [exact Hst| | |]; intros E; rewrite E in Hst; congruence.
    - rewrite L3; [exact Hmap| | |]; intros E; rewrite E in Hmap; congruence. }
  assert (Hag : forall rd,
            getAgent (cells (mem (setRedis rd (setMem m3 s)))) la = Some a').
  { intros rd. cbn [setRedis setMem mem]. unfold getAgent. rewrite Lla. reflexivity. }
  assert (Hme : forall rd,
            getMemory (cells (mem (setRedis rd (setMem m3 s)))) (memory a')
              = Some (n, ll)).
  { intros rd. cbn [setRedis setMem mem]. subst a'. cbn [memory]. unfold getMemory.
    rewrite Lmem. reflexivity. }
  split; [|split; [|split]].
  - eapply (memoryRead_present p shortTerm _ _ es la a' n ll);
      [apply Hlive|exact Ep|apply Hag|apply Hme|].
    cbn [setRedis setMem mem]. unfold getRecord. rewrite Ln. reflexivity.
  - assert (Hlg0 : getRecord (cells (mem s)) ll = Some lg).
    { assert (E3 : cells m3 !! ll = cells (mem s) !! ll).
      { apply getRecord_lookup in Hlg. apply L3.
        - intros E; rewrite E in Hlg; congruence.
        - intros E; rewrite E in Hlg; congruence.
        - lia. }
      unfold getRecord in *. rewrite <- E3. exact Hlg. }
    rewrite (memoryRead_present p longTerm s _ es la a ls ll lg El Ep Ea Em Hlg0).
    eapply (memoryRead_present p longTerm _ _ es la a' n ll);
      [apply Hlive|exact Ep|apply Hag|apply Hme|].
    cbn [setRedis setMem mem]. exact Hlg.
  - discriminate.
  - intros la' _. eexists. split.
    + cbn [setRedis redis agentDocs]. apply map_get_set_eq.
    + unfold jsonAgent. cbn [v_shortTerm]. unfold getRecord in Hsh.
      rewrite Ln in Hsh. congruence.
Qed.

Lemma clearShortTermMemory_clears_witness :
  let s := applyOp (UpdateAgentMemory qa_engineer shortTerm "note" (JStr "x") 8)
             (applyOp (UpdateAgentMemory qa_engineer longTerm "style" (JStr "terse") 4)
                initialStore) in
  exists s1,
    clearShortTermMemory qa_engineer 9 s = Ok tt s1 /\
    memoryRead qa_engineer shortTerm s = Some (<["note" := JStr "x"]> ∅) /\
    memoryRead qa_engineer shortTerm s1 = Some ∅ /\
    memoryRead qa_engineer longTerm s1 = Some (<["style" := JStr "terse"]> ∅).
Proof.
  assert (Hwf : wfStore
    (applyOp (UpdateAgentMemory qa_engineer shortTerm "note" (JStr "x") 8)
       (applyOp (UpdateAgentMemory qa_engineer longTerm "style" (JStr "terse") 4)
          initialStore))).
  { apply typedStore_wf. apply applyOp_typed; [|exact I].
    apply applyOp_typed; [apply newStore_typed|exact I]. }
  intros s. fold s in Hwf.
  assert (H0 : memoryRead qa_engineer shortTerm s = Some (<["note" := JStr "x"]> ∅))
    by (vm_compute; reflexivity).
  assert (H1 : memoryRead qa_engineer longTerm s = Some (<["style" := JStr "terse"]> ∅))
    by (vm_compute; reflexivity).
  destruct (clearShortTermMemory qa_engineer 9 s) as [[] s1|e s1] eqn:E;
    [|vm_compute in E; discriminate].
  destruct (clearShortTermMemory_clears _ _ _ _ Hwf E) as (H2 & H3 & _ & _).
  exists s1. split; [reflexivity|]. split; [exact H0|]. split; [exact H2|].
  rewrite H3. exact H1.
Defined.

Lemma personas_complete (p : AgentPersona) : In p personas.
Proof. destruct p; simpl; auto 10. Qed.

Lemma getSystemState_typed_returns s :
  typedStore s -> thrown (getSystemState s) = None.
Proof.
  intros [_ Hc]. unfold getSystemState.
  destruct (kindAt_state _ _ Hc) as [st ->]. reflexivity.
Qed.

Lemma updateGlobalContext_typed_returns key value s :
  typedStore s -> thrown (updateGlobalContext key value s) = None.
Proof.
  intros [H0 Hc]. unfold updateGlobalContext.
  destruct (kindAt_state _ _ Hc) as [st Est]. rewrite Est.
  destruct (proj2 H0 _ _ (getState_lookup _ _ _ Est)) as [_ Hg].
  destruct (kindAt_record _ _ Hg) as [gc ->]. reflexivity.
Qed.

Lemma createSnapshot_typed_returns why now s :
  typedStore s -> thrown (createSnapshot why now s) = None.
Proof.
  intros Hs. destruct (typedStore_reads s Hs) as (v & Hv & Hnd).
  destruct (typedStore_wf s Hs) as (Hd & _).
  destruct (createSnapshot_returns why now s v Hd Hv Hnd) as (s' & sn & -> & _).
  reflexivity.
Qed.

Lemma setPhase_typed_returns ph now s :
  typedStore s -> thrown (setPhase ph now s) = None.
Proof.
  intros Hs. pose proof Hs as [H0 Hc]. unfold setPhase.
  destruct (kindAt_state _ _ Hc) as [st Est]. rewrite Est.
  destruct (proj2 H0 _ _ (getState_lookup _ _ _ Est)) as [Ha Hg].
  cbv zeta.
  set (st' := {| state_id := _ |}).
  set (s1 := setMem (write (currentState s) (OState st') (mem s)) s).
  assert (K1 : keeps (mem s) (mem s1)).
  { apply keeps_write; [assumption|exact Hc|]. simpl. auto. }
  assert (Hs1 : typedStore s1) by (apply (typedStore_keeps s); auto).
  match goal with
  | |- context [createSnapshot ?w now s1] =>
      pose proof (createSnapshot_typed_returns w now s1 Hs1) as Hr;
      destruct (createSnapshot w now s1)
  end; [reflexivity|discriminate].
Qed.

Lemma typed_entry p s la :
  typedStore s -> getAgentState p s = Some la ->
  exists lmap es a,
    liveAgents s = Some (lmap, es) /\ map_get p es = Some la /\
    getAgent (cells (mem s)) la = Some a /\
    kindAt (cells (mem s)) lmap = Some KMap /\
    typed (cells (mem s)) (OMap es) /\
    typed (cells (mem s)) (OAgent a).
Proof.
  intros [H0 Hc] Hg. unfold getAgentState in Hg.
  destruct (liveAgents s) as [[lmap es]|] eqn:El; [|discriminate].
  destruct (liveAgents_inv _ _ _ El) as (st & Est & <- & Emap).
  pose proof (proj2 H0 _ _ (getMap_lookup _ _ _ Emap)) as Tm.
  assert (Hk : kindAt (cells (mem s)) la = Some KAgent).
  { destruct Tm as [_ Hes].
    exact (proj1 (List.Forall_forall _ _) Hes la (map_get_In_snd _ _ _ Hg)). }
  destruct (kindAt_agent _ _ Hk) as [a Ea].
  exists (agents st), es, a. repeat split; try assumption.
  - apply (kindAt_lookup _ _ _ (getMap_lookup _ _ _ Emap)).
  - exact (proj1 Tm).
  - exact (proj2 Tm).
  - exact (proj1 (proj2 H0 _ _ (getAgent_lookup _ _ _ Ea))).
  - exact (proj1 (proj2 (proj2 H0 _ _ (getAgent_lookup _ _ _ Ea)))).
  - exact (proj2 (proj2 (proj2 H0 _ _ (getAgent_lookup _ _ _ Ea)))).
Qed.

Lemma persistAgentState_typed_returns p a s :
  typedHeap (mem s) -> typed (cells (mem s)) (OAgent a) ->
  thrown (persistAgentState p a s) = None.
Proof.
  intros H0 Ta. unfold persistAgentState.
  destruct (typed_readAgentValue _ _ H0 Ta) as [v ->]. reflexivity.
Qed.

Lemma updateAgentState_typed_returns p u now s la :
  typedStore s -> typedPartial (cells (mem s)) u ->
  getAgentState p s = Some la ->
  thrown (updateAgentState p u now s) = None.
Proof.
  intros Hs (Hu1 & Hu2 & Hu3) Hg. pose proof Hs as [H0 Hc].
  destruct (typed_entry p s la Hs Hg)
    as (lmap & es & cur & El & Ep & Ea & Hkm & [Hnd Hes] & (Hc1 & Hc2 & Hc3)).
  unfold updateAgentState. rewrite El, Ep, Ea.
  set (updated := {| persona := _ |}).
  assert (T1 : typed (cells (mem s)) (OAgent updated)).
  { subst updated. simpl. split; [|split].
    - destruct (u_memory u) as [x|]; simpl; [apply Hu1; reflexivity|assumption].
    - destruct (u_currentTasks u) as [x|]; simpl; [apply Hu2; reflexivity|assumption].
    - destruct (u_metrics u) as [x|]; simpl; [apply Hu3; reflexivity|assumption]. }
  destruct (alloc (OAgent updated) (mem s)) as [l m1] eqn:E1.
  destruct (keeps_alloc _ _ _ _ E1 H0 T1) as [K1 A1].
  assert (K2 : keeps m1 (write lmap (OMap (map_set p l es)) m1)).
  { apply keeps_write; [exact (proj1 K1)|exact (proj2 K1 _ _ Hkm)|].
    split; [apply map_set_nodup; assumption|].
    apply map_set_values; [exact A1|].
    eapply Forall_impl; [exact Hes|]. intros x Hx. exact (proj2 K1 _ _ Hx). }
  match goal with
  | |- context [persistAgentState p updated ?s0] =>
      pose proof (persistAgentState_typed_returns p updated s0) as Hr;
      destruct (persistAgentState p updated s0)
  end; [reflexivity|].
  apply Hr; cbn [setMem mem].
  - exact (proj1 K2).
  - eapply typed_kept; [exact (proj2 K2)|].
    eapply typed_kept; [exact (proj2 K1)|]. exact T1.
Qed.

Lemma updateAgentMemory_typed_returns p t key value now s la :
  typedStore s -> getAgentState p s = Some la ->
  thrown (updateAgentMemory p t key value now s) = None.
Proof.
  intros Hs Hg. pose proof Hs as [H0 Hc].
  destruct (typed_entry p s la Hs Hg)
    as (lmap & es & a & El & Ep & Ea & _ & _ & Ta).
  unfold updateAgentMemory. rewrite El, Ep, Ea.
  destruct (kindAt_memory _ _ (proj1 Ta)) as (ls & ll & Em). rewrite Em.
  destruct (proj2 H0 _ _ (getMemory_lookup _ _ _ _ Em)) as [Hls Hll].
  set (lr := match t with shortTerm => ls | longTerm => ll end).
  assert (Hlr : kindAt (cells (mem s)) lr = Some KRecord) by (destruct t; assumption).
  destruct (kindAt_record _ _ Hlr) as [r Er]. rewrite Er.
  set (a' := {| persona := _ |}).
  assert (K1 : keeps (mem s) (assign lr key value r (mem s))).
  { apply keeps_assign; [assumption|exact Hlr]. }
  assert (K2 : keeps (assign lr key value r (mem s))
                 (write la (OAgent a') (assign lr key value r (mem s)))).
  { apply keeps_write; [exact (proj1 K1)| |].
    - apply (proj2 K1). apply (kindAt_lookup _ _ _ (getAgent_lookup _ _ _ Ea)).
    - eapply typed_kept; [exact (proj2 K1)|]. exact Ta. }
  apply persistAgentState_typed_returns; cbn [setMem mem].
  - exact (proj1 K2).
  - eapply typed_kept; [exact (proj2 K2)|].
    eapply typed_kept; [exact (proj2 K1)|]. exact Ta.
Qed.

Lemma clearShortTermMemory_typed_returns p now s :
  typedStore s -> thrown (clearShortTermMemory p now s) = None.
Proof.
  intros Hs. pose proof Hs as [H0 Hc].
  destruct (getAgentState p s) as [la|] eqn:Hg.
  - destruct (typed_entry p s la Hs Hg)
      as (lmap & es & a & El & Ep & Ea & _ & _ & Ta).
    unfold clearShortTermMemory. rewrite El, Ep, Ea.
    destruct (kindAt_memory _ _ (proj1 Ta)) as (ls & ll & Em). rewrite Em.
    destruct (proj2 H0 _ _ (getMemory_lookup _ _ _ _ Em)) as [_ Hll].
    set (a' := {| persona := _ |}).
    destruct (alloc (ORecord ∅) (mem s)) as [l m1] eqn:E1.
    destruct (keeps_alloc _ _ _ _ E1 H0 I) as [K1 A1].
    assert (K2 : keeps m1 (write (memory a) (OMemory l ll) m1)).
    { apply keeps_write; [exact (proj1 K1)| |].
      - apply (proj2 K1). apply (kindAt_lookup _ _ _ (getMemory_lookup _ _ _ _ Em)).
      - split; [exact A1|exact (proj2 K1 _ _ Hll)]. }
    assert (K3 : keeps (write (memory a) (OMemory l ll) m1)
                   (write la (OAgent a') (write (memory a) (OMemory l ll) m1))).
    { apply keeps_write; [exact (proj1 K2)| |].
      - apply (proj2 K2), (proj2 K1).
        apply (kindAt_lookup _ _ _ (getAgent_lookup _ _ _ Ea)).
      - eapply typed_kept; [exact (proj2 K2)|].
        eapply typed_kept; [exact (proj2 K1)|]. exact Ta. }
    apply persistAgentState_typed_returns; cbn [setMem mem].
    + exact (proj1 K3).
    + eapply typed_kept; [exact (proj2 K3)|].
      eapply typed_kept; [exact (proj2 K2)|].
      eapply typed_kept; [exact (proj2 K1)|]. exact Ta.
  - unfold getAgentState in Hg. unfold clearShortTermMemory.
    destruct (kindAt_state _ _ Hc) as [st Est].
    destruct (proj2 H0 _ _ (getState_lookup _ _ _ Est)) as [Ha _].
    destruct (kindAt_map _ _ Ha) as [es Emap].
    unfold liveAgents in *. rewrite Est, Emap in *. rewrite Hg. reflexivity.
Qed.

Lemma getAgentMemory_typed_returns p t s :
  typedStore s -> thrown (getAgentMemory p t s) = None.
Proof.
  intros Hs. pose proof Hs as [H0 Hc].
  destruct (getAgentState p s) as [la|] eqn:Hg.
  - destruct (typed_entry p s la Hs Hg)
      as (lmap & es & a & El & Ep & Ea & _ & _ & Ta).
    unfold getAgentMemory. rewrite El, Ep, Ea.
    destruct (kindAt_memory _ _ (proj1 Ta)) as (ls & ll & Em). rewrite Em.
    destruct (proj2 H0 _ _ (getMemory_lookup _ _ _ _ Em)) as [Hls Hll].
    assert (Hlr : kindAt (cells (mem s))
                    (match t with shortTerm => ls | longTerm => ll end)
                  = Some KRecord) by (destruct t; assumption).
    destruct (kindAt_record _ _ Hlr) as [r ->]. reflexivity.
  - unfold getAgentState in Hg. unfold getAgentMemory.
    destruct (kindAt_state _ _ Hc) as [st Est].
    destruct (proj2 H0 _ _ (getState_lookup _ _ _ Est)) as [Ha _].
    destruct (kindAt_map _ _ Ha) as [es Emap].
    unfold liveAgents in *. rewrite Est, Emap in *. rewrite Hg. reflexivity.
Qed.


Lemma rosterRedis_empty : rosterRedis emptyRedis.
Proof.
  split; [intros v; discriminate|].
  intros i sv H. cbn [emptyRedis snapshotDocs] in H.
  rewrite lookup_empty in H. discriminate.
Qed.

Lemma typedPartial_working h : typedPartial h working_update.
Proof. repeat split; intros l; discriminate. Qed.


Lemma pushSnapshot_length sn h :
  length h <= maxHistorySize -> length (pushSnapshot sn h) <= maxHistorySize.
Proof.
  intros Hh. unfold pushSnapshot.
  destruct (maxHistorySize <? length (h ++ [sn]))%nat eqn:E.
  - destruct h as [|x h]; simpl in *.
    + unfold maxHistorySize. lia.
    + rewrite length_app. simpl. lia.
  - apply Nat.ltb_ge in E. exact E.
Qed.

Lemma createSnapshot_history why now s :
  stateHistory (storeOf (createSnapshot why now s)) = stateHistory s \/
  exists sn, stateHistory (storeOf (createSnapshot why now s))
             = pushSnapshot sn (stateHistory s).
Proof.
  unfold createSnapshot. cbn [nextUuid mem currentState stateHistory].
  destruct (deepCloneState _ _) as [[l m1]|]; [|left; reflexivity].
  cbv zeta. cbn [setHistory setMem mem].
  destruct (readStateValue _ l); right; eexists; reflexivity.
Qed.

Lemma applyOp_history o s :
  stateHistory (applyOp o s) = stateHistory s \/
  exists sn, stateHistory (applyOp o s) = pushSnapshot sn (stateHistory s).
Proof.
  destruct o; cbn [applyOp].
  - left. unfold updateAgentState.
    destruct (liveAgents s) as [[lmap es]|]; [|reflexivity].
    destruct (map_get p es); [|reflexivity].
    destruct (getAgent _ _); [|reflexivity].
    cbv zeta. unfold alloc.
    match goal with
    | |- context [persistAgentState p ?a ?s0] =>
        destruct (storeOf_emit (persistAgentState p a s0)
                    (StateAgentUpdated p (next (mem s)))) as (_ & _ & Hh & _);
        destruct (persistAgentState_store p a s0) as (_ & _ & Hh2 & _)
    end.
    cbv zeta in *. rewrite Hh, Hh2. reflexivity.
  - left. unfold updateAgentMemory.
    destruct (liveAgents s) as [[lmap es]|]; [|reflexivity].
    destruct (map_get p es); [|reflexivity].
    destruct (getAgent _ _); [|reflexivity].
    destruct (getMemory _ _) as [[ls ll]|]; [|reflexivity].
    destruct (getRecord _ _); [|reflexivity].
    cbv zeta.
    match goal with
    | |- context [persistAgentState p ?a ?s0] =>
        destruct (persistAgentState_store p a s0) as (_ & _ & Hh2 & _)
    end.
    cbv zeta in *. rewrite Hh2. reflexivity.
  - left. unfold clearShortTermMemory.
    destruct (liveAgents s) as [[lmap es]|]; [|reflexivity].
    destruct (map_get p es); [|reflexivity].
    destruct (getAgent _ _); [|reflexivity].
    destruct (getMemory _ _) as [[ls ll]|]; [|reflexivity].
    cbv zeta. unfold alloc.
    match goal with
    | |- context [persistAgentState p ?a ?s0] =>
        destruct (persistAgentState_store p a s0) as (_ & _ & Hh2 & _)
    end.
    cbv zeta in *. rewrite Hh2. reflexivity.
  - left. unfold updateGlobalContext.
    destruct (getState _ _); [|reflexivity].
    destruct (getRecord _ _); reflexivity.
  - unfold setPhase.
    destruct (getState _ _) as [st|]; [|left; reflexivity].
    cbv zeta.
    match goal with
    | |- context [createSnapshot ?w now ?s1] =>
        destruct (storeOf_emit (createSnapshot w now s1)
                    (StatePhaseChanged (phase st) ph)) as (_ & _ & Hh & _);
        pose proof (createSnapshot_history w now s1) as Hc
    end.
    cbv zeta in *. rewrite Hh. exact Hc.
  - apply createSnapshot_history.
  - left. unfold restoreSnapshot.
    destruct (snapshotDocs (redis s) !! snapshotId); [|reflexivity].
    destruct (deserializeState _ _) as [l0 m1].
    destruct (deepCloneState l0 m1) as [[l m2]|]; [|reflexivity].
    cbn [storeOf emit stateHistory]. unfold saveState.
    destruct (readStateValue _ _); reflexivity.
  - left. unfold getSystemState.
    destruct (getState _ _); reflexivity.
  - left. unfold saveState. destruct (readStateValue _ _); reflexivity.
  - left. unfold loadState. destruct (currentDoc (redis s)); [|reflexivity].
    destruct (deserializeState _ _). reflexivity.
  - left. reflexivity.
Qed.

Lemma applyOps_history_bounded ops : forall s,
  length (stateHistory s) <= maxHistorySize ->
  length (stateHistory (applyOps ops s)) <= maxHistorySize.
Proof.
  induction ops as [|o ops IH]; intros s Hs; [exact Hs|].
  unfold applyOps in *. cbn [fold_left]. apply IH.
  destruct (applyOp_history o s) as [->|[sn ->]];
    [exact Hs|apply pushSnapshot_length; exact Hs].
Qed.

Lemma newStore_history r now : stateHistory (newStore r now) = [].
Proof.
  unfold newStore. destruct (initializeSystemState _ _ _). reflexivity.
Qed.

(** X23: the service never keeps more than 100 snapshots in memory,
    whatever is called on it and however often; [getStateHistory] gives
    the newest of them, at most [limit] when [limit] is positive, and the
    whole history when [limit] is 0. *)
Theorem getStateHistory_bounded (r : Redis) (now : Z) (ops : list Op) (limit : nat) :
  let s := applyOps ops (newStore r now) in
  length (stateHistory s) <= 100 /\
  (exists older, stateHistory s = older ++ getStateHistory limit s) /\
  length (getStateHistory limit s) =
    (if (limit =? 0)%nat then length (stateHistory s)
     else Nat.min limit (length (stateHistory s))).
Proof.
  intros s.
  assert (Hb : length (stateHistory s) <= maxHistorySize).
  { apply applyOps_history_bounded. rewrite newStore_history. simpl. lia. }
  split; [exact Hb|]. unfold getStateHistory.
  destruct (limit =? 0)%nat eqn:E.
  - split; [exists []; reflexivity|reflexivity].
  - apply Nat.eqb_neq in E. split.
    + exists (take (length (stateHistory s) - limit) (stateHistory s)).
      symmetry. apply take_drop.
    + rewrite length_drop. lia.
Qed.

Lemma drop_last {A} (l : list A) (x : A) :
  last l = Some x -> drop (length l - 1) l = [x].
Proof.
  intros H. apply last_Some in H. destruct H as [l' ->].
  rewrite length_app. simpl.
  replace (length l' + 1 - 1) with (length l') by lia.
  apply drop_app_length.
Qed.

(** X24: a snapshot that [createSnapshot] has taken is the newest of the
    history: on a well-typed store the call returns an id, and
    [getStateHistory(1)] then gives exactly one snapshot, which has that
    id and the reason given and shows the live state as it was at the
    call; the call leaves the live state as it was. *)
Theorem created_snapshot_is_latest (why : string) (now : Z) (s : Store) :
  typedStore s ->
  exists id s1 sn v,
    createSnapshot why now s = Ok id s1 /\
    getStateHistory 1 s1 = [sn] /\
    snap_id sn = id /\ reason sn = why /\
    liveValue s = Some v /\
    readStateValue (cells (mem s1)) (systemState sn) = Some v /\
    liveValue s1 = Some v.
Proof.
  intros Hs. destruct (typedStore_reads s Hs) as (v & Hv & Hnd).
  destruct (typedStore_wf s Hs) as (Hd & _).
  destruct (createSnapshot_returns why now s v Hd Hv Hnd)
    as (s1 & sn & Hc & Hl & Hid & Hwhy & Hr & Hlv).
  exists (uuidv4 (uuidSeed s)), s1, sn, v.
  split; [exact Hc|]. split.
  { unfold getStateHistory. cbn [Nat.eqb]. apply drop_last. exact Hl. }
  repeat split; assumption.
Qed.

Lemma created_snapshot_is_latest_witness :
  exists id s1 sn,
    createSnapshot "manual" 3
      (applyOp (CreateSnapshot "first" 2)
         (applyOp (UpdateGlobalContext "k" (JStr "v")) initialStore)) = Ok id s1 /\
    getStateHistory 1 s1 = [sn] /\ snap_id sn = id /\ reason sn = "manual" /\
    seenContext s1 (systemState sn) "k" = Some (JStr "v").
Proof.
  assert (Hs : typedStore
    (applyOp (CreateSnapshot "first" 2)
       (applyOp (UpdateGlobalContext "k" (JStr "v")) initialStore))).
  { apply applyOp_typed; [|exact I].
    apply applyOp_typed; [apply newStore_typed|exact I]. }
  destruct (created_snapshot_is_latest "manual" 3 _ Hs)
    as (id & s1 & sn & v & Hc & Hh & Hid & Hwhy & Hv & Hr & _).
  exists id, s1, sn. split; [exact Hc|]. split; [exact Hh|].
  split; [exact Hid|]. split; [exact Hwhy|].
  unfold seenContext. rewrite Hr.
  assert (E : liveValue (applyOp (CreateSnapshot "first" 2)
                 (applyOp (UpdateGlobalContext "k" (JStr "v")) initialStore))
              = Some v -> v_globalContext v !! "k" = Some (JStr "v")).
  { clear. intros H. vm_compute in H. injection H as <-. vm_compute. reflexivity. }
  exact (E Hv).
Defined.

End StateManagerMore.

Section OrchestratorMore.
Import Orchestrator.

Section AgentFacts.
Variable taskRuns : Task -> option string.
Variable taskOf : MessageBus.AgentMessage -> Task.

Lemma started_app evs evs' : started (evs ++ evs') = started evs ++ started evs'.
Proof. unfold started. apply omap_app. Qed.

Lemma executeTask_spec task now r :
  exists res r',
    executeTask taskRuns task now r = (res, r') /\
    a_messageQueue (self r') = a_messageQueue (self r) /\
    a_currentTasks (self r') =
      filter (fun t => task_id t <> task_id task) (a_currentTasks (self r)) /\
    started (emitted r') = started (emitted r) ++ [task] /\
    match taskRuns task with
    | None => res = Returned tt /\ a_state (self r') = idle /\
              tasksCompleted r' = S (tasksCompleted r)
    | Some e => res = Threw e /\ a_state (self r') = blocked /\
                tasksCompleted r' = tasksCompleted r
    end.
Proof.
  unfold executeTask.
  assert (Hf : filter (fun t => task_id t <> task_id task) (a_currentTasks (self r) ++ [task])
               = filter (fun t => task_id t <> task_id task) (a_currentTasks (self r))).
  { rewrite filter_app, filter_cons_False by (intros H; apply H; reflexivity).
    rewrite filter_nil, app_nil_r. reflexivity. }
  destruct (taskRuns task) as [e|]; eexists; eexists; (split; [reflexivity|]);
    cbn [onSelf emitA countCompleted self emitted tasksCompleted withActivity withTasks
         withState a_messageQueue a_currentTasks a_state];
    rewrite Hf, ?started_app; cbn [started omap]; rewrite ?app_nil_r;
    repeat split; reflexivity.
Qed.

Lemma handleMessage_spec m now r :
  exists res r',
    handleMessage taskRuns taskOf m now r = (res, r') /\
    a_messageQueue (self r') = a_messageQueue (self r) /\
    started (emitted r') =
      started (emitted r) ++ map taskOf (List.filter isTask [m]) /\
    match failure taskRuns taskOf m with
    | None => res = Returned tt /\
              a_state (self r') = (if isTask m then idle else a_state (self r)) /\
              tasksCompleted r' =
                tasksCompleted r + length (List.filter isTask [m])
    | Some e => res = Threw e /\ a_state (self r') = blocked /\
                tasksCompleted r' = tasksCompleted r
    end.
Proof.
  unfold handleMessage, failure, isTask. cbn [List.filter].
  destruct (MessageBus.messageType m).
  - destruct (executeTask_spec (taskOf m) now r) as (res & r' & E & Hq & _ & Hs & Hr).
    exists res, r'. split; [exact E|]. split; [exact Hq|]. split; [exact Hs|].
    destruct (taskRuns (taskOf m)); cbn [length]; rewrite ?Nat.add_1_r; exact Hr.
  - eexists; eexists; split; [reflexivity|].
    cbn [emitA self emitted tasksCompleted map length]. rewrite started_app.
    cbn [started omap]. rewrite Nat.add_0_r. repeat split; reflexivity.
  - eexists; eexists; split; [reflexivity|].
    cbn [emitA self emitted tasksCompleted map length]. rewrite started_app.
    cbn [started omap]. rewrite Nat.add_0_r. repeat split; reflexivity.
  - eexists; eexists; split; [reflexivity|].
    cbn [emitA self emitted tasksCompleted map length]. rewrite started_app.
    cbn [started omap]. rewrite Nat.add_0_r. repeat split; reflexivity.
Qed.

(** What the loop of [processMessageQueue] does to an idle agent whose
    queue is [ok ++ rest], where every message of [ok] is handled without
    error and [rest] is empty or starts with a task that fails. *)
Lemma drainQueue_spec now : forall ok rest r,
  a_state (self r) = idle ->
  a_messageQueue (self r) = ok ++ rest ->
  Forall (fun m => failure taskRuns taskOf m = None) ok ->
  match rest with [] => True | m :: _ => failure taskRuns taskOf m <> None end ->
  exists res r',
    drainQueue taskRuns taskOf (ok ++ rest) now r = (res, r') /\
    started (emitted r') =
      started (emitted r) ++ map taskOf (List.filter isTask (ok ++ take 1 rest)) /\
    tasksCompleted r' = tasksCompleted r + length (List.filter isTask ok) /\
    a_messageQueue (self r') = tl rest /\
    match rest with
    | [] => res = Returned tt /\ a_state (self r') = idle
    | m :: _ => exists e, failure taskRuns taskOf m = Some e /\ res = Threw e /\
                          a_state (self r') = blocked
    end.
Proof.
  induction ok as [|m ok IH]; intros rest r Hidle Hq Hok Hrest.
  - destruct rest as [|m rest].
    + exists (Returned tt), r. cbn. rewrite app_nil_r, Nat.add_0_r.
      repeat split; assumption.
    + cbn [app drainQueue]. rewrite bool_decide_eq_true_2 by exact Hidle.
      destruct (handleMessage_spec m now (onSelf (withQueue rest) r))
        as (res & r' & E & Hq' & Hs & Hr).
      rewrite E. destruct (failure taskRuns taskOf m) as [e|] eqn:Ef; [|congruence].
      destruct Hr as (-> & Hst & Htc).
      exists (Threw e), r'. split; [reflexivity|].
      split; [exact Hs|]. split; [cbn; rewrite Nat.add_0_r; exact Htc|].
      split; [exact Hq'|]. exists e. repeat split; assumption.
  - inversion Hok as [|? ? Hm Hok']; subst.
    cbn [app drainQueue]. rewrite bool_decide_eq_true_2 by exact Hidle.
    destruct (handleMessage_spec m now (onSelf (withQueue (ok ++ rest)) r))
      as (res & r1 & E & Hq1 & Hs1 & Hr1).
    rewrite E, Hm in *. destruct Hr1 as (-> & Hst1 & Htc1).
    assert (Hidle1 : a_state (self r1) = idle).
    { rewrite Hst1. destruct (isTask m); [reflexivity|exact Hidle]. }
    destruct (IH rest r1 Hidle1 Hq1 Hok' Hrest)
      as (res & r' & E' & Hs' & Htc' & Hq' & Hr').
    exists res, r'. split; [exact E'|].
    split.
    { rewrite Hs', Hs1. cbn [onSelf emitted app List.filter].
      destruct (isTask m); cbn [map app]; rewrite <- ?app_assoc, ?app_nil_r;
        reflexivity. }
    split.
    { rewrite Htc', Htc1. cbn [onSelf tasksCompleted List.filter].
      destruct (isTask m); cbn [length]; lia. }
    split; [exact Hq'|exact Hr'].
Qed.

(** X25: [resume] handles the queued messages in arrival order and stops
    at the first task that fails.  With the queue [ok ++ rest], where no
    message of [ok] fails and [rest] is empty or starts with a failing
    task: the tasks of [ok] (and the failing one) are started in queue
    order, [tasksCompleted] grows by the number of tasks in [ok]; if
    [rest] is empty the call returns with an idle agent and an empty
    queue, otherwise it throws the error of the failing task and leaves
    the agent blocked with the messages after it still queued. *)
Theorem resume_handles_queue_in_order (now : Z) (r : AgentRun)
    (ok rest : list MessageBus.AgentMessage) :
  a_messageQueue (self r) = ok ++ rest ->
  Forall (fun m => failure taskRuns taskOf m = None) ok ->
  match rest with [] => True | m :: _ => failure taskRuns taskOf m <> None end ->
  exists res r',
    resume taskRuns taskOf now r = (res, r') /\
    started (emitted r') =
      started (emitted r) ++ map taskOf (List.filter isTask (ok ++ take 1 rest)) /\
    tasksCompleted r' = tasksCompleted r + length (List.filter isTask ok) /\
    a_messageQueue (self r') = tl rest /\
    match rest with
    | [] => res = Returned tt /\ a_state (self r') = idle
    | m :: _ => exists e, failure taskRuns taskOf m = Some e /\ res = Threw e /\
                          a_state (self r') = blocked
    end.
Proof.
  intros Hq Hok Hrest. unfold resume, processMessageQueue.
  set (r0 := emitA AgentResumed (onSelf (withState idle) r)).
  assert (Hq0 : a_messageQueue (self r0) = ok ++ rest) by exact Hq.
  rewrite Hq0.
  destruct (drainQueue_spec now ok rest r0 eq_refl Hq0 Hok Hrest)
    as (res & r' & E & Hs & Htc & Hq' & Hr').
  exists res, r'. split; [exact E|]. split; [|split; [exact Htc|split; assumption]].
  rewrite Hs. subst r0. cbn [emitA emitted onSelf]. rewrite started_app.
  cbn [started omap]. rewrite app_nil_r. reflexivity.
Qed.

Lemma receiveAll_busy now : forall ms r,
  a_state (self r) <> idle ->
  exists r',
    receiveAll taskRuns taskOf ms now r = (Returned tt, r') /\
    a_state (self r') = a_state (self r) /\
    a_messageQueue (self r') = a_messageQueue (self r) ++ ms /\
    a_currentTasks (self r') = a_currentTasks (self r) /\
    tasksCompleted r' = tasksCompleted r /\
    started (emitted r') = started (emitted r).
Proof.
  induction ms as [|m ms IH]; intros r Hb.
  - exists r. rewrite app_nil_r. repeat split; reflexivity.
  - cbn [receiveAll]. unfold processMessage.
    cbn [emitA onSelf self withQueue a_state].
    rewrite bool_decide_eq_false_2 by exact Hb.
    match goal with
    | |- context [receiveAll _ _ ms now ?r1] =>
        destruct (IH r1) as (r' & E & Hst & Hq & Ht & Htc & Hs); [exact Hb|]
    end.
    exists r'. split; [exact E|]. split; [exact Hst|].
    split; [rewrite Hq; cbn; rewrite <- app_assoc; reflexivity|].
    split; [exact Ht|]. split; [exact Htc|].
    rewrite Hs. cbn [emitA onSelf emitted]. rewrite started_app. cbn [started omap].
    rewrite app_nil_r. reflexivity.
Qed.

(** X26: nothing is lost while an agent is paused.  The messages that
    reach a paused agent are queued behind those already waiting and
    none is handled; when the agent is resumed and no task among them
    fails, all of them are handled in arrival order: the tasks are
    started in that order and counted as completed, the queue is empty
    and the agent idle. *)
Theorem paused_agent_keeps_messages (now : Z) (r : AgentRun)
    (ms : list MessageBus.AgentMessage) :
  Forall (fun m => failure taskRuns taskOf m = None) (a_messageQueue (self r) ++ ms) ->
  exists r1 r2,
    receiveAll taskRuns taskOf ms now (pause r) = (Returned tt, r1) /\
    a_state (self r1) = paused /\
    a_messageQueue (self r1) = a_messageQueue (self r) ++ ms /\
    started (emitted r1) = started (emitted r) /\
    tasksCompleted r1 = tasksCompleted r /\
    resume taskRuns taskOf now r1 = (Returned tt, r2) /\
    a_state (self r2) = idle /\
    a_messageQueue (self r2) = [] /\
    started (emitted r2) =
      started (emitted r) ++
      map taskOf (List.filter isTask (a_messageQueue (self r) ++ ms)) /\
    tasksCompleted r2 =
      tasksCompleted r + length (List.filter isTask (a_messageQueue (self r) ++ ms)).
Proof.
  intros Hok.
  destruct (receiveAll_busy now ms (pause r)) as (r1 & E1 & Hst & Hq & _ & Htc & Hs).
  { cbn. discriminate. }
  assert (Hq1 : a_messageQueue (self r1) = (a_messageQueue (self r) ++ ms) ++ []).
  { rewrite app_nil_r. exact Hq. }
  set (r0 := emitA AgentResumed (onSelf (withState idle) r1)).
  assert (Hq0 : a_messageQueue (self r0) = (a_messageQueue (self r) ++ ms) ++ [])
    by exact Hq1.
  destruct (drainQueue_spec now _ [] r0 eq_refl Hq0 Hok I)
    as (res & r2 & E2 & Hs2 & Htc2 & Hq2 & -> & Hst2).
  assert (E2' : resume taskRuns taskOf now r1 = (Returned tt, r2)).
  { unfold resume, processMessageQueue. fold r0. rewrite Hq0. exact E2. }
  assert (Hs0 : started (emitted r0) = started (emitted r1)).
  { subst r0. cbn [emitA emitted onSelf]. rewrite started_app.
    cbn [started omap]. apply app_nil_r. }
  rewrite Hs0 in Hs2. clear E2. rename E2' into E2.
  change (tasksCompleted r0) with (tasksCompleted r1) in Htc2.
  exists r1, r2. split; [exact E1|]. split; [exact Hst|]. split; [exact Hq|].
  assert (Hs1 : started (emitted r1) = started (emitted r)).
  { rewrite Hs. cbn [pause emitA emitted onSelf]. rewrite started_app.
    cbn [started omap]. apply app_nil_r. }
  split; [exact Hs1|]. split; [exact Htc|]. split; [exact E2|].
  split; [exact Hst2|]. split; [exact Hq2|].
  split; [rewrite Hs2, Hs1, app_nil_r; reflexivity|].
  rewrite Htc2, Htc. reflexivity.
Qed.

End AgentFacts.

Lemma resume_handles_queue_in_order_witness :
  exists res r',
    resume productEngineerRuns payloadTask 5
      (queuedAgent [agentMessage "m1" TASK "build"; agentMessage "m2" QUERY "why";
                    agentMessage "m3" TASK ""; agentMessage "m4" TASK "ship"])
      = (res, r') /\
    started (emitted r') =
      [payloadTask (agentMessage "m1" TASK "build");
       payloadTask (agentMessage "m3" TASK "")] /\
    tasksCompleted r' = 1 /\
    a_messageQueue (self r') = [agentMessage "m4" TASK "ship"] /\
    res = Threw "Task must have title and description" /\
    a_state (self r') = blocked.
Proof.
  destruct (resume_handles_queue_in_order productEngineerRuns payloadTask 5
              (queuedAgent [agentMessage "m1" TASK "build"; agentMessage "m2" QUERY "why";
                            agentMessage "m3" TASK ""; agentMessage "m4" TASK "ship"])
              [agentMessage "m1" TASK "build"; agentMessage "m2" QUERY "why"]
              [agentMessage "m3" TASK ""; agentMessage "m4" TASK "ship"])
    as (res & r' & E & Hs & Htc & Hq & e & He & Hres & Hst).
  - reflexivity.
  - repeat constructor.
  - discriminate.
  - exists res, r'. split; [exact E|]. split; [exact Hs|]. split; [exact Htc|].
    split; [exact Hq|]. split; [|exact Hst].
    rewrite Hres. f_equal. vm_compute in He. congruence.
Defined.

Lemma paused_agent_keeps_messages_witness :
  exists r1 r2,
    receiveAll productEngineerRuns payloadTask
      [agentMessage "m2" QUERY "why"; agentMessage "m3" TASK "ship"] 5
      (pause (queuedAgent [agentMessage "m1" TASK "build"])) = (Returned tt, r1) /\
    a_state (self r1) = paused /\
    started (emitted r1) = [] /\
    resume productEngineerRuns payloadTask 5 r1 = (Returned tt, r2) /\
    a_state (self r2) = idle /\
    a_messageQueue (self r2) = [] /\
    started (emitted r2) =
      [payloadTask (agentMessage "m1" TASK "build");
       payloadTask (agentMessage "m3" TASK "ship")] /\
    tasksCompleted r2 = 2.
Proof.
  destruct (paused_agent_keeps_messages productEngineerRuns payloadTask 5
              (queuedAgent [agentMessage "m1" TASK "build"])
              [agentMessage "m2" QUERY "why"; agentMessage "m3" TASK "ship"])
    as (r1 & r2 & E1 & Hst1 & _ & Hs1 & _ & E2 & Hst2 & Hq2 & Hs2 & Htc2).
  - repeat constructor.
  - exists r1, r2. repeat split; assumption.
Defined.

Section AssignFacts.
Variable taskRuns : Task -> option string.

Lemma filter_first {A} (f : A -> bool) : forall (l : list A) x xs,
  List.filter f l = x :: xs ->
  exists pre post, l = pre ++ x :: post /\ Forall (fun y => f y = false) pre /\
                   f x = true.
Proof.
  induction l as [|y l IH]; intros x xs H; [discriminate|].
  cbn [List.filter] in H. destruct (f y) eqn:Ey.
  - injection H as <- _. exists [], l. repeat split; [constructor|exact Ey].
  - destruct (IH _ _ H) as (pre & post & -> & Hpre & Hx).
    exists (y :: pre), post. repeat split; [constructor; assumption|exact Hx].
Qed.

Lemma filter_none {A} (f : A -> bool) : forall (l : list A),
  List.filter f l = [] -> Forall (fun y => f y = false) l.
Proof.
  induction l as [|y l IH]; intros H; [constructor|].
  cbn [List.filter] in H. destruct (f y) eqn:Ey; [discriminate|].
  constructor; [exact Ey|exact (IH H)].
Qed.

Lemma unavailable_inv (st : AgentStatus) :
  availability st && (currentLoad st <? 8)%Z = false ->
  availability st = false \/ (8 <= currentLoad st)%Z.
Proof.
  destruct (availability st); [|left; reflexivity].
  cbn. intros H. right. apply Z.ltb_ge. exact H.
Qed.

(** X27: [assignTask] gives the task to the first active agent, in the
    order the agents became active, whose recorded status is available
    with a load under 0.8; it emits one [task:assigned] event for the
    task with that assignee and, where the agent is registered, has it
    run the task, after which the agent is idle without the task.  It
    throws [No available agent for task assignment], and changes nothing,
    when no active agent qualifies, and the error of the task when the
    chosen agent fails at it, which leaves that agent blocked.  The
    recorded statuses are never touched. *)
Theorem assignTask_picks_first_available (task : Task) (now : Z) (o : Orchestrator) :
  match assignTask taskRuns task now o with
  | (Returned p, o', evs) =>
      (exists pre st post,
         activeAgents o = pre ++ (p, st) :: post /\
         Forall (fun e => availability (snd e) = false \/ (8 <= currentLoad (snd e))%Z)
                pre /\
         availability st = true /\ (currentLoad st < 8)%Z) /\
      evs = [(assignedTask task p, p)] /\
      activeAgents o' = activeAgents o /\
      match map_get p (agents o) with
      | None => o' = o
      | Some agent =>
          taskRuns (assignedTask task p) = None /\
          exists agent',
            map_get p (agents o') = Some agent' /\ a_state agent' = idle /\
            a_currentTasks agent' =
              filter (fun t => task_id t <> task_id task) (a_currentTasks agent)
      end
  | (Threw e, o', evs) =>
      evs = [] /\ activeAgents o' = activeAgents o /\
      ((e = "No available agent for task assignment" /\ o' = o /\
        Forall (fun e => availability (snd e) = false \/ (8 <= currentLoad (snd e))%Z)
               (activeAgents o)) \/
       (exists p agent agent',
          head (getAvailableAgents o) = Some p /\
          map_get p (agents o) = Some agent /\
          taskRuns (assignedTask task p) = Some e /\
          map_get p (agents o') = Some agent' /\ a_state agent' = blocked))
  | (Waiting, _, _) => False
  end.
Proof.
  unfold assignTask, selectBestAgent.
  destruct (getAvailableAgents o) as [|p ps] eqn:Eav.
  - split; [reflexivity|]. split; [reflexivity|]. left.
    split; [reflexivity|]. split; [reflexivity|].
    unfold getAvailableAgents in Eav. apply map_eq_nil in Eav.
    apply filter_none in Eav. eapply Forall_impl; [exact Eav|].
    intros e. apply unavailable_inv.
  - assert (Hfirst : exists pre st post,
              activeAgents o = pre ++ (p, st) :: post /\
              Forall (fun e => availability (snd e) = false \/
                               (8 <= currentLoad (snd e))%Z) pre /\
              availability st = true /\ (currentLoad st < 8)%Z).
    { unfold getAvailableAgents in Eav.
      destruct (List.filter _ (activeAgents o)) as [|[q st] l] eqn:Ef; [discriminate|].
      cbn in Eav. injection Eav as -> _.
      destruct (filter_first _ _ _ _ Ef) as (pre & post & Hl & Hpre & Hx).
      exists pre, st, post. split; [exact Hl|]. split.
      - eapply Forall_impl; [exact Hpre|]. intros e. apply unavailable_inv.
      - cbn [snd] in Hx. apply andb_prop in Hx. destruct Hx as [Ha Hl'].
        split; [exact Ha|]. apply Z.ltb_lt. exact Hl'. }
    destruct (map_get p (agents o)) as [agent|] eqn:Eag.
    + destruct (executeTask_spec taskRuns (assignedTask task p) now (run agent))
        as (res & r' & E & _ & Ht & _ & Hr).
      rewrite E. destruct (taskRuns (assignedTask task p)) as [e|] eqn:Er.
      * destruct Hr as (-> & Hst & _).
        split; [reflexivity|]. split; [reflexivity|]. right.
        exists p, agent, (self r'). repeat split; try assumption.
        cbn [setAgents agents]. apply map_get_set_eq.
      * destruct Hr as (-> & Hst & _).
        split; [exact Hfirst|]. split; [reflexivity|]. split; [reflexivity|].
        rewrite Eag. split; [exact Er|]. exists (self r').
        split; [cbn [setAgents agents]; apply map_get_set_eq|].
        split; [exact Hst|exact Ht].
    + split; [exact Hfirst|]. split; [reflexivity|]. split; [reflexivity|].
      rewrite Eag. reflexivity.
Qed.

Lemma assignTask_active task now o :
  activeAgents (snd (fst (assignTask taskRuns task now o))) = activeAgents o.
Proof.
  unfold assignTask, selectBestAgent.
  destruct (getAvailableAgents o) as [|p ps]; [reflexivity|].
  destruct (map_get p (agents o)) as [agent|]; [|reflexivity].
  destruct (executeTask taskRuns _ now (run agent)) as [[]]; reflexivity.
Qed.

Lemma assignTask_available task now o p :
  fst (fst (assignTask taskRuns task now o)) = Returned p ->
  In p (getAvailableAgents o).
Proof.
  unfold assignTask, selectBestAgent.
  destruct (getAvailableAgents o) as [|q ps]; [discriminate|].
  destruct (map_get q (agents o)) as [agent|].
  - destruct (executeTask taskRuns _ now (run agent)) as [[]]; cbn;
      intros [= <-] || discriminate. left. reflexivity.
  - cbn. intros [= <-]. left. reflexivity.
Qed.

Lemma map_set_In_eq {V} (p : AgentPersona) (v v' : V) : forall m,
  List.NoDup (map fst m) -> In (p, v') (map_set p v m) -> v' = v.
Proof.
  induction m as [|[k w] m IH]; cbn [map_set map fst]; intros Hnd Hin.
  - destruct Hin as [[= ->]|[]]. reflexivity.
  - inversion Hnd as [|? ? Hk Hnd']; subst.
    destruct (decide (p = k)) as [->|Hne].
    + destruct Hin as [[= ->]|Hin]; [reflexivity|].
      exfalso. apply Hk. apply in_map_iff. exists (k, v'). split; [reflexivity|exact Hin].
    + destruct Hin as [[= -> _]|Hin]; [congruence|]. exact (IH Hnd' Hin).
Qed.

Lemma assignAll_skips now (p : AgentPersona) : forall tasks o,
  (forall st, In (p, st) (activeAgents o) -> availability st = false) ->
  ~ In (Some p) (fst (assignAll taskRuns tasks now o)).
Proof.
  induction tasks as [|t ts IH]; intros o Hinv; [intros []|].
  cbn [assignAll].
  pose proof (assignTask_active t now o) as Hact.
  pose proof (assignTask_available t now o p) as Hav.
  destruct (assignTask taskRuns t now o) as [[res o1] evs].
  cbn [fst snd] in Hact, Hav.
  specialize (IH o1). rewrite Hact in IH. specialize (IH Hinv).
  destruct (assignAll taskRuns ts now o1) as [rest o2]. cbn [fst] in *.
  intros [Hhd|Hin]; [|exact (IH Hin)].
  destruct res as [q| |]; try discriminate. injection Hhd as ->.
  specialize (Hav eq_refl). unfold getAvailableAgents in Hav.
  apply in_map_iff in Hav. destruct Hav as ([q st] & Hq & Hin).
  cbn in Hq. subst q. apply filter_In in Hin. destruct Hin as [Hin Hok].
  cbn [snd] in Hok. rewrite (Hinv st Hin) in Hok. discriminate.
Qed.

(** X28: a paused agent gets no task.  After [pauseAgent] for a
    registered persona the agent is paused and its recorded status says
    unavailable, the status of every other persona is as before, and
    however many tasks are then assigned, none goes to that persona. *)
Theorem paused_agent_gets_no_task (p : AgentPersona) (o : Orchestrator)
    (tasks : list Task) (now : Z) :
  List.NoDup (map fst (activeAgents o)) ->
  is_Some (map_get p (agents o)) ->
  (exists a st,
     map_get p (agents (pauseAgent p o)) = Some a /\ a_state a = paused /\
     map_get p (activeAgents (pauseAgent p o)) = Some st /\
     availability st = false) /\
  (forall q, q <> p ->
     map_get q (activeAgents (pauseAgent p o)) = map_get q (activeAgents o)) /\
  ~ In (Some p) (fst (assignAll taskRuns tasks now (pauseAgent p o))).
Proof.
  intros Hnd [agent Hag]. unfold pauseAgent. rewrite Hag.
  cbn [updateAgentStatus setAgents agents activeAgents pause run self onSelf emitA].
  split; [|split].
  - eexists; eexists. split; [apply map_get_set_eq|]. split; [reflexivity|].
    split; [apply map_get_set_eq|reflexivity].
  - intros q Hq. apply map_get_set_ne. congruence.
  - apply assignAll_skips. cbn [activeAgents]. intros st Hin.
    apply (map_set_In_eq p _ st _ Hnd) in Hin. subst st. reflexivity.
Qed.

End AssignFacts.

Lemma paused_agent_gets_no_task_witness :
  getAvailableAgents deployOrchestrator = [devops_specialist; tech_lead] /\
  getAvailableAgents (pauseAgent devops_specialist deployOrchestrator) = [tech_lead] /\
  ~ In (Some devops_specialist)
       (fst (assignAll productEngineerRuns
               [TaskDispatcher.exampleTask "t1" HIGH; TaskDispatcher.exampleTask "t2" LOW] 5
               (pauseAgent devops_specialist deployOrchestrator))).
Proof.
  split; [vm_compute; reflexivity|]. split; [vm_compute; reflexivity|].
  apply (paused_agent_gets_no_task productEngineerRuns devops_specialist
           deployOrchestrator [TaskDispatcher.exampleTask "t1" HIGH; TaskDispatcher.exampleTask "t2" LOW] 5).
  - vm_compute. repeat constructor; simpl; intuition discriminate.
  - vm_compute. eauto.
Defined.

Section ResumeFacts.
Variable taskRuns : Task -> option string.
Variable taskOf : MessageBus.AgentMessage -> Task.

(** X29: [resumeAgent] records the status of the agent only when the
    agent gets through its queue.  For a registered persona whose queue
    is [ok ++ rest] ([ok] without failure, [rest] empty or headed by a
    failing task): with [rest] empty the call returns, the agent is idle
    with an empty queue and the status recorded for the persona is the
    one the agent reports; otherwise the call throws the error of the
    failing task, the agent is left blocked with the later messages
    queued, and the recorded statuses are as before the call. *)
Theorem resumeAgent_records_status (p : AgentPersona) (now : Z) (o : Orchestrator)
    (agent : BaseAgent) (ok rest : list MessageBus.AgentMessage) :
  map_get p (agents o) = Some agent ->
  a_messageQueue agent = ok ++ rest ->
  Forall (fun m => failure taskRuns taskOf m = None) ok ->
  match rest with [] => True | m :: _ => failure taskRuns taskOf m <> None end ->
  exists res o' a',
    resumeAgent taskRuns taskOf p now o = (res, o') /\
    map_get p (agents o') = Some a' /\
    a_messageQueue a' = tl rest /\
    match rest with
    | [] => res = Returned tt /\ a_state a' = idle /\
            map_get p (activeAgents o') = Some (reportStatus a')
    | m :: _ => exists e, failure taskRuns taskOf m = Some e /\ res = Threw e /\
                          a_state a' = blocked /\ activeAgents o' = activeAgents o
    end.
Proof.
  intros Hag Hq Hok Hrest. unfold resumeAgent, resume, processMessageQueue.
  rewrite Hag.
  set (r0 := emitA AgentResumed (onSelf (withState idle) (run agent))).
  assert (Hq0 : a_messageQueue (self r0) = ok ++ rest) by exact Hq.
  rewrite Hq0.
  destruct (drainQueue_spec taskRuns taskOf now ok rest r0 eq_refl Hq0 Hok Hrest)
    as (res & r' & E & _ & _ & Hq' & Hr').
  rewrite E. destruct rest as [|m rest].
  - destruct Hr' as (-> & Hst).
    eexists; eexists; exists (self r'). split; [reflexivity|].
    cbn [updateAgentStatus setAgents agents activeAgents].
    split; [apply map_get_set_eq|]. split; [exact Hq'|].
    split; [reflexivity|]. split; [exact Hst|apply map_get_set_eq].
  - destruct Hr' as (e & He & -> & Hst).
    eexists; eexists; exists (self r'). split; [reflexivity|].
    cbn [setAgents agents activeAgents].
    split; [apply map_get_set_eq|]. split; [exact Hq'|].
    exists e. repeat split; assumption.
Qed.

End ResumeFacts.

Lemma resumeAgent_records_status_witness :
  let o := setAgents
             [(product_engineer,
               withQueue [agentMessage "m1" TASK "build"; agentMessage "m2" TASK ""]
                         (exampleAgent product_engineer paused))]
             [] newOrchestrator in
  exists o' a',
    resumeAgent productEngineerRuns payloadTask product_engineer 5 o
      = (Threw "Task must have title and description", o') /\
    map_get product_engineer (agents o') = Some a' /\
    a_state a' = blocked /\ a_messageQueue a' = [] /\
    activeAgents o' = [].
Proof.
  intros o.
  destruct (resumeAgent_records_status productEngineerRuns payloadTask
              product_engineer 5 o
              (withQueue [agentMessage "m1" TASK "build"; agentMessage "m2" TASK ""]
                         (exampleAgent product_engineer paused))
              [agentMessage "m1" TASK "build"] [agentMessage "m2" TASK ""])
    as (res & o' & a' & E & Ha & Hq & e & He & -> & Hst & Hact).
  - reflexivity.
  - reflexivity.
  - repeat constructor.
  - discriminate.
  - exists o', a'. vm_compute in He. injection He as <-.
    split; [exact E|]. split; [exact Ha|]. split; [exact Hst|].
    split; [exact Hq|exact Hact].
Defined.

End OrchestratorMore.

Section SystemControllerMore.
Import StateManager.

Lemma activatePhaseAgents_phase : forall ps o,
  Orchestrator.currentPhase (snd (Orchestrator.activatePhaseAgents ps o))
    = Orchestrator.currentPhase o.
Proof.
  induction ps as [|p ps IH]; intros o; [reflexivity|].
  cbn [Orchestrator.activatePhaseAgents]. unfold Orchestrator.createOrGetAgent.
  destruct (map_get p (Orchestrator.agents o)) as [a|]; [|reflexivity].
  rewrite IH. reflexivity.
Qed.

Lemma initializePhase_phase ph o :
  Orchestrator.currentPhase (snd (Orchestrator.initializePhase ph o)) = ph.
Proof.
  unfold Orchestrator.initializePhase.
  destruct (map_get ph _) as [cfg|]; [|reflexivity].
  pose proof (activatePhaseAgents_phase
                (Orchestrator.cfg_activeAgents cfg)
                (Orchestrator.deactivateCurrentAgents
                   (Orchestrator.setPhaseField ph o))) as H.
  destruct (Orchestrator.activatePhaseAgents _ _) as [[[]| |] o3]; exact H.
Qed.

Lemma transitionPhase_true_phase check toPhase o o' :
  Orchestrator.transitionPhase check toPhase o = (Orchestrator.Returned true, o') ->
  Orchestrator.currentPhase o' = toPhase.
Proof.
  unfold Orchestrator.transitionPhase.
  destruct (map_get (Orchestrator.currentPhase o) _); [|discriminate].
  destruct (map_get toPhase _); [|discriminate].
  destruct (Orchestrator.validatePhaseTransition _ _ _ _); [|discriminate].
  destruct (Orchestrator.completeCurrentPhase o) as [[[]| |] o1]; try discriminate.
  pose proof (initializePhase_phase toPhase o1) as H.
  destruct (Orchestrator.initializePhase toPhase o1) as [[[]| |] o2]; try discriminate.
  intros [= <-]. exact H.
Qed.

Lemma transitionPhase_false_same check toPhase o o' :
  Orchestrator.transitionPhase check toPhase o = (Orchestrator.Returned false, o') ->
  o' = o.
Proof.
  unfold Orchestrator.transitionPhase.
  destruct (map_get (Orchestrator.currentPhase o) _); [|congruence].
  destruct (map_get toPhase _); [|congruence].
  destruct (Orchestrator.validatePhaseTransition _ _ _ _); [|congruence].
  destruct (Orchestrator.completeCurrentPhase o) as [[[]| |] o1]; try discriminate.
  destruct (Orchestrator.initializePhase toPhase o1) as [[[]| |] o2]; discriminate.
Qed.

Lemma setPhase_typed_spec ph now s :
  typedStore s ->
  exists v s' snapshot,
    liveValue s = Some v /\
    setPhase ph now s = Ok tt s' /\
    last (stateHistory s') = Some snapshot /\
    readStateValue (cells (mem s')) (systemState snapshot) = Some (withPhase ph v) /\
    liveValue s' = Some (withPhase ph v).
Proof.
  intros Hs. destruct (typedStore_reads s Hs) as (v & Hv & Hnd).
  destruct (typedStore_wf s Hs) as (Hd & _).
  destruct (readStateValue_inv _ _ _ Hv) as (st & Hst & Hid & Hph & Hts).
  exists v. unfold setPhase. rewrite Hst. cbv zeta.
  set (st' := {| state_id := _ |}).
  set (s1 := setMem (write (currentState s) (OState st') (mem s)) s).
  assert (Hv1 : liveValue s1 = Some (withPhase ph v)).
  { unfold liveValue, s1. cbn [setMem mem currentState write cells].
    rewrite (readStateValue_write_state _ _ st st' Hst v eq_refl eq_refl Hv).
    unfold withPhase. subst st'. cbn [state_id phase timestamp].
    rewrite Hid, Hts. reflexivity. }
  assert (Hd1 : domBelow (mem s1)).
  { apply (changes_write anyLoc (currentState s) (OState st) (OState st') (mem s));
      try assumption; try exact I.
    - apply getState_lookup, Hst.
    - reflexivity.
    - apply Forall_forall. intros; exact I. }
  destruct (createSnapshot_returns
              ("phase_transition_" +:+ phase_name (phase st) +:+ "_to_" +:+ phase_name ph)
              now s1 (withPhase ph v) Hd1 Hv1 Hnd)
    as (s2 & snapshot & Hrun & Hlast & _ & _ & Hread & Hlive).
  rewrite Hrun. exists (emit (StatePhaseChanged (phase st) ph) s2), snapshot.
  split; [exact Hv|]. split; [reflexivity|]. split; [exact Hlast|].
  split; [exact Hread|exact Hlive].
Qed.

(** X30: [POST api/system/phase/transition] on a store in order.  When
    the endpoint answers, the orchestrator and the store have both moved:
    the orchestrator is in the target phase, the live state of the store
    shows the target phase and so does the newest snapshot.  Every
    failure is answered with status 500, never 400, and leaves the store
    as it was; when the orchestrator refused the transition, the
    orchestrator is unchanged as well and the message is that of the
    refusal.  While the orchestrator waits, the store is untouched. *)
Theorem transition_endpoint_moves_both (check : string -> bool)
    (toPhase : DevelopmentPhase) (now : Z) (o : Orchestrator.Orchestrator)
    (s : Store) :
  typedStore s ->
  match SystemController.transitionPhase check toPhase now o s with
  | (SystemController.Answer ph, o', s') =>
      ph = toPhase /\
      Orchestrator.currentPhase o' = toPhase /\
      seenPhase s' (currentState s') = Some toPhase /\
      exists snapshot, last (stateHistory s') = Some snapshot /\
                       snapshotPhase s' snapshot = Some toPhase
  | (SystemController.HttpError status message, o', s') =>
      status = 500 /\ s' = s /\
      (fst (Orchestrator.transitionPhase check toPhase o) = Orchestrator.Returned false ->
       o' = o /\ message = "Phase transition failed - exit criteria not met")
  | (SystemController.Pending, o', s') => s' = s
  end.
Proof.
  intros Hs. unfold SystemController.transitionPhase.
  destruct (Orchestrator.transitionPhase check toPhase o) as [[[]| |] o'] eqn:E.
  - destruct (setPhase_typed_spec toPhase now s Hs)
      as (v & s' & snapshot & _ & -> & Hlast & Hread & Hlive).
    split; [reflexivity|]. split; [exact (transitionPhase_true_phase _ _ _ _ E)|].
    split.
    + unfold seenPhase. unfold liveValue in Hlive. rewrite Hlive. reflexivity.
    + exists snapshot. split; [exact Hlast|]. unfold snapshotPhase.
      rewrite Hread. reflexivity.
  - split; [reflexivity|]. split; [reflexivity|]. intros _.
    split; [exact (transitionPhase_false_same _ _ _ _ E)|reflexivity].
  - split; [reflexivity|]. split; [reflexivity|]. cbn [fst]. discriminate.
  - reflexivity.
Qed.

Lemma transition_endpoint_moves_both_witness :
  (exists o' s',
     SystemController.transitionPhase Orchestrator.shippedCheck deploy 5
       Orchestrator.staffedOrchestrator initialStore
       = (SystemController.Answer deploy, o', s') /\
     Orchestrator.currentPhase o' = deploy /\
     seenPhase s' (currentState s') = Some deploy) /\
  SystemController.transitionPhase Orchestrator.strictCheck scaffold 5
    Orchestrator.staffedOrchestrator initialStore
    = (SystemController.HttpError 500
         "Phase transition failed - exit criteria not met",
       Orchestrator.staffedOrchestrator, initialStore) /\
  fst (fst (SystemController.transitionPhase Orchestrator.shippedCheck scaffold 5
              Orchestrator.newOrchestrator initialStore))
    = SystemController.HttpError 500
        "Agent implementation not found for persona: tech_lead".
Proof.
  split; [|split; [vm_compute; reflexivity|vm_compute; reflexivity]].
  pose proof (transition_endpoint_moves_both Orchestrator.shippedCheck deploy 5
                Orchestrator.staffedOrchestrator initialStore
                (newStore_typed emptyRedis 0)) as H.
  destruct (SystemController.transitionPhase Orchestrator.shippedCheck deploy 5
              Orchestrator.staffedOrchestrator initialStore)
    as [[[ph|st msg|] o'] s'] eqn:E.
  - destruct H as (-> & H1 & H2 & _). exists o', s'. repeat split; assumption.
  - exfalso. clear H. vm_compute in E. discriminate.
  - exfalso. clear H. vm_compute in E. discriminate.
Defined.

End SystemControllerMore.
